(* ===== verification/_CoqProject ===== *)
-Q . S2P
Prelude.v
F64.v
FloatParse.v
Platform.v
Handler.v
CircuitBreaker.v
CircuitBreakerFacts.v
Market.v
Sizing.v
Position.v
PositionFacts.v
PositionRepo.v
PositionRepoFacts.v
PositionService.v
PositionServiceFacts.v
Rollouts.v
TokenCache.v
Executor.v
ExecutorFacts.v
Signal.v
StrategyRisk.v
StrategyRiskFacts.v
Trading.v
ArbExecutor.v
ArbExecutorFacts.v
ArbEntryFacts.v
ExitHandler.v
ExitHandlerFacts.v
TradingFacts.v
QuantExecutor.v
QuantExecutorFacts.v
SignalFeeds.v
SignalGenerators.v
SignalGeneratorsFacts.v
System.v
DynamicConfig.v
DynamicConfigFacts.v
DynamicTuner.v
DynamicTunerFacts.v
ManualTuning.v
TuningFacts.v
Simulator.v
SimulatorFacts.v
Strategies.v
StrategiesFacts.v
PriceStrategies.v
PriceStrategiesFacts.v
AdvancedStops.v
AdvancedStopsFacts.v
StopLoss.v
StopLossFacts.v
PositionTracker.v
PositionTrackerFacts.v
BookStream.v
BookStreamFacts.v
MarketSelection.v
MarketSelectionFacts.v
Monitor.v
MonitorFacts.v
MonitorRuns.v
MonitorStream.v
Signing.v
SigningFacts.v
ClobClient.v
OrderAmountsFacts.v
ClobClientFacts.v
PositionManager.v
PositionManagerFacts.v
Rbac.v
RbacFacts.v
