(* ===== verification/Prelude.v ===== *)
(** * AB-Bot: a verification library for the trading platform's core crates

    The repository is a trading platform for binary prediction markets: Rust
    services around a set of library crates.  This library translates the parts
    that decide about money, stopping and access (circuit breaker, orders,
    positions and their storage, the tasks that open and close them, stops,
    limits, tuning, the order-book stream and the monitor of the markets,
    backtests, roles) into Rocq functions and proves what makes them correct,
    and, where the code does not do what it means to, the behaviour it
    has.

    ** The program's parts and the files that model them

    Paths are below src/crates/.

    - [Prelude], [F64], [FloatParse], [Platform], [Handler]: Rust's integers,
      [Result], strings and [f64] (binary64 by [SpecFloat]); the crates the code calls but
      that are not in the repository, as classes: [rust_decimal] ([DecimalOps],
      [DecimalSpec], [DecimalExact]), [chrono] ([ChronoOps], [ChronoSpec]),
      [uuid] ([UuidOps]), [dashmap] ([DashOps], [DashSpec]) and the timers of
      [tokio] ([SelectSpec], [IntervalSpec]); and the monad of
      the long asynchronous methods with its weakest precondition.  Module
      [Platform.Concrete] has an instance of each class, on which every witness
      is evaluated.
    - [CircuitBreaker], [CircuitBreakerFacts]: risk-manager/circuit_breaker.rs
      and circuit_breaker_repo.rs.  The breaker's state, its atomic flag and its
      row; every method; [cb_run] composes calls.
    - [Market], [Sizing]: polymarket-core/types/market.rs and sizing.rs.  Order
      books, arbitrage opportunities under both fee models, Kelly and linear
      sizes.
    - [Position], [PositionFacts]: polymarket-core/types/position.rs.  The
      position, its eight states, fills, closes, recoveries; [pos_run] composes
      calls.
    - [PositionRepo], [PositionRepoFacts]: polymarket-core/db/positions.rs.
      The positions table as a finite map of rows, INSERT, UPDATE, the
      conversion of a row and every query.  serde_json is the class [JsonOps].
    - [PositionService], [PositionServiceFacts]: api-server/position_service.rs
      and trade_events.rs.  Each method validates, changes the position, updates
      the table and records an event.
    - [Rollouts]: api-server/learning_rollouts.rs.  How learned models may skip
      or shrink a live trade, and the guardrails of a rollout.
    - [TokenCache]: the outcome token cache of api-server/arb_executor.rs.
    - [Executor], [ExecutorFacts]: polymarket-core/types/order.rs and
      trading-engine/executor.rs.  Orders, reports, the checks at the best
      level, live and paper execution, timeout and retries.
    - [Trading], [ArbExecutor], [ArbExecutorFacts], [ArbEntryFacts]:
      api-server/arb_executor.rs.  [Trading.Shared] is what the tasks share
      (service, order executor, breaker, token cache, the set of markets with a
      position, the channel of signals); [ArbExecutor] is the startup, the
      handling of a signal from its checks to the open position, the loop.
    - [ExitHandler], [ExitHandlerFacts]: api-server/exit_handler.rs.  The
      evaluation of open positions, their exits, retries and resolutions, both
      tickers; [ExitHandler.task_loop] interleaves both tasks.
    - [TradingFacts]: what holds of both tasks together.
    - [Signal]: polymarket-core/types/signal.rs.
    - [StrategyRisk], [StrategyRiskFacts]: the breaker of each strategy in
      api-server/quant_signal_executor.rs, and its row.
    - [QuantExecutor], [QuantExecutorFacts]: the rest of that file.  The
      handling of a quantitative signal from its checks to the open position,
      the outcomes of the day, the start, the loop.
    - [SignalFeeds], [SignalGenerators], [SignalGeneratorsFacts]:
      api-server/signals.  The queries of the four generators from the tables to
      the typed columns of their rows (Postgres and sqlx are the classes
      [PgOps] and [SqlxOps]), the scans with their scores and calibration, and
      the flow generator beside the executor ([SignalGenerators.flow_step]).
    - [System]: the arbitrage executor, the exit handler and the quantitative
      executor over one [Trading.Shared] ([System.system_loop]), as
      api-server/lib.rs spawns them.
    - [DynamicConfig], [DynamicConfigFacts]: the table of dynamic settings
      (migrations/029_dynamic_tuning.sql), its messages and bounds, and the
      subscriber of api-server/dynamic_tuner.rs that applies them to both
      executors.
    - [DynamicTuner], [DynamicTunerFacts], [ManualTuning], [TuningFacts]: the
      tuner of the same file from its seeds to its cycles, and the two endpoints
      of api-server/handlers/workspaces.rs that change the same table;
      [ManualTuning.tuning_loop] interleaves them.
    - [Simulator], [SimulatorFacts], [Strategies], [StrategiesFacts]:
      backtester/simulator.rs, strategy.rs and data_store.rs.  The cost models,
      the books of a simulated portfolio, the run of a strategy (class
      [Simulator.Strategy]), the metrics; the arbitrage and the grid strategy.
    - [PriceStrategies], [PriceStrategiesFacts]: the other two strategies of
      backtester/strategy.rs, momentum and mean reversion.  What they keep of a
      market is an entry of a map of their own, so a call is one step per market
      ([PriceStrategies.each_market]).
    - [AdvancedStops], [AdvancedStopsFacts]: risk-manager/advanced_stops.rs.
    - [StopLoss], [StopLossFacts]: risk-manager/stop_loss.rs and
      stop_loss_repo.rs.  The rules, both concurrent maps with the locks of
      their shards (class [DashOps]), the check and the exits, which go through
      [Executor].
    - [PositionTracker], [PositionTrackerFacts]:
      arb-monitor/position_tracker.rs.  The cache over the positions table.
    - [BookStream], [BookStreamFacts]: the websocket client of
      polymarket-core/api/clob.rs.  Messages, the books of a connection, its
      loop with its timers ([BookStream.ws_timed]), reconnections.  serde_json
      is the class [WsDecoder], chrono's parsers [TimestampOps].
    - [MarketSelection], [MarketSelectionFacts]: the scores of arb-monitor's
      monitor.rs and the markets they select.
    - [Monitor], [MonitorFacts], [MonitorRuns]: the rest of that file and
      signals.rs.  The process from its start over the events of its loop
      ([Monitor.monitor_run]): updates of books and their entry signals, updates
      of the configuration, the minute's statistics, resubscriptions; and the
      timers of its [select!] as a relation ([Monitor.timed]).
    - [MonitorStream]: the monitor over the stream's updates, and concrete
      messages.
    - [Signing], [SigningFacts]: polymarket-core/signing/order_types.rs,
      domain.rs and signer.rs.  Orders in base units, their builder, what is
      hashed and signed; [ClobClient], [ClobClientFacts], [OrderAmountsFacts]:
      the client of the exchange in polymarket-core/api/clob.rs, public and
      authenticated, with its retries, pages and caches.  A method is a [handler]
      over the client and the log of its requests, which the exchange
      ([ClobClient.Exchange]) answers.
    - [PositionManager], [PositionManagerFacts]:
      trading-engine/position_manager.rs.  The limits of open positions, and
      additions that run concurrently as a step relation ([pm_step]).
    - [Rbac], [RbacFacts]: auth/rbac.rs.  Permissions, roles and the search of
      the inheritance graph.

    The parts interact as in the code: the three tasks call the service, the
    order executor, the breaker and the cache through [Trading.Shared]; the
    service and the tracker call [Position] and [PositionRepo]; the tuner writes
    the settings that the subscriber and the monitor read, and reads the
    statistics the monitor publishes ([Monitor.stats_for_tuner]); the stop-loss
    manager calls [Executor]; the flow generator reads the table of signals and
    the positions of the quantitative executor, which takes its signals and
    reads their edge; [Executor] reads the books of [Market], and its [Replies]
    stand for what the methods of [ClobClient] return; the simulator calls its
    strategy through the class, and what its theorems need of a strategy is the
    class [SimulatorFacts.Disciplined].

    ** Conventions

    A call that may panic returns an [option] ([None] is the panic); a call
    that may wait forever returns a [StopLoss.Run].  Stateful methods take and
    return the state; those that return early or propagate errors are
    [handler]s.  The clock is an argument of each call that reads it, a query's
    success is the argument [io] (or [read]), the exchange's answers are
    [Executor.Replies]; the tasks take an environment ([ArbEnv], [QuantEnv],
    [ExitEnv], [TickEnv], [TuneEnv], [ManualEnv], [UpdateEnv]) that answers each of these by the step that asks.  Release builds
    wrap integers, so [u32] and [u64] arithmetic is written with its modulus.  A
    [Decimal] is abstract: theorems that survive rounding use only
    [DecimalSpec], those that need exact sums say so with [DecimalExact].

    ** What the theorems show

    - The circuit breaker ([CircuitBreakerFacts]): no call panics and the
      invariant holds over all runs; a hard kill holds; limits are enforced,
      recovery is stricter and completes; the row round-trips; and three ways a
      halt is lost (a trip in recovery, a manual trip over a hard kill, a
      restart on a new day).
    - Markets and sizing: what makes an opportunity profitable, bounds of the
      share fees and of both sizes.
    - Positions: closed is final, retries are bounded, shares are conserved,
      what each close books, and the two resolution fallbacks.
    - The table: stored positions reload, queries agree with the predicates.
    - The service: a refinement of each method to one contract, closing empties
      the position; and three ways in which the stored position is not the one
      in memory.
    - The order executor: retries terminate within their bounds, fills respect
      the checks; and how reports and the exchange can disagree.
    - The two tasks: a processed signal always returns and ends in one of the
      listed ways; so does every exit; a filled exit completes; over every
      interleaving no two arbitrage positions share a market, and closed or
      closing positions are left alone; a one-legged entry never gets out; a
      sale never reports an error; the quantitative thresholds are in percent.
      The token cache is exactly what was fetched, and a rollout only restricts.
    - The quantitative executor: a signal always returns, and is traded exactly
      when it meets every condition; a strategy is halted exactly when its day
      says so, and a halt is released exactly by a new day or the cooldown; a
      start forgets the stored state of a strategy that traded today.
    - The signal generators: three of the four never send a signal, because they
      read NUMERIC prices as [f64]; flow signals would never start anyway,
      because their calibration waits for trades that only they open; what a
      flow scan selects and its signals carry, and how a cross-market signal
      follows the market that led.
    - The three tasks: over every interleaving nothing panics, and the
      quantitative positions stay within their slots, one per market.
    - The tuner: no tick panics; over every interleaving of ticks and manual
      changes the table keeps its constraints and its settled rows; what was last
      announced of each key is its value in the table; the regime switches with
      the hysteresis configured; the subscriber keeps every setting within its
      bounds.
    - The stream: each price has the size the exchange wrote last, best level
      first if the exchange sends books so, and the monitor that takes all updates
      has the same books; a silent connection ends, one whose pings are answered
      does not, and the pauses between connections never shrink again.
    - The monitor: when exactly an update of a book signals an entry, and how far
      apart the signals of a market are; the stream is subscribed to the selected
      markets; the counters add up; the selection is as large as it may be and its
      core the best; and what the code does not do: stalls are never reported, the
      hold of a market never lapses, the best challenger may be skipped.
    - The client of the exchange: a market order is at the price asked, on its
      grid, except for prices that are cut to zero; a signature binds the order
      and the exchange; an order carries what was asked and what the exchange
      answered about the token; the caches hold answers; a request ends after
      three attempts with the last answer; no method panics, unless a text that
      does not parse is cut inside of a character.
    - Backtests: a run of the arbitrage, the momentum or the mean reversion
      strategy never panics on a division, ends flat and its return reconciles
      with its trades; a buy replaces the position it should add to; the trailing
      stop follows the highest price, unless the trend is weak; the hold limit
      bounds what the mean reversion strategy bought, whose regimes never see a
      trend.
    - Stops: the trigger conditions, when a check of the stop-loss manager
      finishes and what it finds, a refused exit drops its rule, maps and table
      stay consistent; the step stop ratchets, the decaying and the volatility
      levels stay within their bounds.
    - The tracker: exit signals are exact and honest, the cache mirrors the
      table; and a restart that opens a position never bought.
    - The position manager: the limits hold sequentially, and two interleaved
      additions exceed them.
    - Access control: a permission check always answers, and exactly by the
      roles reached.

    ** Bounds and fuel

    [Executor.retry_loop] is given max_retries + 2 steps;
    [ExecutorFacts.retries_terminate] proves that this is enough for every
    32-bit configuration below the maximum.  [Rbac.collect_recursive] is given
    the number of roles and two more, its depth being at most the roles not yet
    seen; [RbacFacts.permission_check] includes that this is enough.
    [TokenCache.chunks_of] is given the length of the list it cuts.
    [ClobClient.get_markets] is given a number of pages; two more than the limit
    of markets are enough, unless pages are empty
    ([ClobClientFacts.market_pages_end]).  All other
    recursion is structural.

    ** What is not modelled

    HTTP handlers, routes and websockets, SQL beyond the statements above, the
    Gamma API, chain and key clients, logging and metrics export:
    they are I/O around the modelled parts.  A database statement is atomic and
    either applies or fails.  Operations of one object do not interleave, except
    where the library says so ([StopLoss]'s locks, [PositionManager.pm_step]);
    the three trading tasks interleave by whole turns (one signal, one tick), and
    a refresh of the token cache is one turn; the insert of a quantitative signal
    is a step of its own, which may come before or after the rest of its turn.  The notification channel of the
    stop-loss manager is unbounded.  Telemetry, metadata, shadow predictions and
    texts of log lines are left out, and so is the recovery of orphaned wallet
    inventory.

    ** Plan

    The trading core is modelled.  What is left of logic outside of it is the
    scoring of wallets (wallet-tracker, bot-scanner) and the recommendations. *)

From stdpp Require Export base option list strings gmap fin_maps.
From Stdlib Require Export ZArith Lia Ascii.
From Stdlib Require Import QArith Lqa Permutation Sorted.

(** Generalised binders name the class instances of the sections. *)
Global Generalizable All Variables.

Create HintDb machine.
Create Rewrite HintDb machine.
Create Rewrite HintDb lists.

(** ** Rust's [Result] and the outcome of a call that may panic *)

(** [std::result::Result]. *)
Inductive result (A E : Type) : Type :=
| Ok (a : A)
| Err (e : E).
Arguments Ok {A E} _.
Arguments Err {A E} _.

Definition is_ok {A E} (r : result A E) : bool :=
  match r with Ok _ => true | Err _ => false end.

(** A call that may panic returns an [option]: [None] is the panic (a division
    of a [Decimal] by zero is the one the code can reach), and [x ← e; k] is
    the sequencing of such calls. *)

(** ** Fixed-width integers

    The workspace has no [overflow-checks] override, so the release profile's
    arithmetic wraps.  A [u32] is a [Z] in [0, 2^32). *)

Definition u32_max : Z := 2 ^ 32 - 1.
Definition u64_max : Z := 2 ^ 64 - 1.
Definition is_u32 (x : Z) : Prop := (0 <= x < 2 ^ 32)%Z.
Definition u32_add (a b : Z) : Z := ((a + b) mod 2 ^ 32)%Z.
Definition u64_add (a b : Z) : Z := ((a + b) mod 2 ^ 64)%Z.
Definition u64_mul (a b : Z) : Z := ((a * b) mod 2 ^ 64)%Z.
Definition u64_sub (a b : Z) : Z := ((a - b) mod 2 ^ 64)%Z.
(** [a.saturating_add(b)] of [u64]s. *)
Definition u64_sat_add (a b : Z) : Z := Z.min (a + b) u64_max.
(** [x as i32] of a [u32], and [x as u32] of an [i32]. *)
Definition u32_as_i32 (x : Z) : Z := if (x <? 2 ^ 31)%Z then x else (x - 2 ^ 32)%Z.
Definition i32_as_u32 (x : Z) : Z := (x mod 2 ^ 32)%Z.
(** [x as u64] of an [i64]. *)
Definition i64_as_u64 (x : Z) : Z := (x mod 2 ^ 64)%Z.

Lemma u32_add_range a b : is_u32 (u32_add a b).
Proof. unfold is_u32, u32_add. apply Z.mod_pos_bound. lia. Qed.

Lemma u32_add_small a b :
  (0 <= a)%Z -> (0 <= b)%Z -> (a + b < 2 ^ 32)%Z -> u32_add a b = (a + b)%Z.
Proof. intros. unfold u32_add. apply Z.mod_small. lia. Qed.

Lemma i32_u32_roundtrip x : is_u32 x -> i32_as_u32 (u32_as_i32 x) = x.
Proof.
  unfold is_u32, u32_as_i32, i32_as_u32. intros Hx.
  destruct (Z.ltb_spec x (2 ^ 31)).
  - apply Z.mod_small. lia.
  - replace (x - 2 ^ 32)%Z with (x + (-1) * 2 ^ 32)%Z by lia.
    rewrite Z.mod_add by lia. apply Z.mod_small. lia.
Qed.

#[export] Hint Resolve u32_add_range : machine.
#[export] Hint Rewrite u32_add_small using lia : machine.

(** ** Tactics *)

(** An equation both sides of which compute to the same value. *)
Ltac computes := match goal with |- ?x = _ => vm_cast_no_check (eq_refl x) end.
(** Case analysis on every [match] and [if] of the goal and the hypotheses,
    simplifying the equations it makes. *)
Ltac split_cases :=
  repeat (case_match; simplify_eq/=; try done).

(** Boolean tests as propositions. *)
Ltac reflect_bools :=
  repeat match goal with
  | H : _ && _ = true |- _ => apply andb_prop in H; destruct H
  | H : _ || _ = false |- _ => apply orb_false_elim in H; destruct H
  | H : negb _ = true |- _ => apply negb_true_iff in H
  | H : negb _ = false |- _ => apply negb_false_iff in H
  | H : bool_decide _ = true |- _ => apply bool_decide_eq_true in H
  | H : bool_decide _ = false |- _ => apply bool_decide_eq_false in H
  | H : (_ <? _)%Z = true |- _ => apply Z.ltb_lt in H
  | H : (_ <? _)%Z = false |- _ => apply Z.ltb_ge in H
  | H : (_ <=? _)%Z = true |- _ => apply Z.leb_le in H
  | H : (_ <=? _)%Z = false |- _ => apply Z.leb_gt in H
  end.

(** Invert the binds of a computation that returned. *)
Ltac inv_bind :=
  repeat match goal with
  | H : mbind _ ?o = Some _ |- _ =>
      let E := fresh "E" in
      destruct o eqn:E; cbn [mbind option_bind] in H; [|discriminate H]
  | H : Some _ = Some _ |- _ => injection H as H
  | H : (_, _) = (_, _) |- _ => injection H as ? ?
  end; subst.

(** A closed computation [o] returns, by evaluation. *)
Ltac returns o :=
  let X := fresh "X" in
  assert (X : match o with Some _ => true | None => false end = true)
    by (vm_compute; reflexivity).

(** ** Lists *)

(** The number of elements of [l] that satisfy [p] ([iter().filter(p).count()]). *)
Definition count_if {A} (p : A -> bool) (l : list A) : nat :=
  length (List.filter p l).

Lemma count_if_le {A} (p : A -> bool) l : (count_if p l <= length l)%nat.
Proof. apply filter_length_le. Qed.

Lemma count_if_cons {A} (p : A -> bool) x l :
  count_if p (x :: l) = ((if p x then 1 else 0) + count_if p l)%nat.
Proof. unfold count_if. simpl. by destruct (p x). Qed.

Lemma count_if_app {A} (p : A -> bool) l k :
  count_if p (l ++ k) = (count_if p l + count_if p k)%nat.
Proof. unfold count_if. by rewrite List.filter_app, List.length_app. Qed.

Lemma count_if_perm {A} (p : A -> bool) l k :
  Permutation l k -> count_if p l = count_if p k.
Proof.
  induction 1; rewrite ?count_if_cons; try lia.
Qed.

Lemma count_if_all {A} (p : A -> bool) l :
  count_if p l = length l <-> Forall (fun x => p x = true) l.
Proof.
  induction l as [|x l IH]; [by split|].
  rewrite count_if_cons, Forall_cons, <- IH; simpl.
  pose proof (count_if_le p l). destruct (p x); split; intros; [|..]; intuition lia.
Qed.

Lemma count_if_some {A} (p : A -> bool) l :
  (0 < count_if p l)%nat <-> Exists (fun x => p x = true) l.
Proof.
  induction l as [|x l IH].
  - split; [cbn; lia|inversion 1].
  - rewrite count_if_cons, Exists_cons, <- IH.
    destruct (p x); split; intros; intuition (lia || done).
Qed.

#[export] Hint Rewrite @count_if_cons @count_if_app : lists.

(** How many elements at the start, and at the end, satisfy [P]. *)
Fixpoint leading {A} (P : A -> bool) (l : list A) : nat :=
  match l with
  | [] => O
  | x :: l => if P x then S (leading P l) else O
  end.
Definition trailing {A} (P : A -> bool) (l : list A) : nat := leading P (rev l).

Lemma leading_length {A} (P : A -> bool) l : (leading P l <= length l)%nat.
Proof. induction l as [|x l IH]; simpl; [done|]. destruct (P x); lia. Qed.
Lemma trailing_length {A} (P : A -> bool) l : (trailing P l <= length l)%nat.
Proof. unfold trailing. rewrite <- (length_rev l). apply leading_length. Qed.
Lemma trailing_snoc {A} (P : A -> bool) l x :
  trailing P (l ++ [x]) = if P x then S (trailing P l) else O.
Proof. unfold trailing. by rewrite rev_app_distr. Qed.

(** A sorted list is strongly sorted where the order is transitive. *)
Lemma strongly_sorted_on {A} (P : A -> Prop) (R : A -> A -> Prop) l :
  (forall a b c, P a -> P b -> P c -> R a b -> R b c -> R a c) ->
  Forall P l -> Sorted R l -> StronglySorted R l.
Proof.
  intros Ht. induction 2 as [|a l Hs IH Hd]; [constructor|]. apply Forall_cons in H as [Ha Hl].
  specialize (IH Hl). constructor; [done|]. destruct IH as [|b l Hs' Hb]; [constructor|].
  apply Forall_cons in Hl as [Hb' Hl]. inversion Hd as [|x y Hab]; subst.
  constructor; [done|]. rewrite !Forall_forall in *. intros c Hc.
  apply (Ht _ b); auto.
Qed.
(** Replace the first element that satisfies [p] ([iter_mut().find(p)] and an
    assignment through the reference). *)
Fixpoint update_first {A} (p : A -> bool) (f : A -> A) (l : list A) : list A :=
  match l with
  | [] => []
  | x :: k => if p x then f x :: k else x :: update_first p f k
  end.

Lemma update_first_length {A} (p : A -> bool) f l :
  length (update_first p f l) = length l.
Proof. induction l; simpl; [done|]. case_match; simpl; lia. Qed.

(** A filter keeps keys distinct. *)
Lemma filtered_nodup {A B} (f : A -> B) (w : A -> bool) l :
  NoDup (f <$> l) -> NoDup (f <$> List.filter w l).
Proof.
  induction l as [|x l IH]; intros Hnd; simpl in *; [constructor|].
  apply NoDup_cons in Hnd as [Hn Hnd]. destruct (w x); [|by apply IH].
  rewrite fmap_cons. apply NoDup_cons. split; [|by apply IH].
  rewrite list_elem_of_fmap in *. intros (y & E & Hin). apply Hn. exists y. split; [done|].
  rewrite list_elem_of_In in *. by apply List.filter_In in Hin as [? _].
Qed.

Lemma nodup_key {A B} (f : A -> B) l x y :
  NoDup (f <$> l) -> x ∈ l -> y ∈ l -> f x = f y -> x = y.
Proof.
  induction l as [|z l IH]; intros Hnd Hx Hy E; [by apply elem_of_nil in Hx|].
  rewrite fmap_cons, NoDup_cons in Hnd. destruct Hnd as [Hn Hnd].
  apply elem_of_cons in Hx as [->|Hx], Hy as [->|Hy]; [done| | |by apply IH].
  - destruct Hn. rewrite E. by apply list_elem_of_fmap_2.
  - destruct Hn. rewrite <- E. by apply list_elem_of_fmap_2.
Qed.

Lemma elem_of_update_first {A} (p : A -> bool) y l x :
  x ∈ update_first p (fun _ => y) l -> x = y \/ x ∈ l.
Proof.
  induction l as [|z l IH]; simpl; [by right|]. destruct (p z); rewrite !elem_of_cons; intuition.
Qed.

Lemma fmap_update_first {A B} (f : A -> B) (p : A -> bool) y l :
  (forall x, p x = true -> f x = f y) -> f <$> update_first p (fun _ => y) l = f <$> l.
Proof.
  intros H. induction l as [|z l IH]; simpl; [done|]. destruct (p z) eqn:E.
  - rewrite !fmap_cons. by rewrite (H z).
  - by rewrite !fmap_cons, IH.
Qed.

(** ** Strings *)

(** [s.to_lowercase()]; only the ASCII letters matter to the caller. *)
Definition ascii_lower (c : ascii) : ascii :=
  let n := nat_of_ascii c in
  if (65 <=? n)%nat && (n <=? 90)%nat then ascii_of_nat (n + 32) else c.
Fixpoint string_lower (s : string) : string :=
  match s with
  | EmptyString => EmptyString
  | String c s => String (ascii_lower c) (string_lower s)
  end.
(** [s.contains(pat)]. *)
Definition string_contains (pat s : string) : bool :=
  match String.index 0 pat s with Some _ => true | None => false end.

(** [s.trim()], of ASCII whitespace, and [s.split(c)]. *)
Definition is_space (c : ascii) : bool :=
  let n := nat_of_ascii c in ((9 <=? n)%nat && (n <=? 13)%nat) || (n =? 32)%nat.
Fixpoint trim_start (s : string) : string :=
  match s with
  | String c s' => if is_space c then trim_start s' else s
  | EmptyString => EmptyString
  end.
Fixpoint trim_end (s : string) : string :=
  match s with
  | String c s' =>
      match trim_end s' with
      | EmptyString => if is_space c then EmptyString else String c EmptyString
      | t => String c t
      end
  | EmptyString => EmptyString
  end.
Definition string_trim (s : string) : string := trim_end (trim_start s).
Fixpoint string_split (sep : ascii) (s : string) : list string :=
  match s with
  | EmptyString => [EmptyString]
  | String c s' =>
      if (c =? sep)%char then EmptyString :: string_split sep s'
      else match string_split sep s' with
           | w :: ws => String c w :: ws
           | [] => [String c EmptyString]
           end
  end.

(** [s.parse::<i64>().ok()] and the like, for a type whose values are those of
    [lo, hi]: an optional sign ([-] only if the type is signed) and digits. *)
Definition digit_value (c : ascii) : option Z :=
  let n := Z.of_nat (nat_of_ascii c) in
  if (48 <=? n)%Z && (n <=? 57)%Z then Some (n - 48)%Z else None.
Fixpoint parse_digits (acc : Z) (s : string) : option Z :=
  match s with
  | EmptyString => Some acc
  | String c s => d ← digit_value c; parse_digits (10 * acc + d)%Z s
  end.
Definition parse_unsigned (s : string) : option Z :=
  match s with EmptyString => None | _ => parse_digits 0 s end.
Definition parse_int (lo hi : Z) (s : string) : option Z :=
  v ← (match s with
       | String c s' =>
           if (c =? "+")%char then parse_unsigned s'
           else if (c =? "-")%char && (lo <? 0)%Z then Z.opp <$> parse_unsigned s'
           else parse_unsigned s
       | EmptyString => None
       end);
  if (lo <=? v)%Z && (v <=? hi)%Z then Some v else None.
Definition parse_i64 : string -> option Z := parse_int (- 2 ^ 63) (2 ^ 63 - 1).
Definition parse_u64 : string -> option Z := parse_int 0 u64_max.
Definition parse_u32 : string -> option Z := parse_int 0 u32_max.
