(* ===== verification/F64.v ===== *)
(** * The [f64] operations of the code

    IEEE 754 binary64 as Rocq's [SpecFloat] specifies it, with the operations
    of Rust's [f64] the modelled code uses: arithmetic rounded to nearest even,
    [max], [min], [clamp], [abs], [signum], [round], the comparisons, integer conversions and the
    saturating cast to [u32]; the square root and averages of statistics. *)

From Stdlib Require Import ZArith Lia.
From Stdlib Require Import SpecFloat.

Definition f64 : Type := spec_float.
Definition f64_prec : Z := 53.
Definition f64_emax : Z := 1024.

Definition f64_add : f64 -> f64 -> f64 := SFadd f64_prec f64_emax.
Definition f64_sub : f64 -> f64 -> f64 := SFsub f64_prec f64_emax.
Definition f64_mul : f64 -> f64 -> f64 := SFmul f64_prec f64_emax.
Definition f64_div : f64 -> f64 -> f64 := SFdiv f64_prec f64_emax.
Definition f64_opp : f64 -> f64 := SFopp.
Definition f64_sqrt : f64 -> f64 := SFsqrt f64_prec f64_emax.
Definition f64_ltb : f64 -> f64 -> bool := SFltb.
Definition f64_leb : f64 -> f64 -> bool := SFleb.
Definition f64_eqb : f64 -> f64 -> bool := SFeqb.

(** [n as f64] for an integer [n]: rounded to nearest even. *)
Definition f64_of_Z (n : Z) : f64 :=
  binary_normalize f64_prec f64_emax n 0 false.

Definition f64_zero : f64 := S754_zero false.
Definition f64_one : f64 := f64_of_Z 1.
Definition f64_infinity : f64 := S754_infinity false.

Definition f64_is_nan (x : f64) : bool :=
  match x with S754_nan => true | _ => false end.

(** [f64::max] and [f64::min] return the other operand when one is NaN. *)
Definition f64_max (a b : f64) : f64 :=
  if f64_is_nan a then b
  else if f64_is_nan b then a
  else if f64_ltb a b then b else a.

Definition f64_min (a b : f64) : f64 :=
  if f64_is_nan a then b
  else if f64_is_nan b then a
  else if f64_ltb b a then b else a.

(** [f64::clamp]: a NaN stays NaN. *)
Definition f64_clamp (x lo hi : f64) : f64 :=
  let x := if f64_ltb x lo then lo else x in
  if f64_ltb hi x then hi else x.

(** [f64::abs], and [f64::signum]: one with the sign of the number. *)
Definition f64_abs : f64 -> f64 := SFabs.
Definition f64_signum (x : f64) : f64 :=
  match x with
  | S754_nan => S754_nan
  | S754_zero s | S754_infinity s | S754_finite s _ _ => if s then f64_opp f64_one else f64_one
  end.

(** [f64::round]: to the nearest integer, ties away from zero. *)
Definition f64_round (x : f64) : f64 :=
  match x with
  | S754_finite s m e =>
      if (0 <=? e)%Z then x
      else let a := ((2 * Z.pos m + 2 ^ (- e)) / (2 * 2 ^ (- e)))%Z in
           binary_normalize f64_prec f64_emax (if s then - a else a)%Z 0 s
  | _ => x
  end.

(** The integer part of a float, towards zero. *)
Definition f64_trunc (x : f64) : Z :=
  match x with
  | S754_finite s m e =>
      let a := (if (0 <=? e)%Z then Z.pos m * 2 ^ e else Z.pos m / 2 ^ (- e))%Z in
      if s then (- a)%Z else a
  | _ => 0%Z
  end.

(** [x.ceil() as usize] of an [x] that is not negative and not huge. *)
Definition f64_ceil (x : f64) : Z :=
  match x with
  | S754_finite s m e =>
      if s then 0%Z
      else (if (0 <=? e)%Z then Z.pos m * 2 ^ e
            else - (- Z.pos m / 2 ^ (- e)))%Z
  | _ => 0%Z
  end.

(** [x.ceil() as usize]: saturating, NaN to zero. *)
Definition f64_ceil_usize (x : f64) : Z :=
  match x with
  | S754_infinity s => if s then 0%Z else (2 ^ 64 - 1)%Z
  | _ => Z.min (f64_ceil x) (2 ^ 64 - 1)
  end.
(** [f64::is_finite]. *)
Definition f64_is_finite (x : f64) : bool :=
  match x with S754_nan | S754_infinity _ => false | _ => true end.

(** The quotient a decimal literal denotes. *)
Definition f64_lit (n d : Z) : f64 := f64_div (f64_of_Z n) (f64_of_Z d).

(** [iter().sum::<f64>()] and the average of a list. *)
Definition f64_sum (l : list f64) : f64 := List.fold_left f64_add l f64_zero.
Definition f64_mean (l : list f64) : f64 :=
  f64_div (f64_sum l) (f64_of_Z (Z.of_nat (length l))).

(** [x.round() as i32]: to nearest, ties away from zero, saturating. *)
Definition f64_round_i32 (x : f64) : Z :=
  match x with
  | S754_nan | S754_zero _ => 0%Z
  | S754_infinity s => if s then (- 2 ^ 31)%Z else (2 ^ 31 - 1)%Z
  | S754_finite s m e =>
      let a := (if (0 <=? e)%Z then Z.pos m * 2 ^ e
                else (2 * Z.pos m + 2 ^ (- e)) / (2 * 2 ^ (- e)))%Z in
      let r := if s then (- a)%Z else a in
      Z.max (- 2 ^ 31) (Z.min (2 ^ 31 - 1) r)
  end.

(** [x as u32]: saturating, NaN to zero. *)
Definition f64_as_u32 (x : f64) : Z :=
  match x with
  | S754_nan | S754_zero _ => 0%Z
  | S754_infinity s => if s then 0%Z else (2 ^ 32 - 1)%Z
  | S754_finite _ _ _ => Z.max 0 (Z.min (2 ^ 32 - 1) (f64_trunc x))
  end.

(** ** Order *)

Lemma SFcompare_swap x y c :
  SFcompare x y = Some c -> SFcompare y x = Some (CompOpp c).
Proof.
  destruct x as [s1|s1| |s1 m1 e1], y as [s2|s2| |s2 m2 e2]; simpl; try discriminate;
    try (destruct s1, s2; intros [= <-]; reflexivity);
    try (destruct s1; intros [= <-]; reflexivity);
    try (destruct s2; intros [= <-]; reflexivity);
    try (intros [= <-]; reflexivity).
  assert (A : Pos.compare_cont Eq m2 m1 = CompOpp (Pos.compare_cont Eq m1 m2))
    by apply Pos.compare_antisym.
  rewrite (Z.compare_antisym e1 e2), A.
  destruct s1, s2; try (intros [= <-]; reflexivity);
    destruct (e1 ?= e2)%Z; intros [= <-]; reflexivity.
Qed.

Lemma SFcompare_total x y :
  f64_is_nan x = false -> f64_is_nan y = false -> exists c, SFcompare x y = Some c.
Proof.
  destruct x as [s1|s1| |s1 m1 e1], y as [s2|s2| |s2 m2 e2]; simpl; try discriminate; intros _ _;
    repeat match goal with s : bool |- _ => destruct s end;
    try (eexists; reflexivity); destruct (e1 ?= e2)%Z; eexists; reflexivity.
Qed.

(** On numbers, not less is greater or equal. *)
Lemma f64_ltb_ge x y :
  f64_is_nan x = false -> f64_is_nan y = false -> f64_ltb x y = false -> f64_leb y x = true.
Proof.
  intros Hx Hy. unfold f64_ltb, f64_leb, SFltb, SFleb.
  destruct (SFcompare_total x y Hx Hy) as [c E]. rewrite E, (SFcompare_swap _ _ _ E).
  destruct c; simpl; congruence.
Qed.

Lemma f64_ltb_leb x y : f64_ltb x y = true -> f64_leb x y = true.
Proof.
  unfold f64_ltb, f64_leb, SFltb, SFleb. destruct (SFcompare x y) as [[]|]; congruence.
Qed.

(** A clamped number lies between the bounds. *)
Lemma f64_clamp_bounds x lo hi :
  f64_is_nan x = false -> f64_is_nan lo = false -> f64_is_nan hi = false ->
  f64_leb lo lo = true -> f64_leb hi hi = true -> f64_leb lo hi = true ->
  f64_leb lo (f64_clamp x lo hi) = true /\ f64_leb (f64_clamp x lo hi) hi = true.
Proof.
  intros Hx Hl Hh Hll Hhh Hlh. unfold f64_clamp.
  destruct (f64_ltb x lo) eqn:E1.
  - destruct (f64_ltb hi lo) eqn:E2; [now split|]. split; [assumption|].
    now apply f64_ltb_ge.
  - destruct (f64_ltb hi x) eqn:E2; [now split|].
    split; now apply f64_ltb_ge.
Qed.

(** [x.max(lo).min(hi)] is a number between the bounds, even of a NaN. *)
Lemma f64_max_min_bounds x lo hi :
  f64_is_nan lo = false -> f64_is_nan hi = false ->
  f64_leb lo lo = true -> f64_leb hi hi = true -> f64_leb lo hi = true ->
  f64_leb lo (f64_min (f64_max x lo) hi) = true /\ f64_leb (f64_min (f64_max x lo) hi) hi = true.
Proof.
  intros Hl Hh Hll Hhh Hlh. unfold f64_min, f64_max. rewrite Hl, Hh.
  destruct (f64_is_nan x) eqn:Hx.
  - rewrite Hl. destruct (f64_ltb hi lo) eqn:E; [now split|]. split; [assumption|]. now apply f64_ltb_ge.
  - destruct (f64_ltb x lo) eqn:E1.
    + rewrite Hl. destruct (f64_ltb hi lo) eqn:E; [now split|]. split; [assumption|]. now apply f64_ltb_ge.
    + rewrite Hx. destruct (f64_ltb hi x) eqn:E2; [now split|].
      split; now apply f64_ltb_ge.
Qed.

(** Numbers are ordered by sign and size, then exponent, then mantissa. *)
Definition f64_key (x : f64) : Z * Z * Z :=
  match x with
  | S754_nan | S754_zero _ => (0, 0, 0)%Z
  | S754_infinity s => ((if s then - 2 else 2), 0, 0)%Z
  | S754_finite s m e => if s then (- 1, - e, Z.neg m)%Z else (1, e, Z.pos m)%Z
  end.
Definition lex_lt (k l : Z * Z * Z) : Prop :=
  let '(a, b, c) := k in let '(a', b', c') := l in
  (a < a' \/ a = a' /\ (b < b' \/ b = b' /\ c < c'))%Z.

Lemma f64_ltb_key x y : f64_is_nan x = false -> f64_is_nan y = false ->
  (f64_ltb x y = true <-> lex_lt (f64_key x) (f64_key y)).
Proof.
  unfold f64_ltb, SFltb.
  destruct x as [s|s| |s m e], y as [s'|s'| |s' m' e']; try discriminate; intros _ _;
    try (destruct s); try (destruct s'); cbn; try (split; [intros; lia|intros; try lia; reflexivity]);
    change (Pos.compare_cont Eq m m') with (Z.pos m ?= Z.pos m')%Z;
    destruct (Z.compare_spec e e'); try (destruct (Z.compare_spec (Z.pos m) (Z.pos m')));
    cbn; split; intros; try reflexivity; try discriminate; lia.
Qed.

(** On numbers, "not less" is transitive. *)
Lemma f64_nlt_trans x y z :
  f64_is_nan x = false -> f64_is_nan y = false -> f64_is_nan z = false ->
  f64_ltb x y = false -> f64_ltb y z = false -> f64_ltb x z = false.
Proof.
  intros Hx Hy Hz Hxy Hyz. apply Bool.not_true_is_false.
  rewrite f64_ltb_key by assumption. intros Hxz. apply Bool.not_true_iff_false in Hxy, Hyz.
  rewrite f64_ltb_key in Hxy, Hyz by assumption. revert Hxy Hyz Hxz. unfold lex_lt.
  destruct (f64_key x) as [[a b] c], (f64_key y) as [[a' b'] c'], (f64_key z) as [[a'' b''] c''].
  lia.
Qed.

Lemma f64_ltb_asym x y : f64_ltb x y = true -> f64_ltb y x = false.
Proof.
  unfold f64_ltb, SFltb. destruct (SFcompare x y) as [c|] eqn:E; [|discriminate].
  rewrite (SFcompare_swap _ _ _ E). destruct c; simpl; congruence.
Qed.

Lemma f64_leb_nlt x y : f64_leb x y = true -> f64_ltb y x = false.
Proof.
  unfold f64_ltb, f64_leb, SFltb, SFleb. destruct (SFcompare x y) as [c|] eqn:E; [|discriminate].
  rewrite (SFcompare_swap _ _ _ E). destruct c; simpl; congruence.
Qed.

Lemma f64_clamp_number x lo hi :
  f64_is_nan x = false -> f64_is_nan lo = false -> f64_is_nan hi = false ->
  f64_is_nan (f64_clamp x lo hi) = false.
Proof. intros. unfold f64_clamp. destruct (f64_ltb x lo), (f64_ltb hi _); assumption. Qed.

(** Clamping again, to wider bounds, changes nothing. *)
Lemma f64_clamp_again x lo hi lo' hi' :
  f64_is_nan x = false -> f64_is_nan lo = false -> f64_is_nan hi = false ->
  f64_is_nan lo' = false -> f64_is_nan hi' = false ->
  f64_leb lo lo = true -> f64_leb hi hi = true -> f64_leb lo hi = true ->
  f64_ltb lo lo' = false -> f64_ltb hi' hi = false ->
  f64_clamp (f64_clamp x lo hi) lo' hi' = f64_clamp x lo hi.
Proof.
  intros Hx Hl Hh Hl' Hh' Hll Hhh Hlh E1 E2.
  destruct (f64_clamp_bounds x lo hi Hx Hl Hh Hll Hhh Hlh) as [B1 B2].
  assert (Hy := f64_clamp_number x lo hi Hx Hl Hh).
  apply f64_leb_nlt in B1, B2. revert B1 B2 Hy. generalize (f64_clamp x lo hi). intros y B1 B2 Hy.
  unfold f64_clamp. rewrite (f64_nlt_trans y lo lo'), (f64_nlt_trans hi' hi y) by assumption. reflexivity.
Qed.
