(* ===== verification/FloatParse.v ===== *)
(** * Reading an [f64]

    [s.parse::<f64>().ok()] of Rust: an optional sign, then [inf], [infinity]
    or [nan] in any case, or digits with an optional point and an optional
    exponent; the number is the nearest [f64] to the decimal it denotes. *)

From Stdlib Require Import SpecFloat.
From S2P Require Import Prelude F64.

(** The quotient of two integers, rounded once. *)
Definition f64_of_ratio (neg : bool) (n d : Z) : f64 :=
  match n with
  | Zpos m => SFdiv f64_prec f64_emax (S754_finite neg m 0) (S754_finite false (Z.to_pos d) 0)
  | _ => S754_zero neg
  end.

(** The digits at the head: the value they extend, their number, the rest. *)
Fixpoint take_digits (acc : Z) (n : nat) (s : string) : Z * nat * string :=
  match s with
  | EmptyString => (acc, n, s)
  | String c s' =>
      match digit_value c with
      | Some d => take_digits (10 * acc + d)%Z (S n) s'
      | None => (acc, n, s)
      end
  end.

(** A sign, if there is one. *)
Definition take_sign (s : string) : bool * string :=
  match s with
  | String c s' => if (c =? "-")%char then (true, s') else if (c =? "+")%char then (false, s') else (false, s)
  | EmptyString => (false, s)
  end.

(** What follows the digits: nothing or an exponent. *)
Definition parse_exponent (s : string) : option Z :=
  match s with
  | EmptyString => Some 0%Z
  | String c s' =>
      if (ascii_lower c =? "e")%char then
        let '(neg, digits) := take_sign s' in
        e ← parse_unsigned digits; Some (if neg : bool then - e else e)%Z
      else None
  end.

Definition parse_number (neg : bool) (s : string) : option f64 :=
  let '(whole, before, rest) := take_digits 0 0 s in
  let '(mantissa, after, rest) :=
    match rest with
    | String c rest' => if (c =? ".")%char then take_digits whole 0 rest' else (whole, O, rest)
    | EmptyString => (whole, O, rest)
    end in
  if (before + after =? 0)%nat then None
  else
    e ← parse_exponent rest;
    let scale := (e - Z.of_nat after)%Z in
    Some (if (0 <=? scale)%Z then f64_of_ratio neg (mantissa * 10 ^ scale) 1
          else f64_of_ratio neg mantissa (10 ^ (- scale))).

Definition parse_f64 (s : string) : option f64 :=
  let '(neg, s) := take_sign s in
  let lower := string_lower s in
  if bool_decide (lower = "inf") || bool_decide (lower = "infinity") then Some (S754_infinity neg)
  else if bool_decide (lower = "nan") then Some S754_nan
  else parse_number neg s.

Example parse_f64_numbers :
  (parse_f64 "0.65", parse_f64 "-1e3", parse_f64 ".5", parse_f64 "12.", parse_f64 "Inf") =
  (Some (f64_lit 65 100), Some (f64_of_Z (-1000)), Some (f64_lit 1 2), Some (f64_of_Z 12),
   Some f64_infinity).
Proof. vm_compute. reflexivity. Qed.
Example parse_f64_rejects :
  (parse_f64 "", parse_f64 ".", parse_f64 "1.2.3", parse_f64 " 1", parse_f64 "1e") =
  (None, None, None, None, None).
Proof. vm_compute. reflexivity. Qed.
