(* ===== verification/Platform.v ===== *)
(** * The crates and services the code relies on

    The program computes with four third-party crates whose source is not in
    the repository.  Each is a class: the operations the code calls, and a
    second class with the documented behaviour the theorems rely on.

    - [rust_decimal]: [DecimalOps] and, in terms of the rational a [Decimal]
      denotes, [DecimalSpec] (comparisons, negation and [abs] are exact; [+],
      [-], [*] and [/] are rounded, which [DecimalSpec] states by the
      representable numbers that bound a result) and [DecimalExact] (no
      rounding: the amounts fit the 28 digits of a [Decimal]);
    - [chrono]: [ChronoOps] and [ChronoSpec];
    - [uuid]: [UuidOps], an identifier with decidable equality;
    - [dashmap]: [DashOps] and [DashSpec].

    Module [Concrete] gives an instance of each, on which the witnesses of the
    development are evaluated. *)

From Stdlib Require Export QArith Qabs Qround Qminmax Lqa.
From S2P Require Import Prelude F64.
From Stdlib Require Import SpecFloat.
From Stdlib Require Qcanon.

(** ** [rust_decimal] *)

Class DecimalOps : Type := {
  dec : Type;
  (** [Decimal::new(num, scale)], i.e. num / 10^scale. *)
  dec_new : Z -> Z -> dec;
  (** [Decimal::from] of an integer. *)
  dec_of_Z : Z -> dec;
  dec_add : dec -> dec -> dec;
  dec_sub : dec -> dec -> dec;
  dec_mul : dec -> dec -> dec;
  (** [None]: the crate panics, on a division by zero. *)
  dec_div : dec -> dec -> option dec;
  dec_neg : dec -> dec;
  dec_abs : dec -> dec;
  dec_floor : dec -> dec;
  dec_cmp : dec -> dec -> comparison;
  (** [d.to_string().parse::<u32>().ok()]. *)
  dec_parse_u32 : dec -> option Z;
  (** [d.to_string().parse::<f64>().ok()] and [d.to_f64()]. *)
  dec_parse_f64 : dec -> option f64;
  dec_to_f64 : dec -> option f64;
  (** [Decimal::from_f64_retain]. *)
  dec_from_f64_retain : f64 -> option dec;
  (** [Decimal::from_f64] and [Decimal::try_from] of an [f64]. *)
  dec_from_f64 : f64 -> option dec;
  (** [s.parse::<Decimal>().ok()]. *)
  dec_parse : string -> option dec;
  (** [d.to_i64()] and [d.to_u64()]. *)
  dec_to_i64 : dec -> option Z;
  dec_to_u64 : dec -> option Z;
}.

Declare Scope dec_scope.
Delimit Scope dec_scope with dec.
Bind Scope dec_scope with dec.

Section DecimalDerived.
Context `{DecimalOps}.

(** [Decimal::ZERO], [ONE] and [TWO]. *)
Definition ZERO : dec := dec_of_Z 0.
Definition ONE : dec := dec_of_Z 1.
Definition TWO : dec := dec_of_Z 2.

(** [PartialOrd] and [PartialEq] of [Decimal]: both by numeric value. *)
Definition dec_ltb (a b : dec) : bool :=
  match dec_cmp a b with Lt => true | _ => false end.
Definition dec_leb (a b : dec) : bool :=
  match dec_cmp a b with Gt => false | _ => true end.
Definition dec_eqb (a b : dec) : bool :=
  match dec_cmp a b with Eq => true | _ => false end.

Definition dec_max (a b : dec) : dec := if dec_ltb a b then b else a.
Definition dec_min (a b : dec) : dec := if dec_ltb b a then b else a.
Definition dec_is_zero (a : dec) : bool := dec_eqb a ZERO.

(** [iter().sum::<Decimal>()]. *)
Definition dec_sum (l : list dec) : dec := foldl dec_add ZERO l.
End DecimalDerived.

Notation "a + b" := (dec_add a b) : dec_scope.
Notation "a - b" := (dec_sub a b) : dec_scope.
Notation "a * b" := (dec_mul a b) : dec_scope.
Notation "- a" := (dec_neg a) : dec_scope.
Notation "a <? b" := (dec_ltb a b) : dec_scope.
Notation "a <=? b" := (dec_leb a b) : dec_scope.
Notation "a >? b" := (dec_ltb b a) (only parsing) : dec_scope.
Notation "a >=? b" := (dec_leb b a) (only parsing) : dec_scope.
Notation "a =? b" := (dec_eqb a b) : dec_scope.

Local Open Scope Q_scope.

(** Towards zero. *)
Definition Qtrunc (q : Q) : Z := if Qle_bool 0 q then Qfloor q else Qceiling q.

(** What the crate documents.  [dval d] is the number mantissa / 10^scale that
    [d] denotes.  A rounded operation returns the representable number nearest
    to the exact result, so it lies on the same side of every representable
    [c] as the exact result (overflow, where the crate panics, has no
    behaviour to describe; an operation that saturates meets the laws). *)
Class DecimalSpec `{!DecimalOps} : Type := {
  dval : dec -> Q;
  dec_cmp_val : forall a b, dec_cmp a b = Qcompare (dval a) (dval b);
  dval_new : forall n s, (0 <= s <= 28)%Z -> dval (dec_new n s) == n # (Z.to_pos (10 ^ s));
  dval_of_Z : forall n, (Z.abs n < 2 ^ 96)%Z -> dval (dec_of_Z n) == inject_Z n;
  dval_neg : forall a, dval (dec_neg a) == - dval a;
  dval_abs : forall a, dval (dec_abs a) == Qabs (dval a);
  dec_add_upper : forall a b c, dval a + dval b <= dval c -> dval (dec_add a b) <= dval c;
  dec_add_lower : forall a b c, dval c <= dval a + dval b -> dval c <= dval (dec_add a b);
  dec_sub_upper : forall a b c, dval a - dval b <= dval c -> dval (dec_sub a b) <= dval c;
  dec_sub_lower : forall a b c, dval c <= dval a - dval b -> dval c <= dval (dec_sub a b);
  dec_mul_upper : forall a b c, dval a * dval b <= dval c -> dval (dec_mul a b) <= dval c;
  dec_mul_lower : forall a b c, dval c <= dval a * dval b -> dval c <= dval (dec_mul a b);
  dec_parse_u32_floor : forall a,
    dec_parse_u32 (dec_floor a) =
      let n := Qfloor (dval a) in if ((0 <=? n) && (n <? 2 ^ 32))%Z then Some n else None;
  dec_to_i64_trunc : forall a,
    dec_to_i64 a =
      let n := Qtrunc (dval a) in if ((- 2 ^ 63 <=? n) && (n <? 2 ^ 63))%Z then Some n else None;
  dec_to_u64_trunc : forall a n,
    dec_to_u64 a = Some n -> n = Qtrunc (dval a) /\ (0 <= n < 2 ^ 64)%Z;
  dec_div_zero : forall a b, dval b == 0 -> dec_div a b = None;
  dec_div_some : forall a b, ~ dval b == 0 -> is_Some (dec_div a b);
  dec_div_upper : forall a b q c,
    dec_div a b = Some q -> dval a / dval b <= dval c -> dval q <= dval c;
  dec_div_lower : forall a b q c,
    dec_div a b = Some q -> dval c <= dval a / dval b -> dval c <= dval q;
}.

(** No rounding: the results of [+], [-] and [*] fit a [Decimal]. *)
Class DecimalExact `{DecimalSpec} : Prop := {
  dval_add : forall a b, dval (dec_add a b) == dval a + dval b;
  dval_sub : forall a b, dval (dec_sub a b) == dval a - dval b;
  dval_mul : forall a b, dval (dec_mul a b) == dval a * dval b;
}.

(** *** Reasoning about [Decimal]s through their value *)

Section DecimalFacts.
Context `{DecimalSpec}.

Lemma dec_ltb_lt a b : (a <? b)%dec = true <-> dval a < dval b.
Proof.
  unfold dec_ltb. rewrite dec_cmp_val, Qlt_alt.
  destruct (dval a ?= dval b); split; congruence.
Qed.
Lemma dec_ltb_ge a b : (a <? b)%dec = false <-> dval b <= dval a.
Proof.
  rewrite <- not_true_iff_false, dec_ltb_lt. split; [apply Qnot_lt_le|apply Qle_not_lt].
Qed.
Lemma dec_leb_le a b : (a <=? b)%dec = true <-> dval a <= dval b.
Proof.
  unfold dec_leb. rewrite dec_cmp_val, Qle_alt.
  destruct (dval a ?= dval b); split; congruence.
Qed.
Lemma dec_leb_gt a b : (a <=? b)%dec = false <-> dval b < dval a.
Proof.
  rewrite <- not_true_iff_false, dec_leb_le. split; [apply Qnot_le_lt|apply Qlt_not_le].
Qed.
Lemma dec_eqb_eq a b : (a =? b)%dec = true <-> dval a == dval b.
Proof.
  unfold dec_eqb. rewrite dec_cmp_val, Qeq_alt.
  destruct (dval a ?= dval b); split; congruence.
Qed.

Lemma dval_ZERO : dval ZERO == 0.
Proof. unfold ZERO. by rewrite dval_of_Z. Qed.
Lemma dval_ONE : dval ONE == 1.
Proof. unfold ONE. by rewrite dval_of_Z. Qed.
Lemma dval_TWO : dval TWO == 2.
Proof. unfold TWO. by rewrite dval_of_Z. Qed.

Lemma dval_max a b : dval (dec_max a b) == Qmax (dval a) (dval b).
Proof.
  unfold dec_max. destruct (dec_ltb a b) eqn:E.
  - apply dec_ltb_lt in E. rewrite Q.max_r; [done|lra].
  - apply dec_ltb_ge in E. rewrite Q.max_l; [done|lra].
Qed.
Lemma dval_min a b : dval (dec_min a b) == Qmin (dval a) (dval b).
Proof.
  unfold dec_min. destruct (dec_ltb b a) eqn:E.
  - apply dec_ltb_lt in E. rewrite Q.min_r; [done|lra].
  - apply dec_ltb_ge in E. rewrite Q.min_l; [done|lra].
Qed.

(** A representable result is exact. *)
Lemma dval_add_repr a b c : dval a + dval b == dval c -> dval (a + b)%dec == dval c.
Proof.
  intros E. apply Qle_antisym; [apply dec_add_upper|apply dec_add_lower]; lra.
Qed.
Lemma dval_sub_repr a b c : dval a - dval b == dval c -> dval (a - b)%dec == dval c.
Proof.
  intros E. apply Qle_antisym; [apply dec_sub_upper|apply dec_sub_lower]; lra.
Qed.
Lemma dval_mul_repr a b c : dval a * dval b == dval c -> dval (a * b)%dec == dval c.
Proof.
  intros E. apply Qle_antisym; [apply dec_mul_upper|apply dec_mul_lower]; lra.
Qed.
Lemma dval_div_repr a b q c :
  dec_div a b = Some q -> dval a / dval b == dval c -> dval q == dval c.
Proof.
  intros Hq E. apply Qle_antisym.
  - eapply dec_div_upper; [done|]. lra.
  - eapply dec_div_lower; [done|]. lra.
Qed.

Lemma dval_add_zero_l a : dval (ZERO + a)%dec == dval a.
Proof. apply dval_add_repr. rewrite dval_ZERO. lra. Qed.
Lemma dval_sub_diag a : dval (a - a)%dec == 0.
Proof. rewrite (dval_sub_repr _ _ ZERO); rewrite ?dval_ZERO; lra. Qed.

(** Signs are exact under rounding. *)
Lemma dec_sub_nonneg a b : dval b <= dval a -> 0 <= dval (a - b)%dec.
Proof. intros. rewrite <- dval_ZERO. apply dec_sub_lower. rewrite dval_ZERO. lra. Qed.
Lemma dec_sub_nonpos a b : dval a <= dval b -> dval (a - b)%dec <= 0.
Proof. intros. rewrite <- dval_ZERO. apply dec_sub_upper. rewrite dval_ZERO. lra. Qed.
Lemma dec_add_nonneg a b : 0 <= dval a -> 0 <= dval b -> 0 <= dval (a + b)%dec.
Proof. intros. rewrite <- dval_ZERO. apply dec_add_lower. rewrite dval_ZERO. lra. Qed.
Lemma dec_mul_nonneg a b : 0 <= dval a -> 0 <= dval b -> 0 <= dval (a * b)%dec.
Proof.
  intros. rewrite <- dval_ZERO. apply dec_mul_lower. rewrite dval_ZERO. nra.
Qed.
(** Scaling by a factor at most one does not increase a non-negative amount. *)
Lemma dec_mul_le_l a b : 0 <= dval a -> dval b <= 1 -> dval (a * b)%dec <= dval a.
Proof. intros. apply dec_mul_upper. nra. Qed.
Lemma dec_mul_ge_l a b : 0 <= dval a -> 1 <= dval b -> dval a <= dval (a * b)%dec.
Proof. intros. apply dec_mul_lower. nra. Qed.

(** Small integers are exact and ordered. *)
Lemma dec_of_Z_le n m :
  (Z.abs n < 2 ^ 96)%Z -> (Z.abs m < 2 ^ 96)%Z ->
  (n <= m)%Z -> dval (dec_of_Z n) <= dval (dec_of_Z m).
Proof. intros. rewrite !dval_of_Z by done. by rewrite <- Zle_Qle. Qed.
Lemma dec_of_Z_pos n : (0 < n < 2 ^ 96)%Z -> 0 < dval (dec_of_Z n).
Proof.
  intros. rewrite dval_of_Z by lia. change 0 with (inject_Z 0). rewrite <- Zlt_Qlt. lia.
Qed.
Lemma dec_of_Z_nonneg n : (0 <= n < 2 ^ 96)%Z -> 0 <= dval (dec_of_Z n).
Proof.
  intros. rewrite dval_of_Z by lia. change 0 with (inject_Z 0). rewrite <- Zle_Qle. lia.
Qed.

Lemma Qtrunc_le a b : a <= b -> (Qtrunc a <= Qtrunc b)%Z.
Proof.
  intros Hab. unfold Qtrunc. destruct (Qle_bool 0 a) eqn:Ea, (Qle_bool 0 b) eqn:Eb.
  - by apply Qfloor_resp_le.
  - apply Qle_bool_iff in Ea. assert (Hb : 0 <= b) by lra. apply Qle_bool_iff in Hb. congruence.
  - apply Z.le_trans with 0%Z.
    + change 0%Z with (Qceiling 0). apply Qceiling_resp_le.
      apply not_true_iff_false in Ea. rewrite Qle_bool_iff in Ea. lra.
    + apply Qle_bool_iff in Eb. change 0%Z with (Qfloor 0). by apply Qfloor_resp_le.
  - by apply Qceiling_resp_le.
Qed.

Lemma dec_div_pos_some a b : 0 < dval b -> is_Some (dec_div a b).
Proof. intros. apply dec_div_some. lra. Qed.
Lemma dec_div_le a b q c :
  dec_div a b = Some q -> 0 < dval b -> dval a <= dval c * dval b -> dval q <= dval c.
Proof. intros Hq Hb Hc. eapply dec_div_upper; [done|]. by apply Qle_shift_div_r. Qed.
Lemma dec_div_ge a b q c :
  dec_div a b = Some q -> 0 < dval b -> dval c * dval b <= dval a -> dval c <= dval q.
Proof. intros Hq Hb Hc. eapply dec_div_lower; [done|]. by apply Qle_shift_div_l. Qed.
End DecimalFacts.

Create Rewrite HintDb decimal.
#[export] Hint Rewrite @dec_ltb_lt @dec_ltb_ge @dec_leb_le @dec_leb_gt @dec_eqb_eq : decimal.

(** Comparisons of [Decimal]s, and the constants, as statements about values. *)
Ltac dec_to_Q :=
  repeat match goal with
  | H : dec_ltb _ _ = true |- _ => apply dec_ltb_lt in H
  | H : dec_ltb _ _ = false |- _ => apply dec_ltb_ge in H
  | H : dec_leb _ _ = true |- _ => apply dec_leb_le in H
  | H : dec_leb _ _ = false |- _ => apply dec_leb_gt in H
  | H : dec_eqb _ _ = true |- _ => apply dec_eqb_eq in H
  | |- dec_ltb _ _ = true => apply dec_ltb_lt
  | |- dec_ltb _ _ = false => apply dec_ltb_ge
  | |- dec_leb _ _ = true => apply dec_leb_le
  | |- dec_leb _ _ = false => apply dec_leb_gt
  | |- dec_eqb _ _ = true => apply dec_eqb_eq
  end;
  rewrite ?dval_ZERO, ?dval_ONE, ?dval_TWO in *.

(** Case analysis on the innermost [Qmax] and [Qmin] of the goal. *)
Ltac q_atom a :=
  lazymatch a with
  | context [Qmax _ _] => fail
  | context [Qmin _ _] => fail
  | _ => idtac
  end.
Ltac q_cases :=
  repeat match goal with
  | |- context [Qmax ?a ?b] =>
      q_atom a; q_atom b;
      let E := fresh in destruct (Q.max_spec a b) as [[? E]|[? E]]; rewrite E; clear E
  | |- context [Qmin ?a ?b] =>
      q_atom a; q_atom b;
      let E := fresh in destruct (Q.min_spec a b) as [[? E]|[? E]]; rewrite E; clear E
  end.

(** *** Sums *)

Definition Qsum (l : list Q) : Q := foldr Qplus 0 l.

Lemma Qsum_cons x l : Qsum (x :: l) == x + Qsum l.
Proof. done. Qed.

Lemma Qsum_app l k : Qsum (l ++ k) == Qsum l + Qsum k.
Proof. induction l; simpl; [lra|]. rewrite IHl. lra. Qed.

#[export] Instance Qsum_perm : Proper ((≡ₚ) ==> Qeq) Qsum.
Proof.
  induction 1; simpl; [done| | |].
  - rewrite IHPermutation. done.
  - lra.
  - by rewrite IHPermutation1.
Qed.

Lemma Qsum_nonneg l : Forall (fun x => 0 <= x) l -> 0 <= Qsum l.
Proof. induction 1; simpl; lra. Qed.

Section Sums.
Context `{DecimalSpec}.

Lemma foldl_add_nonneg l acc :
  0 <= dval acc -> Forall (fun x => 0 <= dval x) l -> 0 <= dval (foldl dec_add acc l).
Proof.
  intros Hacc Hl. revert acc Hacc.
  induction Hl; intros; simpl; auto using dec_add_nonneg.
Qed.

Lemma dec_sum_nonneg l : Forall (fun x => 0 <= dval x) l -> 0 <= dval (dec_sum l).
Proof. apply foldl_add_nonneg. rewrite dval_ZERO. lra. Qed.

Context {EX : DecimalExact}.

Lemma dval_foldl_add l acc :
  dval (foldl dec_add acc l) == dval acc + Qsum (map dval l).
Proof.
  revert acc. induction l as [|x l IH]; intros acc; simpl; [lra|].
  rewrite IH, dval_add. lra.
Qed.

Lemma dval_dec_sum l : dval (dec_sum l) == Qsum (map dval l).
Proof. unfold dec_sum. rewrite dval_foldl_add, dval_ZERO. lra. Qed.
End Sums.

(** ** [chrono] *)

Class ChronoOps : Type := {
  (** [DateTime<Utc>] and [NaiveDate]. *)
  datetime : Type;
  naive_date : Type;
  dt_cmp : datetime -> datetime -> comparison;
  date_cmp : naive_date -> naive_date -> comparison;
  (** [t + Duration::minutes(m)]. *)
  add_minutes : datetime -> Z -> datetime;
  (** [a.signed_duration_since(b)] in whole seconds and in whole hours. *)
  secs_since : datetime -> datetime -> Z;
  hours_since : datetime -> datetime -> Z;
  (** The same in whole milliseconds and in whole days. *)
  millis_since : datetime -> datetime -> Z;
  days_since : datetime -> datetime -> Z;
  (** [t.date_naive()], [t.hour()] and [t.weekday().num_days_from_sunday()]. *)
  date_naive : datetime -> naive_date;
  hour : datetime -> Z;
  weekday : datetime -> Z;
}.

Section ChronoDerived.
Context `{ChronoOps}.
Definition dt_leb (a b : datetime) : bool :=
  match dt_cmp a b with Gt => false | _ => true end.
Definition dt_ltb (a b : datetime) : bool :=
  match dt_cmp a b with Lt => true | _ => false end.
Definition date_eqb (a b : naive_date) : bool :=
  match date_cmp a b with Eq => true | _ => false end.
Definition date_ltb (a b : naive_date) : bool :=
  match date_cmp a b with Lt => true | _ => false end.
End ChronoDerived.

(** An instant is a number of nanoseconds, a date a number of days. *)
Class ChronoSpec `{!ChronoOps} : Type := {
  instant : datetime -> Z;
  day_number : naive_date -> Z;
  dt_cmp_instant : forall a b, dt_cmp a b = Z.compare (instant a) (instant b);
  date_cmp_day : forall a b, date_cmp a b = Z.compare (day_number a) (day_number b);
  day_number_inj : forall a b, day_number a = day_number b -> a = b;
  instant_add_minutes : forall t m, instant (add_minutes t m) = (instant t + m * 60000000000)%Z;
  secs_since_spec : forall a b,
    secs_since a b = Z.quot (instant a - instant b) 1000000000;
  hours_since_spec : forall a b,
    hours_since a b = Z.quot (instant a - instant b) 3600000000000;
  millis_since_spec : forall a b,
    millis_since a b = Z.quot (instant a - instant b) 1000000;
  days_since_spec : forall a b,
    days_since a b = Z.quot (instant a - instant b) 86400000000000;
  day_of_instant : forall t, day_number (date_naive t) = Z.div (instant t) 86400000000000;
  hour_range : forall t, (0 <= hour t < 24)%Z;
  weekday_range : forall t, (0 <= weekday t < 7)%Z;
}.

Section ChronoFacts.
Context `{ChronoSpec}.
Lemma dt_leb_le a b : dt_leb a b = true <-> (instant a <= instant b)%Z.
Proof.
  unfold dt_leb. rewrite dt_cmp_instant.
  destruct (Z.compare_spec (instant a) (instant b)); split; (done || lia).
Qed.
Lemma dt_leb_gt a b : dt_leb a b = false <-> (instant b < instant a)%Z.
Proof. rewrite <- not_true_iff_false, dt_leb_le. lia. Qed.
Lemma date_eqb_eq a b : date_eqb a b = true <-> a = b.
Proof.
  unfold date_eqb. rewrite date_cmp_day.
  destruct (Z.compare_spec (day_number a) (day_number b)) as [E|E|E]; split; intros HH;
    first [done | by apply day_number_inj | subst; lia].
Qed.
Lemma date_eqb_refl a : date_eqb a a = true.
Proof. by apply date_eqb_eq. Qed.
Lemma date_ltb_lt a b : date_ltb a b = true <-> (day_number a < day_number b)%Z.
Proof.
  unfold date_ltb. rewrite date_cmp_day.
  destruct (Z.compare_spec (day_number a) (day_number b)); split; (done || lia).
Qed.
End ChronoFacts.

(** ** [uuid] *)

Class UuidOps : Type := {
  Uuid : Type;
  uuid_eq_dec :: EqDecision Uuid;
  uuid_countable :: Countable Uuid;
}.

(** ** [dashmap] and [HashMap]

    A concurrent map is split into shards, each under its own lock; an
    iteration visits each entry once, in no particular order.  So does the
    iteration of a standard [HashMap]. *)

Class DashOps `{UO : UuidOps} : Type := {
  shard : Uuid -> nat;
  dash_iter : forall {A : Type}, gmap Uuid A -> list (Uuid * A);
}.
Class DashSpec `{DA : DashOps} : Prop := {
  dash_iter_perm : forall {A : Type} (m : gmap Uuid A), dash_iter m ≡ₚ map_to_list m;
}.

Section DashFacts.
Context `{DP : DashSpec}.

Lemma dash_entries {A} (m : gmap Uuid A) : Forall (fun e => m !! e.1 = Some e.2) (dash_iter m).
Proof.
  apply Forall_forall. intros [id a] Hin. rewrite dash_iter_perm in Hin.
  by apply elem_of_map_to_list in Hin.
Qed.

Lemma dash_length {A} (m : gmap Uuid A) : length (dash_iter m) = size m.
Proof. rewrite dash_iter_perm. apply length_map_to_list. Qed.

(** The values of a map, in the order of an iteration. *)
Definition dash_values {A} (m : gmap Uuid A) : list A := (dash_iter m).*2.

Lemma elem_of_dash_values {A} (m : gmap Uuid A) a : a ∈ dash_values m <-> exists id, m !! id = Some a.
Proof.
  unfold dash_values. rewrite list_elem_of_fmap. split.
  - intros ([id a'] & -> & Hin). rewrite dash_iter_perm in Hin. apply elem_of_map_to_list in Hin. eauto.
  - intros [id Hl]. exists (id, a). split; [done|]. rewrite dash_iter_perm. by apply elem_of_map_to_list.
Qed.

Lemma dash_values_insert {A} (m : gmap Uuid A) id a :
  m !! id = None -> dash_values (<[id := a]> m) ≡ₚ a :: dash_values m.
Proof. intros Hn. unfold dash_values. by rewrite !dash_iter_perm, map_to_list_insert. Qed.

Lemma dash_values_delete {A} (m : gmap Uuid A) id a :
  m !! id = Some a -> dash_values m ≡ₚ a :: dash_values (delete id m).
Proof. intros Hl. unfold dash_values. by rewrite !dash_iter_perm, <- (map_to_list_delete m id a Hl). Qed.
End DashFacts.

(** ** [tokio]'s timers

    In nanoseconds.  [fires ready b t]: with the branches ready at [ready],
    [select!] completes at [t] with [b], which is ready, as soon as a branch is.
    [next_deadline due t]: when an [interval] whose tick was due at [due] and
    taken at [t] ticks again, whatever its behaviour for missed ticks. *)
Class SelectSpec {B : Type} (fires : (B -> option Z) -> B -> Z -> Prop) : Prop := {
  fires_ready : forall ready b t, fires ready b t -> exists at_, ready b = Some at_ /\ (at_ <= t)%Z;
  fires_first : forall ready b t b' at_, fires ready b t -> ready b' = Some at_ -> (t <= at_)%Z;
}.
Class IntervalSpec (next_deadline : Z -> Z -> Z) (period : Z) : Prop := {
  deadline_after : forall due t, (due <= t)%Z -> (due + period <= next_deadline due t)%Z;
  deadline_within : forall due t, (due <= t)%Z -> (next_deadline due t <= t + period)%Z;
}.

(** ** Concrete instances

    [Decimal] as a rational in lowest terms, [DateTime] as nanoseconds since
    the epoch, [Uuid] as a positive.  They are not declared as instances: a
    witness names them. *)

Module Concrete.
Definition q_floor (a : Q) : Q := inject_Z (Qfloor a).
Definition q_div (a b : Q) : option Q :=
  if Qeq_bool b 0 then None else Some (Qred (a / b)).
Definition q_parse_u32 (a : Q) : option Z :=
  match Qden (Qred a) with
  | xH => let n := Qnum (Qred a) in
          if ((0 <=? n) && (n <? 2 ^ 32))%Z then Some n else None
  | _ => None
  end.
Definition q_to_f64 (a : Q) : option f64 :=
  Some (f64_div (f64_of_Z (Qnum a)) (f64_of_Z (Z.pos (Qden a)))).
Definition q_of_f64 (x : f64) : option Q :=
  match x with
  | S754_zero _ => Some 0
  | S754_finite s m e =>
      let a := if s then Z.neg m else Z.pos m in
      Some (Qred (if (0 <=? e)%Z then inject_Z (a * 2 ^ e) else a # Z.to_pos (2 ^ (- e))))
  | _ => None
  end.

Definition q_to_i64 (a : Q) : option Z :=
  let n := Qtrunc a in if ((- 2 ^ 63 <=? n) && (n <? 2 ^ 63))%Z then Some n else None.
Definition q_to_u64 (a : Q) : option Z :=
  let n := Qtrunc a in if Qle_bool 0 a && (n <? 2 ^ 64)%Z then Some n else None.

(** Digits, with a point or without, after an optional sign. *)
Fixpoint q_fraction (acc : Z) (scale : positive) (s : string) : option Q :=
  match s with
  | EmptyString => Some (Qred (acc # scale))
  | String c s => v ← digit_value c; q_fraction (10 * acc + v) (10 * scale) s
  end.
Fixpoint q_digits (acc : Z) (s : string) : option Q :=
  match s with
  | EmptyString => Some (inject_Z acc)
  | String c s =>
      if (c =? ".")%char then q_fraction acc 1 s
      else v ← digit_value c; q_digits (10 * acc + v) s
  end.
Definition q_parse (s : string) : option Q :=
  match s with
  | EmptyString => None
  | String c s' => if (c =? "-")%char then Qopp <$> q_digits 0 s' else q_digits 0 s
  end.

Definition decimal : DecimalOps := {|
  dec := Q;
  dec_new n s := Qred (n # Z.to_pos (10 ^ s));
  dec_of_Z := inject_Z;
  dec_add a b := Qred (a + b);
  dec_sub a b := Qred (a - b);
  dec_mul a b := Qred (a * b);
  dec_div := q_div;
  dec_neg a := - a;
  dec_abs := Qabs;
  dec_floor := q_floor;
  dec_cmp := Qcompare;
  dec_parse_u32 := q_parse_u32;
  dec_parse_f64 := q_to_f64;
  dec_to_f64 := q_to_f64;
  dec_from_f64_retain := q_of_f64;
  dec_from_f64 := q_of_f64;
  dec_parse := q_parse;
  dec_to_i64 := q_to_i64;
  dec_to_u64 := q_to_u64;
|}.

Lemma q_div_Some a b q : q_div a b = Some q -> q == a / b.
Proof. unfold q_div. case_match; [done|]. intros [= <-]. apply Qred_correct. Qed.

Lemma q_parse_u32_floor a :
  q_parse_u32 (q_floor a) =
    let n := Qfloor a in if ((0 <=? n) && (n <? 2 ^ 32))%Z then Some n else None.
Proof.
  unfold q_parse_u32, q_floor. generalize (Qfloor a). intros n.
  assert (E : Qred (inject_Z n) = inject_Z n).
  { apply Qcanon.Qred_iff. apply Z.gcd_1_r. }
  by rewrite E.
Qed.

Lemma q_to_u64_trunc a n : q_to_u64 a = Some n -> n = Qtrunc a /\ (0 <= n < 2 ^ 64)%Z.
Proof.
  unfold q_to_u64. cbv zeta. intros H. destruct (Qle_bool 0 a) eqn:E; [|done].
  destruct (_ <? _)%Z eqn:E'; [|done]. injection H as <-. apply Qle_bool_iff in E. split; [done|].
  apply Qtrunc_le in E. replace (Qtrunc 0) with 0%Z in E by reflexivity. lia.
Qed.

Definition decimal_spec : @DecimalSpec decimal.
Proof.
  refine (@Build_DecimalSpec decimal (fun q : Q => q) _ _ _ _ _ _ _ _ _ _ _ _ _ _ _ _ _ _);
    cbn [dec dec_new dec_of_Z dec_add dec_sub dec_mul dec_div dec_neg dec_abs dec_cmp
         dec_parse_u32 dec_floor decimal];
    intros; rewrite ?Qred_correct; try done.
  - apply q_parse_u32_floor.
  - by apply q_to_u64_trunc.
  - unfold q_div. apply Qeq_bool_iff in H. by rewrite H.
  - unfold q_div. destruct (Qeq_bool b 0) eqn:E; [|done].
    by apply Qeq_bool_iff in E.
  - by rewrite (q_div_Some _ _ _ H).
  - by rewrite (q_div_Some _ _ _ H).
Defined.

Lemma decimal_exact : @DecimalExact decimal decimal_spec.
Proof. split; intros; apply Qred_correct. Qed.

Definition chrono : ChronoOps := {|
  datetime := Z;
  naive_date := Z;
  dt_cmp := Z.compare;
  date_cmp := Z.compare;
  add_minutes t m := (t + m * 60000000000)%Z;
  secs_since a b := Z.quot (a - b) 1000000000;
  hours_since a b := Z.quot (a - b) 3600000000000;
  millis_since a b := Z.quot (a - b) 1000000;
  days_since a b := Z.quot (a - b) 86400000000000;
  date_naive t := (t / 86400000000000)%Z;
  hour t := (t / 3600000000000 mod 24)%Z;
  weekday t := ((t / 86400000000000 + 4) mod 7)%Z;
|}.

Definition chrono_spec : @ChronoSpec chrono.
Proof.
  refine (@Build_ChronoSpec chrono (fun t : Z => t) (fun d : Z => d) _ _ _ _ _ _ _ _ _ _ _);
    cbn; intros; try done; apply Z.mod_pos_bound; lia.
Defined.

Definition uuid : UuidOps := {| Uuid := positive |}.

(** [select!] takes the first branch that is ready, an [interval] ticks each
    period. *)
Definition first_ready {B : Type} (ready : B -> option Z) (b : B) (t : Z) : Prop :=
  ready b = Some t /\ forall b' at_, ready b' = Some at_ -> (t <= at_)%Z.
Lemma first_ready_spec {B : Type} : SelectSpec (@first_ready B).
Proof.
  split.
  - intros ready b t [E _]. exists t. split; [done|apply Z.le_refl].
  - intros ready b t b' at_ [_ H]. apply H.
Qed.
Definition every (period due _ : Z) : Z := (due + period)%Z.
Lemma every_spec period : IntervalSpec (every period) period.
Proof. split; intros due t H; unfold every; lia. Qed.

(** Minutes after the epoch, as an instant. *)
Definition at_minute (m : Z) : @datetime chrono := (m * 60000000000)%Z.
(** num / 10^scale. *)
Definition d (n s : Z) : @dec decimal := @dec_new decimal n s.
End Concrete.
