(* ===== verification/Handler.v ===== *)
(** * Handlers

    The long asynchronous methods of the services read and write shared state,
    call one another, and return early.  [handler W R A] is a piece of such a
    method: from the state it gives the state after it and either a value to go
    on with or the value the method returns ([return], [?]); [None] is a panic.
    A whole method is a [handler W R R], run by [run_handler] and called from
    another by [call].  [wp] is its weakest precondition (total: no panic),
    with one rule per combinator. *)

From S2P Require Import Prelude.

(** How a piece of a method ends: the method goes on, or returns. *)
Inductive flow (R A : Type) : Type :=
| Go (a : A)
| Return (r : R).
Arguments Go {R A} _.
Arguments Return {R A} _.

Definition handler (W R A : Type) : Type := W -> option (W * flow R A).

Section Handler.
Context {W R : Type}.

Definition ret {A} (a : A) : handler W R A := fun w => Some (w, Go a).
Definition bind {A B} (m : handler W R A) (k : A -> handler W R B) : handler W R B := fun w =>
  match m w with
  | None => None
  | Some (w, Go a) => k a w
  | Some (w, Return r) => Some (w, Return r)
  end.
(** [return r;]. *)
Definition return_ {A} (r : R) : handler W R A := fun w => Some (w, Return r).
Definition get_state : handler W R W := fun w => Some (w, Go w).
Definition modify (f : W -> W) : handler W R unit := fun w => Some (f w, Go tt).
(** A computation that may panic. *)
Definition attempt {A} (o : option A) : handler W R A := fun w => a ← o; Some (w, Go a).
Definition when (c : bool) (m : handler W R unit) : handler W R unit :=
  if c then m else ret tt.

(** A state change with an answer. *)
Definition update {A} (f : W -> W * A) : handler W R A := fun w =>
  let '(w, a) := f w in Some (w, Go a).
(** One that may panic. *)
Definition try_update {A} (f : W -> option (W * A)) : handler W R A := fun w =>
  '(w, a) ← f w; Some (w, Go a).

(** The whole method: the state it leaves and what it returns. *)
Definition run_handler (m : handler W R R) (w : W) : option (W * R) :=
  '(w, f) ← m w; Some (w, match f with Go r | Return r => r end).

Fixpoint for_each {A} (f : A -> handler W R unit) (l : list A) : handler W R unit :=
  match l with
  | [] => ret tt
  | a :: l => bind (f a) (fun _ => for_each f l)
  end.

(** A loop with local variables. *)
Fixpoint fold_each {A S} (f : A -> S -> handler W R S) (l : list A) (s : S) : handler W R S :=
  match l with
  | [] => ret s
  | a :: l => bind (f a s) (fold_each f l)
  end.
End Handler.

(** A call of a method from another. *)
Definition call {W R' R} (m : handler W R' R') : handler W R R' := try_update (run_handler m).
(** [r?] and [self.m(..).await?]: an error is returned. *)
Definition propagate {W A B E} (r : result A E) : handler W (result B E) A :=
  match r with Ok a => ret a | Err e => return_ (Err e) end.
Definition try_call {W A B E} (m : handler W (result A E) (result A E))
    : handler W (result B E) A := bind (call m) propagate.
(** A method of a component of the state. *)
Definition focus {V W R A} (view : W -> V) (put : V -> W -> W) (m : handler V R A)
    : handler W R A := fun w =>
  '(v, a) ← m (view w); Some (put v w, a).

Declare Scope handler_scope.
Delimit Scope handler_scope with handler.
Notation "'let!' x ':=' m 'in' k" := (bind m (fun x => k))
  (at level 10, x pattern, m at level 100, k at level 200) : handler_scope.
Notation "m ;; k" := (bind m (fun _ => k))
  (at level 100, k at level 200, right associativity) : handler_scope.

(** ** Weakest preconditions *)

Section Wp.
Context {W R : Type}.
Implicit Types (w : W) (r : R).

Definition wp {A} (m : handler W R A) (Q : W -> flow R A -> Prop) (w : W) : Prop :=
  match m w with Some (w', f) => Q w' f | None => False end.

Lemma wp_ret {A} (a : A) (Q : W -> flow R A -> Prop) w : Q w (Go a) -> wp (ret a) Q w.
Proof. done. Qed.
Lemma wp_return {A} r (Q : W -> flow R A -> Prop) w : Q w (Return r) -> wp (return_ r) Q w.
Proof. done. Qed.
Lemma wp_modify f (Q : W -> flow R unit -> Prop) w : Q (f w) (Go tt) -> wp (modify f) Q w.
Proof. done. Qed.
Lemma wp_get (Q : W -> flow R W -> Prop) w : Q w (Go w) -> wp get_state Q w.
Proof. done. Qed.
Lemma wp_attempt {A} (o : option A) a (Q : W -> flow R A -> Prop) w :
  o = Some a -> Q w (Go a) -> wp (attempt o) Q w.
Proof. by intros ->. Qed.

Lemma wp_bind {A B} (m : handler W R A) (k : A -> handler W R B) Q w :
  wp m (fun w f => match f with Go a => wp (k a) Q w | Return r => Q w (Return r) end) w ->
  wp (bind m k) Q w.
Proof. unfold wp, bind. destruct (m w) as [[w' [a|r]]|]; done. Qed.

Lemma wp_mono {A} (m : handler W R A) (Q Q' : W -> flow R A -> Prop) w :
  wp m Q w -> (forall w f, Q w f -> Q' w f) -> wp m Q' w.
Proof. unfold wp. destruct (m w) as [[w' f]|]; [|done]. intros H HQ. by apply HQ. Qed.

Lemma wp_when c m (Q : W -> flow R unit -> Prop) w :
  (c = true -> wp m Q w) -> (c = false -> Q w (Go tt)) -> wp (when c m) Q w.
Proof. destruct c; intros H1 H2; [by apply H1|by apply H2]. Qed.

Lemma wp_update {A} (f : W -> W * A) (Q : W -> flow R A -> Prop) w :
  (forall w' a, f w = (w', a) -> Q w' (Go a)) -> wp (update f) Q w.
Proof. unfold wp, update. destruct (f w) as [w' a]. intros H. by apply H. Qed.

Lemma wp_try_update {A} (f : W -> option (W * A)) w' a (Q : W -> flow R A -> Prop) w :
  f w = Some (w', a) -> Q w' (Go a) -> wp (try_update f) Q w.
Proof. unfold wp, try_update. by intros ->. Qed.

(** An invariant goes through a loop. *)
Lemma wp_for_each {A} (I : W -> Prop) (f : A -> handler W R unit) l (Q : W -> flow R unit -> Prop) w :
  I w ->
  (forall a w, a ∈ l -> I w -> wp (f a) (fun w f => match f with Go _ => I w | Return r => Q w (Return r) end) w) ->
  (forall w, I w -> Q w (Go tt)) ->
  wp (for_each f l) Q w.
Proof.
  intros Hi Hf HQ. revert w Hi. induction l as [|a l IH]; intros w Hi; simpl; [by apply HQ|].
  apply wp_bind. eapply wp_mono; [apply Hf; [apply list_elem_of_here|done]|].
  intros w' [[]|r] H; [|done]. apply IH; [|done].
  intros b w0 Hb. apply Hf. by apply list_elem_of_further.
Qed.

(** One that speaks of what is left of the list. *)
Lemma wp_for_each_rest {A} (I : list A -> W -> Prop) (f : A -> handler W R unit) l
    (Q : W -> flow R unit -> Prop) w :
  I l w ->
  (forall a l w, I (a :: l) w ->
     wp (f a) (fun w f => match f with Go _ => I l w | Return r => Q w (Return r) end) w) ->
  (forall w, I [] w -> Q w (Go tt)) ->
  wp (for_each f l) Q w.
Proof.
  intros Hi Hf HQ. revert w Hi. induction l as [|a l IH]; intros w Hi; simpl; [by apply HQ|].
  apply wp_bind. eapply wp_mono; [by apply Hf|]. intros w' [[]|r] ?; [by apply IH|done].
Qed.

Lemma wp_fold_each {A S} (I : list A -> S -> W -> Prop) (f : A -> S -> handler W R S) l s
    (Q : W -> flow R S -> Prop) w :
  I l s w ->
  (forall a l s w, I (a :: l) s w ->
     wp (f a s) (fun w f => match f with Go s => I l s w | Return r => Q w (Return r) end) w) ->
  (forall s w, I [] s w -> Q w (Go s)) ->
  wp (fold_each f l s) Q w.
Proof.
  intros Hi Hf HQ. revert s w Hi. induction l as [|a l IH]; intros s w Hi; simpl; [by apply HQ|].
  apply wp_bind. eapply wp_mono; [by apply Hf|]. intros w' [s'|r] ?; [by apply IH|done].
Qed.

(** What holds of a whole method holds of its run. *)
Lemma wp_run (m : handler W R R) (Q : W -> R -> Prop) w :
  wp m (fun w f => Q w match f with Go r | Return r => r end) w ->
  exists w' r, run_handler m w = Some (w', r) /\ Q w' r.
Proof.
  unfold wp, run_handler. destruct (m w) as [[w' f]|]; [|done]. intros H.
  exists w'. eexists. by split.
Qed.
Lemma wp_run_inv (m : handler W R R) (Q : W -> R -> Prop) w w' r :
  wp m (fun w f => Q w match f with Go r | Return r => r end) w ->
  run_handler m w = Some (w', r) -> Q w' r.
Proof. intros (w1 & r1 & E & H)%wp_run E'. by simplify_eq. Qed.
(** The equations of [bind], to run a method on known values. *)
Lemma bind_ret {A B} (a : A) (k : A -> handler W R B) : bind (ret a) k = k a.
Proof. done. Qed.
Lemma bind_step {A B} (m : handler W R A) (k : A -> handler W R B) w w' a :
  m w = Some (w', Go a) -> bind m k w = k a w'.
Proof. unfold bind. by intros ->. Qed.
Lemma bind_return {A B} (m : handler W R A) (k : A -> handler W R B) w w' r :
  m w = Some (w', Return r) -> bind m k w = Some (w', Return r).
Proof. unfold bind. by intros ->. Qed.
End Wp.

Lemma wp_call {W R R'} (m : handler W R' R') (Q : W -> flow R R' -> Prop) w :
  wp m (fun w f => Q w (Go match f with Go r | Return r => r end)) w -> wp (call m) Q w.
Proof.
  intros (w' & r & E & H)%(wp_run m (fun w r => Q w (Go r))).
  by eapply wp_try_update.
Qed.

Lemma wp_try_call {W A B E} (m : handler W (result A E) (result A E))
    (Q : W -> flow (result B E) A -> Prop) w :
  wp m (fun w f => match match f with Go r | Return r => r end with
                   | Ok a => Q w (Go a) | Err e => Q w (Return (Err e)) end) w ->
  wp (try_call m) Q w.
Proof.
  intros H. unfold try_call. apply wp_bind, wp_call. eapply wp_mono; [exact H|].
  intros w' f Hf. cbv beta iota in *. by destruct (match f with Go r | Return r => r end).
Qed.

(** One step of the proof of a [wp]. *)
Ltac wp_step :=
  lazymatch goal with
  | |- wp (bind _ _) _ _ => apply wp_bind
  | |- wp (ret _) _ _ => apply wp_ret
  | |- wp (return_ _) _ _ => apply wp_return
  | |- wp (modify _) _ _ => apply wp_modify
  | |- wp get_state _ _ => apply wp_get
  | |- wp (call _) _ _ => apply wp_call
  | |- wp (when _ _) _ _ => apply wp_when; intros ?
  | |- wp (if ?c then _ else _) _ _ => let E := fresh "E" in destruct c eqn:E
  | |- wp (match ?o with _ => _ end) _ _ => let E := fresh "E" in destruct o eqn:E
  end; cbv beta iota.

(** ** Invariants, whether the run returns or panics *)

Section Stays.
Context {W R : Type}.
Implicit Types (I : W -> Prop).

Definition stays {A} I (m : handler W R A) : Prop :=
  forall w w' f, I w -> m w = Some (w', f) -> I w'.

Lemma stays_ret {A} I (a : A) : stays I (ret a).
Proof. intros w w' f Hi [= <- _]. done. Qed.
Lemma stays_return {A} I r : stays I (return_ (A := A) r).
Proof. intros w w' f Hi [= <- _]. done. Qed.
Lemma stays_get I : stays I get_state.
Proof. intros w w' f Hi [= <- _]. done. Qed.
Lemma stays_attempt {A} I (o : option A) : stays I (attempt o).
Proof. intros w w' f Hi H. unfold attempt in H. inv_bind. done. Qed.
Lemma stays_modify I g : (forall w, I w -> I (g w)) -> stays I (modify g).
Proof. intros Hg w w' f Hi [= <- _]. by apply Hg. Qed.
Lemma stays_update {A} I (g : W -> W * A) : (forall w, I w -> I (g w).1) -> stays I (update g).
Proof.
  intros Hg w w' f Hi H. specialize (Hg w Hi). unfold update in H. destruct (g w). by injection H as <- _.
Qed.
Lemma stays_try_update {A} I (g : W -> option (W * A)) :
  (forall w w' a, I w -> g w = Some (w', a) -> I w') -> stays I (try_update g).
Proof.
  intros Hg w w' f Hi H. unfold try_update in H. destruct (g w) as [[w1 a]|] eqn:E; [|done].
  injection H as <- _. by eapply Hg.
Qed.
Lemma stays_bind {A B} I (m : handler W R A) (k : A -> handler W R B) :
  stays I m -> (forall a, stays I (k a)) -> stays I (bind m k).
Proof.
  intros Hm Hk w w' f Hi H. unfold bind in H. destruct (m w) as [[w1 [a|r]]|] eqn:E; [| |done].
  - eapply Hk; [|exact H]. by eapply Hm.
  - injection H as <- _. by eapply Hm.
Qed.
Lemma stays_when I c m : stays I m -> stays I (when c m).
Proof. destruct c; [done|]. intros _. apply stays_ret. Qed.
End Stays.

Lemma stays_call {W R R'} (I : W -> Prop) (m : handler W R' R') :
  stays I m -> stays I (call (R := R) m).
Proof.
  intros Hm. apply stays_try_update. intros w w' r Hi E. unfold run_handler in E.
  destruct (m w) as [[w1 f]|] eqn:Em; [|done]. simpl in E. injection E as <- _. by eapply Hm.
Qed.
Lemma stays_run {W R} (I : W -> Prop) (m : handler W R R) w w' r :
  stays I m -> I w -> run_handler m w = Some (w', r) -> I w'.
Proof.
  intros Hm Hi E. unfold run_handler in E. destruct (m w) as [[w1 f]|] eqn:Em; [|done].
  simpl in E. injection E as <- _. by eapply Hm.
Qed.

(** The cases of a proof of [stays]. *)
Ltac stays_step :=
  lazymatch goal with
  | |- stays _ (bind _ _) => apply stays_bind; [|intros ?]
  | |- stays _ (ret _) => apply stays_ret
  | |- stays _ (return_ _) => apply stays_return
  | |- stays _ get_state => apply stays_get
  | |- stays _ (attempt _) => apply stays_attempt
  | |- stays _ (modify _) => apply stays_modify; intros ??
  | |- stays _ (update _) => apply stays_update; intros ??
  | |- stays _ (when _ _) => apply stays_when
  | |- stays _ (call _) => apply stays_call
  | |- stays _ (propagate ?r) => unfold propagate; destruct r
  | |- stays _ (let (_, _) := ?o in _) => destruct o
  | |- stays _ (if ?c then _ else _) => destruct c
  | |- stays _ (match ?o with _ => _ end) => destruct o
  end; cbv beta iota.
