(* ===== verification/CircuitBreaker.v ===== *)
(** * The circuit breaker

    Models [crates/risk-manager/src/circuit_breaker.rs] and
    [circuit_breaker_repo.rs]: the thresholds that halt trading, the cooldown,
    the staged recovery, the hard kill switch and the row of the table
    [circuit_breaker_state] that survives a restart.

    A [CircuitBreaker] holds what the struct holds: the configuration, the
    state, the [AtomicBool] of the fast path and, when persistence is
    configured, the repository (the table's row, if there is one).  An
    operation takes the instants it reads from the clock ([now], and
    [trip_now] for a second reading made after a lock was released) and [io],
    whether each query it sends succeeds, in order. [None] is a panic. *)

From S2P Require Import Prelude F64 Platform.

(** Reason for circuit breaker activation. *)
Inductive TripReason : Type :=
| DailyLossLimit
| MaxDrawdown
| ConsecutiveLosses
| Manual
| Connectivity
| MarketConditions
| HardKillSwitch.

#[export] Instance TripReason_eq_dec : EqDecision TripReason.
Proof. solve_decision. Defined.

(** An error of the database, whatever it is. *)
Inductive db_error : Type := DbError.

Section CircuitBreaker.
Context `{DO : DecimalOps} `{CO : ChronoOps}.

(** Configuration for circuit breaker thresholds. *)
Record CircuitBreakerConfig : Type := {
  max_daily_loss : dec;
  max_drawdown_pct : dec;
  max_consecutive_losses : Z;
  cooldown_minutes : Z;
  enabled : bool;
  gradual_recovery_enabled : bool;
  recovery_stages : Z;
  recovery_stage_minutes : Z;
  require_profit_to_advance : bool;
  hard_kill_drawdown_pct : dec;
}.

Definition default_config : CircuitBreakerConfig := {|
  max_daily_loss := dec_new 2500 0;
  max_drawdown_pct := dec_new 20 2;
  max_consecutive_losses := 8;
  cooldown_minutes := 30;
  enabled := true;
  gradual_recovery_enabled := true;
  recovery_stages := 3;
  recovery_stage_minutes := 10;
  require_profit_to_advance := false;
  hard_kill_drawdown_pct := dec_new 40 2;
|}.

(** State for gradual recovery mode. *)
Record RecoveryState : Type := {
  current_stage : Z;
  total_stages : Z;
  started_at : datetime;
  stage_started_at : datetime;
  next_stage_at : option datetime;
  had_profit_this_stage : bool;
  trades_this_stage : Z;
  recovery_pnl : dec;
}.

(** Current state of the circuit breaker. *)
Record CircuitBreakerState : Type := {
  tripped : bool;
  trip_reason : option TripReason;
  tripped_at : option datetime;
  resume_at : option datetime;
  daily_pnl : dec;
  peak_value : dec;
  current_value : dec;
  consecutive_losses : Z;
  trips_today : Z;
  recovery_state : option RecoveryState;
  last_reset_date : naive_date;
  portfolio_value_seeded : bool;
}.

Definition recovery_new (stages stage_minutes : Z) (now : datetime) : RecoveryState := {|
  current_stage := 1;
  total_stages := stages;
  started_at := now;
  stage_started_at := now;
  next_stage_at := Some (add_minutes now stage_minutes);
  had_profit_this_stage := false;
  trades_this_stage := 0;
  recovery_pnl := ZERO;
|}.

(** Current capacity (0.0 to 1.0). *)
Definition capacity_pct (r : RecoveryState) : option dec :=
  dec_div (dec_of_Z (current_stage r)) (dec_of_Z (total_stages r)).

Definition is_fully_recovered (r : RecoveryState) : bool :=
  (total_stages r <=? current_stage r)%Z.

Definition default_state (now : datetime) : CircuitBreakerState := {|
  tripped := false;
  trip_reason := None;
  tripped_at := None;
  resume_at := None;
  daily_pnl := ZERO;
  peak_value := ZERO;
  current_value := ZERO;
  consecutive_losses := 0;
  trips_today := 0;
  recovery_state := None;
  last_reset_date := date_naive now;
  portfolio_value_seeded := false;
|}.

(** ** The repository: the row [id = 1] of [circuit_breaker_state] *)

Record CircuitBreakerRow : Type := {
  row_tripped : bool;
  row_trip_reason : option string;
  row_tripped_at : option datetime;
  row_resume_at : option datetime;
  row_daily_pnl : dec;
  row_peak_value : dec;
  row_current_value : dec;
  row_consecutive_losses : Z;
  row_trips_today : Z;
  row_last_reset_date : naive_date;
}.

Definition parse_trip_reason (s : string) : option TripReason :=
  if bool_decide (s = "daily_loss_limit") then Some DailyLossLimit
  else if bool_decide (s = "max_drawdown") then Some MaxDrawdown
  else if bool_decide (s = "consecutive_losses") then Some ConsecutiveLosses
  else if bool_decide (s = "manual") then Some Manual
  else if bool_decide (s = "connectivity") then Some Connectivity
  else if bool_decide (s = "market_conditions") then Some MarketConditions
  else if bool_decide (s = "hard_kill_switch") then Some HardKillSwitch
  else None.

Definition trip_reason_to_string (r : TripReason) : string :=
  match r with
  | DailyLossLimit => "daily_loss_limit"
  | MaxDrawdown => "max_drawdown"
  | ConsecutiveLosses => "consecutive_losses"
  | Manual => "manual"
  | Connectivity => "connectivity"
  | MarketConditions => "market_conditions"
  | HardKillSwitch => "hard_kill_switch"
  end.

(** [load]: the state a row holds.  The recovery state is not persisted. *)
Definition repo_load (now : datetime) (r : CircuitBreakerRow) : CircuitBreakerState := {|
  tripped := row_tripped r;
  trip_reason := row_trip_reason r ≫= parse_trip_reason;
  tripped_at := row_tripped_at r;
  resume_at := row_resume_at r;
  daily_pnl := row_daily_pnl r;
  peak_value := row_peak_value r;
  current_value := row_current_value r;
  consecutive_losses := i32_as_u32 (row_consecutive_losses r);
  trips_today := i32_as_u32 (row_trips_today r);
  recovery_state := None;
  last_reset_date := date_naive now;
  portfolio_value_seeded := (row_peak_value r >? ZERO)%dec;
|}.

(** [save]: the UPDATE, which does not touch [last_reset_date]. *)
Definition repo_save (s : CircuitBreakerState) (r : CircuitBreakerRow) : CircuitBreakerRow := {|
  row_tripped := tripped s;
  row_trip_reason := trip_reason_to_string <$> trip_reason s;
  row_tripped_at := tripped_at s;
  row_resume_at := resume_at s;
  row_daily_pnl := daily_pnl s;
  row_peak_value := peak_value s;
  row_current_value := current_value s;
  row_consecutive_losses := u32_as_i32 (consecutive_losses s);
  row_trips_today := u32_as_i32 (trips_today s);
  row_last_reset_date := row_last_reset_date r;
|}.

(** [update_last_reset_date]. *)
Definition repo_update_last_reset_date (d : naive_date) (r : CircuitBreakerRow)
    : CircuitBreakerRow :=
  {| r with row_last_reset_date := d |}.

(** ** The breaker *)

(** [cb_repo] is [None] without persistence, [Some None] on a table without
    the row. *)
Record CircuitBreaker : Type := {
  cb_config : CircuitBreakerConfig;
  cb_state : CircuitBreakerState;
  cb_is_tripped : bool;
  cb_repo : option (option CircuitBreakerRow);
}.

Definition cb_new (config : CircuitBreakerConfig) (now : datetime) : CircuitBreaker := {|
  cb_config := config; cb_state := default_state now; cb_is_tripped := false;
  cb_repo := None |}.

Definition cb_with_persistence (config : CircuitBreakerConfig)
    (table : option CircuitBreakerRow) (now : datetime) : CircuitBreaker := {|
  cb_config := config; cb_state := default_state now; cb_is_tripped := false;
  cb_repo := Some table |}.

(** Persist the current state; a failed query is logged and dropped. *)
Definition persist_state (io : bool) (b : CircuitBreaker) : CircuitBreaker :=
  if io
  then {| b with cb_repo := fmap (M := option) (fmap (repo_save (cb_state b))) (cb_repo b) |}
  else b.

Definition is_tripped (b : CircuitBreaker) : bool := cb_is_tripped b.

Definition reset (io : bool) (b : CircuitBreaker) : CircuitBreaker :=
  let state := {| (cb_state b) with
    tripped := false; trip_reason := None; tripped_at := None; resume_at := None |} in
  persist_state io {| b with cb_state := state; cb_is_tripped := false |}.

Definition reset_daily (io : bool) (b : CircuitBreaker) : CircuitBreaker :=
  let state := {| (cb_state b) with
    daily_pnl := ZERO; consecutive_losses := 0; trips_today := 0 |} in
  persist_state io {| b with cb_state := state |}.

(** [trip_internal], on the state; the caller stores [true] in the flag. *)
Definition trip_state (config : CircuitBreakerConfig) (reason : TripReason)
    (now : datetime) (s : CircuitBreakerState) : CircuitBreakerState :=
  let s := {| s with
    tripped := true; trip_reason := Some reason; tripped_at := Some now;
    trips_today := u32_add (trips_today s) 1 |} in
  if bool_decide (reason = HardKillSwitch)
  then {| s with resume_at := None |}
  else {| s with resume_at := Some (add_minutes now (cooldown_minutes config)) |}.

Definition trip_internal (reason : TripReason) (now : datetime) (b : CircuitBreaker)
    : CircuitBreaker :=
  {| b with cb_state := trip_state (cb_config b) reason now (cb_state b);
            cb_is_tripped := true |}.

(** [(peak_value - current_value) / peak_value]. *)
Definition drawdown (s : CircuitBreakerState) : option dec :=
  dec_div (peak_value s - current_value s)%dec (peak_value s).

(** The hard kill switch fires at this drawdown. *)
Definition hard_kill_hit (config : CircuitBreakerConfig) (dd : dec) : bool :=
  (hard_kill_drawdown_pct config >? ZERO)%dec && (dd >=? hard_kill_drawdown_pct config)%dec.

Definition check_thresholds (config : CircuitBreakerConfig) (s : CircuitBreakerState)
    : option (option TripReason) :=
  if (daily_pnl s <? ZERO)%dec && (dec_abs (daily_pnl s) >=? max_daily_loss config)%dec
  then Some (Some DailyLossLimit)
  else if (max_consecutive_losses config <=? consecutive_losses s)%Z
  then Some (Some ConsecutiveLosses)
  else if (peak_value s >? ZERO)%dec then
    dd ← drawdown s;
    Some (if hard_kill_hit config dd then Some HardKillSwitch
          else if (dd >=? max_drawdown_pct config)%dec then Some MaxDrawdown
          else None)
  else Some None.

(** ** Recovery *)

Definition start_recovery (io : bool) (now : datetime) (b : CircuitBreaker)
    : option CircuitBreaker :=
  let recovery := recovery_new (recovery_stages (cb_config b))
                    (recovery_stage_minutes (cb_config b)) now in
  (* the capacity is evaluated for the log line *)
  _ ← capacity_pct recovery;
  let state := {| (cb_state b) with
    tripped := false; trip_reason := None; recovery_state := Some recovery |} in
  Some (persist_state io {| b with cb_state := state; cb_is_tripped := false |}).

(** Check if trading is allowed: the answer, and the breaker after the call
    (an expired cooldown starts the recovery, or resets). *)
Definition can_trade (io : bool) (now : datetime) (b : CircuitBreaker)
    : option (CircuitBreaker * bool) :=
  if negb (enabled (cb_config b)) then Some (b, true)
  else if bool_decide (is_Some (recovery_state (cb_state b))) then Some (b, true)
  else if negb (cb_is_tripped b) then Some (b, true)
  else match resume_at (cb_state b) with
  | Some t =>
      if dt_leb t now then
        if gradual_recovery_enabled (cb_config b)
        then b' ← start_recovery io now b; Some (b', true)
        else Some (reset io b, true)
      else Some (b, false)
  | None => Some (b, false)
  end.

(** Current trading capacity (0.0 to 1.0). *)
Definition trading_capacity (b : CircuitBreaker) : option dec :=
  match recovery_state (cb_state b) with
  | Some r => capacity_pct r
  | None => Some ONE
  end.

Definition is_in_recovery (b : CircuitBreaker) : bool :=
  bool_decide (is_Some (recovery_state (cb_state b))).

Definition set_recovery (r : option RecoveryState) (b : CircuitBreaker) : CircuitBreaker :=
  {| b with cb_state := {| (cb_state b) with recovery_state := r |} |}.

(** Advance the recovery to the next stage if the conditions are met. *)
Definition try_advance_recovery (io : bool) (now : datetime) (b : CircuitBreaker)
    : option (CircuitBreaker * bool) :=
  match recovery_state (cb_state b) with
  | None => Some (b, false)
  | Some r =>
      if is_fully_recovered r
      then Some (persist_state io (set_recovery None b), true)
      else
        let time_ready := match next_stage_at r with Some t => dt_leb t now | None => true end in
        let profit_ready :=
          negb (require_profit_to_advance (cb_config b)) || had_profit_this_stage r in
        if time_ready && profit_ready then
          let r := {| r with
            current_stage := u32_add (current_stage r) 1;
            stage_started_at := now;
            next_stage_at := Some (add_minutes now (recovery_stage_minutes (cb_config b)));
            had_profit_this_stage := false;
            trades_this_stage := 0 |} in
          (* the capacity is evaluated for the log line *)
          _ ← capacity_pct r;
          let recovery := if is_fully_recovered r then None else Some r in
          Some (persist_state io (set_recovery recovery b), true)
        else Some (b, false)
  end.

(** Force exit from recovery mode; [complete] only selects the log line. *)
Definition exit_recovery (io : bool) (complete : bool) (b : CircuitBreaker) : CircuitBreaker :=
  persist_state io (set_recovery None b).

(** ** Recording trades and portfolio values *)

(** The daily counters, reset when the date has changed. *)
Definition roll_over (today : naive_date) (s : CircuitBreakerState) : CircuitBreakerState :=
  if date_eqb (last_reset_date s) today then s
  else {| s with daily_pnl := ZERO; consecutive_losses := 0; trips_today := 0;
                 last_reset_date := today |}.

(** The counters and the delta-based equity after a trade. *)
Definition book_trade (pnl : dec) (is_win : bool) (s : CircuitBreakerState)
    : CircuitBreakerState :=
  let s := {| s with
    daily_pnl := (daily_pnl s + pnl)%dec;
    consecutive_losses := if is_win then 0 else u32_add (consecutive_losses s) 1 |} in
  if portfolio_value_seeded s then s
  else
    let value := (current_value s + pnl)%dec in
    {| s with current_value := value;
              peak_value := if (value >? peak_value s)%dec then value else peak_value s |}.

(** Whether the hard kill check of [record_trade] fires, in any mode. *)
Definition hard_kill_check (config : CircuitBreakerConfig) (s : CircuitBreakerState)
    : option bool :=
  if (peak_value s >? ZERO)%dec
  then dd ← drawdown s; Some (hard_kill_hit config dd)
  else Some false.

(** The consecutive-loss limit at a capacity:
    [(max as f64 * capacity_f64).max(1.0) as u32]. *)
Definition scaled_consecutive (config : CircuitBreakerConfig) (capacity : dec) : Z :=
  let capacity_f64 := default f64_one (dec_parse_f64 capacity) in
  f64_as_u32 (f64_max (f64_mul (f64_of_Z (max_consecutive_losses config)) capacity_f64) f64_one).

(** The recovery's own counters after a trade. *)
Definition recovery_book (pnl : dec) (is_win : bool) (r : RecoveryState) : RecoveryState :=
  {| r with
     trades_this_stage := u32_add (trades_this_stage r) 1;
     recovery_pnl := (recovery_pnl r + pnl)%dec;
     had_profit_this_stage := if is_win then true else had_profit_this_stage r |}.

(** The stricter thresholds in recovery. *)
Definition recovery_retrip (config : CircuitBreakerConfig) (capacity : dec)
    (s : CircuitBreakerState) : option TripReason :=
  let scaled_max_loss := (max_daily_loss config * capacity)%dec in
  if (daily_pnl s <? ZERO)%dec && (dec_abs (daily_pnl s) >=? scaled_max_loss)%dec
  then Some DailyLossLimit
  else if (scaled_consecutive config capacity <=? consecutive_losses s)%Z
  then Some ConsecutiveLosses
  else None.

(** Trip from within [record_trade], with the locks taken again. *)
Definition record_trade_trip (io : bool) (reason : TripReason) (now : datetime)
    (b : CircuitBreaker) : CircuitBreaker :=
  persist_state io (trip_internal reason now b).

(** Record a trade result and check thresholds. *)
Definition record_trade (io : bool) (now trip_now : datetime) (pnl : dec) (is_win : bool)
    (b : CircuitBreaker) : option (CircuitBreaker * option TripReason) :=
  let config := cb_config b in
  if negb (enabled config) then Some (b, None)
  else
    let s := book_trade pnl is_win (roll_over (date_naive now) (cb_state b)) in
    let b := {| b with cb_state := s |} in
    hard_kill ← hard_kill_check config s;
    if hard_kill : bool then
      Some (record_trade_trip io HardKillSwitch trip_now (set_recovery None b),
            Some HardKillSwitch)
    else match recovery_state s with
    | Some r =>
        let r := recovery_book pnl is_win r in
        capacity ← capacity_pct r;
        match recovery_retrip config capacity s with
        | Some reason =>
            Some (record_trade_trip io reason trip_now (set_recovery None b), Some reason)
        | None => Some (persist_state io (set_recovery (Some r) b), None)
        end
    | None =>
        reason ← check_thresholds config s;
        let b := match reason with
                 | Some r => trip_internal r trip_now b
                 | None => b
                 end in
        Some (persist_state io b, reason)
    end.

(** Update the portfolio value (for the drawdown). *)
Definition update_portfolio_value (io : bool) (now : datetime) (value : dec)
    (b : CircuitBreaker) : option (CircuitBreaker * option TripReason) :=
  let config := cb_config b in
  if negb (enabled config) then Some (b, None)
  else
    let s := {| (cb_state b) with
      current_value := value;
      peak_value := if (value >? peak_value (cb_state b))%dec then value
                    else peak_value (cb_state b);
      portfolio_value_seeded := true |} in
    let b := {| b with cb_state := s |} in
    if (peak_value s >? ZERO)%dec then
      dd ← drawdown s;
      if hard_kill_hit config dd
      then Some (persist_state io (trip_internal HardKillSwitch now b), Some HardKillSwitch)
      else if (dd >=? max_drawdown_pct config)%dec
      then Some (persist_state io (trip_internal MaxDrawdown now b), Some MaxDrawdown)
      else Some (persist_state io b, None)
    else Some (persist_state io b, None).

(** Manually trip the circuit breaker. *)
Definition manual_trip (io : bool) (now : datetime) (b : CircuitBreaker) : CircuitBreaker :=
  persist_state io (trip_internal Manual now b).

(** Trip due to connectivity issues. *)
Definition trip_connectivity (io : bool) (now : datetime) (b : CircuitBreaker)
    : CircuitBreaker :=
  persist_state io (trip_internal Connectivity now b).

Definition update_config (config : CircuitBreakerConfig) (b : CircuitBreaker)
    : CircuitBreaker :=
  {| b with cb_config := config |}.

(** Load state from the database on startup; [io i] is the outcome of the
    i-th query. *)
Definition load_state (io : nat -> bool) (now : datetime) (b : CircuitBreaker)
    : CircuitBreaker * result bool db_error :=
  match cb_repo b with
  | None => (b, Ok false)
  | Some table =>
      if negb (io 0%nat) then (b, Err DbError)
      else
        let new_day := match table with
                       | Some row => date_ltb (row_last_reset_date row) (date_naive now)
                       | None => false
                       end in
        if new_day then
          let b := reset_daily (io 1%nat) b in
          if negb (io 2%nat) then (b, Err DbError)
          else ({| b with cb_repo := fmap (M := option)
                    (fmap (repo_update_last_reset_date (date_naive now))) (cb_repo b) |}, Ok true)
        else if negb (io 1%nat) then (b, Err DbError)
        else match table with
        | None => (b, Ok false)
        | Some row =>
            let s := repo_load now row in
            let b := {| b with cb_state := s; cb_is_tripped := tripped s |} in
            if tripped s && negb (bool_decide (trip_reason s = Some HardKillSwitch)) then
              match resume_at s with
              | Some t => if dt_leb t now then (reset (io 2%nat) b, Ok true) else (b, Ok true)
              | None => (b, Ok true)
              end
            else (b, Ok true)
        end
  end.

(** ** Runs: any sequence of calls on a breaker *)

Inductive cb_call : Type :=
| CallCanTrade (io : bool) (now : datetime)
| CallTryAdvance (io : bool) (now : datetime)
| CallExitRecovery (io complete : bool)
| CallRecordTrade (io : bool) (now trip_now : datetime) (pnl : dec) (is_win : bool)
| CallUpdatePortfolio (io : bool) (now : datetime) (value : dec)
| CallManualTrip (io : bool) (now : datetime)
| CallTripConnectivity (io : bool) (now : datetime)
| CallReset (io : bool)
| CallResetDaily (io : bool)
| CallUpdateConfig (config : CircuitBreakerConfig)
| CallLoadState (io : nat -> bool) (now : datetime).

(** The breaker after a call; [None] when the call panics. *)
Definition cb_exec (c : cb_call) (b : CircuitBreaker) : option CircuitBreaker :=
  match c with
  | CallCanTrade io now => fst <$> can_trade io now b
  | CallTryAdvance io now => fst <$> try_advance_recovery io now b
  | CallExitRecovery io complete => Some (exit_recovery io complete b)
  | CallRecordTrade io now trip_now pnl is_win => fst <$> record_trade io now trip_now pnl is_win b
  | CallUpdatePortfolio io now value => fst <$> update_portfolio_value io now value b
  | CallManualTrip io now => Some (manual_trip io now b)
  | CallTripConnectivity io now => Some (trip_connectivity io now b)
  | CallReset io => Some (reset io b)
  | CallResetDaily io => Some (reset_daily io b)
  | CallUpdateConfig config => Some (update_config config b)
  | CallLoadState io now => Some (fst (load_state io now b))
  end.

Definition cb_step (b b' : CircuitBreaker) : Prop := exists c, cb_exec c b = Some b'.

Fixpoint cb_run (cs : list cb_call) (b : CircuitBreaker) : option CircuitBreaker :=
  match cs with
  | [] => Some b
  | c :: cs => b ← cb_exec c b; cb_run cs b
  end.

End CircuitBreaker.
