(* ===== verification/CircuitBreakerFacts.v ===== *)
(** * Properties of the circuit breaker

    The invariant every run keeps (with the absence of panics), the hard kill
    switch, the cooldown and recovery machine, the thresholds in terms of the
    numbers they compare, and the round trip through the database row.  Three
    theorems state behaviours at odds with the code's own comments: a trip
    during recovery that does not halt trading, a hard kill that a later trip
    makes resumable, and a hard kill lost on a restart on a new day. *)

From S2P Require Import Prelude F64 Platform CircuitBreaker.

Section Facts.
Context `{DO : DecimalOps} `{CO : ChronoOps}.
Implicit Types (b : CircuitBreaker) (s : CircuitBreakerState) (r : RecoveryState).

(** ** Persisting changes the row only *)

Lemma persist_config io b : cb_config (persist_state io b) = cb_config b.
Proof. by destruct io. Qed.
Lemma persist_cb_state io b : cb_state (persist_state io b) = cb_state b.
Proof. by destruct io. Qed.
Lemma persist_flag io b : cb_is_tripped (persist_state io b) = cb_is_tripped b.
Proof. by destruct io. Qed.

(** ** The trip reason's column *)

Lemma parse_trip_reason_to_string reason :
  parse_trip_reason (trip_reason_to_string reason) = Some reason.
Proof. by destruct reason. Qed.

(** ** Invariant *)

Definition recovery_wf (r : RecoveryState) : Prop :=
  (1 <= current_stage r <= total_stages r)%Z /\ (total_stages r < 2 ^ 32)%Z.

Record state_wf (s : CircuitBreakerState) : Prop := {
  wf_tripped : tripped s = true -> is_Some (trip_reason s) /\ is_Some (tripped_at s);
  wf_untripped : tripped s = false -> trip_reason s = None;
  wf_hard_kill : trip_reason s = Some HardKillSwitch -> resume_at s = None;
  wf_soft : forall x, trip_reason s = Some x -> x <> HardKillSwitch -> is_Some (resume_at s);
  wf_losses : is_u32 (consecutive_losses s);
  wf_trips : is_u32 (trips_today s);
  wf_recovery : forall r, recovery_state s = Some r -> recovery_wf r;
}.

(** A row holds a well-formed state. *)
Record row_wf (row : CircuitBreakerRow) : Prop := {
  row_wf_tripped : row_tripped row = true ->
    is_Some (row_trip_reason row ≫= parse_trip_reason) /\ is_Some (row_tripped_at row);
  row_wf_untripped : row_tripped row = false -> row_trip_reason row ≫= parse_trip_reason = None;
  row_wf_hard_kill :
    row_trip_reason row ≫= parse_trip_reason = Some HardKillSwitch -> row_resume_at row = None;
  row_wf_soft : forall x, row_trip_reason row ≫= parse_trip_reason = Some x ->
    x <> HardKillSwitch -> is_Some (row_resume_at row);
}.

Definition config_wf (c : CircuitBreakerConfig) : Prop := (1 <= recovery_stages c < 2 ^ 32)%Z.

Record cb_inv (b : CircuitBreaker) : Prop := {
  inv_flag : cb_is_tripped b = tripped (cb_state b);
  inv_state : state_wf (cb_state b);
  inv_config : config_wf (cb_config b);
  inv_row : forall row, cb_repo b = Some (Some row) -> row_wf row;
}.

(** The only argument of a call the invariant constrains. *)
Definition call_wf (c : cb_call) : Prop :=
  match c with CallUpdateConfig config => config_wf config | _ => True end.

Lemma u32_zero : is_u32 0.
Proof. unfold is_u32. lia. Qed.
Hint Resolve u32_zero u32_add_range : core.

Lemma row_wf_save s row : state_wf s -> row_wf (repo_save s row).
Proof.
  intros [Ht Hu Hk Hs _ _ _].
  assert (E : row_trip_reason (repo_save s row) ≫= parse_trip_reason = trip_reason s).
  { simpl. destruct (trip_reason s); [|done]. simpl. apply parse_trip_reason_to_string. }
  split; rewrite E; auto.
Qed.

Lemma state_wf_load now row : row_wf row -> state_wf (repo_load now row).
Proof.
  intros [Ht Hu Hk Hs]. split; simpl; auto; try done; apply Z.mod_pos_bound; lia.
Qed.

Lemma state_wf_default now : state_wf (default_state now).
Proof. split; simpl; auto; done. Qed.

(** Persisting a well-formed state keeps the invariant. *)
Lemma inv_persist io b : cb_inv b -> cb_inv (persist_state io b).
Proof.
  intros [Hf Hs Hc Hr]. destruct io; [|by split]. split; simpl; auto.
  intros row. destruct (cb_repo b) as [[row0|]|] eqn:E; simpl; [|done..].
  intros [= <-]. by apply row_wf_save.
Qed.

Lemma inv_set_recovery rec b :
  (forall r, rec = Some r -> recovery_wf r) -> cb_inv b -> cb_inv (set_recovery rec b).
Proof. intros Hrec [Hf [] Hc Hr]. split; simpl; auto. split; simpl; auto. Qed.

Lemma state_wf_trip config reason now s :
  state_wf s -> state_wf (trip_state config reason now s).
Proof.
  intros []. unfold trip_state. case_bool_decide; subst; split; simpl; eauto; try done; congruence.
Qed.

Lemma inv_trip reason now b : cb_inv b -> cb_inv (trip_internal reason now b).
Proof. intros [Hf Hs Hc Hr]. split; simpl; auto using state_wf_trip. by unfold trip_state; case_bool_decide. Qed.

Lemma inv_reset io b : cb_inv b -> cb_inv (reset io b).
Proof.
  intros [Hf [] Hc Hr]. apply inv_persist. split; simpl; auto. split; simpl; auto; done.
Qed.

Lemma inv_reset_daily io b : cb_inv b -> cb_inv (reset_daily io b).
Proof. intros [Hf [] Hc Hr]. apply inv_persist. split; simpl; auto. split; simpl; auto. Qed.

Hint Resolve inv_persist inv_trip inv_set_recovery inv_reset inv_reset_daily : core.

(** ** Divisions succeed under the invariant *)

Context {DS : DecimalSpec}.

Lemma capacity_some r : recovery_wf r -> is_Some (capacity_pct r).
Proof. intros [Hr1 Hr2]. apply dec_div_pos_some, dec_of_Z_pos. lia. Qed.

(** A capacity lies in [0, 1]. *)
Lemma capacity_range r c : recovery_wf r -> capacity_pct r = Some c ->
  0 <= dval c /\ dval c <= 1.
Proof.
  intros [[Hr0 Hr1] Hr2] E. unfold capacity_pct in E.
  pose proof (dec_of_Z_pos (current_stage r) ltac:(lia)).
  pose proof (dec_of_Z_pos (total_stages r) ltac:(lia)).
  pose proof (dec_of_Z_le (current_stage r) (total_stages r) ltac:(lia) ltac:(lia) Hr1).
  rewrite <- dval_ZERO at 1. rewrite <- dval_ONE. split.
  - eapply dec_div_ge; [exact E|done|]. rewrite dval_ZERO. lra.
  - eapply dec_div_le; [exact E|done|]. rewrite dval_ONE. lra.
Qed.

Lemma drawdown_some s : (ZERO <? peak_value s)%dec = true -> is_Some (drawdown s).
Proof. intros E. dec_to_Q. by apply dec_div_pos_some. Qed.

Lemma hard_kill_check_some config s : is_Some (hard_kill_check config s).
Proof.
  unfold hard_kill_check. destruct (ZERO <? peak_value s)%dec eqn:E; [|by eexists].
  destruct (drawdown_some _ E) as [dd ->]. by eexists.
Qed.

Lemma check_thresholds_some config s : is_Some (check_thresholds config s).
Proof.
  unfold check_thresholds. repeat case_match; try by eexists.
  destruct (drawdown_some s) as [dd ->]; [done|]. by eexists.
Qed.

(** ** Each call returns and keeps the invariant *)

Definition call_keeps {A} (o : option (CircuitBreaker * A)) : Prop :=
  exists b' x, o = Some (b', x) /\ cb_inv b'.

Lemma recovery_new_wf config now :
  config_wf config ->
  recovery_wf (recovery_new (recovery_stages config) (recovery_stage_minutes config) now).
Proof. unfold config_wf, recovery_wf. simpl. lia. Qed.

Lemma start_recovery_keeps io now b :
  cb_inv b -> exists b', start_recovery io now b = Some b' /\ cb_inv b'.
Proof.
  intros [Hf [] Hc Hr]. unfold start_recovery.
  pose proof (recovery_new_wf (cb_config b) now Hc) as Hn.
  destruct (capacity_some _ Hn) as [c ->]. simpl. eexists; split; [done|].
  apply inv_persist. split; simpl; auto. split; simpl; auto; try done. by intros ? [= <-].
Qed.

Lemma can_trade_keeps io now b : cb_inv b -> call_keeps (can_trade io now b).
Proof.
  intros Hb. unfold call_keeps, can_trade. repeat case_match; eauto.
  destruct (start_recovery_keeps io now b Hb) as (b' & -> & Hb'). simpl. eauto.
Qed.

Lemma try_advance_keeps io now b : cb_inv b -> call_keeps (try_advance_recovery io now b).
Proof.
  intros Hb. unfold call_keeps, try_advance_recovery.
  destruct (recovery_state (cb_state b)) as [r|] eqn:Er; [|eauto].
  pose proof (wf_recovery _ (inv_state _ Hb) _ Er) as [Hr Ht].
  destruct (is_fully_recovered r) eqn:Ef; [do 2 eexists; split; [done|]; by apply inv_persist, inv_set_recovery|].
  destruct (_ && _); [|eauto].
  unfold is_fully_recovered in Ef. reflect_bools.
  match goal with |- context [capacity_pct ?x] => set (r' := x) end.
  assert (Hr' : recovery_wf r').
  { unfold recovery_wf, r'. simpl. rewrite u32_add_small by lia. lia. }
  destruct (capacity_some r' Hr') as [c ->]. simpl. do 2 eexists; split; [done|].
  apply inv_persist, inv_set_recovery; [|done]. intros x. case_match; [done|]. by intros [= <-].
Qed.

Lemma exit_recovery_keeps io complete b : cb_inv b -> cb_inv (exit_recovery io complete b).
Proof. intros. apply inv_persist, inv_set_recovery; [done|done]. Qed.

Lemma book_trade_wf pnl is_win s : state_wf s -> state_wf (book_trade pnl is_win s).
Proof.
  intros []. unfold book_trade. case_match; split; simpl; auto; destruct is_win; auto.
Qed.

Lemma roll_over_wf today s : state_wf s -> state_wf (roll_over today s).
Proof. intros Hs. unfold roll_over. case_match; [done|]. destruct Hs. split; simpl; auto. Qed.

Lemma roll_over_tripped today s : tripped (roll_over today s) = tripped s.
Proof. unfold roll_over. by case_match. Qed.
Lemma book_trade_tripped pnl is_win s : tripped (book_trade pnl is_win s) = tripped s.
Proof. unfold book_trade. by case_match. Qed.
Lemma roll_over_recovery today s : recovery_state (roll_over today s) = recovery_state s.
Proof. unfold roll_over. by case_match. Qed.
Lemma book_trade_recovery pnl is_win s : recovery_state (book_trade pnl is_win s) = recovery_state s.
Proof. unfold book_trade. by case_match. Qed.

Lemma recovery_book_wf pnl is_win r : recovery_wf r -> recovery_wf (recovery_book pnl is_win r).
Proof. done. Qed.

(** Booking a trade on a breaker keeps its invariant. *)
Lemma inv_booked today pnl is_win b :
  cb_inv b ->
  cb_inv {| b with cb_state := book_trade pnl is_win (roll_over today (cb_state b)) |}.
Proof.
  intros [Hf Hs Hc Hr]. split; simpl; auto using book_trade_wf, roll_over_wf.
  by rewrite book_trade_tripped, roll_over_tripped.
Qed.

Lemma record_trade_keeps io now trip_now pnl is_win b :
  cb_inv b -> call_keeps (record_trade io now trip_now pnl is_win b).
Proof.
  intros Hb. unfold call_keeps, record_trade. case_match; [eauto|].
  set (s := book_trade _ _ _).
  pose proof (inv_booked (date_naive now) pnl is_win b Hb) as Hb1. fold s in Hb1.
  destruct (hard_kill_check_some (cb_config b) s) as [hk ->]. simpl.
  assert (Hn : forall reason,
    cb_inv (record_trade_trip io reason trip_now (set_recovery None {| b with cb_state := s |}))).
  { intros. apply inv_persist, inv_trip, inv_set_recovery; done. }
  destruct hk; [eauto|].
  destruct (recovery_state s) as [r|] eqn:Er.
  - pose proof (wf_recovery _ (inv_state _ Hb1) _ Er) as Hr.
    destruct (capacity_some _ (recovery_book_wf pnl is_win r Hr)) as [c ->]. simpl.
    case_match; do 2 eexists; (split; [done|]); [apply Hn|].
    apply inv_persist, inv_set_recovery; [|done].
    intros ? [= <-]. by apply recovery_book_wf.
  - destruct (check_thresholds_some (cb_config b) s) as [[reason|] ->]; simpl; eauto 6.
Qed.

Lemma update_portfolio_keeps io now value b :
  cb_inv b -> call_keeps (update_portfolio_value io now value b).
Proof.
  intros Hb. unfold call_keeps, update_portfolio_value. case_match; [eauto|].
  match goal with |- context [drawdown ?x] => set (s := x) end.
  assert (Hb1 : cb_inv {| b with cb_state := s |}).
  { destruct Hb as [Hf [] Hc Hr]. split; simpl; auto. split; simpl; auto. }
  destruct (ZERO <? peak_value s)%dec eqn:E; [|eauto].
  destruct (drawdown_some s E) as [dd ->]. simpl. repeat case_match; eauto 7.
Qed.

Lemma load_state_keeps io now b : cb_inv b -> cb_inv (fst (load_state io now b)).
Proof.
  intros Hb. unfold load_state.
  destruct (cb_repo b) as [table|] eqn:Et; [|done].
  destruct (io 0%nat); simpl; [|done].
  destruct (match table with Some _ => _ | None => _ end).
  - destruct (io 2%nat); simpl; [|auto].
    pose proof (inv_reset_daily (io 1%nat) b Hb) as [Hf Hs Hc Hr].
    split; simpl; auto. intros row.
    destruct (cb_repo (reset_daily (io 1%nat) b)) as [[row0|]|]; simpl; [|done..].
    intros [= <-]. destruct (Hr _ eq_refl). by split.
  - destruct (io 1%nat); simpl; [|done]. destruct table as [row|]; [|done].
    assert (Hb1 : cb_inv {| b with cb_state := repo_load now row;
                                   cb_is_tripped := tripped (repo_load now row) |}).
    { destruct Hb as [Hf Hs Hc Hr]. split; simpl; auto. apply state_wf_load; auto. }
    rewrite Et in Hb1.
    repeat case_match; first [exact Hb1 | apply inv_reset; exact Hb1].
Qed.

(** Every call returns, and keeps the invariant. *)
Lemma cb_exec_keeps c b :
  cb_inv b -> call_wf c -> exists b', cb_exec c b = Some b' /\ cb_inv b'.
Proof.
  intros Hb Hc.
  assert (K : forall A (o : option (CircuitBreaker * A)), call_keeps o ->
    exists b', fst <$> o = Some b' /\ cb_inv b') by (intros A o (b' & x & -> & ?); simpl; eauto).
  destruct c; simpl in *;
    eauto using can_trade_keeps, try_advance_keeps, exit_recovery_keeps, record_trade_keeps,
      update_portfolio_keeps, load_state_keeps, inv_persist, inv_trip.
  eexists; split; [done|]. destruct Hb. by split.
Qed.

Lemma cb_run_keeps cs b :
  cb_inv b -> Forall call_wf cs -> exists b', cb_run cs b = Some b' /\ cb_inv b'.
Proof.
  revert b. induction cs as [|c cs IH]; intros b Hb Hcs; [eauto|].
  inversion_clear Hcs. simpl. destruct (cb_exec_keeps c b) as (b1 & -> & Hb1); [done..|]. by apply IH.
Qed.

(** ** The hard kill switch *)

(** Halted by the hard kill switch, outside recovery. *)
Record hard_killed (b : CircuitBreaker) : Prop := {
  hk_flag : cb_is_tripped b = true;
  hk_reason : trip_reason (cb_state b) = Some HardKillSwitch;
  hk_resume : resume_at (cb_state b) = None;
  hk_recovery : recovery_state (cb_state b) = None;
}.

(** The calls that neither reset the breaker, reload it, nor trip it for
    another reason. *)
Definition keeps_halt (c : cb_call) (b : CircuitBreaker) : Prop :=
  match c with
  | CallManualTrip _ _ | CallTripConnectivity _ _ | CallReset _ | CallLoadState _ _ => False
  | CallRecordTrade io now trip_now pnl is_win =>
      forall b' reason, record_trade io now trip_now pnl is_win b = Some (b', Some reason) ->
        reason = HardKillSwitch
  | CallUpdatePortfolio io now value =>
      forall b' reason, update_portfolio_value io now value b = Some (b', Some reason) ->
        reason = HardKillSwitch
  | _ => True
  end.

Definition quiet_step (b b' : CircuitBreaker) : Prop :=
  exists c, keeps_halt c b /\ cb_exec c b = Some b'.

Lemma hard_killed_persist io b : hard_killed b -> hard_killed (persist_state io b).
Proof. intros []. split; by rewrite ?persist_flag, ?persist_cb_state. Qed.

(** Only the four fields of the halt matter. *)
Lemma hard_killed_state b s :
  hard_killed b -> trip_reason s = trip_reason (cb_state b) ->
  resume_at s = resume_at (cb_state b) -> recovery_state s = recovery_state (cb_state b) ->
  hard_killed {| b with cb_state := s |}.
Proof. intros [] E1 E2 E3. split; simpl; congruence. Qed.

Lemma hard_killed_trip now b :
  recovery_state (cb_state b) = None -> hard_killed (trip_internal HardKillSwitch now b).
Proof. intros E. by split. Qed.

Hint Resolve hard_killed_persist hard_killed_trip : core.

Lemma hard_killed_can_trade io now b :
  hard_killed b -> can_trade io now b = Some (b, negb (enabled (cb_config b))).
Proof.
  intros [Hf Hr Hs Hv]. unfold can_trade. rewrite Hf, Hs, Hv.
  by destruct (enabled (cb_config b)).
Qed.

Lemma hard_killed_booked today pnl is_win b :
  hard_killed b ->
  hard_killed {| b with cb_state := book_trade pnl is_win (roll_over today (cb_state b)) |}.
Proof.
  intros. apply hard_killed_state; [done|..]; unfold book_trade, roll_over; by repeat case_match.
Qed.

Lemma hard_killed_record io now trip_now pnl is_win b b' res :
  hard_killed b -> record_trade io now trip_now pnl is_win b = Some (b', res) ->
  res = None \/ res = Some HardKillSwitch -> hard_killed b'.
Proof.
  intros Hb Hr Hres. unfold record_trade in Hr.
  destruct (negb _); [by injection Hr as <- <-|].
  pose proof (hard_killed_booked (date_naive now) pnl is_win b Hb) as Hb1.
  set (s := book_trade _ _ _) in *.
  destruct (hard_kill_check _ _) as [[]|]; simpl in Hr; [..|done].
  { injection Hr as <- <-. by apply hard_killed_persist, hard_killed_trip. }
  pose proof (hk_recovery _ Hb1) as Er. simpl in Er. rewrite Er in Hr.
  destruct (check_thresholds _ _) as [reason|]; simpl in Hr; [|done].
  injection Hr as <- <-. apply hard_killed_persist.
  destruct Hres as [->| ->]; [done|]. by apply hard_killed_trip.
Qed.

Lemma hard_killed_portfolio io now value b b' res :
  hard_killed b -> update_portfolio_value io now value b = Some (b', res) ->
  res = None \/ res = Some HardKillSwitch -> hard_killed b'.
Proof.
  intros Hb Hr Hres. unfold update_portfolio_value in Hr.
  destruct (negb _); [by injection Hr as <- <-|].
  match type of Hr with context [drawdown ?x] => set (s := x) in * end.
  assert (Hb1 : hard_killed {| b with cb_state := s |}) by by apply hard_killed_state.
  destruct (ZERO <? peak_value s)%dec; [|injection Hr as <- <-; auto].
  destruct (drawdown s); simpl in Hr; [|done].
  repeat case_match; injection Hr as <- <-; auto.
  - apply hard_killed_persist, hard_killed_trip, Hb1.
  - by destruct Hres.
Qed.

Lemma quiet_step_hard_killed b b' : quiet_step b b' -> hard_killed b -> hard_killed b'.
Proof.
  intros (c & Hc & He) Hb. destruct c; simpl in *; try done.
  - rewrite (hard_killed_can_trade _ _ _ Hb) in He. by injection He as <-.
  - unfold try_advance_recovery in He. rewrite (hk_recovery _ Hb) in He. by injection He as <-.
  - injection He as <-. apply hard_killed_persist. by destruct Hb.
  - destruct (record_trade _ _ _ _ _ _) as [[b1 res]|] eqn:E; [|done]. injection He as <-.
    eapply hard_killed_record; [done..|]. destruct res; [right|by left]. f_equal. eauto.
  - destruct (update_portfolio_value _ _ _ _) as [[b1 res]|] eqn:E; [|done]. injection He as <-.
    eapply hard_killed_portfolio; [done..|]. destruct res; [right|by left]. f_equal. eauto.
  - injection He as <-. by apply hard_killed_persist, hard_killed_state.
  - injection He as <-. by destruct Hb.
Qed.

(** ** Trips *)

Lemma record_trade_disabled io now trip_now pnl is_win b :
  enabled (cb_config b) = false ->
  record_trade io now trip_now pnl is_win b = Some (b, None).
Proof. intros E. unfold record_trade. by rewrite E. Qed.

(** The state [record_trade] evaluates the limits on. *)
Definition booked (now : datetime) (pnl : dec) (is_win : bool) (b : CircuitBreaker)
    : CircuitBreakerState :=
  book_trade pnl is_win (roll_over (date_naive now) (cb_state b)).

(** A tripping [record_trade] leaves a halted breaker, out of recovery. *)
Definition halted_by (reason : TripReason) (b : CircuitBreaker) : Prop :=
  is_tripped b = true /\ trip_reason (cb_state b) = Some reason /\ is_in_recovery b = false.

Lemma trip_state_recovery config reason now s :
  recovery_state (trip_state config reason now s) = recovery_state s.
Proof. unfold trip_state. by case_bool_decide. Qed.

Lemma trip_halts io reason now b :
  recovery_state (cb_state b) = None ->
  halted_by reason (persist_state io (trip_internal reason now b)).
Proof.
  intros E. unfold halted_by, is_tripped, is_in_recovery.
  rewrite persist_flag, persist_cb_state. simpl. unfold trip_state.
  case_bool_decide; simpl; rewrite E; auto.
Qed.

Lemma record_trade_trip_halts io reason now b :
  halted_by reason (record_trade_trip io reason now (set_recovery None b)).
Proof. by apply trip_halts. Qed.

(** The tested daily loss is the loss itself. *)
Lemma daily_loss_test pnl limit :
  ((pnl <? ZERO) && (dec_abs pnl >=? limit))%dec = true <->
  dval pnl < 0 /\ dval limit <= - dval pnl.
Proof.
  rewrite andb_true_iff, dec_ltb_lt, dec_leb_le, dval_abs, dval_ZERO.
  split; intros [H1 H2]; (split; [done|]).
  - rewrite Qabs_neg in H2; lra.
  - rewrite Qabs_neg; lra.
Qed.

(** A drawdown at or past a limit is seen as such, whatever the rounding. *)
Lemma drawdown_reaches s dd limit :
  DecimalExact -> 0 < dval (peak_value s) -> drawdown s = Some dd ->
  dval (current_value s) <= dval (peak_value s) * (1 - dval limit) ->
  (dd >=? limit)%dec = true.
Proof.
  intros EX Hp Hd Hl. apply dec_leb_le. eapply dec_div_ge; [exact Hd|done|].
  rewrite dval_sub. lra.
Qed.

(** A drawdown seen at a limit exceeds every representable number below it. *)
Lemma drawdown_exceeds s dd limit x :
  DecimalExact -> 0 < dval (peak_value s) -> drawdown s = Some dd ->
  (dd >=? limit)%dec = true -> dval x < dval limit ->
  dval (current_value s) < dval (peak_value s) * (1 - dval x).
Proof.
  intros EX Hp Hd Hl Hx. apply dec_leb_le in Hl. apply Qnot_le_lt. intros Hc.
  pose proof (dec_div_le _ _ _ x Hd Hp) as Hle. rewrite dval_sub in Hle. lra.
Qed.

(** ** Recovery *)

(** In recovery, at [stage] of [total], with the next stage due at [due]. *)
Definition recovering (stage total : Z) (due : Z) {CS : @ChronoSpec CO} (b : CircuitBreaker) : Prop :=
  exists r t, recovery_state (cb_state b) = Some r /\ current_stage r = stage /\
    total_stages r = total /\ next_stage_at r = Some t /\ instant t = due.

(** Instants that respect the stage length, starting at [due]. *)
Fixpoint stage_times {CS : @ChronoSpec CO} (gap : Z) (due : Z) (ts : list datetime) : Prop :=
  match ts with
  | [] => True
  | t :: ts => (due <= instant t)%Z /\ stage_times gap (instant t + gap * 60000000000)%Z ts
  end.

(** Advance at each instant; [None] if a call panics or does not advance. *)
Fixpoint advance_all (io : bool) (ts : list datetime) (b : CircuitBreaker)
    : option CircuitBreaker :=
  match ts with
  | [] => Some b
  | t :: ts =>
      match try_advance_recovery io t b with
      | Some (b', true) => advance_all io ts b'
      | _ => None
      end
  end.

Section Stages.
Context {CS : @ChronoSpec CO}.

(** A stage that is due ends: the breaker is in the next one, due a stage
    length later, or out of recovery after the last. *)
Lemma advance_due io t b stage total due :
  recovering stage total due b -> (1 <= stage < total)%Z -> (total < 2 ^ 32)%Z ->
  require_profit_to_advance (cb_config b) = false -> (due <= instant t)%Z ->
  exists b', try_advance_recovery io t b = Some (b', true) /\ cb_config b' = cb_config b /\
    if (total <=? stage + 1)%Z then recovery_state (cb_state b') = None
    else recovering (stage + 1) total
           (instant t + recovery_stage_minutes (cb_config b) * 60000000000) b'.
Proof.
  intros (r & n & Er & <- & <- & En & <-) Hs Ht Hp Hd.
  unfold try_advance_recovery, is_fully_recovered. rewrite Er, En, Hp.
  assert ((total_stages r <=? current_stage r)%Z = false) as -> by lia.
  assert (dt_leb n t = true) as -> by by apply dt_leb_le. simpl.
  rewrite u32_add_small by lia.
  match goal with |- context [capacity_pct ?x] => destruct (capacity_some x) as [c ->] end.
  { unfold recovery_wf. simpl. lia. }
  simpl. eexists; split; [done|]. rewrite persist_config. split; [done|].
  destruct (total_stages r <=? current_stage r + 1)%Z.
  - by rewrite persist_cb_state.
  - unfold recovering. rewrite persist_cb_state. simpl.
    do 2 eexists; repeat split. by rewrite instant_add_minutes.
Qed.

(** The stages that end during [ts] are counted, and the last ends recovery. *)
Lemma advance_all_stages io ts b stage total due :
  recovering stage total due b -> (1 <= stage)%Z -> (total < 2 ^ 32)%Z ->
  require_profit_to_advance (cb_config b) = false ->
  stage_times (recovery_stage_minutes (cb_config b)) due ts ->
  (Z.of_nat (length ts) <= total - stage)%Z -> (stage < total)%Z ->
  exists b', advance_all io ts b = Some b' /\
    if (Z.of_nat (length ts) =? total - stage)%Z then recovery_state (cb_state b') = None
    else exists due', recovering (stage + Z.of_nat (length ts)) total due' b'.
Proof.
  revert b stage due. induction ts as [|t ts IH]; intros b stage due Hr Hs Ht Hp Hts Hl Hlt;
    cbn [advance_all stage_times length] in *.
  { change (Z.of_nat 0) with 0%Z in *.
    eexists; split; [done|]. destruct (0 =? _)%Z eqn:?; [lia|].
    exists due. by rewrite Z.add_0_r. }
  destruct Hts as [Hd Hts].
  destruct (advance_due io t b stage total due) as (b1 & -> & Ec & H1); [done|lia|done..|].
  destruct (Z.leb_spec total (stage + 1)).
  - assert (ts = []) as -> by (destruct ts; simpl in *; [done|lia]).
    cbn [advance_all length].
    eexists; split; [done|].
    by rewrite (proj2 (Z.eqb_eq (Z.of_nat 1) (total - stage)) ltac:(simpl in *; lia)).
  - rewrite <- Ec in Hp, Hts, H1. destruct (IH b1 (stage + 1)%Z _ H1) as (b2 & E2 & H2); try done; try lia.
    exists b2; split; [done|].
    replace (Z.of_nat (S (length ts)) =? total - stage)%Z
      with (Z.of_nat (length ts) =? total - (stage + 1))%Z
      by (apply eq_true_iff_eq; rewrite !Z.eqb_eq; lia).
    case_match; [done|]. destruct H2 as [due' H2]. exists due'.
    by replace (stage + Z.of_nat (S (length ts)))%Z with (stage + 1 + Z.of_nat (length ts))%Z by lia.
Qed.
End Stages.

(** ** Theorems *)



(** C15. A hard kill holds: after any sequence of calls that neither reset or
    reload the breaker nor trip it for another reason, trading is refused at
    every later instant (unless the breaker has been disabled), and asking does
    not change the breaker. *)
Theorem hard_kill_holds b b' io now :
  hard_killed b -> rtc quiet_step b b' ->
  can_trade io now b' = Some (b', negb (enabled (cb_config b'))).
Proof.
  intros Hb Hrun. apply hard_killed_can_trade.
  induction Hrun; eauto using quiet_step_hard_killed.
Qed.

(** A trip during recovery does not halt trading: in recovery, a manual
    trip, and a hard kill or drawdown trip found by [update_portfolio_value],
    set the flag and the state, yet [can_trade] still answers yes at every
    instant, because it looks at the recovery before the flag. *)
Theorem trip_in_recovery_does_not_halt b :
  is_in_recovery b = true -> enabled (cb_config b) = true ->
  (forall io now io' later,
     is_tripped (manual_trip io now b) = true /\
     can_trade io' later (manual_trip io now b) = Some (manual_trip io now b, true)) /\
  (forall io now value b' reason io' later,
     update_portfolio_value io now value b = Some (b', Some reason) ->
     is_tripped b' = true /\ can_trade io' later b' = Some (b', true)).
Proof.
  intros Hr He.
  assert (K : forall io x b1, is_in_recovery b1 = true -> enabled (cb_config b1) = true ->
    forall now io' later, let b2 := persist_state io (trip_internal x now b1) in
    is_tripped b2 = true /\ can_trade io' later b2 = Some (b2, true)).
  { intros io x b1 Hr1 He1 now io' later b2. unfold is_tripped, can_trade, b2.
    rewrite persist_flag, persist_config, persist_cb_state. simpl. rewrite He1. simpl.
    split; [done|]. rewrite trip_state_recovery. unfold is_in_recovery in Hr1. by rewrite Hr1. }
  split; [intros; by apply K|].
  intros io now value b' reason io' later E. unfold update_portfolio_value in E.
  rewrite He in E. simpl in E.
  destruct (ZERO <? _)%dec; [|done]. destruct (drawdown _); simpl in E; [|done].
  repeat case_match; simplify_eq; by apply K.
Qed.

(** A hard kill is not permanent: a later manual trip gives the breaker a
    resume time, and once the cooldown has passed [can_trade] answers yes and
    clears the flag. *)
Theorem manual_trip_lifts_hard_kill {CS : @ChronoSpec CO} b io t io' later :
  hard_killed b -> enabled (cb_config b) = true -> config_wf (cb_config b) ->
  (instant t + cooldown_minutes (cb_config b) * 60000000000 <= instant later)%Z ->
  exists b', can_trade io' later (manual_trip io t b) = Some (b', true) /\
    is_tripped b' = false.
Proof.
  intros [Hf Hr Hs Hv] He Hc Ht.
  set (b1 := manual_trip io t b).
  assert (E : cb_config b1 = cb_config b /\ cb_is_tripped b1 = true /\
    recovery_state (cb_state b1) = None /\
    resume_at (cb_state b1) = Some (add_minutes t (cooldown_minutes (cb_config b)))).
  { unfold b1, manual_trip. by rewrite persist_config, persist_flag, persist_cb_state. }
  destruct E as (E1 & E2 & E3 & E4). unfold can_trade. rewrite E1, E2, E3, E4, He. simpl.
  assert (L : dt_leb (add_minutes t (cooldown_minutes (cb_config b))) later = true).
  { apply dt_leb_le. by rewrite instant_add_minutes. }
  rewrite L. destruct (gradual_recovery_enabled _).
  - unfold start_recovery. rewrite E1.
    destruct (capacity_some _ (recovery_new_wf (cb_config b) later Hc)) as [c ->].
    simpl. eexists; split; [done|]. unfold is_tripped. by rewrite persist_flag.
  - eexists; split; [done|]. unfold is_tripped, reset. by rewrite persist_flag.
Qed.

(** A hard kill is lost by a restart on a new day: [load_state] then resets
    the daily counters of the fresh, untripped state and saves that state over
    the row, without reading it, so trading is allowed and the database no
    longer knows of the halt. *)
Theorem new_day_restart_forgets_halt {CS : @ChronoSpec CO} config row boot now :
  (day_number (row_last_reset_date row) < day_number (date_naive now))%Z ->
  exists b' row',
    load_state (fun _ => true) now (cb_with_persistence config (Some row) boot) = (b', Ok true) /\
    is_tripped b' = false /\
    (forall io later, can_trade io later b' = Some (b', true)) /\
    cb_repo b' = Some (Some row') /\
    row_tripped row' = false /\ row_trip_reason row' = None /\
    row_peak_value row' = ZERO.
Proof.
  intros Hd. apply date_ltb_lt in Hd. unfold load_state. simpl. rewrite Hd. simpl.
  do 2 eexists; split; [done|]. repeat split; simpl.
  intros io later. unfold can_trade. simpl. by destruct (enabled config).
Qed.


(** Recovery only tightens the daily-loss limit: on an enabled breaker in a
    well-formed recovery, a trade that leaves the day's loss at or past the
    full limit trips the breaker; a trade that does not trip keeps the
    recovery and books the trade in it; a trade that trips ends the recovery
    and halts trading. *)
Theorem recovery_is_stricter io now trip_now pnl is_win b b' res r (s := booked now pnl is_win b) :
  enabled (cb_config b) = true -> recovery_state (cb_state b) = Some r -> recovery_wf r ->
  0 <= dval (max_daily_loss (cb_config b)) ->
  record_trade io now trip_now pnl is_win b = Some (b', res) ->
  (dval (daily_pnl s) < 0 -> dval (max_daily_loss (cb_config b)) <= - dval (daily_pnl s) ->
     is_Some res) /\
  (res = None -> recovery_state (cb_state b') = Some (recovery_book pnl is_win r)) /\
  (forall reason, res = Some reason -> halted_by reason b').
Proof.
  intros He Hr Hw Hl E. unfold record_trade in E. rewrite He in E. simpl in E.
  fold (booked now pnl is_win b) in E. fold s in E.
  assert (Hs : recovery_state s = Some r).
  { unfold s, booked. by rewrite book_trade_recovery, roll_over_recovery. }
  rewrite Hs in E.
  destruct (hard_kill_check _ s) as [[]|]; simpl in E; [| |done].
  { simplify_eq. split_and!; [by eexists|done|].
    intros ? [= <-]. apply record_trade_trip_halts. }
  destruct (capacity_pct _) as [c|] eqn:Ec; simpl in E; [|done].
  destruct (capacity_range _ _ (recovery_book_wf pnl is_win r Hw) Ec) as [Hc0 Hc1].
  destruct (recovery_retrip _ c s) as [reason|] eqn:Et; simplify_eq.
  { split_and!; [by eexists|done|]. intros ? [= <-]. apply record_trade_trip_halts. }
  split_and!; [|by rewrite persist_cb_state|done].
  intros Hn Hx. exfalso. unfold recovery_retrip in Et.
  destruct ((daily_pnl s <? ZERO) && _)%dec eqn:Ed; [done|].
  assert (Hd : ~ (dval (daily_pnl s) < 0 /\
    dval (max_daily_loss (cb_config b) * c)%dec <= - dval (daily_pnl s))).
  { by rewrite <- daily_loss_test, Ed. }
  apply Hd. split; [done|]. eapply Qle_trans; [by apply dec_mul_le_l|done].
Qed.

(** Recovery completes: without the profit requirement, calls of
    [try_advance_recovery] spaced by at least the stage length each advance
    one stage, whatever the queries answer; after [k] of them the capacity is
    (stage + k) / total, and after the last one the breaker is back at full
    capacity, out of recovery. *)
Theorem recovery_completes {CS : @ChronoSpec CO} io ts b stage total due :
  recovering stage total due b -> (1 <= stage < total)%Z -> (total < 2 ^ 32)%Z ->
  require_profit_to_advance (cb_config b) = false ->
  stage_times (recovery_stage_minutes (cb_config b)) due ts ->
  (Z.of_nat (length ts) <= total - stage)%Z ->
  exists b', advance_all io ts b = Some b' /\
    is_in_recovery b' = negb (Z.of_nat (length ts) =? total - stage)%Z /\
    trading_capacity b' =
      if (Z.of_nat (length ts) =? total - stage)%Z then Some ONE
      else dec_div (dec_of_Z (stage + Z.of_nat (length ts))) (dec_of_Z total).
Proof.
  intros Hr Hs Ht Hp Hts Hl.
  destruct (advance_all_stages io ts b stage total due) as (b' & E & H); [done|lia|done..|lia|].
  exists b'; split; [done|]. unfold is_in_recovery, trading_capacity.
  destruct (_ =? _)%Z; [by rewrite H|]. destruct H as (due' & r & t & -> & E1 & E2 & _).
  unfold capacity_pct. by rewrite E1, E2.
Qed.

(** The database row holds the state: loading a saved state gives it back,
    every counter and the trip with its reason and times included, except the
    recovery (which a restart forgets), the reset date (today) and the seeding
    flag (derived from the peak). *)
Theorem repo_round_trip now s row :
  state_wf s ->
  repo_load now (repo_save s row) =
    {| s with recovery_state := None; last_reset_date := date_naive now;
              portfolio_value_seeded := (ZERO <? peak_value s)%dec |}.
Proof.
  intros []. unfold repo_load, repo_save. simpl. rewrite !i32_u32_roundtrip by done.
  f_equal. destruct (trip_reason s); [|done]. simpl. apply parse_trip_reason_to_string.
Qed.

End Facts.

(** ** The theorems at concrete inputs *)

Section Witnesses.
#[local] Existing Instance Concrete.decimal.
#[local] Existing Instance Concrete.decimal_spec.
#[local] Existing Instance Concrete.decimal_exact.
#[local] Existing Instance Concrete.chrono.
#[local] Existing Instance Concrete.chrono_spec.
Abbreviation d := Concrete.d.
Abbreviation at_minute := Concrete.at_minute.

Definition new_breaker : CircuitBreaker := cb_new default_config (at_minute 0).
(** A breaker with an equity peak of 1000. *)
Definition seeded_breaker : CircuitBreaker :=
  {| new_breaker with cb_state :=
       {| (cb_state new_breaker) with peak_value := d 1000 0; current_value := d 1000 0 |} |}.
Definition killed_breaker : CircuitBreaker :=
  trip_internal HardKillSwitch (at_minute 0) new_breaker.
Definition recovering_breaker : CircuitBreaker :=
  set_recovery (Some (recovery_new 3 10 (at_minute 0))) new_breaker.


Lemma hard_kill_holds_witness :
  can_trade true (at_minute 100000) (reset_daily true killed_breaker)
  = Some (reset_daily true killed_breaker, false).
Proof.
  apply (hard_kill_holds killed_breaker (reset_daily true killed_breaker)).
  - by split.
  - apply rtc_once. by exists (CallResetDaily true).
Defined.

Lemma trip_in_recovery_does_not_halt_witness :
  is_tripped (manual_trip true (at_minute 5) recovering_breaker) = true /\
  can_trade true (at_minute 6) (manual_trip true (at_minute 5) recovering_breaker)
  = Some (manual_trip true (at_minute 5) recovering_breaker, true).
Proof. by apply (trip_in_recovery_does_not_halt recovering_breaker). Defined.

Lemma manual_trip_lifts_hard_kill_witness :
  exists b', can_trade true (at_minute 31) (manual_trip true (at_minute 1) killed_breaker)
    = Some (b', true) /\ is_tripped b' = false.
Proof.
  apply manual_trip_lifts_hard_kill; 
    [by split|done|unfold config_wf; simpl; lia|vm_compute; discriminate].
Defined.

Definition killed_row : CircuitBreakerRow :=
  repo_save (cb_state killed_breaker)
    {| row_tripped := false; row_trip_reason := None; row_tripped_at := None;
       row_resume_at := None; row_daily_pnl := d 0 0; row_peak_value := d 0 0;
       row_current_value := d 0 0; row_consecutive_losses := 0; row_trips_today := 0;
       row_last_reset_date := 0%Z |}.

Lemma new_day_restart_forgets_halt_witness :
  row_tripped killed_row = true /\
  exists b' row',
    load_state (fun _ => true) (at_minute 1440)
      (cb_with_persistence default_config (Some killed_row) (at_minute 1440)) = (b', Ok true) /\
    is_tripped b' = false /\
    (forall io later, can_trade io later b' = Some (b', true)) /\
    cb_repo b' = Some (Some row') /\
    row_tripped row' = false /\ row_trip_reason row' = None /\ row_peak_value row' = ZERO.
Proof. split; [done|]. by apply new_day_restart_forgets_halt. Defined.


Lemma recovery_is_stricter_witness :
  match record_trade true (at_minute 1) (at_minute 1) (d (-2500) 0) false recovering_breaker with
  | Some (b', res) => is_Some res
  | None => False
  end.
Proof.
  lazymatch goal with |- context [match ?o with _ => _ end] => returns o end.
  destruct (record_trade _ _ _ _ _ _) as [[b' res]|] eqn:E; [|done].
  destruct (recovery_is_stricter true (at_minute 1) (at_minute 1) (d (-2500) 0) false
    recovering_breaker b' res (recovery_new 3 10 (at_minute 0))) as [H _]; [done..| |done|done|].
  - unfold recovery_wf. simpl. lia.
  - by apply H.
Defined.

Lemma recovery_completes_witness :
  exists b', advance_all true [at_minute 10; at_minute 25] recovering_breaker = Some b' /\
    is_in_recovery b' = false /\ trading_capacity b' = Some ONE.
Proof.
  apply (recovery_completes true [at_minute 10; at_minute 25] recovering_breaker 1 3
    (instant (at_minute 10))); try done.
  by exists (recovery_new 3 10 (at_minute 0)), (at_minute 10).
Defined.

Lemma repo_round_trip_witness :
  repo_load (at_minute 1) (repo_save (cb_state killed_breaker) killed_row) =
    {| (cb_state killed_breaker) with recovery_state := None;
       last_reset_date := date_naive (at_minute 1);
       portfolio_value_seeded := (ZERO <? peak_value (cb_state killed_breaker))%dec |}.
Proof. apply repo_round_trip. apply state_wf_trip, state_wf_default. Defined.

End Witnesses.
