(* ===== verification/Market.v ===== *)
(** * Markets, order books and arbitrage opportunities

    Models [crates/polymarket-core/src/types/market.rs]: the data of a binary
    market, the cost of buying both outcomes, and the profitability of that
    pair under the flat fee and under the fees charged in shares.  A book's
    side is the list of its levels, best price first. *)

From S2P Require Import Prelude F64 Platform.
From Stdlib Require Import SpecFloat.

Section Market.
Context `{DO : DecimalOps} `{CO : ChronoOps}.

(** A single outcome (e.g., YES or NO) within a market. *)
Record Outcome : Type := {
  outcome_id : string;
  outcome_name : string;
  token_id : string;
  outcome_price : option dec;
  winner : option bool;
}.

(** A Polymarket market. *)
Record Market : Type := {
  mkt_id : string;
  question : string;
  description : option string;
  outcomes : list Outcome;
  volume : dec;
  liquidity : dec;
  end_date : option datetime;
  resolved : bool;
  resolution : option string;
  category : option string;
  tags : list string;
  fees_enabled : bool;
  fee_type : option string;
}.

(** A single price level in the order book. *)
Record PriceLevel : Type := { level_price : dec; level_size : dec }.

(** Real-time order book data for a market outcome. *)
Record OrderBook : Type := {
  ob_market_id : string;
  ob_outcome_id : string;
  ob_timestamp : datetime;
  bids : list PriceLevel;
  asks : list PriceLevel;
}.

Definition best_bid (b : OrderBook) : option dec := level_price <$> head (bids b).
Definition best_ask (b : OrderBook) : option dec := level_price <$> head (asks b).

(** Paired order book data for both outcomes of a binary market. *)
Record BinaryMarketBook : Type := {
  bmb_market_id : string;
  bmb_timestamp : datetime;
  yes_book : OrderBook;
  no_book : OrderBook;
}.

(** (yes_ask, no_ask, total_cost). *)
Definition entry_cost (b : BinaryMarketBook) : option (dec * dec * dec) :=
  yes_ask ← best_ask (yes_book b);
  no_ask ← best_ask (no_book b);
  Some (yes_ask, no_ask, (yes_ask + no_ask)%dec).

(** (yes_ask, no_ask, total_cost, yes_size, no_size), if both best asks hold
    [min_depth_usd]. *)
Definition entry_cost_with_depth (b : BinaryMarketBook) (min_depth_usd : dec)
    : option (dec * dec * dec * dec * dec) :=
  yes_level ← head (asks (yes_book b));
  no_level ← head (asks (no_book b));
  let yes_notional := (level_price yes_level * level_size yes_level)%dec in
  let no_notional := (level_price no_level * level_size no_level)%dec in
  if (yes_notional <? min_depth_usd)%dec || (no_notional <? min_depth_usd)%dec
  then None
  else Some (level_price yes_level, level_price no_level,
             (level_price yes_level + level_price no_level)%dec,
             level_size yes_level, level_size no_level).

(** (yes_bid, no_bid, total_value). *)
Definition exit_value (b : BinaryMarketBook) : option (dec * dec * dec) :=
  yes_bid ← best_bid (yes_book b);
  no_bid ← best_bid (no_book b);
  Some (yes_bid, no_bid, (yes_bid + no_bid)%dec).

(** Arbitrage opportunity detected in a market. *)
Record ArbOpportunity : Type := {
  arb_market_id : string;
  arb_timestamp : datetime;
  yes_ask : dec;
  no_ask : dec;
  total_cost : dec;
  gross_profit : dec;
  net_profit : dec;
  fee_drag : dec;
  worst_case_payout : dec;
  yes_fee_shares : dec;
  no_fee_shares : dec;
}.

(** 2%. *)
Definition DEFAULT_FEE : dec := dec_new 2 2.
(** 0.25. *)
Definition FEE_ENABLED_BASE_RATE : dec := dec_new 25 2.

(** The opportunity under a fee rate on the notional of both legs. *)
Definition arb_calculate (b : BinaryMarketBook) (fee : dec) : option ArbOpportunity :=
  '(ya, na, total) ← entry_cost b;
  if (total <=? ZERO)%dec then None
  else
    let gross := (ONE - total)%dec in
    Some {|
      arb_market_id := bmb_market_id b;
      arb_timestamp := bmb_timestamp b;
      yes_ask := ya;
      no_ask := na;
      total_cost := total;
      gross_profit := gross;
      net_profit := (gross - total * fee)%dec;
      fee_drag := (total * fee)%dec;
      worst_case_payout := (ONE - total * fee)%dec;
      yes_fee_shares := ZERO;
      no_fee_shares := ZERO;
    |}.

(** 0.25 as [f64]. *)
Definition f64_quarter : f64 := S754_finite false 4503599627370496 (-54).

(** The fee, in shares, of buying one share at a price. *)
Definition estimate_buy_fee_shares (price : dec) (fees_on : bool) : dec :=
  if negb fees_on then ZERO
  else
    let bounded_price := dec_min (dec_max price ZERO) ONE in
    let curve_input := (bounded_price * (ONE - bounded_price))%dec in
    if (curve_input <=? ZERO)%dec then ZERO
    else
      let base_rate := default f64_quarter (dec_to_f64 FEE_ENABLED_BASE_RATE) in
      let curve_value := default f64_zero (dec_to_f64 curve_input) in
      let fee_shares := f64_mul base_rate (f64_mul curve_value curve_value) in
      default ZERO (dec_from_f64_retain fee_shares).

(** The opportunity under the buy-side fees charged in shares. *)
Definition calculate_with_fees_enabled (b : BinaryMarketBook) (fees_on : bool)
    : option ArbOpportunity :=
  '(ya, na, total) ← entry_cost b;
  if (total <=? ZERO)%dec then None
  else
    let yes_fee := estimate_buy_fee_shares ya fees_on in
    let no_fee := estimate_buy_fee_shares na fees_on in
    let drag := dec_max yes_fee no_fee in
    let payout := dec_max (ONE - drag)%dec ZERO in
    Some {|
      arb_market_id := bmb_market_id b;
      arb_timestamp := bmb_timestamp b;
      yes_ask := ya;
      no_ask := na;
      total_cost := total;
      gross_profit := (ONE - total)%dec;
      net_profit := (payout - total)%dec;
      fee_drag := drag;
      worst_case_payout := payout;
      yes_fee_shares := yes_fee;
      no_fee_shares := no_fee;
    |}.

Definition is_profitable (a : ArbOpportunity) : bool := (net_profit a >? ZERO)%dec.

(** ** Properties *)

Local Open Scope Q_scope.
Context {DS : DecimalSpec}.

(** The book of both asks at hand. *)
Definition asks_at (b : BinaryMarketBook) (ya na : dec) : Prop :=
  best_ask (yes_book b) = Some ya /\ best_ask (no_book b) = Some na.

Lemma entry_cost_asks b ya na :
  asks_at b ya na -> entry_cost b = Some (ya, na, (ya + na)%dec).
Proof. intros [E1 E2]. unfold entry_cost. by rewrite E1, E2. Qed.

Lemma entry_cost_inv b ya na total :
  entry_cost b = Some (ya, na, total) -> asks_at b ya na /\ total = (ya + na)%dec.
Proof.
  unfold entry_cost, asks_at. intros E. inv_bind.
  destruct (best_ask (yes_book b)); [|done]. simpl in *.
  destruct (best_ask (no_book b)); [|done]. simpl in *. by simplify_eq.
Qed.

(** An opportunity is found exactly when both books have an ask and the
    pair costs something; then it is judged profitable exactly when the pair
    and its fee cost less than the dollar it pays, and its parts add up: the
    worst-case payout less the cost, and the gross profit less the fee, are
    the net profit. *)
Theorem arb_profitable_iff {EX : DecimalExact} b fee :
  (is_Some (arb_calculate b fee) <->
     exists ya na, asks_at b ya na /\ 0 < dval ya + dval na) /\
  forall a, arb_calculate b fee = Some a ->
    asks_at b (yes_ask a) (no_ask a) /\
    dval (total_cost a) == dval (yes_ask a) + dval (no_ask a) /\
    (is_profitable a = true <->
       (dval (yes_ask a) + dval (no_ask a)) * (1 + dval fee) < 1) /\
    dval (worst_case_payout a) - dval (total_cost a) == dval (net_profit a) /\
    dval (gross_profit a) - dval (fee_drag a) == dval (net_profit a).
Proof.
  split.
  - split.
    + intros [a E]. unfold arb_calculate in E.
      destruct (entry_cost b) as [[[ya na] total]|] eqn:Ec; [|done]. simpl in E.
      apply entry_cost_inv in Ec as [Ha ->]. exists ya, na. split; [done|].
      destruct (_ <=? _)%dec eqn:El; [done|]. dec_to_Q. by rewrite <- dval_add.
    + intros (ya & na & Ha & Hp). unfold arb_calculate. rewrite (entry_cost_asks _ _ _ Ha). simpl.
      destruct (_ <=? _)%dec eqn:El; [|by eexists]. dec_to_Q. rewrite dval_add in El. lra.
  - intros a E. unfold arb_calculate in E.
    destruct (entry_cost b) as [[[ya na] total]|] eqn:Ec; [|done]. simpl in E.
    apply entry_cost_inv in Ec as [Ha ->].
    destruct (_ <=? _)%dec; [done|]. simplify_eq. unfold is_profitable. simpl.
    rewrite dec_ltb_lt, !dval_sub, !dval_mul, !dval_add, dval_ZERO, dval_ONE.
    split_and!; try done; lra.
Qed.

End Market.

(** ** Fees charged in shares

    What [to_f64] and [from_f64_retain] have to do with signs: a non-negative
    [Decimal] is a non-negative [f64] and back. *)

Definition f64_nonneg (x : f64) : bool :=
  match x with
  | S754_nan => true
  | S754_zero s | S754_infinity s | S754_finite s _ _ => negb s
  end.

Class DecimalFloatSpec `{DS : DecimalSpec} : Prop := {
  to_f64_nonneg : forall a x, dec_to_f64 a = Some x -> (0 <= dval a)%Q -> f64_nonneg x = true;
  of_f64_nonneg : forall x a, dec_from_f64_retain x = Some a -> f64_nonneg x = true ->
    (0 <= dval a)%Q;
}.

(** Rounding keeps the sign. *)
Lemma binary_round_nonneg m e l :
  f64_nonneg (binary_round_aux f64_prec f64_emax false m e l) = true.
Proof.
  unfold binary_round_aux. destruct (shr_fexp _ _ _ _ _) as [mrs e'].
  destruct (shr_fexp _ _ (round_nearest_even _ _) _ _) as [mrs' e''].
  destruct (shr_m mrs'); [done| |done]. by destruct (_ <=? _)%Z.
Qed.

Lemma f64_mul_nonneg x y :
  f64_nonneg x = true -> f64_nonneg y = true -> f64_nonneg (f64_mul x y) = true.
Proof.
  destruct x as [[]|[]| |[] ? ?], y as [[]|[]| |[] ? ?]; try done.
  intros. apply binary_round_nonneg.
Qed.

Section ShareFees.
Context `{DS : DecimalSpec} `{CO : ChronoOps}.
Context {DF : DecimalFloatSpec}.
Local Open Scope Q_scope.

Lemma buy_fee_nonneg price fees_on : 0 <= dval (estimate_buy_fee_shares price fees_on).
Proof.
  unfold estimate_buy_fee_shares.
  destruct (negb fees_on); [rewrite dval_ZERO; lra|].
  set (p := dec_min (dec_max price ZERO) ONE).
  destruct (_ <=? _)%dec eqn:E; [rewrite dval_ZERO; lra|].
  match goal with |- context [dec_from_f64_retain ?x] => assert (Hx : f64_nonneg x = true) end.
  { apply f64_mul_nonneg; [|apply f64_mul_nonneg].
    - destruct (dec_to_f64 FEE_ENABLED_BASE_RATE) eqn:Er; [|done]. simpl.
      eapply to_f64_nonneg; [done|]. unfold FEE_ENABLED_BASE_RATE.
      rewrite dval_new by lia. by vm_compute.
    - destruct (dec_to_f64 _) eqn:Er; [|done]. simpl. eapply to_f64_nonneg; [done|].
      dec_to_Q. lra.
    - destruct (dec_to_f64 _) eqn:Er; [|done]. simpl. eapply to_f64_nonneg; [done|].
      dec_to_Q. lra. }
  destruct (dec_from_f64_retain _) eqn:Er; simpl; [|rewrite dval_ZERO; lra].
  by eapply of_f64_nonneg.
Qed.

Lemma buy_fee_off price : estimate_buy_fee_shares price false = ZERO.
Proof. done. Qed.

(** With fees charged in shares the net profit never exceeds the gross
    one and equals it when fees are off; the worst-case payout lies in [0, 1]
    and is the smaller of what the two legs' net shares pay. *)
Theorem share_fees_only_reduce {EX : DecimalExact} b fees_on a :
  calculate_with_fees_enabled b fees_on = Some a ->
  dval (net_profit a) <= dval (gross_profit a) /\
  (fees_on = false -> dval (net_profit a) == dval (gross_profit a)) /\
  0 <= dval (worst_case_payout a) /\ dval (worst_case_payout a) <= 1 /\
  dval (worst_case_payout a) ==
    Qmin (Qmax (1 - dval (yes_fee_shares a)) 0) (Qmax (1 - dval (no_fee_shares a)) 0).
Proof.
  intros E. unfold calculate_with_fees_enabled in E.
  destruct (entry_cost b) as [[[ya na] total]|]; [|done]. simpl in E.
  destruct (_ <=? _)%dec; [done|]. injection E as <-. cbn [net_profit gross_profit
    worst_case_payout yes_fee_shares no_fee_shares].
  pose proof (buy_fee_nonneg ya fees_on) as Hy. pose proof (buy_fee_nonneg na fees_on) as Hn.
  assert (Hoff : fees_on = false -> dval (estimate_buy_fee_shares ya fees_on) == 0 /\
    dval (estimate_buy_fee_shares na fees_on) == 0).
  { intros ->. rewrite !buy_fee_off. by rewrite dval_ZERO. }
  revert Hy Hn Hoff. generalize (estimate_buy_fee_shares ya fees_on) as fy,
    (estimate_buy_fee_shares na fees_on) as fn. intros fy fn Hy Hn Hoff.
  rewrite !dval_sub, !dval_max, !dval_sub, !dval_max, dval_ONE, dval_ZERO.
  split_and!; [| |apply Q.le_max_r| |].
  - q_cases; lra.
  - intros Hf. destruct (Hoff Hf). q_cases; lra.
  - q_cases; lra.
  - q_cases; lra.
Qed.
End ShareFees.

(** ** The theorems at concrete inputs *)

Lemma f64_of_Z_nonneg n : (0 <= n)%Z -> f64_nonneg (f64_of_Z n) = true.
Proof.
  destruct n; try done. intros _. unfold f64_of_Z, binary_normalize, binary_round.
  destruct (shl_align _ _ _). apply binary_round_nonneg.
Qed.

Lemma f64_div_nonneg x y :
  f64_nonneg x = true -> f64_nonneg y = true -> f64_nonneg (f64_div x y) = true.
Proof.
  destruct x as [[]|[]| |[] ? ?], y as [[]|[]| |[] ? ?]; try done.
  intros _ _. unfold f64_div, SFdiv. destruct (SFdiv_core_binary _ _ _ _ _ _) as [[? ?] ?].
  apply binary_round_nonneg.
Qed.

Section Witnesses.
#[local] Existing Instance Concrete.decimal.
#[local] Existing Instance Concrete.decimal_spec.
#[local] Existing Instance Concrete.decimal_exact.
#[local] Existing Instance Concrete.chrono.
Abbreviation d := Concrete.d.

Lemma concrete_float_spec : DecimalFloatSpec.
Proof.
  split.
  - intros a x E Ha. injection E as <-. apply f64_div_nonneg.
    + apply f64_of_Z_nonneg. unfold Qle in Ha. simpl in *. lia.
    + by apply (f64_of_Z_nonneg (Z.pos (Qden a))).
  - intros x a E Hx. destruct x as [s|s| |s m e]; simplify_eq/=; [done|].
    destruct s; [done|]. change (@dval _ Concrete.decimal_spec ?q) with q.
    rewrite Qred_correct. destruct (0 <=? e)%Z eqn:He.
    + change 0%Q with (inject_Z 0). rewrite <- Zle_Qle. apply Z.mul_nonneg_nonneg; [lia|].
      apply Z.pow_nonneg. lia.
    + unfold Qle. simpl. lia.
Qed.

(** 45 cents for YES and 50 for NO. *)
Definition sample_book : BinaryMarketBook :=
  let level p := {| level_price := p; level_size := d 100 0 |} in
  let book p := {| ob_market_id := "m"; ob_outcome_id := "o"; ob_timestamp := Concrete.at_minute 0;
                   bids := []; asks := [level p] |} in
  {| bmb_market_id := "m"; bmb_timestamp := Concrete.at_minute 0;
     yes_book := book (d 45 2); no_book := book (d 50 2) |}.

Lemma arb_profitable_iff_witness :
  is_Some (arb_calculate sample_book DEFAULT_FEE).
Proof.
  apply arb_profitable_iff. exists (d 45 2), (d 50 2). split; [done|by vm_compute].
Defined.

Lemma share_fees_only_reduce_witness :
  match calculate_with_fees_enabled sample_book true with
  | Some a => (dval (net_profit a) <= dval (gross_profit a))%Q
  | None => False
  end.
Proof.
  lazymatch goal with |- context [match ?o with _ => _ end] => returns o end.
  destruct (calculate_with_fees_enabled _ _) as [a|] eqn:E; [|done].
  apply (@share_fees_only_reduce _ _ _ concrete_float_spec _ _ _ _ E).
Defined.

End Witnesses.
