(* ===== verification/Sizing.v ===== *)
(** * Position sizing

    Models [crates/polymarket-core/src/sizing.rs]: the Kelly fraction, the
    Kelly-sized position and the linear model of the arb executor. *)

From S2P Require Import Prelude F64 Platform.

Section Sizing.
Context `{DO : DecimalOps}.

(** Configuration for Kelly-based position sizing. *)
Record KellyConfig : Type := {
  fraction : f64;
  bankroll : dec;
  max_position : dec;
  min_position : dec;
}.

Definition default_kelly : KellyConfig := {|
  fraction := f64_div f64_one (f64_of_Z 4);
  bankroll := dec_new 1000 0;
  max_position := dec_new 200 0;
  min_position := dec_new 5 0;
|}.

(** [f = (p * b - q) / b], clamped to [0.0, 1.0]. *)
Definition kelly_fraction (p_win price : f64) : f64 :=
  if f64_leb price f64_zero || f64_leb f64_one price || f64_leb p_win f64_zero
     || f64_leb f64_one p_win
  then f64_zero
  else
    let b := f64_div (f64_sub f64_one price) price in
    let q := f64_sub f64_one p_win in
    let f := f64_div (f64_sub (f64_mul p_win b) q) b in
    f64_clamp f f64_zero f64_one.

Definition kelly_position_size (p_win price : f64) (config : KellyConfig) : option dec :=
  let f := kelly_fraction p_win price in
  if f64_leb f f64_zero then None
  else
    let bankroll_f64 := default f64_zero (dec_parse_f64 (bankroll config)) in
    let raw_size := f64_mul (f64_mul (fraction config) f) bankroll_f64 in
    size ← dec_from_f64_retain raw_size;
    let clamped := dec_min size (max_position config) in
    if (clamped <? min_position config)%dec then None else Some clamped.

(** The linear model between [min_edge] and [max_edge]; [None] is the panic of
    a division by zero. *)
Definition linear_position_size (edge min_edge max_edge min_pos max_pos : dec) : option dec :=
  let range := (max_edge - min_edge)%dec in
  if dec_is_zero range then Some min_pos
  else
    t ← dec_div (edge - min_edge)%dec range;
    let t := dec_min (dec_max t ZERO) ONE in
    let size_range := (max_pos - min_pos)%dec in
    Some (min_pos + size_range * t)%dec.

(** ** Properties *)

Local Open Scope Q_scope.
Context {DS : DecimalSpec}.

(** A NaN, or a number in [0, 1]. *)
Definition fraction_ok (f : f64) : Prop :=
  f64_is_nan f = true \/ f64_leb f64_zero f = true /\ f64_leb f f64_one = true.

Lemma clamp_fraction_ok x : fraction_ok (f64_clamp x f64_zero f64_one).
Proof.
  destruct (f64_is_nan x) eqn:E.
  - left. by destruct x.
  - right. by apply f64_clamp_bounds.
Qed.

(** The Kelly fraction is a number in [0, 1] (or a NaN, which sizes no
    position as far as [from_f64_retain] refuses it), is zero for a price or a
    probability outside (0, 1), and a position that is sized lies between the
    configured minimum and maximum. *)
Theorem kelly_position_bounded p_win price config :
  fraction_ok (kelly_fraction p_win price) /\
  (f64_leb price f64_zero = true \/ f64_leb f64_one price = true \/
   f64_leb p_win f64_zero = true \/ f64_leb f64_one p_win = true ->
     kelly_position_size p_win price config = None) /\
  forall s, kelly_position_size p_win price config = Some s ->
    dval (min_position config) <= dval s /\ dval s <= dval (max_position config) /\
    f64_leb (kelly_fraction p_win price) f64_zero = false.
Proof.
  split; [|split].
  - unfold kelly_fraction. case_match; [by right|]. apply clamp_fraction_ok.
  - intros H. unfold kelly_position_size, kelly_fraction.
    destruct (_ || _) eqn:E; [done|].
    reflect_bools. destruct H as [H|[H|[H|H]]]; congruence.
  - intros s E. unfold kelly_position_size in E.
    destruct (f64_leb (kelly_fraction _ _) _) eqn:Ef; [done|]. inv_bind.
    destruct (_ <? _)%dec eqn:El; [done|]. simplify_eq. dec_to_Q.
    split; [done|]. split; [|done]. rewrite dval_min. apply Q.le_min_r.
Qed.

(** The linear size never panics and, for a minimum at most the maximum,
    lies between them; below the edge range it is the minimum and above it the
    maximum. *)
Theorem linear_size_bounded {EX : DecimalExact} edge min_edge max_edge min_pos max_pos :
  dval min_pos <= dval max_pos ->
  exists s, linear_position_size edge min_edge max_edge min_pos max_pos = Some s /\
    dval min_pos <= dval s /\ dval s <= dval max_pos /\
    (dval min_edge < dval max_edge -> dval edge <= dval min_edge -> dval s == dval min_pos) /\
    (dval min_edge < dval max_edge -> dval max_edge <= dval edge -> dval s == dval max_pos).
Proof.
  intros Hm. unfold linear_position_size. set (range := (max_edge - min_edge)%dec).
  assert (Hr : dval range == dval max_edge - dval min_edge) by apply dval_sub.
  destruct (dec_is_zero range) eqn:Ez.
  { unfold dec_is_zero in Ez. dec_to_Q. exists min_pos. split_and!; try done; lra. }
  assert (Hz : ~ dval range == 0).
  { unfold dec_is_zero in Ez. rewrite <- dval_ZERO. intros H. apply dec_eqb_eq in H. congruence. }
  destruct (dec_div_some (edge - min_edge)%dec range Hz) as [t Et]. rewrite Et. simpl.
  eexists; split; [done|].
  rewrite !dval_add, !dval_mul, !dval_sub, !dval_min, !dval_max, !dval_ZERO, !dval_ONE.
  set (u := Qmin (Qmax (dval t) 0) 1).
  assert (Hu : 0 <= u /\ u <= 1) by (unfold u; split; q_cases; lra).
  split_and!; try nra.
  - intros Hlt He.
    assert (Ht : dval t <= dval ZERO).
    { eapply dec_div_le; [done|lra|]. rewrite dval_sub, dval_ZERO. lra. }
    rewrite dval_ZERO in Ht. assert (u == 0) by (unfold u; q_cases; lra). nra.
  - intros Hlt He.
    assert (Ht : dval ONE <= dval t).
    { eapply dec_div_ge; [done|lra|]. rewrite dval_sub, dval_ONE. lra. }
    rewrite dval_ONE in Ht. assert (u == 1) by (unfold u; q_cases; lra). nra.
Qed.

End Sizing.

(** ** The theorems at concrete inputs *)

Section Witnesses.
#[local] Existing Instance Concrete.decimal.
#[local] Existing Instance Concrete.decimal_spec.
#[local] Existing Instance Concrete.decimal_exact.
Abbreviation d := Concrete.d.

(** At 55 cents an 85% chance is worth 166.66 of the default bankroll. *)
Example kelly_example :
  match kelly_position_size (f64_div (f64_of_Z 85) (f64_of_Z 100))
          (f64_div (f64_of_Z 55) (f64_of_Z 100)) default_kelly with
  | Some s => ((d 166 0 <? s) && (s <? d 167 0))%dec
  | None => false
  end = true.
Proof. vm_compute. reflexivity. Qed.

Lemma linear_size_bounded_witness :
  exists s, linear_position_size (d 7 2) (d 2 2) (d 10 2) (d 10 0) (d 100 0) = Some s /\
    (dval (d 10 0) <= dval s)%Q /\ (dval s <= dval (d 100 0))%Q.
Proof.
  destruct (linear_size_bounded (d 7 2) (d 2 2) (d 10 2) (d 10 0) (d 100 0))
    as (s & E & H1 & H2 & _); [by vm_compute|]. by exists s.
Defined.

End Witnesses.
