(* ===== verification/Position.v ===== *)
(** * Arbitrage positions

    Models [crates/polymarket-core/src/types/position.rs]: the position's
    record, its state machine, the quantities held and exited per leg, the
    P&L formulas of the two fee models, the three ways to close, and the
    retries and recoveries.  An operation on [&mut self] that returns a
    [Result] is a function to the position after the call and the result;
    [now] is the clock ([now'] a second reading). *)

From S2P Require Import Prelude F64 Platform Market.

(** Exit strategy for an arbitrage position. *)
Inductive ExitStrategy : Type := HoldToResolution | ExitOnCorrection.

(** Current state of a position in its lifecycle. *)
Inductive PositionState : Type :=
| Pending | Open | ExitReady | Closing | Closed | EntryFailed | ExitFailed | Stalled.

(** Fee model attached to a position at entry time. *)
Inductive PositionFeeModel : Type := LegacyFlat | ShareBased.

#[export] Instance ExitStrategy_eq_dec : EqDecision ExitStrategy.
Proof. solve_decision. Defined.
#[export] Instance PositionState_eq_dec : EqDecision PositionState.
Proof. solve_decision. Defined.
#[export] Instance PositionFeeModel_eq_dec : EqDecision PositionFeeModel.
Proof. solve_decision. Defined.

Definition fee_model_from_i16 (value : Z) : PositionFeeModel :=
  if (value =? 1)%Z then ShareBased else LegacyFlat.

Definition fee_model_as_i16 (m : PositionFeeModel) : Z :=
  match m with LegacyFlat => 0 | ShareBased => 1 end.

(** Which leg of a position is being operated on. *)
Inductive Leg : Type := YES | NO.

(** Maximum retry attempts before giving up. *)
Definition MAX_RETRY_ATTEMPTS : Z := 3.
(** Stale threshold in seconds (5 minutes). *)
Definition STALE_THRESHOLD_SECS : Z := 300.

Section Position.
Context `{DO : DecimalOps} `{CO : ChronoOps} `{UO : UuidOps}.

(** Reason for position failure. *)
Inductive FailureReason : Type :=
| OrderRejected (message : string)
| OrderTimeout (elapsed_ms : Z)
| InsufficientBalance
| MarketClosed
| PriceSlippage (expected actual : dec)
| ConnectivityError (message : string)
| OneLeggedEntry (held_leg message : string)
| StalePosition (last_update_secs : Z)
| UnknownFailure (message : string).

(** The [String] errors of the operations. *)
Inductive PositionError : Type :=
| CannotTransition (target from expected : PositionState)
| NoSuchLeg (leg : Leg)
| LegAlreadyExited (leg : Leg)
| ExitFillOnClosed
| ExitFillOnEntryFailed
| LegNotExited (leg : Leg)
| FillExceedsHeld (leg : Leg) (fill held : dec)
| AlreadyClosed
| NeverEntered
| NotEntryFailed (from : PositionState)
| NotOneLegged
| MaxRetriesExceeded (count : Z).

(** An arbitrage position tracking both YES and NO holdings. *)
Record Position : Type := {
  pos_id : Uuid;
  pos_market_id : string;
  yes_entry_price : dec;
  no_entry_price : dec;
  quantity : dec;
  entry_timestamp : datetime;
  exit_strategy : ExitStrategy;
  pos_state : PositionState;
  unrealized_pnl : dec;
  realized_pnl : option dec;
  exit_timestamp : option datetime;
  yes_exit_price : option dec;
  no_exit_price : option dec;
  failure_reason : option FailureReason;
  retry_count : Z;
  last_updated : datetime;
  pre_stall_state : option PositionState;
  fee_model : PositionFeeModel;
  resolution_payout_per_share : dec;
  yes_entry_fee_shares : dec;
  no_entry_fee_shares : dec;
  held_yes_qty : dec;
  held_no_qty : dec;
  exited_yes_qty : dec;
  exited_no_qty : dec;
  resolution_winner : option string;
}.

(** A new pending position; [id] is the fresh identifier. *)
Definition position_new (id : Uuid) (now : datetime) (market_id : string)
    (yes_price no_price qty : dec) (strategy : ExitStrategy) : Position :=
  let legacy_entry_fee_drag := ((yes_price + no_price) * DEFAULT_FEE)%dec in
  {| pos_id := id;
     pos_market_id := market_id;
     yes_entry_price := yes_price;
     no_entry_price := no_price;
     quantity := qty;
     entry_timestamp := now;
     exit_strategy := strategy;
     pos_state := Pending;
     unrealized_pnl := ZERO;
     realized_pnl := None;
     exit_timestamp := None;
     yes_exit_price := None;
     no_exit_price := None;
     failure_reason := None;
     retry_count := 0;
     last_updated := now;
     pre_stall_state := None;
     fee_model := LegacyFlat;
     resolution_payout_per_share := dec_max (ONE - legacy_entry_fee_drag)%dec ZERO;
     yes_entry_fee_shares := ZERO;
     no_entry_fee_shares := ZERO;
     held_yes_qty := ZERO;
     held_no_qty := ZERO;
     exited_yes_qty := ZERO;
     exited_no_qty := ZERO;
     resolution_winner := None |}.

(** Total entry cost. *)
Definition position_cost (p : Position) : dec :=
  ((yes_entry_price p + no_entry_price p) * quantity p)%dec.

Definition apply_arb_fee_model (arb : ArbOpportunity) (p : Position) : Position :=
  {| p with fee_model := ShareBased;
            resolution_payout_per_share := dec_max (worst_case_payout arb) ZERO;
            yes_entry_fee_shares := dec_max (yes_fee_shares arb) ZERO;
            no_entry_fee_shares := dec_max (no_fee_shares arb) ZERO |}.

Definition net_yes_shares (p : Position) : dec :=
  (quantity p * dec_max (ONE - yes_entry_fee_shares p) ZERO)%dec.
Definition net_no_shares (p : Position) : dec :=
  (quantity p * dec_max (ONE - no_entry_fee_shares p) ZERO)%dec.

(** P&L of selling both legs at these prices. *)
Definition exit_pnl (p : Position) (yes_price no_price fee : dec) : dec :=
  let cost := position_cost p in
  match fee_model p with
  | LegacyFlat =>
      let value := ((yes_price + no_price) * quantity p)%dec in
      let entry_fees := (fee * cost)%dec in
      let exit_fees := (fee * value)%dec in
      (value - cost - entry_fees - exit_fees)%dec
  | ShareBased =>
      let value := (yes_price * net_yes_shares p + no_price * net_no_shares p)%dec in
      (value - cost)%dec
  end.

(** P&L of holding the pair to resolution, whoever wins. *)
Definition resolution_pnl (p : Position) (fee : dec) : dec :=
  let cost := position_cost p in
  match fee_model p with
  | LegacyFlat =>
      let guaranteed_return := (ONE * quantity p)%dec in
      let entry_fees := (fee * cost)%dec in
      (guaranteed_return - cost - entry_fees)%dec
  | ShareBased => (resolution_payout_per_share p * quantity p - cost)%dec
  end.

Definition update_pnl (now : datetime) (yes_bid no_bid fee : dec) (p : Position) : Position :=
  let pnl := match exit_strategy p with
             | ExitOnCorrection => exit_pnl p yes_bid no_bid fee
             | HoldToResolution => resolution_pnl p fee
             end in
  {| p with unrealized_pnl := pnl; last_updated := now |}.

(** ** State transitions *)

(** The position in another state. *)
Definition moved (now : datetime) (target : PositionState) (p : Position) : Position :=
  {| p with pos_state := target; last_updated := now |}.

(** A transition allowed from one state only. *)
Definition transition (now : datetime) (expected target : PositionState) (p : Position)
    : Position * result unit PositionError :=
  if bool_decide (pos_state p <> expected)
  then (p, Err (CannotTransition target (pos_state p) expected))
  else (moved now target p, Ok tt).

Definition mark_open (now : datetime) (p : Position) := transition now Pending Open p.
Definition mark_exit_ready (now : datetime) (p : Position) := transition now Open ExitReady p.
Definition mark_closing (now : datetime) (p : Position) := transition now ExitReady Closing p.

(** ** Exit fills by price *)

Definition record_yes_exit_fill (now : datetime) (price : dec) (p : Position)
    : Position * result unit PositionError :=
  if (yes_entry_price p <=? ZERO)%dec then (p, Err (NoSuchLeg YES))
  else if bool_decide (is_Some (yes_exit_price p)) then (p, Err (LegAlreadyExited YES))
  else if bool_decide (pos_state p = Closed) then (p, Err ExitFillOnClosed)
  else if bool_decide (pos_state p = EntryFailed) then (p, Err ExitFillOnEntryFailed)
  else ({| p with yes_exit_price := Some price; last_updated := now |}, Ok tt).

Definition record_no_exit_fill (now : datetime) (price : dec) (p : Position)
    : Position * result unit PositionError :=
  if (no_entry_price p <=? ZERO)%dec then (p, Err (NoSuchLeg NO))
  else if bool_decide (is_Some (no_exit_price p)) then (p, Err (LegAlreadyExited NO))
  else if bool_decide (pos_state p = Closed) then (p, Err ExitFillOnClosed)
  else if bool_decide (pos_state p = EntryFailed) then (p, Err ExitFillOnEntryFailed)
  else ({| p with no_exit_price := Some price; last_updated := now |}, Ok tt).

Definition resolved_exit_prices (p : Position) : result (dec * dec) PositionError :=
  let yes := if (yes_entry_price p >? ZERO)%dec
             then match yes_exit_price p with
                  | Some x => Ok x | None => Err (LegNotExited YES) end
             else Ok ZERO in
  match yes with
  | Err e => Err e
  | Ok y =>
      let no := if (no_entry_price p >? ZERO)%dec
                then match no_exit_price p with
                     | Some x => Ok x | None => Err (LegNotExited NO) end
                else Ok ZERO in
      match no with
      | Err e => Err e
      | Ok n => Ok (y, n)
      end
  end.

(** (has_yes, has_no), inferred from the prices. *)
Definition held_outcomes (p : Position) : bool * bool :=
  if bool_decide (pos_state p = Closed) then (false, false)
  else ((yes_entry_price p >? ZERO)%dec && bool_decide (yes_exit_price p = None),
        (no_entry_price p >? ZERO)%dec && bool_decide (no_exit_price p = None)).

(** ** Exposure by quantity *)

Definition has_full_pair_exposure (p : Position) : bool :=
  if (held_yes_qty p >? ZERO)%dec || (held_no_qty p >? ZERO)%dec
  then (held_yes_qty p >? ZERO)%dec && (held_no_qty p >? ZERO)%dec
  else match held_outcomes p with (true, true) => true | _ => false end.

Definition apply_yes_entry_fill (now : datetime) (qty : dec) (p : Position) : Position :=
  {| p with held_yes_qty := (held_yes_qty p + qty)%dec; last_updated := now |}.
Definition apply_no_entry_fill (now : datetime) (qty : dec) (p : Position) : Position :=
  {| p with held_no_qty := (held_no_qty p + qty)%dec; last_updated := now |}.

Definition apply_yes_exit_fill (now : datetime) (qty : dec) (p : Position)
    : Position * result unit PositionError :=
  if (qty >? held_yes_qty p)%dec then (p, Err (FillExceedsHeld YES qty (held_yes_qty p)))
  else ({| p with held_yes_qty := (held_yes_qty p - qty)%dec;
                  exited_yes_qty := (exited_yes_qty p + qty)%dec;
                  last_updated := now |}, Ok tt).

Definition apply_no_exit_fill (now : datetime) (qty : dec) (p : Position)
    : Position * result unit PositionError :=
  if (qty >? held_no_qty p)%dec then (p, Err (FillExceedsHeld NO qty (held_no_qty p)))
  else ({| p with held_no_qty := (held_no_qty p - qty)%dec;
                  exited_no_qty := (exited_no_qty p + qty)%dec;
                  last_updated := now |}, Ok tt).

Definition held_legs (p : Position) : bool * bool :=
  ((held_yes_qty p >? ZERO)%dec, (held_no_qty p >? ZERO)%dec).

Definition has_open_exposure (p : Position) : bool :=
  (held_yes_qty p >? ZERO)%dec || (held_no_qty p >? ZERO)%dec.

(** ** Closing *)

Definition close_via_recorded_exit (now : datetime) (fee : dec) (p : Position)
    : Position * result unit PositionError :=
  if bool_decide (pos_state p = Closed) then (p, Err AlreadyClosed)
  else if bool_decide (pos_state p = EntryFailed) then (p, Err NeverEntered)
  else match resolved_exit_prices p with
  | Err e => (p, Err e)
  | Ok (yes_price, no_price) =>
      ({| p with exit_timestamp := Some now;
                 pos_state := Closed;
                 realized_pnl := Some (exit_pnl p yes_price no_price fee);
                 unrealized_pnl := ZERO |}, Ok tt)
  end.

Definition close_via_exit (now : datetime) (yes_price no_price fee : dec) (p : Position)
    : Position * result unit PositionError :=
  if bool_decide (pos_state p = Closed) then (p, Err AlreadyClosed)
  else if bool_decide (pos_state p = EntryFailed) then (p, Err NeverEntered)
  else
    let '(has_yes, has_no) := held_outcomes p in
    let p := if has_yes : bool then {| p with yes_exit_price := Some yes_price |} else p in
    let p := if has_no : bool then {| p with no_exit_price := Some no_price |} else p in
    close_via_recorded_exit now fee p.

Definition close_via_resolution_with_winner (now : datetime) (yes_wins : bool) (fee : dec)
    (p : Position) : Position * result unit PositionError :=
  if bool_decide (pos_state p = Closed) then (p, Err AlreadyClosed)
  else if bool_decide (pos_state p = EntryFailed) then (p, Err NeverEntered)
  else
    let p := if (yes_entry_price p >? ZERO)%dec && bool_decide (yes_exit_price p = None)
             then {| p with yes_exit_price := Some (if yes_wins then ONE else ZERO) |} else p in
    let p := if (no_entry_price p >? ZERO)%dec && bool_decide (no_exit_price p = None)
             then {| p with no_exit_price := Some (if yes_wins then ZERO else ONE) |} else p in
    close_via_recorded_exit now fee p.

Definition close_via_resolution (now : datetime) (fee : dec) (p : Position)
    : Position * result unit PositionError :=
  if bool_decide (pos_state p = Closed) then (p, Err AlreadyClosed)
  else if bool_decide (pos_state p = EntryFailed) then (p, Err NeverEntered)
  else ({| p with exit_timestamp := Some now;
                  pos_state := Closed;
                  realized_pnl := Some (resolution_pnl p fee);
                  unrealized_pnl := ZERO |}, Ok tt).

(** ** Predicates *)

Definition is_active (p : Position) : bool :=
  match pos_state p with Closed | EntryFailed => false | _ => true end.

Definition needs_recovery (p : Position) : bool :=
  match pos_state p with ExitFailed | Stalled => true | _ => false end.

Definition is_one_legged_entry_fail (p : Position) : bool :=
  if bool_decide (pos_state p <> EntryFailed) then false
  else match failure_reason p with
  | Some (OneLeggedEntry _ _) => true
  | Some (OrderRejected message) | Some (ConnectivityError message) =>
      let lower := string_lower message in
      string_contains "one-legged" lower || string_contains "one_legged" lower
  | _ => false
  end.

Definition should_persist_as_open (p : Position) : bool :=
  match pos_state p with
  | Closed => false
  | EntryFailed => is_one_legged_entry_fail p
  | _ => true
  end.

Definition can_retry (p : Position) : bool := (retry_count p <? MAX_RETRY_ATTEMPTS)%Z.

Definition age_secs (now : datetime) (p : Position) : Z :=
  i64_as_u64 (Z.max (secs_since now (last_updated p)) 0).

Definition is_stale (now : datetime) (p : Position) : bool :=
  (STALE_THRESHOLD_SECS <? age_secs now p)%Z &&
  match pos_state p with Pending | Open | Closing => true | _ => false end.

(** ** Failures and recoveries *)

Definition mark_entry_failed (now : datetime) (reason : FailureReason) (p : Position)
    : Position :=
  {| p with pos_state := EntryFailed; failure_reason := Some reason; last_updated := now |}.

Definition mark_exit_failed (now : datetime) (reason : FailureReason) (p : Position)
    : Position :=
  {| p with pos_state := ExitFailed; failure_reason := Some reason;
            retry_count := u32_add (retry_count p) 1; last_updated := now |}.

Definition mark_stalled (now now' : datetime) (p : Position) : Position :=
  let elapsed := i64_as_u64 (secs_since now (last_updated p)) in
  {| p with pre_stall_state := Some (pos_state p); pos_state := Stalled;
            failure_reason := Some (StalePosition elapsed); last_updated := now' |}.

Definition attempt_exit_recovery (now : datetime) (p : Position) : Position * bool :=
  if bool_decide (pos_state p <> ExitFailed) then (p, false)
  else if (MAX_RETRY_ATTEMPTS <=? retry_count p)%Z then (p, false)
  else ({| p with pos_state := ExitReady; failure_reason := None; last_updated := now |}, true).

Definition attempt_stalled_recovery (now : datetime) (p : Position)
    : Position * option PositionState :=
  if bool_decide (pos_state p <> Stalled) then (p, None)
  else
    let recovered :=
      match pre_stall_state p with
      | Some prev => prev
      | None =>
          if bool_decide (is_Some (yes_exit_price p)) || bool_decide (is_Some (no_exit_price p))
          then ExitReady
          else if (yes_entry_price p >? ZERO)%dec && (no_entry_price p >? ZERO)%dec
          then Open
          else Pending
      end in
    ({| p with pre_stall_state := None; pos_state := recovered; failure_reason := None;
               retry_count := u32_add (retry_count p) 1; last_updated := now |},
     Some recovered).

Definition recover_one_legged_to_open (now : datetime) (p : Position)
    : Position * result unit PositionError :=
  if bool_decide (pos_state p <> EntryFailed) then (p, Err (NotEntryFailed (pos_state p)))
  else if negb (is_one_legged_entry_fail p) then (p, Err NotOneLegged)
  else if (MAX_RETRY_ATTEMPTS <=? retry_count p)%Z
  then (p, Err (MaxRetriesExceeded (retry_count p)))
  else ({| p with pos_state := Open; failure_reason := None;
                  retry_count := u32_add (retry_count p) 1; last_updated := now |}, Ok tt).

Definition touch (now : datetime) (p : Position) : Position :=
  {| p with last_updated := now |}.

(** Summary statistics for position performance. *)
Record PositionStats : Type := {
  total_positions : Z;
  open_positions : Z;
  closed_positions : Z;
  total_realized_pnl : dec;
  total_unrealized_pnl : dec;
  win_count : Z;
  loss_count : Z;
}.

Definition win_rate (s : PositionStats) : option f64 :=
  let total := u64_add (win_count s) (loss_count s) in
  if (total =? 0)%Z then None
  else Some (f64_div (f64_of_Z (win_count s)) (f64_of_Z total)).

(** ** Runs *)

Inductive pos_call : Type :=
| PUpdatePnl (now : datetime) (yes_bid no_bid fee : dec)
| PMarkOpen (now : datetime)
| PMarkExitReady (now : datetime)
| PMarkClosing (now : datetime)
| PRecordYesExit (now : datetime) (price : dec)
| PRecordNoExit (now : datetime) (price : dec)
| PApplyYesEntry (now : datetime) (qty : dec)
| PApplyNoEntry (now : datetime) (qty : dec)
| PApplyYesExit (now : datetime) (qty : dec)
| PApplyNoExit (now : datetime) (qty : dec)
| PCloseRecorded (now : datetime) (fee : dec)
| PCloseExit (now : datetime) (yes_price no_price fee : dec)
| PCloseWinner (now : datetime) (yes_wins : bool) (fee : dec)
| PCloseResolution (now : datetime) (fee : dec)
| PMarkEntryFailed (now : datetime) (reason : FailureReason)
| PMarkExitFailed (now : datetime) (reason : FailureReason)
| PMarkStalled (now now' : datetime)
| PExitRecovery (now : datetime)
| PStalledRecovery (now : datetime)
| PRecoverOneLegged (now : datetime)
| PTouch (now : datetime).

Definition pos_exec (c : pos_call) (p : Position) : Position :=
  match c with
  | PUpdatePnl now y n fee => update_pnl now y n fee p
  | PMarkOpen now => fst (mark_open now p)
  | PMarkExitReady now => fst (mark_exit_ready now p)
  | PMarkClosing now => fst (mark_closing now p)
  | PRecordYesExit now x => fst (record_yes_exit_fill now x p)
  | PRecordNoExit now x => fst (record_no_exit_fill now x p)
  | PApplyYesEntry now q => apply_yes_entry_fill now q p
  | PApplyNoEntry now q => apply_no_entry_fill now q p
  | PApplyYesExit now q => fst (apply_yes_exit_fill now q p)
  | PApplyNoExit now q => fst (apply_no_exit_fill now q p)
  | PCloseRecorded now fee => fst (close_via_recorded_exit now fee p)
  | PCloseExit now y n fee => fst (close_via_exit now y n fee p)
  | PCloseWinner now w fee => fst (close_via_resolution_with_winner now w fee p)
  | PCloseResolution now fee => fst (close_via_resolution now fee p)
  | PMarkEntryFailed now r => mark_entry_failed now r p
  | PMarkExitFailed now r => mark_exit_failed now r p
  | PMarkStalled now now' => mark_stalled now now' p
  | PExitRecovery now => fst (attempt_exit_recovery now p)
  | PStalledRecovery now => fst (attempt_stalled_recovery now p)
  | PRecoverOneLegged now => fst (recover_one_legged_to_open now p)
  | PTouch now => touch now p
  end.

Definition pos_run (cs : list pos_call) (p : Position) : Position :=
  foldl (fun p c => pos_exec c p) p cs.

End Position.
