(* ===== verification/PositionFacts.v ===== *)
(** * Properties of positions

    The state machine over arbitrary runs (a closed position stays closed, the
    retries are bounded), conservation of the shares held and exited, the
    three ways to close, and the P&L they book. *)

From S2P Require Import Prelude F64 Platform Market Position.

Section Facts.
Context `{DO : DecimalOps} `{CO : ChronoOps} `{UO : UuidOps}.
Implicit Types (p : Position) (c : pos_call).

Lemma fee_model_i16_round_trip m : fee_model_from_i16 (fee_model_as_i16 m) = m.
Proof. by destruct m. Qed.

(** A transition either fails and leaves the position, or moves it. *)
Lemma transition_spec now expected target p :
  (pos_state p = expected /\ transition now expected target p =
     (moved now target p, Ok tt)) \/
  (pos_state p <> expected /\
     transition now expected target p = (p, Err (CannotTransition target (pos_state p) expected))).
Proof.
  unfold transition. destruct (decide (pos_state p = expected)) as [E|E]; [left|right];
    (split; [done|]); by case_bool_decide.
Qed.

(** ** Closed is final *)

(** The marks that set the state whatever it is. *)
Definition forced_mark c : bool :=
  match c with PMarkEntryFailed _ _ | PMarkExitFailed _ _ | PMarkStalled _ _ => true | _ => false end.

Lemma closed_exec c p :
  forced_mark c = false -> pos_state p = Closed ->
  pos_state (pos_exec c p) = Closed /\
  realized_pnl (pos_exec c p) = realized_pnl p /\
  exit_timestamp (pos_exec c p) = exit_timestamp p /\
  yes_exit_price (pos_exec c p) = yes_exit_price p /\
  no_exit_price (pos_exec c p) = no_exit_price p /\
  retry_count (pos_exec c p) = retry_count p.
Proof.
  intros Hc H. destruct c; try done; simpl;
    unfold mark_open, mark_exit_ready, mark_closing, transition, record_yes_exit_fill,
      record_no_exit_fill, apply_yes_exit_fill, apply_no_exit_fill, close_via_recorded_exit,
      close_via_exit, close_via_resolution_with_winner, close_via_resolution,
      attempt_exit_recovery, attempt_stalled_recovery, recover_one_legged_to_open;
    rewrite ?H; simpl; split_cases; auto 10.
Qed.

(** ** What a close leaves alone *)

Record kept (p p' : Position) : Prop := {
  kept_retry : retry_count p' = retry_count p;
  kept_held_yes : held_yes_qty p' = held_yes_qty p;
  kept_held_no : held_no_qty p' = held_no_qty p;
  kept_exited_yes : exited_yes_qty p' = exited_yes_qty p;
  kept_exited_no : exited_no_qty p' = exited_no_qty p;
  kept_state : pos_state p' = pos_state p \/ pos_state p' = Closed;
}.

(** The same position with other exit prices. *)
Definition with_exits (y n : option dec) p : Position :=
  {| p with yes_exit_price := y; no_exit_price := n |}.

Lemma kept_refl p : kept p p.
Proof. split; auto. Qed.

Lemma close_recorded_kept now fee p : kept p (fst (close_via_recorded_exit now fee p)).
Proof. unfold close_via_recorded_exit. split_cases; try apply kept_refl; split; simpl; auto. Qed.

Lemma with_exits_kept now fee y n p :
  kept p (fst (close_via_recorded_exit now fee (with_exits y n p))).
Proof. destruct (close_recorded_kept now fee (with_exits y n p)). by split. Qed.

(** Both market exit and resolution record exit prices, then close. *)
Lemma close_via_exit_records now y n fee p :
  pos_state p <> Closed -> pos_state p <> EntryFailed ->
  close_via_exit now y n fee p =
    close_via_recorded_exit now fee
      (with_exits (if fst (held_outcomes p) then Some y else yes_exit_price p)
                  (if snd (held_outcomes p) then Some n else no_exit_price p) p).
Proof.
  intros H1 H2. unfold close_via_exit. rewrite !bool_decide_false by done.
  destruct (held_outcomes p) as [[] []]; by destruct p.
Qed.

Lemma close_winner_records now w fee p :
  pos_state p <> Closed -> pos_state p <> EntryFailed ->
  close_via_resolution_with_winner now w fee p =
    close_via_exit now (if w then ONE else ZERO) (if w then ZERO else ONE) fee p.
Proof.
  intros H1 H2. rewrite close_via_exit_records by done.
  unfold close_via_resolution_with_winner, held_outcomes. rewrite !bool_decide_false by done. simpl.
  destruct ((ZERO <? yes_entry_price p)%dec && _); simpl;
    destruct ((ZERO <? no_entry_price p)%dec && _); by destruct p.
Qed.

Lemma close_via_exit_kept now y n fee p : kept p (fst (close_via_exit now y n fee p)).
Proof.
  destruct (decide (pos_state p = Closed)) as [E|]; [|destruct (decide (pos_state p = EntryFailed)) as [E|]].
  1,2: unfold close_via_exit; rewrite E; apply kept_refl.
  rewrite close_via_exit_records by done. apply with_exits_kept.
Qed.

Lemma close_winner_kept now w fee p : kept p (fst (close_via_resolution_with_winner now w fee p)).
Proof.
  destruct (decide (pos_state p = Closed)) as [E|]; [|destruct (decide (pos_state p = EntryFailed)) as [E|]].
  1,2: unfold close_via_resolution_with_winner; rewrite E; apply kept_refl.
  rewrite close_winner_records by done. apply close_via_exit_kept.
Qed.

Lemma close_resolution_kept now fee p : kept p (fst (close_via_resolution now fee p)).
Proof. unfold close_via_resolution. split_cases; try apply kept_refl; split; simpl; auto. Qed.

(** The calls that close. *)
Definition is_close c : bool :=
  match c with
  | PCloseRecorded _ _ | PCloseExit _ _ _ _ | PCloseWinner _ _ _ | PCloseResolution _ _ => true
  | _ => false
  end.

Lemma close_exec_kept c p : is_close c = true -> kept p (pos_exec c p).
Proof.
  destruct c; try done; intros _; simpl;
    auto using close_recorded_kept, close_via_exit_kept, close_winner_kept, close_resolution_kept.
Qed.

(** ** Retries *)

(** A call that succeeds in bringing a failed position back. *)
Definition recovered c p : bool :=
  match c with
  | PExitRecovery now => snd (attempt_exit_recovery now p)
  | PRecoverOneLegged now => is_ok (snd (recover_one_legged_to_open now p))
  | _ => false
  end.

Fixpoint recoveries (cs : list pos_call) (p : Position) : Z :=
  match cs with
  | [] => 0
  | c :: cs => (if recovered c p then 1 else 0) + recoveries cs (pos_exec c p)
  end%Z.

(** The recoveries still possible. *)
Definition recoveries_left (p : Position) : Z :=
  Z.max 0 (MAX_RETRY_ATTEMPTS - retry_count p + (if bool_decide (pos_state p = ExitFailed) then 1 else 0)).

(** The calls that raise the retry count. *)
Definition raises_count c : bool :=
  match c with PMarkExitFailed _ _ | PStalledRecovery _ | PRecoverOneLegged _ => true | _ => false end.

(** The other calls keep the count, and do not make a position exit-failed. *)
Lemma quiet_exec c p :
  raises_count c = false ->
  retry_count (pos_exec c p) = retry_count p /\
  (pos_state (pos_exec c p) = ExitFailed -> pos_state p = ExitFailed /\ recovered c p = false).
Proof.
  intros Hc. destruct (is_close c) eqn:Ec.
  { destruct (close_exec_kept c p Ec) as [E _ _ _ _ Hs].
    split; [done|]. intros H. destruct Hs; [|congruence].
    split; [congruence|]. by destruct c. }
  destruct c; try done; simpl;
    unfold mark_open, mark_exit_ready, mark_closing, transition, record_yes_exit_fill,
      record_no_exit_fill, apply_yes_exit_fill, apply_no_exit_fill, attempt_exit_recovery;
    split_cases; auto.

Qed.

Lemma recovery_needs_room c p :
  recovered c p = true -> (retry_count p < 3)%Z /\
  ((pos_state p = ExitFailed /\ raises_count c = false) \/
   (pos_state p = EntryFailed /\ pos_state (pos_exec c p) = Open /\
    retry_count (pos_exec c p) = u32_add (retry_count p) 1)).
Proof.
  unfold recovered, MAX_RETRY_ATTEMPTS. destruct c; try done.
  - unfold attempt_exit_recovery, MAX_RETRY_ATTEMPTS.
    destruct (decide (pos_state p = ExitFailed)) as [Es|Es];
      [rewrite bool_decide_false by auto|by rewrite bool_decide_true].
    destruct (3 <=? retry_count p)%Z eqn:E; [done|]. reflect_bools. auto.
  - unfold pos_exec, recover_one_legged_to_open, MAX_RETRY_ATTEMPTS.
    destruct (decide (pos_state p = EntryFailed)) as [Es|Es];
      [rewrite bool_decide_false by auto|by rewrite bool_decide_true].
    destruct (negb _); [done|].
    destruct (3 <=? retry_count p)%Z eqn:E; [done|]. reflect_bools. auto.
Qed.

Lemma raises_exec c p :
  raises_count c = true -> (0 <= retry_count p < 2 ^ 32 - 1)%Z ->
  pos_exec c p = p \/ retry_count (pos_exec c p) = (retry_count p + 1)%Z.
Proof.
  intros Hc Hr. destruct c; try done; simpl;
    unfold attempt_stalled_recovery, recover_one_legged_to_open;
    repeat (case_match; simpl; auto); right; apply u32_add_small; lia.
Qed.

(** A step spends what it recovers. *)
Lemma recoveries_left_step c p :
  (0 <= retry_count p < 2 ^ 32 - 1)%Z ->
  ((if recovered c p then 1 else 0) + recoveries_left (pos_exec c p) <= recoveries_left p)%Z /\
  (0 <= retry_count (pos_exec c p) <= retry_count p + 1)%Z.
Proof.
  intros Hr. unfold recoveries_left, MAX_RETRY_ATTEMPTS.
  destruct (raises_count c) eqn:Hc.
  - pose proof (raises_exec c p Hc Hr) as Hx.
    destruct (recovered c p) eqn:Er.
    + apply recovery_needs_room in Er as [H3 [[_ ?]|(Es & Es' & Ec)]]; [congruence|].
      rewrite u32_add_small in Ec by lia. rewrite Ec, Es, Es'. simpl. lia.
    + destruct Hx as [-> | ->]; [lia|]. repeat case_bool_decide; lia.
  - destruct (quiet_exec c p Hc) as [-> Hs]. split; [|lia].
    destruct (recovered c p) eqn:Er.
    + apply recovery_needs_room in Er as [H3 [[Es _]|(Es & Es' & Ec)]].
      * rewrite Es. case_bool_decide as H'; [destruct (Hs H'); congruence|]. simpl. lia.
      * rewrite Es, Es'. simpl. assert (retry_count (pos_exec c p) = retry_count p) as E'
          by (by apply quiet_exec). rewrite Ec, u32_add_small in E' by lia. lia.
    + repeat case_bool_decide; try lia. destruct Hs; [done|congruence].
Qed.

Lemma recoveries_bounded cs p :
  (0 <= retry_count p)%Z -> (retry_count p + Z.of_nat (length cs) < 2 ^ 32)%Z ->
  (recoveries cs p <= recoveries_left p)%Z.
Proof.
  revert p. induction cs as [|c cs IH]; intros p H0 Hl; cbn [recoveries].
  { unfold recoveries_left. lia. }
  rewrite length_cons in Hl.
  destruct (recoveries_left_step c p ltac:(lia)) as [Hs Hc].
  specialize (IH (pos_exec c p)). lia.
Qed.

(** ** Shares *)

Context {DS : DecimalSpec} {EX : DecimalExact}.
Local Open Scope Q_scope.

Definition yes_shares p : Q := dval (held_yes_qty p) + dval (exited_yes_qty p).
Definition no_shares p : Q := dval (held_no_qty p) + dval (exited_no_qty p).

(** The entry fills of a run, per leg. *)
Definition yes_entered c : Q := match c with PApplyYesEntry _ q => dval q | _ => 0 end.
Definition no_entered c : Q := match c with PApplyNoEntry _ q => dval q | _ => 0 end.

(** A call touches the quantities only through a fill. *)
Definition is_fill c : bool :=
  match c with
  | PApplyYesEntry _ _ | PApplyNoEntry _ _ | PApplyYesExit _ _ | PApplyNoExit _ _ => true
  | _ => false
  end.

Lemma quantities_kept c p :
  is_fill c = false ->
  held_yes_qty (pos_exec c p) = held_yes_qty p /\ held_no_qty (pos_exec c p) = held_no_qty p /\
  exited_yes_qty (pos_exec c p) = exited_yes_qty p /\ exited_no_qty (pos_exec c p) = exited_no_qty p.
Proof.
  intros Hc. destruct (is_close c) eqn:Ec; [by destruct (close_exec_kept c p Ec)|].
  destruct c; try done; simpl;
    unfold mark_open, mark_exit_ready, mark_closing, transition, record_yes_exit_fill,
      record_no_exit_fill, attempt_exit_recovery, attempt_stalled_recovery,
      recover_one_legged_to_open;
    split_cases; auto.
Qed.

Lemma shares_step c p :
  yes_shares (pos_exec c p) == yes_shares p + yes_entered c /\
  no_shares (pos_exec c p) == no_shares p + no_entered c.
Proof.
  destruct (is_fill c) eqn:Ef.
  - destruct c; try done; simpl; unfold yes_shares, no_shares, apply_yes_exit_fill, apply_no_exit_fill;
      repeat case_match; simpl; rewrite ?dval_add, ?dval_sub; split; lra.
  - destruct (quantities_kept c p Ef) as (E1 & E2 & E3 & E4).
    unfold yes_shares, no_shares. rewrite E1, E2, E3, E4.
    destruct c; try done; simpl; split; lra.
Qed.

Definition held_nonneg p : Prop := 0 <= dval (held_yes_qty p) /\ 0 <= dval (held_no_qty p).

Lemma held_nonneg_step c p :
  0 <= yes_entered c -> 0 <= no_entered c -> held_nonneg p -> held_nonneg (pos_exec c p).
Proof.
  intros Hy Hn [Hp1 Hp2]. unfold held_nonneg. destruct (is_fill c) eqn:Ef.
  - destruct c; try done; simpl in *; unfold apply_yes_exit_fill, apply_no_exit_fill;
      repeat case_match; simpl; dec_to_Q; rewrite ?dval_add, ?dval_sub; split; lra.
  - by destruct (quantities_kept c p Ef) as (-> & -> & _).
Qed.

(** ** Closing *)

(** The price a leg exits at: the recorded one, or [x]. *)
Definition leg_price (recorded : option dec) (x : dec) : dec := default x recorded.

Definition enterable p : Prop := pos_state p <> Closed /\ pos_state p <> EntryFailed.

Definition has_yes_leg p : bool := (ZERO <? yes_entry_price p)%dec.
Definition has_no_leg p : bool := (ZERO <? no_entry_price p)%dec.

(** The prices the close books: per leg with an entry price, the exit price. *)
Definition booked_price (has : bool) (price : dec) : dec := if has then price else ZERO.

(** A closed position with its P&L. *)
Definition closed_with p (pnl : dec) : Prop :=
  pos_state p = Closed /\ realized_pnl p = Some pnl /\ unrealized_pnl p = ZERO /\
  is_Some (exit_timestamp p).

Lemma exit_pnl_ext p p' y n fee :
  yes_entry_price p = yes_entry_price p' -> no_entry_price p = no_entry_price p' ->
  quantity p = quantity p' -> fee_model p = fee_model p' ->
  yes_entry_fee_shares p = yes_entry_fee_shares p' ->
  no_entry_fee_shares p = no_entry_fee_shares p' ->
  exit_pnl p y n fee = exit_pnl p' y n fee.
Proof.
  intros E1 E2 E3 E4 E5 E6.
  unfold exit_pnl, position_cost, net_yes_shares, net_no_shares. by rewrite E1, E2, E3, E4, E5, E6.
Qed.

Lemma enterable_close now fee p :
  enterable p -> close_via_recorded_exit now fee p =
    match resolved_exit_prices p with
    | Err e => (p, Err e)
    | Ok (y, n) =>
        ({| p with exit_timestamp := Some now; pos_state := Closed;
                   realized_pnl := Some (exit_pnl p y n fee); unrealized_pnl := ZERO |}, Ok tt)
    end.
Proof. intros [H1 H2]. unfold close_via_recorded_exit. by rewrite !bool_decide_false by done. Qed.

(** The recorded close succeeds once every leg it holds has an exit price. *)
Lemma close_recorded_ok now fee p y n :
  enterable p ->
  (has_yes_leg p = true -> yes_exit_price p = Some y) ->
  (has_no_leg p = true -> no_exit_price p = Some n) ->
  exists p', close_via_recorded_exit now fee p = (p', Ok tt) /\
    closed_with p' (exit_pnl p (booked_price (has_yes_leg p) y) (booked_price (has_no_leg p) n) fee).
Proof.
  intros He Hy Hn. rewrite enterable_close by done.
  unfold resolved_exit_prices, booked_price.
  change (ZERO <? yes_entry_price p)%dec with (has_yes_leg p).
  change (ZERO <? no_entry_price p)%dec with (has_no_leg p).
  destruct (has_yes_leg p); rewrite ?Hy by done;
    destruct (has_no_leg p); rewrite ?Hn by done;
    eexists; (split; [done|]); unfold closed_with; simpl; by eauto.
Qed.

(** Without an exit price for a leg it fails, and changes nothing. *)
Lemma close_recorded_missing now fee p :
  enterable p ->
  (has_yes_leg p = true /\ yes_exit_price p = None) \/
  (has_no_leg p = true /\ no_exit_price p = None) ->
  exists leg, close_via_recorded_exit now fee p = (p, Err (LegNotExited leg)).
Proof.
  intros He H. rewrite enterable_close by done. unfold resolved_exit_prices.
  change (ZERO <? yes_entry_price p)%dec with (has_yes_leg p).
  change (ZERO <? no_entry_price p)%dec with (has_no_leg p).
  destruct H as [[-> ->]|[-> ->]]; [by eexists|].
  destruct (has_yes_leg p), (yes_exit_price p); by eexists.
Qed.

(** Without a leg missing its exit price, the close succeeds. *)
Lemma enterable_dec p : enterable p \/ pos_state p = Closed \/ pos_state p = EntryFailed.
Proof. unfold enterable. destruct (pos_state p); auto. Qed.

(** The prices a market exit or a resolution books for a leg: the recorded
    one if the leg was already sold, else the given one. *)
Definition exit_yes p (y : dec) : dec := booked_price (has_yes_leg p) (leg_price (yes_exit_price p) y).
Definition exit_no p (n : dec) : dec := booked_price (has_no_leg p) (leg_price (no_exit_price p) n).

Lemma close_exit_ok now y n fee p :
  enterable p ->
  exists p', close_via_exit now y n fee p = (p', Ok tt) /\
    closed_with p' (exit_pnl p (exit_yes p y) (exit_no p n) fee).
Proof.
  intros [H1 H2]. rewrite close_via_exit_records by done.
  unfold held_outcomes. rewrite bool_decide_false by done. simpl.
  set (p1 := with_exits _ _ p).
  destruct (close_recorded_ok now fee p1 (leg_price (yes_exit_price p) y)
    (leg_price (no_exit_price p) n)) as (p' & E & Hc).
  - done.
  - intros Hy. unfold p1. simpl. unfold has_yes_leg in Hy. simpl in Hy. rewrite Hy.
    by destruct (yes_exit_price p).
  - intros Hn. unfold p1. simpl. unfold has_no_leg in Hn. simpl in Hn. rewrite Hn.
    by destruct (no_exit_price p).
  - by exists p'.
Qed.

(** The value of a closed position under exact arithmetic. *)
Lemma dval_exit_pnl p y n fee :
  dval (exit_pnl p y n fee) ==
    match fee_model p with
    | LegacyFlat =>
        (dval y + dval n) * dval (quantity p) * (1 - dval fee)
        - dval (position_cost p) * (1 + dval fee)
    | ShareBased =>
        dval y * (dval (quantity p) * Qmax (1 - dval (yes_entry_fee_shares p)) 0)
        + dval n * (dval (quantity p) * Qmax (1 - dval (no_entry_fee_shares p)) 0)
        - dval (position_cost p)
    end.
Proof.
  unfold exit_pnl. destruct (fee_model p); unfold net_yes_shares, net_no_shares;
    repeat first [rewrite dval_sub|rewrite dval_mul|rewrite dval_add|rewrite dval_max];
    rewrite ?dval_ONE, ?dval_ZERO; lra.
Qed.

Lemma dval_resolution_pnl p fee :
  dval (resolution_pnl p fee) ==
    match fee_model p with
    | LegacyFlat => dval (quantity p) - dval (position_cost p) * (1 + dval fee)
    | ShareBased =>
        dval (resolution_payout_per_share p) * dval (quantity p) - dval (position_cost p)
    end.
Proof.
  unfold resolution_pnl. destruct (fee_model p); rewrite !dval_sub, ?dval_mul, ?dval_ONE; lra.
Qed.

(** A pair of which nothing is sold yet. *)
Definition whole_pair p : Prop :=
  has_yes_leg p = true /\ has_no_leg p = true /\ yes_exit_price p = None /\ no_exit_price p = None.

Lemma whole_pair_exits p y n : whole_pair p -> exit_yes p y = y /\ exit_no p n = n.
Proof. intros (H1 & H2 & H3 & H4). unfold exit_yes, exit_no. by rewrite H1, H2, H3, H4. Qed.

(** What the winner's close of a whole pair books. *)
Lemma close_winner_pair now w fee p :
  enterable p -> whole_pair p ->
  exists p', close_via_resolution_with_winner now w fee p = (p', Ok tt) /\
    closed_with p' (exit_pnl p (if w then ONE else ZERO) (if w then ZERO else ONE) fee).
Proof.
  intros He Hw. rewrite close_winner_records by apply He.
  destruct (close_exit_ok now (if w then ONE else ZERO) (if w then ZERO else ONE) fee p He)
    as (p' & E & Hc).
  destruct (whole_pair_exits p (if w then ONE else ZERO) (if w then ZERO else ONE) Hw) as [E1 E2].
  rewrite E1, E2 in Hc. by exists p'.
Qed.

Lemma close_resolution_ok now fee p :
  enterable p ->
  exists p', close_via_resolution now fee p = (p', Ok tt) /\ closed_with p' (resolution_pnl p fee).
Proof.
  intros [H1 H2]. unfold close_via_resolution. rewrite !bool_decide_false by done.
  eexists; split; [done|]. by unfold closed_with; simpl; eauto.
Qed.

(** The payout stored at entry is the worst case of the two legs' fees. *)
Definition worst_case_stored p : Prop :=
  fee_model p = ShareBased /\
  dval (resolution_payout_per_share p) ==
    Qmin (Qmax (1 - dval (yes_entry_fee_shares p)) 0) (Qmax (1 - dval (no_entry_fee_shares p)) 0).

(** ** Theorems *)

(** C16. A closed position is final: over any run of operations other than the
    three marks that set the state whatever it was (entry failed, exit failed,
    stalled), it stays closed and keeps its realized P&L, its exit time, its
    exit prices and its retry count. *)
Theorem closed_is_final cs p :
  Forall (fun c => forced_mark c = false) cs -> pos_state p = Closed ->
  let p' := pos_run cs p in
  pos_state p' = Closed /\ realized_pnl p' = realized_pnl p /\
  exit_timestamp p' = exit_timestamp p /\ yes_exit_price p' = yes_exit_price p /\
  no_exit_price p' = no_exit_price p /\ retry_count p' = retry_count p.
Proof.
  intros Hcs. revert p. induction Hcs as [|c cs Hc _ IH]; intros p Hp; [done|].
  destruct (closed_exec c p Hc Hp) as (H1 & H2 & H3 & H4 & H5 & H6).
  destruct (IH (pos_exec c p) H1) as (J1 & J2 & J3 & J4 & J5 & J6).
  simpl. unfold pos_run in *. split_and!; congruence.
Qed.

(** Retries are bounded: over any run (shorter than the counter's range),
    the exit recoveries and the one-legged recoveries that succeed are together
    at most MAX_RETRY_ATTEMPTS less the retries already counted, for a position
    that does not start in ExitFailed, and one more for one that does. *)
Theorem retries_bounded cs p :
  (0 <= retry_count p <= MAX_RETRY_ATTEMPTS)%Z -> (Z.of_nat (length cs) < 2 ^ 31)%Z ->
  (recoveries cs p <= MAX_RETRY_ATTEMPTS - retry_count p
                      + if bool_decide (pos_state p = ExitFailed) then 1 else 0)%Z.
Proof.
  unfold MAX_RETRY_ATTEMPTS. intros Hr Hl.
  pose proof (recoveries_bounded cs p ltac:(lia) ltac:(lia)) as H.
  unfold recoveries_left, MAX_RETRY_ATTEMPTS in H. case_bool_decide; lia.
Qed.

(** C10. Shares are conserved: after any run, the YES shares held and exited
    add up to those before it plus the YES entry fills of the run, and the same
    for NO; and with non-negative entry fills, the held quantities stay
    non-negative, whatever exit fills are attempted. *)
Theorem shares_conserved cs p :
  yes_shares (pos_run cs p) == yes_shares p + Qsum (map yes_entered cs) /\
  no_shares (pos_run cs p) == no_shares p + Qsum (map no_entered cs) /\
  (held_nonneg p -> Forall (fun c => 0 <= yes_entered c /\ 0 <= no_entered c) cs ->
     held_nonneg (pos_run cs p)).
Proof.
  revert p. induction cs as [|c cs IH]; intros p; simpl.
  - split_and!; [lra|lra|done].
  - destruct (shares_step c p) as [Sy Sn]. destruct (IH (pos_exec c p)) as (Iy & In & Ih).
    unfold pos_run in *. split_and!; [lra|lra|].
    intros Hp Hcs. apply Forall_cons in Hcs as [[Hy Hn] Hcs].
    apply Ih; [|done]. by apply held_nonneg_step.
Qed.

(** Selling what is held always closes: on a position that entered and is
    not closed, the market exit returns Ok and books the P&L at the prices
    already recorded for the legs sold and at the given prices for the others;
    the close by recorded fills returns Ok exactly when every leg with an entry
    price has its exit price, books the P&L at those, and otherwise changes
    nothing. *)
Theorem close_books_exit_prices now y n fee p :
  enterable p ->
  (exists p', close_via_exit now y n fee p = (p', Ok tt) /\
     closed_with p' (exit_pnl p (exit_yes p y) (exit_no p n) fee)) /\
  ((has_yes_leg p = true -> is_Some (yes_exit_price p)) /\
   (has_no_leg p = true -> is_Some (no_exit_price p)) ->
     exists p', close_via_recorded_exit now fee p = (p', Ok tt) /\
       closed_with p' (exit_pnl p (exit_yes p ZERO) (exit_no p ZERO) fee)) /\
  ((has_yes_leg p = true /\ yes_exit_price p = None) \/
   (has_no_leg p = true /\ no_exit_price p = None) ->
     exists leg, close_via_recorded_exit now fee p = (p, Err (LegNotExited leg))).
Proof.
  intros He. split_and!; [by apply close_exit_ok| |by apply close_recorded_missing].
  intros [Hy Hn]. apply close_recorded_ok; [done| |].
  - intros H. by destruct (Hy H) as [x ->].
  - intros H. by destruct (Hn H) as [x ->].
Qed.

(** Under share-based fees the resolution fallback is the worst case: for
    a whole pair with the payout stored at entry, the P&L it books is the
    smaller of those the close with a known winner books for YES and for NO. *)
Theorem share_fallback_is_worst_case now now' fee p :
  enterable p -> whole_pair p -> worst_case_stored p -> 0 <= dval (quantity p) ->
  exists pf py pn xf xy xn,
    close_via_resolution now fee p = (pf, Ok tt) /\ closed_with pf xf /\
    close_via_resolution_with_winner now' true fee p = (py, Ok tt) /\ closed_with py xy /\
    close_via_resolution_with_winner now' false fee p = (pn, Ok tt) /\ closed_with pn xn /\
    dval xf == Qmin (dval xy) (dval xn).
Proof.
  intros He Hw [Hf Hp] Hq.
  destruct (close_resolution_ok now fee p He) as (pf & Ef & Cf).
  destruct (close_winner_pair now' true fee p He Hw) as (py & Ey & Cy).
  destruct (close_winner_pair now' false fee p He Hw) as (pn & En & Cn).
  exists pf, py, pn. do 3 eexists.
  split; [done|]. split; [exact Cf|]. split; [done|]. split; [exact Cy|].
  split; [done|]. split; [exact Cn|].
  rewrite dval_resolution_pnl, !dval_exit_pnl, Hf, Hp, dval_ONE, dval_ZERO.
  generalize (Qmax (1 - dval (yes_entry_fee_shares p)) 0), (Qmax (1 - dval (no_entry_fee_shares p)) 0).
  intros u v. q_cases; nra.
Qed.

(** Under the legacy flat fee the resolution fallback is not conservative:
    for a whole pair it books the same pay-out without the exit fee, so its P&L
    exceeds the one booked with a known winner, whoever wins, by the fee on the
    quantity. *)
Theorem legacy_fallback_overstates now now' w fee p :
  enterable p -> whole_pair p -> fee_model p = LegacyFlat ->
  exists pf pw xf xw,
    close_via_resolution now fee p = (pf, Ok tt) /\ closed_with pf xf /\
    close_via_resolution_with_winner now' w fee p = (pw, Ok tt) /\ closed_with pw xw /\
    dval xf == dval xw + dval fee * dval (quantity p).
Proof.
  intros He Hw Hf.
  destruct (close_resolution_ok now fee p He) as (pf & Ef & Cf).
  destruct (close_winner_pair now' w fee p He Hw) as (pw & Ew & Cw).
  exists pf, pw. do 2 eexists.
  split; [done|]. split; [exact Cf|]. split; [done|]. split; [exact Cw|].
  rewrite dval_resolution_pnl, dval_exit_pnl, Hf. destruct w; rewrite dval_ONE, dval_ZERO; lra.
Qed.

End Facts.

(** ** The theorems at concrete inputs *)

Section Witnesses.
#[local] Existing Instance Concrete.decimal.
#[local] Existing Instance Concrete.decimal_spec.
#[local] Existing Instance Concrete.decimal_exact.
#[local] Existing Instance Concrete.chrono.
#[local] Existing Instance Concrete.uuid.
Abbreviation d := Concrete.d.
Abbreviation at_minute := Concrete.at_minute.

(** 100 pairs bought at 48 and 46 cents, opened. *)
Definition sample_position : Position :=
  fst (mark_open (at_minute 1)
    (position_new 1%positive (at_minute 0) "m" (d 48 2) (d 46 2) (d 100 0) HoldToResolution)).
Definition closed_position : Position :=
  fst (close_via_resolution (at_minute 2) (d 2 2) sample_position).
(** The same with share-based fees of half a cent and one cent per share. *)
Definition share_position : Position :=
  apply_arb_fee_model
    {| arb_market_id := "m"; arb_timestamp := at_minute 0; yes_ask := d 48 2; no_ask := d 46 2;
       total_cost := d 94 2; gross_profit := d 6 2; net_profit := d 5 2; fee_drag := d 1 2;
       worst_case_payout := d 99 2; yes_fee_shares := d 5 3; no_fee_shares := d 1 2 |}
    sample_position.

(** Legacy: 100 - 94 - 1.88 = 4.12 from the fallback. *)
Example fallback_example : realized_pnl closed_position = Some (d 412 2).
Proof. vm_compute. reflexivity. Qed.

Lemma sample_whole_pair : whole_pair sample_position.
Proof. by split_and!. Qed.
Lemma sample_enterable : enterable sample_position.
Proof. by split. Qed.

Lemma closed_is_final_witness :
  pos_state (pos_run [PMarkOpen (at_minute 3); PCloseResolution (at_minute 4) (d 9 2)] closed_position)
  = Closed.
Proof.
  by apply (closed_is_final [PMarkOpen (at_minute 3); PCloseResolution (at_minute 4) (d 9 2)]
    closed_position); [repeat constructor|].
Defined.

Lemma retries_bounded_witness :
  (recoveries [PMarkExitFailed (at_minute 1) InsufficientBalance; PExitRecovery (at_minute 2);
               PMarkExitFailed (at_minute 3) InsufficientBalance; PExitRecovery (at_minute 4);
               PMarkExitFailed (at_minute 5) InsufficientBalance; PExitRecovery (at_minute 6)]
     sample_position <= 3)%Z.
Proof. by apply (retries_bounded _ sample_position). Defined.

(** The third exit recovery of the same run is refused. *)
Example retries_example :
  recoveries [PMarkExitFailed (at_minute 1) InsufficientBalance; PExitRecovery (at_minute 2);
              PMarkExitFailed (at_minute 3) InsufficientBalance; PExitRecovery (at_minute 4);
              PMarkExitFailed (at_minute 5) InsufficientBalance; PExitRecovery (at_minute 6)]
    sample_position = 2%Z.
Proof. vm_compute. reflexivity. Qed.

Lemma shares_conserved_witness :
  (yes_shares (pos_run [PApplyYesEntry (at_minute 1) (d 60 0); PApplyYesEntry (at_minute 2) (d 40 0);
                        PApplyYesExit (at_minute 3) (d 30 0)] sample_position)
   == yes_shares sample_position
      + Qsum (map yes_entered [PApplyYesEntry (at_minute 1) (d 60 0);
              PApplyYesEntry (at_minute 2) (d 40 0); PApplyYesExit (at_minute 3) (d 30 0)]))%Q.
Proof. apply shares_conserved. Defined.

Lemma close_books_exit_prices_witness :
  exists p', close_via_exit (at_minute 5) (d 50 2) (d 49 2) (d 2 2) sample_position = (p', Ok tt) /\
    closed_with p' (exit_pnl sample_position (exit_yes sample_position (d 50 2))
                      (exit_no sample_position (d 49 2)) (d 2 2)).
Proof.
  exact (proj1 (close_books_exit_prices (at_minute 5) (d 50 2) (d 49 2) (d 2 2) sample_position
    sample_enterable)).
Defined.

Lemma share_fallback_is_worst_case_witness :
  exists pf xf, close_via_resolution (at_minute 5) (d 2 2) share_position = (pf, Ok tt) /\
    closed_with pf xf.
Proof.
  destruct (share_fallback_is_worst_case (at_minute 5) (at_minute 6) (d 2 2) share_position)
    as (pf & py & pn & xf & xy & xn & E & H & _);
    [by split|exact sample_whole_pair| |by vm_compute|].
  - by split; vm_compute.
  - by exists pf, xf.
Defined.

Lemma legacy_fallback_overstates_witness :
  exists pf xf, close_via_resolution (at_minute 5) (d 2 2) sample_position = (pf, Ok tt) /\
    closed_with pf xf.
Proof.
  destruct (legacy_fallback_overstates (at_minute 5) (at_minute 6) true (d 2 2) sample_position)
    as (pf & pw & xf & xw & E & H & _); [exact sample_enterable|exact sample_whole_pair|done|].
  by exists pf, xf.
Defined.

End Witnesses.
