(* ===== verification/PositionRepo.v ===== *)
(** * The positions table

    Models [crates/polymarket-core/src/db/positions.rs]: the row a position is
    stored in, the INSERT and the UPDATE with the columns they set, the
    conversion back, and the queries.  The table maps a primary key to its
    row; [io] says whether a query succeeds.  PostgreSQL stores the decimal
    columns with 8 fractional digits: the amounts at hand fit them.  A query
    with an ORDER BY sorts its result.  [failure_reason] is stored as JSON by
    [serde_json], which is a class with its round trip as its law. *)

From stdpp Require Import sorting.
From S2P Require Import Prelude F64 Platform Market Position.

(** [serde_json::to_string] and [from_str] at [FailureReason]. *)
Class JsonOps `{DO : DecimalOps} : Type := {
  reason_to_json : FailureReason -> option string;
  reason_from_json : string -> option FailureReason;
}.
Class JsonSpec `{JO : JsonOps} : Prop := {
  reason_json_round_trip : forall r,
    exists s, reason_to_json r = Some s /\ reason_from_json s = Some r;
}.

Inductive RepoError : Type := QueryFailed | DuplicateKey.

Definition SOURCE_MANUAL : Z := 0.
Definition SOURCE_ARBITRAGE : Z := 1.
Definition SOURCE_COPY_TRADE : Z := 2.
Definition SOURCE_RECOMMENDATION : Z := 3.

(** [position.state as i16], and the [match] of [row_to_position]. *)
Definition state_code (s : PositionState) : Z :=
  match s with
  | Pending => 0 | Open => 1 | ExitReady => 2 | Closing => 3
  | Closed => 4 | EntryFailed => 5 | ExitFailed => 6 | Stalled => 7
  end.
Definition state_of_code (c : Z) : PositionState :=
  match c with
  | 0 => Pending | 1 => Open | 2 => ExitReady | 3 => Closing
  | 4 => Closed | 5 => EntryFailed | 6 => ExitFailed | 7 => Stalled
  | _ => Closed
  end%Z.

Definition strategy_code (s : ExitStrategy) : Z :=
  match s with HoldToResolution => 0 | ExitOnCorrection => 1 end.
Definition strategy_of_code (c : Z) : ExitStrategy :=
  match c with 0%Z => HoldToResolution | _ => ExitOnCorrection end.

Section Repo.
Context `{DO : DecimalOps} `{CO : ChronoOps} `{UO : UuidOps} `{JO : !JsonOps}.

(** The columns of [positions] the repository reads and writes; [option] for
    those that may be NULL. *)
Record PositionRow : Type := {
  r_id : Uuid;
  r_market_id : string;
  r_yes_entry_price : dec;
  r_no_entry_price : dec;
  r_quantity : dec;
  r_entry_timestamp : datetime;
  r_exit_strategy : Z;
  r_state : Z;
  r_unrealized_pnl : dec;
  r_realized_pnl : option dec;
  r_exit_timestamp : option datetime;
  r_yes_exit_price : option dec;
  r_no_exit_price : option dec;
  r_failure_reason : option string;
  r_retry_count : option Z;
  r_last_updated : option datetime;
  r_updated_at : option datetime;
  r_fee_model : option Z;
  r_resolution_payout : option dec;
  r_yes_entry_fee_shares : option dec;
  r_no_entry_fee_shares : option dec;
  r_held_yes_qty : option dec;
  r_held_no_qty : option dec;
  r_exited_yes_qty : option dec;
  r_exited_no_qty : option dec;
  r_resolution_winner : option string;
  r_is_open : bool;
  r_opened_at : option datetime;
  r_source : option Z;
  r_source_signal_id : option Uuid;
  r_entry_price : option dec;
}.

(** The table, by primary key. *)
Abbreviation Table := (gmap Uuid PositionRow).

(** [serde_json::to_string(r).unwrap_or_default()]. *)
Definition encode_reason (r : FailureReason) : string := default EmptyString (reason_to_json r).

(** The row the INSERT makes; the columns it does not list are NULL. *)
Definition insert_row (p : Position) (source : Z) (source_signal_id : option Uuid) : PositionRow := {|
  r_id := pos_id p;
  r_market_id := pos_market_id p;
  r_yes_entry_price := yes_entry_price p;
  r_no_entry_price := no_entry_price p;
  r_quantity := quantity p;
  r_entry_timestamp := entry_timestamp p;
  r_exit_strategy := strategy_code (exit_strategy p);
  r_state := state_code (pos_state p);
  r_unrealized_pnl := unrealized_pnl p;
  r_realized_pnl := None;
  r_exit_timestamp := None;
  r_yes_exit_price := None;
  r_no_exit_price := None;
  r_failure_reason := encode_reason <$> failure_reason p;
  r_retry_count := Some (u32_as_i32 (retry_count p));
  r_last_updated := Some (last_updated p);
  r_updated_at := None;
  r_fee_model := Some (fee_model_as_i16 (fee_model p));
  r_resolution_payout := Some (resolution_payout_per_share p);
  r_yes_entry_fee_shares := Some (yes_entry_fee_shares p);
  r_no_entry_fee_shares := Some (no_entry_fee_shares p);
  r_held_yes_qty := Some (held_yes_qty p);
  r_held_no_qty := Some (held_no_qty p);
  r_exited_yes_qty := Some (exited_yes_qty p);
  r_exited_no_qty := Some (exited_no_qty p);
  r_resolution_winner := resolution_winner p;
  r_is_open := should_persist_as_open p;
  r_opened_at := Some (entry_timestamp p);
  r_source := Some source;
  r_source_signal_id := source_signal_id;
  r_entry_price := None;
|}.

Definition insert_with_source (io : bool) (p : Position) (source : Z)
    (source_signal_id : option Uuid) (t : Table) : Table * result unit RepoError :=
  if negb io then (t, Err QueryFailed)
  else match t !! pos_id p with
  | Some _ => (t, Err DuplicateKey)
  | None => (<[pos_id p := insert_row p source source_signal_id]> t, Ok tt)
  end.

Definition repo_insert (io : bool) (p : Position) (t : Table) : Table * result unit RepoError :=
  insert_with_source io p SOURCE_MANUAL None t.

(** The columns the UPDATE sets: not the market, the entry prices, the
    quantity, the entry time or the strategy. *)
Definition update_row (p : Position) (r : PositionRow) : PositionRow :=
  {| r with
     r_state := state_code (pos_state p);
     r_unrealized_pnl := unrealized_pnl p;
     r_realized_pnl := realized_pnl p;
     r_exit_timestamp := exit_timestamp p;
     r_yes_exit_price := yes_exit_price p;
     r_no_exit_price := no_exit_price p;
     r_failure_reason := encode_reason <$> failure_reason p;
     r_retry_count := Some (u32_as_i32 (retry_count p));
     r_last_updated := Some (last_updated p);
     r_updated_at := Some (last_updated p);
     r_fee_model := Some (fee_model_as_i16 (fee_model p));
     r_resolution_payout := Some (resolution_payout_per_share p);
     r_yes_entry_fee_shares := Some (yes_entry_fee_shares p);
     r_no_entry_fee_shares := Some (no_entry_fee_shares p);
     r_held_yes_qty := Some (held_yes_qty p);
     r_held_no_qty := Some (held_no_qty p);
     r_exited_yes_qty := Some (exited_yes_qty p);
     r_exited_no_qty := Some (exited_no_qty p);
     r_resolution_winner := resolution_winner p;
     r_is_open := should_persist_as_open p |}.

Definition repo_update (io : bool) (p : Position) (t : Table) : Table * result unit RepoError :=
  if negb io then (t, Err QueryFailed)
  else (alter (update_row p) (pos_id p) t, Ok tt).

(** Convert a database row to a [Position]. *)
Definition row_to_position (r : PositionRow) : Position :=
  let legacy_resolution_payout :=
    dec_max (ONE - (r_yes_entry_price r + r_no_entry_price r) * DEFAULT_FEE)%dec ZERO in
  {| pos_id := r_id r;
     pos_market_id := r_market_id r;
     yes_entry_price := r_yes_entry_price r;
     no_entry_price := r_no_entry_price r;
     quantity := r_quantity r;
     entry_timestamp := r_entry_timestamp r;
     exit_strategy := strategy_of_code (r_exit_strategy r);
     pos_state := state_of_code (r_state r);
     unrealized_pnl := r_unrealized_pnl r;
     realized_pnl := r_realized_pnl r;
     exit_timestamp := r_exit_timestamp r;
     yes_exit_price := r_yes_exit_price r;
     no_exit_price := r_no_exit_price r;
     failure_reason := r_failure_reason r ≫= reason_from_json;
     retry_count := i32_as_u32 (default 0%Z (r_retry_count r));
     last_updated := default (r_entry_timestamp r) (r_last_updated r);
     pre_stall_state := None;
     fee_model := fee_model_from_i16 (default 0%Z (r_fee_model r));
     resolution_payout_per_share := default legacy_resolution_payout (r_resolution_payout r);
     yes_entry_fee_shares := default ZERO (r_yes_entry_fee_shares r);
     no_entry_fee_shares := default ZERO (r_no_entry_fee_shares r);
     held_yes_qty := default ZERO (r_held_yes_qty r);
     held_no_qty := default ZERO (r_held_no_qty r);
     exited_yes_qty := default ZERO (r_exited_yes_qty r);
     exited_no_qty := default ZERO (r_exited_no_qty r);
     resolution_winner := r_resolution_winner r |}.

Definition repo_get (io : bool) (id : Uuid) (t : Table) : result (option Position) RepoError :=
  if negb io then Err QueryFailed else Ok (row_to_position <$> t !! id).

(** ** Queries *)

(** [SELECT ... WHERE where_ ORDER BY], as positions. *)
Definition select_rows (where_ : PositionRow -> bool) (t : Table) : list PositionRow :=
  List.filter where_ (snd <$> map_to_list t).

Definition by_entry_desc (a b : PositionRow) : Prop :=
  dt_leb (r_entry_timestamp b) (r_entry_timestamp a) = true.
Definition by_entry_asc (a b : PositionRow) : Prop :=
  dt_leb (r_entry_timestamp a) (r_entry_timestamp b) = true.
(** NULLs last. *)
Definition by_updated_asc (a b : PositionRow) : Prop :=
  match r_last_updated a, r_last_updated b with
  | Some x, Some y => dt_leb x y = true
  | None, Some _ => False
  | _, None => True
  end.
#[export] Instance by_entry_desc_dec : RelDecision by_entry_desc.
Proof. intros a b. unfold by_entry_desc. apply _. Defined.
#[export] Instance by_entry_asc_dec : RelDecision by_entry_asc.
Proof. intros a b. unfold by_entry_asc. apply _. Defined.
#[export] Instance by_updated_asc_dec : RelDecision by_updated_asc.
Proof. intros a b. unfold by_updated_asc. repeat case_match; apply _. Defined.

Definition query {A} (io : bool) (rows : A) : result A RepoError :=
  if io then Ok rows else Err QueryFailed.

(** [state NOT IN (4, 5)]. *)
Definition row_active (r : PositionRow) : bool := negb ((r_state r =? 4) || (r_state r =? 5))%Z.
(** [state IN (6, 7)]. *)
Definition row_recovery (r : PositionRow) : bool := ((r_state r =? 6) || (r_state r =? 7))%Z.
(** [COALESCE(source, 0) NOT IN (2, 3)]. *)
Definition row_arb_source (r : PositionRow) : bool :=
  let s := default 0%Z (r_source r) in
  negb ((s =? SOURCE_COPY_TRADE) || (s =? SOURCE_RECOMMENDATION))%Z.
(** [state IN (0, 1, 2, 3)]. *)
Definition row_slot (r : PositionRow) : bool := ((0 <=? r_state r) && (r_state r <=? 3))%Z.

Definition get_active (io : bool) (t : Table) : result (list Position) RepoError :=
  query io (row_to_position <$> merge_sort by_entry_desc (select_rows row_active t)).

Definition get_active_for_arb_monitor (io : bool) (t : Table) : result (list Position) RepoError :=
  query io (row_to_position <$>
    merge_sort by_entry_desc (select_rows (fun r => row_active r && row_arb_source r) t)).

Definition get_needing_recovery (io : bool) (t : Table) : result (list Position) RepoError :=
  query io (row_to_position <$> merge_sort by_updated_asc (select_rows row_recovery t)).

Definition get_needing_recovery_for_arb_monitor (io : bool) (t : Table)
    : result (list Position) RepoError :=
  query io (row_to_position <$>
    merge_sort by_updated_asc (select_rows (fun r => row_recovery r && row_arb_source r) t)).

Definition get_exit_ready (io : bool) (t : Table) : result (list Position) RepoError :=
  query io (row_to_position <$>
    merge_sort by_updated_asc (select_rows (fun r => r_state r =? 2)%Z t)).

Definition get_hold_to_resolution (io : bool) (t : Table) : result (list Position) RepoError :=
  query io (row_to_position <$> merge_sort by_entry_asc
    (select_rows (fun r => (r_exit_strategy r =? 0) && ((r_state r =? 1) || (r_state r =? 2)))%Z t)).

(** Active exit-on-correction position plus its persisted source. *)
Record ExitCandidate : Type := {
  candidate_position : Position;
  candidate_source : Z;
  candidate_signal : option Uuid;
}.

Definition get_open_exit_candidates (io : bool) (t : Table) : result (list ExitCandidate) RepoError :=
  query io ((fun r => {| candidate_position := row_to_position r;
                         candidate_source := default 0%Z (r_source r);
                         candidate_signal := r_source_signal_id r |}) <$>
    merge_sort by_entry_asc
      (select_rows (fun r => (r_exit_strategy r =? 1) && (r_state r =? 1))%Z t)).

Definition get_failed_exits (io : bool) (t : Table) : result (list Position) RepoError :=
  query io (row_to_position <$>
    merge_sort by_updated_asc (select_rows (fun r => r_state r =? 6)%Z t)).

Definition get_one_legged_entry_failed (io : bool) (t : Table) : result (list Position) RepoError :=
  query io (List.filter is_one_legged_entry_fail (row_to_position <$>
    merge_sort by_updated_asc
      (select_rows (fun r => (r_state r =? 5)%Z &&
                             match r_retry_count r with Some n => (n <? 3)%Z | None => false end) t))).

(** [COUNT( * ) FILTER (WHERE c)], as the [u64] of an [i64]. *)
Definition count_rows (where_ : PositionRow -> bool) (t : Table) : Z :=
  Z.of_nat (length (select_rows where_ t)).

(** [realized_pnl > 0] and [realized_pnl <= 0]: NULL satisfies neither. *)
Definition row_win (r : PositionRow) : bool :=
  match r_realized_pnl r with Some x => (x >? ZERO)%dec | None => false end.
Definition row_loss (r : PositionRow) : bool :=
  match r_realized_pnl r with Some x => (x <=? ZERO)%dec | None => false end && (r_state r =? 4)%Z.

Definition get_stats (io : bool) (t : Table) : result PositionStats RepoError :=
  query io {|
    total_positions := count_rows (fun _ => true) t;
    open_positions := count_rows (fun r => r_state r <? 4)%Z t;
    closed_positions := count_rows (fun r => r_state r =? 4)%Z t;
    total_realized_pnl := dec_sum (omap r_realized_pnl (select_rows (fun _ => true) t));
    total_unrealized_pnl := dec_sum (r_unrealized_pnl <$> select_rows (fun r => r_state r <? 4)%Z t);
    win_count := count_rows row_win t;
    loss_count := count_rows row_loss t;
  |}.

Definition active_position_exists_for_market_source (io : bool) (market : string) (source : Z)
    (t : Table) : result bool RepoError :=
  query io (0 <? count_rows (fun r => bool_decide (r_market_id r = market) &&
    bool_decide (r_source r = Some source) && row_active r) t)%Z.

Definition count_active_by_source (io : bool) (source : Z) (t : Table) : result Z RepoError :=
  query io (count_rows (fun r => bool_decide (r_source r = Some source) && row_active r) t).

(** A row opened by the quant executor that still occupies a slot. *)
Definition row_quant (r : PositionRow) : bool :=
  bool_decide (r_source r = Some SOURCE_RECOMMENDATION) &&
  bool_decide (is_Some (r_source_signal_id r)) && (r_exit_strategy r =? 1)%Z &&
  (row_slot r || row_recovery r).

Definition active_quant_executor_position_exists_for_market (io : bool) (market : string)
    (t : Table) : result bool RepoError :=
  query io (0 <? count_rows (fun r => bool_decide (r_market_id r = market) && row_quant r) t)%Z.

Definition count_active_quant_executor_positions (io : bool) (t : Table) : result Z RepoError :=
  query io (count_rows row_quant t).

(** GROUP BY state ORDER BY state: the states that occur. *)
Definition active_quant_executor_position_state_counts (io : bool) (t : Table)
    : result (list (Z * Z)) RepoError :=
  query io (List.filter (fun sc => 0 <? snd sc)%Z
    ((fun s => (s, count_rows (fun r => row_quant r && (r_state r =? s))%Z t))
       <$> [0; 1; 2; 3; 6; 7]%Z)).

(** [SUM(quantity * COALESCE(entry_price, yes_entry_price + no_entry_price, 0))]. *)
Definition get_total_active_exposure (io : bool) (t : Table) : result dec RepoError :=
  query io (dec_sum ((fun r => (r_quantity r *
    default (r_yes_entry_price r + r_no_entry_price r) (r_entry_price r))%dec)
      <$> select_rows row_slot t)).

Definition count_active_positions_for_market (io : bool) (market : string) (t : Table)
    : result Z RepoError :=
  query io (count_rows (fun r => bool_decide (r_market_id r = market) && row_slot r) t).

(** ** Round trips *)

Context {JS : JsonSpec}.

Lemma state_of_code_code s : state_of_code (state_code s) = s.
Proof. by destruct s. Qed.
Lemma strategy_of_code_code s : strategy_of_code (strategy_code s) = s.
Proof. by destruct s. Qed.
Lemma fee_model_round_trip m : fee_model_from_i16 (fee_model_as_i16 m) = m.
Proof. by destruct m. Qed.

Lemma encode_reason_inv (r : option FailureReason) : (encode_reason <$> r) ≫= reason_from_json = r.
Proof.
  destruct r as [r|]; [|done]. simpl. unfold encode_reason.
  destruct (reason_json_round_trip r) as (s & -> & E). done.
Qed.

(** What a reload gives after an update: the row keeps the entry side. *)
Definition reloaded (r : PositionRow) (p : Position) : Position :=
  {| p with
     pos_id := r_id r; pos_market_id := r_market_id r;
     yes_entry_price := r_yes_entry_price r; no_entry_price := r_no_entry_price r;
     quantity := r_quantity r; entry_timestamp := r_entry_timestamp r;
     exit_strategy := strategy_of_code (r_exit_strategy r); pre_stall_state := None |}.

Lemma row_to_position_update r p :
  is_u32 (retry_count p) -> row_to_position (update_row p r) = reloaded r p.
Proof.
  intros Hr. unfold row_to_position, reloaded. simpl.
  rewrite encode_reason_inv, state_of_code_code, i32_u32_roundtrip, fee_model_round_trip by done.
  done.
Qed.

Lemma row_to_position_insert p source signal :
  is_u32 (retry_count p) ->
  row_to_position (insert_row p source signal) =
    {| p with realized_pnl := None; exit_timestamp := None; yes_exit_price := None;
              no_exit_price := None; pre_stall_state := None |}.
Proof.
  intros Hr. unfold row_to_position. simpl.
  rewrite encode_reason_inv, state_of_code_code, strategy_of_code_code, i32_u32_roundtrip,
    fee_model_round_trip by done.
  done.
Qed.

End Repo.

Abbreviation Table := (gmap Uuid PositionRow).
