(* ===== verification/PositionRepoFacts.v ===== *)
(** * Properties of the positions table

    What a position looks like after it was stored and loaded again, the
    invariant of the table, and the agreement of the queries' state codes with
    the predicates of [Position]. *)

From stdpp Require Import sorting.
From Stdlib Require Import Ascii.
From S2P Require Import Prelude F64 Platform Market Position PositionRepo.

Section Facts.
Context `{DO : DecimalOps} `{CO : ChronoOps} `{UO : UuidOps} `{JO : !JsonOps}.
Implicit Types (t : Table) (r : PositionRow) (p : Position).

(** A table whose rows sit under their own key and hold codes the program
    writes. *)
Record row_valid (id : Uuid) (r : PositionRow) : Prop := {
  rv_key : r_id r = id;
  rv_state : (0 <= r_state r <= 7)%Z;
  rv_strategy : (0 <= r_exit_strategy r <= 1)%Z;
  rv_retry : exists n, r_retry_count r = Some n /\ (- 2 ^ 31 <= n < 2 ^ 31)%Z;
}.
Definition table_valid (t : Table) : Prop := map_Forall row_valid t.

Lemma state_code_range s : (0 <= state_code s <= 7)%Z.
Proof. destruct s; simpl; lia. Qed.
Lemma u32_as_i32_range x : is_u32 x -> (- 2 ^ 31 <= u32_as_i32 x < 2 ^ 31)%Z.
Proof. unfold is_u32, u32_as_i32. case_match; lia. Qed.

Lemma insert_row_valid p source signal :
  is_u32 (retry_count p) -> row_valid (pos_id p) (insert_row p source signal).
Proof.
  intros Hr. split; simpl; [done|apply state_code_range|destruct (exit_strategy p); simpl; lia|].
  eexists; split; [done|]. by apply u32_as_i32_range.
Qed.

Lemma update_row_valid id p r :
  is_u32 (retry_count p) -> row_valid id r -> row_valid id (update_row p r).
Proof.
  intros Hp []. split; simpl; [done|apply state_code_range|done|].
  eexists; split; [done|]. by apply u32_as_i32_range.
Qed.

Lemma insert_valid io p source signal t :
  is_u32 (retry_count p) -> table_valid t ->
  table_valid (fst (insert_with_source io p source signal t)).
Proof.
  intros Hp Ht. unfold insert_with_source. destruct io; simpl; [|done].
  destruct (t !! pos_id p); simpl; [done|].
  apply map_Forall_insert_2; [by apply insert_row_valid|done].
Qed.

Lemma update_valid io p t :
  is_u32 (retry_count p) -> table_valid t -> table_valid (fst (repo_update io p t)).
Proof.
  intros Hp Ht. unfold repo_update. destruct io; simpl; [|done].
  intros id r Hl. simpl in Hl.
  rewrite lookup_alter in Hl. case_decide.
  - subst. destruct (t !! pos_id p) as [r0|] eqn:E; simplify_eq/=.
    apply update_row_valid; [done|]. by apply Ht.
  - by apply Ht.
Qed.

(** Membership in a query's answer. *)
Lemma elem_of_select where_ t r :
  r ∈ select_rows where_ t <-> (exists id, t !! id = Some r) /\ where_ r = true.
Proof.
  unfold select_rows. rewrite list_elem_of_In, List.filter_In, <- list_elem_of_In.
  rewrite list_elem_of_fmap. split.
  - intros [([id r'] & -> & Hin) Hw]. apply elem_of_map_to_list in Hin. eauto.
  - intros [[id Hl] Hw]. split; [|done]. exists (id, r). split; [done|].
    by apply elem_of_map_to_list.
Qed.

Lemma elem_of_sorted {R : PositionRow -> PositionRow -> Prop} `{!RelDecision R} where_ t p :
  p ∈ row_to_position <$> merge_sort R (select_rows where_ t) <->
  exists id r, t !! id = Some r /\ where_ r = true /\ p = row_to_position r.
Proof.
  rewrite list_elem_of_fmap. setoid_rewrite (merge_sort_Permutation R).
  setoid_rewrite elem_of_select.
  split; [intros (r & -> & [id Hl] & Hw)|intros (id & r & Hl & Hw & ->)]; eauto 6.
Qed.

(** The stored code answers what the predicates of [Position] answer. *)
Lemma row_active_spec id r :
  row_valid id r -> row_active r = is_active (row_to_position r).
Proof.
  intros [_ Hs _ _]. unfold row_active, is_active. simpl.
  assert (r_state r ∈ [0; 1; 2; 3; 4; 5; 6; 7]%Z) as Hin.
  { rewrite !elem_of_cons. lia. }
  rewrite !elem_of_cons in Hin. by destruct_or! Hin; try rewrite Hin; [..|set_solver].
Qed.

Lemma row_recovery_spec id r :
  row_valid id r -> row_recovery r = needs_recovery (row_to_position r).
Proof.
  intros [_ Hs _ _]. unfold row_recovery, needs_recovery. simpl.
  assert (r_state r ∈ [0; 1; 2; 3; 4; 5; 6; 7]%Z) as Hin.
  { rewrite !elem_of_cons. lia. }
  rewrite !elem_of_cons in Hin. by destruct_or! Hin; try rewrite Hin; [..|set_solver].
Qed.

(** ** Theorems *)


(** The queries select by the states the program means: in a table whose
    rows were written by it (which inserts and updates maintain), [get_active]
    returns exactly the stored positions that are active, and
    [get_needing_recovery] exactly those that need recovery. *)
Theorem queries_match_predicates t p :
  table_valid t ->
  (exists ps, get_active true t = Ok ps /\
     (p ∈ ps <-> exists id, repo_get true id t = Ok (Some p) /\ is_active p = true)) /\
  (exists ps, get_needing_recovery true t = Ok ps /\
     (p ∈ ps <-> exists id, repo_get true id t = Ok (Some p) /\ needs_recovery p = true)) /\
  (forall io q source signal, is_u32 (retry_count q) ->
     table_valid (fst (insert_with_source io q source signal t)) /\
     table_valid (fst (repo_update io q t))).
Proof.
  intros Ht. split_and!; [| |auto using insert_valid, update_valid].
  - eexists; split; [done|]. rewrite elem_of_sorted. unfold repo_get. simpl. split.
    + intros (id & r & Hl & Ha & ->). exists id. rewrite Hl.
      by rewrite <- (row_active_spec id) by by apply Ht.
    + intros (id & E & Ha). destruct (t !! id) as [r|] eqn:Hl; simplify_eq/=.
      exists id, r. by rewrite (row_active_spec id) by by apply Ht.
  - eexists; split; [done|]. rewrite elem_of_sorted. unfold repo_get. simpl. split.
    + intros (id & r & Hl & Ha & ->). exists id. rewrite Hl.
      by rewrite <- (row_recovery_spec id) by by apply Ht.
    + intros (id & E & Ha). destruct (t !! id) as [r|] eqn:Hl; simplify_eq/=.
      exists id, r. by rewrite (row_recovery_spec id) by by apply Ht.
Qed.

End Facts.

(** ** A concrete encoding and the theorems at concrete inputs *)

Module ConcreteJson.
#[local] Existing Instance Concrete.decimal.

(** A positive in binary digits, most significant last. *)
Fixpoint pos_to_string (p : positive) : string :=
  match p with
  | xH => "1"
  | xO p => "0" +:+ pos_to_string p
  | xI p => "1" +:+ pos_to_string p
  end.
Fixpoint string_to_pos (s : string) : option positive :=
  match s with
  | EmptyString => None
  | String c s =>
      if bool_decide (c = "1"%char)
      then match s with EmptyString => Some xH | _ => xI <$> string_to_pos s end
      else xO <$> string_to_pos s
  end.

Lemma string_pos_round_trip p : string_to_pos (pos_to_string p) = Some p.
Proof.
  induction p as [p IH|p IH|]; [| |done].
  - change (string_to_pos (pos_to_string p~1)) with
      (match pos_to_string p with EmptyString => Some xH
       | _ => xI <$> string_to_pos (pos_to_string p) end).
    rewrite IH. destruct p; done.
  - change (string_to_pos (pos_to_string p~0)) with (xO <$> string_to_pos (pos_to_string p)).
    by rewrite IH.
Qed.

#[export] Instance Q_eq_dec : EqDecision Q.
Proof. solve_decision. Defined.
#[export] Instance Q_countable : Countable Q.
Proof. apply (inj_countable' (fun q => (Qnum q, Qden q)) (fun '(n, d) => Qmake n d)). by intros []. Defined.

(** A failure as a tagged tuple. *)
Definition reason_tuple (r : FailureReason) : Z * string * string * (Z * Q * Q) :=
  match r with
  | OrderRejected m => (0, m, "", (0%Z, 0%Q, 0%Q))
  | OrderTimeout e => (1, "", "", (e, 0%Q, 0%Q))
  | InsufficientBalance => (2, "", "", (0%Z, 0%Q, 0%Q))
  | MarketClosed => (3, "", "", (0%Z, 0%Q, 0%Q))
  | PriceSlippage e a => (4, "", "", (0, e, a))
  | ConnectivityError m => (5, m, "", (0%Z, 0%Q, 0%Q))
  | OneLeggedEntry l m => (6, l, m, (0%Z, 0%Q, 0%Q))
  | StalePosition s => (7, "", "", (s, 0%Q, 0%Q))
  | UnknownFailure m => (8, m, "", (0%Z, 0%Q, 0%Q))
  end%Z.
Definition tuple_reason (x : Z * string * string * (Z * Q * Q)) : FailureReason :=
  match x with
  | (0, m, _, _) => OrderRejected m
  | (1, _, _, (e, _, _)) => OrderTimeout e
  | (2, _, _, _) => InsufficientBalance
  | (3, _, _, _) => MarketClosed
  | (4, _, _, (_, e, a)) => PriceSlippage (DO := Concrete.decimal) e a
  | (5, m, _, _) => ConnectivityError m
  | (6, l, m, _) => OneLeggedEntry l m
  | (7, _, _, (s, _, _)) => StalePosition s
  | (_, m, _, _) => UnknownFailure m
  end%Z.

Definition json : JsonOps := {|
  reason_to_json r := Some (pos_to_string (encode (reason_tuple r)));
  reason_from_json s := p ← string_to_pos s; tuple_reason <$> decode p;
|}.

Lemma json_spec : @JsonSpec _ json.
Proof.
  split. intros r. eexists; split; [done|]. simpl.
  rewrite string_pos_round_trip. simpl. rewrite decode_encode. by destruct r.
Qed.
End ConcreteJson.

Section Witnesses.
#[local] Existing Instance Concrete.decimal.
#[local] Existing Instance Concrete.chrono.
#[local] Existing Instance Concrete.uuid.
#[local] Existing Instance ConcreteJson.json.
#[local] Existing Instance ConcreteJson.json_spec.
Abbreviation d := Concrete.d.
Abbreviation at_minute := Concrete.at_minute.

Definition stored_position : Position :=
  position_new 1%positive (at_minute 0) "m" (d 48 2) (d 46 2) (d 100 0) ExitOnCorrection.
Definition stored_table : Table :=
  fst (repo_insert true stored_position ∅).


Lemma queries_match_predicates_witness :
  exists ps, get_active true stored_table = Ok ps /\
    (stored_position ∈ ps <->
     exists id, repo_get true id stored_table = Ok (Some stored_position) /\
       is_active stored_position = true).
Proof.
  apply queries_match_predicates. apply insert_valid; [unfold is_u32; simpl; lia|].
  apply map_Forall_empty.
Defined.

End Witnesses.
