(* ===== verification/PositionService.v ===== *)
(** * The position service

    Models [crates/api-server/src/position_service.rs] with the trade events of
    [trade_events.rs]: every mutation of a position by the API server goes
    through it, and follows load, validate, mutate, persist, record.  A method
    that takes [&mut Position] is a function to the position and the service
    (the positions table and the trade events) after the call and its result.
    [io] says whether the UPDATE and the event's INSERT succeed; [now] is the
    clock, read once per call.  The metadata of the events (JSON) and the
    broadcast to subscribers are left out; [debug_reason] is the derived
    [Debug] text of a failure reason. *)

From S2P Require Import Prelude F64 Platform Market Position PositionRepo.

(** [format!("{:?}", state).to_lowercase()]. *)
Definition debug_lower (s : PositionState) : string :=
  match s with
  | Pending => "pending" | Open => "open" | ExitReady => "exitready" | Closing => "closing"
  | Closed => "closed" | EntryFailed => "entryfailed" | ExitFailed => "exitfailed"
  | Stalled => "stalled"
  end.

Section Service.
Context `{DO : DecimalOps} `{CO : ChronoOps} `{UO : UuidOps} `{JO : !JsonOps}.
Variable debug_reason : FailureReason -> string.

(** How a position was finally closed. *)
Inductive CloseMethod : Type :=
| MarketExit (fee : dec)
| ResolutionWithWinner (yes_wins : bool) (fee : dec)
| ResolutionConservative (fee : dec).

(** Parameters for creating a new position. *)
Record CreatePositionParams : Type := {
  cp_market_id : string;
  cp_yes_entry_price : dec;
  cp_no_entry_price : dec;
  cp_quantity : dec;
  cp_exit_strategy : ExitStrategy;
  cp_source : Z;
  cp_source_signal_id : option Uuid;
  cp_arb_opportunity : option ArbOpportunity;
}.

(** Context fields for trade event recording. *)
Record EventContext : Type := {
  ctx_execution_mode : string;
  ctx_strategy : string;
  ctx_source_label : string;
}.

(** The fields of [NewTradeEvent] the callers set. *)
Record NewTradeEvent : Type := {
  ev_strategy : string;
  ev_execution_mode : string;
  ev_source : string;
  ev_market_id : string;
  ev_position_id : option Uuid;
  ev_event_type : string;
  ev_state_from : option string;
  ev_state_to : option string;
  ev_reason : option string;
  ev_expected_edge : option dec;
  ev_observed_edge : option dec;
  ev_requested_size_usd : option dec;
  ev_filled_size_usd : option dec;
  ev_fill_price : option dec;
  ev_realized_pnl : option dec;
  ev_unrealized_pnl : option dec;
  ev_signal_id : option Uuid;
  ev_direction : option string;
  ev_confidence : option f64;
}.

(** [NewTradeEvent::new(strategy, execution_mode, source, market_id, type)]. *)
Definition trade_event_new (strategy execution_mode source market_id type : string)
    : NewTradeEvent := {|
  ev_strategy := strategy;
  ev_execution_mode := execution_mode;
  ev_source := source;
  ev_market_id := market_id;
  ev_position_id := None;
  ev_event_type := type;
  ev_state_from := None; ev_state_to := None; ev_reason := None;
  ev_expected_edge := None; ev_observed_edge := None;
  ev_requested_size_usd := None; ev_filled_size_usd := None; ev_fill_price := None;
  ev_realized_pnl := None; ev_unrealized_pnl := None;
  ev_signal_id := None; ev_direction := None; ev_confidence := None;
|}.
Definition with_position (id : Uuid) (e : NewTradeEvent) : NewTradeEvent :=
  {| e with ev_position_id := Some id |}.
(** An event of the service, about a position. *)
Definition event_new (ctx : EventContext) (p : Position) (type : string) : NewTradeEvent :=
  with_position (pos_id p)
    (trade_event_new (ctx_strategy ctx) (ctx_execution_mode ctx) (ctx_source_label ctx)
       (pos_market_id p) type).
Definition with_state (from to : option string) (e : NewTradeEvent) : NewTradeEvent :=
  {| e with ev_state_from := from; ev_state_to := to |}.
Definition with_reason (reason : option string) (e : NewTradeEvent) : NewTradeEvent :=
  {| e with ev_reason := reason |}.

Inductive ServiceError : Type :=
| DbFailed (what : string) (e : RepoError)
| Invalid (what : string) (e : PositionError)
| WrongState (from : PositionState)
| NotFound (id : Uuid).

Record Service : Type := {
  svc_table : Table;
  svc_events : list NewTradeEvent;
}.

Record Io : Type := { io_db : bool; io_event : bool }.

(** [record_warn]: a failed INSERT is logged and dropped. *)
Definition record_warn (io : Io) (e : NewTradeEvent) (s : Service) : Service :=
  if io_event io then {| s with svc_events := svc_events s ++ [e] |} else s.

(** Persist the mutated position, then record the event. *)
Definition persist_and_record (io : Io) (what : string) (e : NewTradeEvent) (p : Position)
    (s : Service) : Position * Service * result unit ServiceError :=
  match repo_update (io_db io) p (svc_table s) with
  | (t, Err err) => (p, {| s with svc_table := t |}, Err (DbFailed what err))
  | (t, Ok _) => (p, record_warn io e {| s with svc_table := t |}, Ok tt)
  end.

Definition create_position (io : Io) (id : Uuid) (now : datetime) (params : CreatePositionParams)
    (ctx : EventContext) (s : Service) : Service * result Position ServiceError :=
  let position := position_new id now (cp_market_id params) (cp_yes_entry_price params)
                    (cp_no_entry_price params) (cp_quantity params) (cp_exit_strategy params) in
  let position := match cp_arb_opportunity params with
                  | Some arb => apply_arb_fee_model arb position
                  | None => position
                  end in
  match insert_with_source (io_db io) position (cp_source params) (cp_source_signal_id params)
          (svc_table s) with
  | (t, Err e) => ({| s with svc_table := t |}, Err (DbFailed "insert position" e))
  | (t, Ok _) =>
      let e := with_state None (Some "pending") (event_new ctx position "entry_requested") in
      let e := {| e with ev_requested_size_usd := Some (position_cost position) |} in
      (record_warn io e {| s with svc_table := t |}, Ok position)
  end.

(** The position after a single-leg entry fill. *)
Definition fill_entry (now : datetime) (leg : Leg) (fill_price fill_qty : dec) (p : Position)
    : Position :=
  let p := {| p with quantity := fill_qty |} in
  match leg with
  | YES => apply_yes_entry_fill now fill_qty {| p with yes_entry_price := fill_price |}
  | NO => apply_no_entry_fill now fill_qty {| p with no_entry_price := fill_price |}
  end.

(** Record a single-leg entry fill; does not transition the state. *)
Definition record_entry_fill (io : Io) (now : datetime) (leg : Leg) (fill_price fill_qty : dec)
    (ctx : EventContext) (p : Position) (s : Service)
    : Position * Service * result unit ServiceError :=
  let p := fill_entry now leg fill_price fill_qty p in
  let e := {| (event_new ctx p "entry_filled") with
              ev_fill_price := Some fill_price;
              ev_filled_size_usd := Some (fill_qty * fill_price)%dec |} in
  persist_and_record io "update after entry fill" e p s.

(** A guarded transition, persisted and recorded. *)
Definition service_transition (io : Io) (what : string) (f : Position -> Position * result unit PositionError)
    (event : NewTradeEvent -> NewTradeEvent) (type to : string) (ctx : EventContext)
    (p : Position) (s : Service) : Position * Service * result unit ServiceError :=
  let from := debug_lower (pos_state p) in
  match f p with
  | (p', Err e) => (p', s, Err (Invalid what e))
  | (p', Ok _) =>
      persist_and_record io ("update after " +:+ what)
        (event (with_state (Some from) (Some to) (event_new ctx p' type))) p' s
  end.

Definition service_mark_open (io : Io) (now : datetime) (ctx : EventContext) :=
  service_transition io "mark_open" (mark_open now) id "position_open" "open" ctx.

Definition service_mark_exit_ready (io : Io) (now : datetime) (reason : string)
    (ctx : EventContext) :=
  service_transition io "mark_exit_ready" (mark_exit_ready now) (with_reason (Some reason))
    "exit_marked_ready" "exit_ready" ctx.

Definition service_mark_closing (io : Io) (now : datetime) (ctx : EventContext) :=
  service_transition io "mark_closing" (mark_closing now) id "exit_requested" "closing" ctx.

Definition service_mark_entry_failed (io : Io) (now : datetime) (reason : FailureReason)
    (ctx : EventContext) (p : Position) (s : Service)
    : Position * Service * result unit ServiceError :=
  let from := debug_lower (pos_state p) in
  let p := mark_entry_failed now reason p in
  persist_and_record io "update after mark_entry_failed"
    (with_reason (Some (debug_reason reason))
      (with_state (Some from) (Some "entry_failed") (event_new ctx p "entry_failed"))) p s.

(** Record a single-leg exit fill: the price for the P&L and the quantity. *)
Definition record_exit_fill (io : Io) (now : datetime) (leg : Leg) (fill_price fill_qty : dec)
    (ctx : EventContext) (p : Position) (s : Service)
    : Position * Service * result unit ServiceError :=
  let mutated :=
    match leg with
    | YES =>
        if (fill_qty >? held_yes_qty p)%dec
        then inr (p, Invalid "" (FillExceedsHeld YES fill_qty (held_yes_qty p)))
        else match record_yes_exit_fill now fill_price p with
             | (p, Err e) => inr (p, Invalid "record_yes_exit_fill" e)
             | (p, Ok _) => inl (fst (apply_yes_exit_fill now fill_qty p))
             end
    | NO =>
        if (fill_qty >? held_no_qty p)%dec
        then inr (p, Invalid "" (FillExceedsHeld NO fill_qty (held_no_qty p)))
        else match record_no_exit_fill now fill_price p with
             | (p, Err e) => inr (p, Invalid "record_no_exit_fill" e)
             | (p, Ok _) => inl (fst (apply_no_exit_fill now fill_qty p))
             end
    end in
  match mutated with
  | inr (p, e) => (p, s, Err e)
  | inl p =>
      let e := {| (event_new ctx p "exit_fill") with
                  ev_fill_price := Some fill_price;
                  ev_filled_size_usd := Some (fill_qty * fill_price)%dec |} in
      persist_and_record io "update after exit fill" e p s
  end.

(** Move what is still held to exited. *)
Definition sweep_held (p : Position) : Position :=
  {| p with exited_yes_qty := (exited_yes_qty p + held_yes_qty p)%dec;
            exited_no_qty := (exited_no_qty p + held_no_qty p)%dec;
            held_yes_qty := ZERO; held_no_qty := ZERO |}.

(** Final close: computes the P&L, sets the state, records the event. *)
Definition close_position (io : Io) (now : datetime) (method : CloseMethod) (ctx : EventContext)
    (p : Position) (s : Service) : Position * Service * result unit ServiceError :=
  let from := debug_lower (pos_state p) in
  let '(p, closed, type) :=
    match method with
    | MarketExit fee =>
        let '(p, r) := close_via_recorded_exit now fee p in
        match r with
        | Err e => (p, Err (Invalid "close_via_recorded_exit" e), "closed_via_exit")
        | Ok _ => (sweep_held p, Ok tt, "closed_via_exit")
        end
    | ResolutionWithWinner yes_wins fee =>
        let '(p, r) := close_via_resolution_with_winner now yes_wins fee p in
        match r with
        | Err e => (p, Err (Invalid "close_via_resolution_with_winner" e), "closed_via_resolution")
        | Ok _ =>
            (sweep_held {| p with resolution_winner := Some (if yes_wins then "yes" else "no") |},
             Ok tt, "closed_via_resolution")
        end
    | ResolutionConservative fee =>
        let '(p, r) := close_via_resolution now fee p in
        match r with
        | Err e => (p, Err (Invalid "close_via_resolution" e), "closed_via_resolution")
        | Ok _ => (sweep_held p, Ok tt, "closed_via_resolution")
        end
    end in
  match closed with
  | Err e => (p, s, Err e)
  | Ok _ =>
      let e := with_state (Some from) (Some "closed") (event_new ctx p type) in
      let e := {| e with ev_realized_pnl := realized_pnl p |} in
      persist_and_record io "update after close" e p s
  end.

Definition service_mark_exit_failed (io : Io) (now : datetime) (reason : FailureReason)
    (ctx : EventContext) (p : Position) (s : Service)
    : Position * Service * result unit ServiceError :=
  let from := debug_lower (pos_state p) in
  let p := mark_exit_failed now reason p in
  persist_and_record io "update after mark_exit_failed"
    (with_reason (Some (debug_reason reason))
      (with_state (Some from) (Some "exit_failed") (event_new ctx p "exit_failed"))) p s.

(** The result of a call that persists, with another answer. *)
Definition answering {A} (a : A) (o : Position * Service * result unit ServiceError)
    : Position * Service * result A ServiceError :=
  match o with
  | (p, s, Ok _) => (p, s, Ok a)
  | (p, s, Err e) => (p, s, Err e)
  end.

Definition service_exit_recovery (io : Io) (now : datetime) (ctx : EventContext)
    (p : Position) (s : Service) : Position * Service * result bool ServiceError :=
  let '(p, recovered) := attempt_exit_recovery now p in
  if negb recovered then (p, s, Ok false)
  else answering true (persist_and_record io "update after exit recovery"
         (with_state (Some "exit_failed") (Some "exit_ready")
           (event_new ctx p "exit_recovery_requeued")) p s).

Definition service_stalled_recovery (io : Io) (now : datetime) (ctx : EventContext)
    (p : Position) (s : Service) : Position * Service * result (option PositionState) ServiceError :=
  let '(p, recovered_state) := attempt_stalled_recovery now p in
  match recovered_state with
  | None => (p, s, Ok None)
  | Some _ =>
      answering recovered_state (persist_and_record io "update after stalled recovery"
        (with_state (Some "stalled") (Some (debug_lower (pos_state p)))
          (event_new ctx p "stall_recovery_attempted")) p s)
  end.

(** The missing leg's price and quantity set to zero. *)
Definition drop_missing_leg (held_leg : string) (p : Position) : Position :=
  if bool_decide (held_leg = "yes")
  then {| p with no_entry_price := ZERO; held_no_qty := ZERO |}
  else {| p with yes_entry_price := ZERO; held_yes_qty := ZERO |}.
(** [position.state = Pending], and [position.failure_reason = Some(reason)]. *)
Definition reset_pending (p : Position) : Position := {| p with pos_state := Pending |}.
Definition set_failure (reason : FailureReason) (p : Position) : Position :=
  {| p with failure_reason := Some reason |}.

(** Pending or EntryFailed to ExitReady, for the exit of the held leg. *)
Definition transition_one_legged_to_exit_ready (io : Io) (now : datetime)
    (held_leg failure_msg : string) (ctx : EventContext) (p : Position) (s : Service)
    : Position * Service * result unit ServiceError :=
  if negb (bool_decide (pos_state p = Pending) || bool_decide (pos_state p = EntryFailed))
  then (p, s, Err (WrongState (pos_state p)))
  else
    let p := reset_pending (drop_missing_leg held_leg p) in
    match mark_open now p with
    | (p, Err e) => (p, s, Err (Invalid "one-legged mark_open" e))
    | (p, Ok _) =>
        match mark_exit_ready now p with
        | (p, Err e) => (p, s, Err (Invalid "one-legged mark_exit_ready" e))
        | (p, Ok _) =>
            let p := set_failure (OneLeggedEntry held_leg failure_msg) p in
            persist_and_record io "update after one-legged transition"
              (with_reason (Some failure_msg)
                (with_state (Some "pending") (Some "exit_ready")
                  (event_new ctx p "one_legged_exit_ready"))) p s
        end
    end.

(** Load a position by ID. *)
Definition load (io : bool) (id : Uuid) (s : Service) : result Position ServiceError :=
  match repo_get io id (svc_table s) with
  | Err e => Err (DbFailed "get" e)
  | Ok (Some p) => Ok p
  | Ok None => Err (NotFound id)
  end.

(** ** Calls *)

Inductive svc_call : Type :=
| SEntryFill (leg : Leg) (price qty : dec)
| SMarkOpen | SMarkExitReady (reason : string) | SMarkClosing
| SMarkEntryFailed (reason : FailureReason) | SMarkExitFailed (reason : FailureReason)
| SExitFill (leg : Leg) (price qty : dec)
| SClose (method : CloseMethod)
| SExitRecovery | SStalledRecovery
| SOneLegged (held_leg failure_msg : string).

(** A call on a position and the service, its answer reduced to a success. *)
Definition svc_exec (io : Io) (now : datetime) (ctx : EventContext) (c : svc_call)
    (p : Position) (s : Service) : Position * Service * bool :=
  let done {A} (o : Position * Service * result A ServiceError) :=
    let '(p, s, r) := o in (p, s, is_ok r) in
  match c with
  | SEntryFill leg price qty => done (record_entry_fill io now leg price qty ctx p s)
  | SMarkOpen => done (service_mark_open io now ctx p s)
  | SMarkExitReady reason => done (service_mark_exit_ready io now reason ctx p s)
  | SMarkClosing => done (service_mark_closing io now ctx p s)
  | SMarkEntryFailed reason => done (service_mark_entry_failed io now reason ctx p s)
  | SMarkExitFailed reason => done (service_mark_exit_failed io now reason ctx p s)
  | SExitFill leg price qty => done (record_exit_fill io now leg price qty ctx p s)
  | SClose method => done (close_position io now method ctx p s)
  | SExitRecovery => done (service_exit_recovery io now ctx p s)
  | SStalledRecovery => done (service_stalled_recovery io now ctx p s)
  | SOneLegged leg msg => done (transition_one_legged_to_exit_ready io now leg msg ctx p s)
  end.

End Service.
