(* ===== verification/PositionServiceFacts.v ===== *)
(** * Properties of the position service

    The contract of every call (validate, mutate, persist, record, with the
    failures that leave everything as it was), the close that empties a
    position, and three behaviours of fills and reloads that the code does not
    mean: the entry fill's price and quantity are not stored, a one-legged
    position cannot be closed once reloaded, and a partial exit fill is closed
    as a whole one. *)

From S2P Require Import Prelude F64 Platform Market Position PositionFacts PositionRepo.
From S2P Require Import PositionRepoFacts PositionService.

Section Facts.
Context `{DO : DecimalOps} `{CO : ChronoOps} `{UO : UuidOps} `{JO : !JsonOps}.
Variable debug_reason : FailureReason -> string.
Implicit Types (p : Position) (s : Service) (io : Io) (ctx : EventContext).

Abbreviation exec := (svc_exec debug_reason).

(** What a call does to the service: nothing, or one UPDATE of the position
    and at most one event. *)
Definition persisted p' s s' : Prop :=
  svc_table s' = alter (update_row p') (pos_id p') (svc_table s) /\
  (svc_events s' = svc_events s \/ exists e, svc_events s' = svc_events s ++ [e]).

(** The contract of a call on [p], which left [p'] and [s'], and answered. *)
Definition contract io p s (p' : Position) (s' : Service) (ok : bool) : Prop :=
  pos_id p' = pos_id p /\
  if ok then (p' = p /\ s' = s) \/ persisted p' s s'
  else s' = s /\ (p' = p \/ io_db io = false).

Lemma persist_contract io what e p p' s :
  pos_id p' = pos_id p ->
  contract io p s (fst (fst (persist_and_record io what e p' s)))
    (snd (fst (persist_and_record io what e p' s))) (is_ok (snd (persist_and_record io what e p' s))).
Proof.
  intros Hid. unfold contract, persist_and_record, repo_update, record_warn, persisted.
  destruct (io_db io) eqn:Ed; simpl.
  - destruct (io_event io); simpl; eauto 6.
  - split; [done|]. split; [by destruct s|by right].
Qed.

(** With the database at hand, the result of a persisted call. *)
Lemma persist_ok io what e p s :
  io_db io = true ->
  persist_and_record io what e p s =
    (p, record_warn io e {| s with svc_table := alter (update_row p) (pos_id p) (svc_table s) |}, Ok tt).
Proof. intros E. unfold persist_and_record, repo_update. by rewrite E. Qed.

Definition outcome {A} io p s (o : Position * Service * result A ServiceError) : Prop :=
  let '(p', s', r) := o in contract io p s p' s' (is_ok r).

#[local] Arguments outcome : simpl never.

Lemma outcome_persist io what e p p' s :
  pos_id p' = pos_id p -> outcome io p s (persist_and_record io what e p' s).
Proof.
  intros Hid. pose proof (persist_contract io what e p p' s Hid) as H.
  by destruct (persist_and_record io what e p' s) as [[? ?] ?].
Qed.

Lemma outcome_unchanged {A} io p s (r : result A ServiceError) : outcome io p s (p, s, r).
Proof. unfold outcome, contract. destruct (is_ok r); auto. Qed.

Lemma outcome_answering {A} io p s (a : A) o :
  outcome io p s o -> outcome io p s (answering a o).
Proof. by destruct o as [[? ?] []]. Qed.

Lemma outcome_exec {A} io p s (o : Position * Service * result A ServiceError) p' s' ok :
  outcome io p s o -> (let '(p, s, r) := o in (p, s, is_ok r)) = (p', s', ok) ->
  contract io p s p' s' ok.
Proof. destruct o as [[? ?] ?]. intros H [= <- <- <-]. exact H. Qed.

Hint Resolve outcome_persist outcome_unchanged outcome_answering : core.

(** The operations of [Position] keep the identifier, and an error changes
    nothing. *)
Lemma service_transition_outcome io what f event type to ctx p s :
  (forall e, snd (f p) = Err e -> fst (f p) = p) -> pos_id (fst (f p)) = pos_id p ->
  outcome io p s (service_transition io what f event type to ctx p s).
Proof.
  intros He Hid. unfold service_transition. destruct (f p) as [p' [[]|e]]; simpl in *; auto.
  rewrite (He e) by done. auto.
Qed.

Lemma transition_ok now expected target p :
  pos_state p = expected ->
  transition now expected target p = (moved now target p, Ok tt).
Proof. intros E. destruct (transition_spec now expected target p) as [[_ H]|[H _]]; [done|congruence]. Qed.

Lemma transition_keeps now expected target p :
  (forall e, snd (transition now expected target p) = Err e -> fst (transition now expected target p) = p) /\
  pos_id (fst (transition now expected target p)) = pos_id p.
Proof. unfold transition. case_match; simpl; by split. Qed.

Lemma close_recorded_id now fee p : pos_id (fst (close_via_recorded_exit now fee p)) = pos_id p.
Proof. unfold close_via_recorded_exit. by split_cases. Qed.

Lemma close_recorded_err now fee p e :
  snd (close_via_recorded_exit now fee p) = Err e -> fst (close_via_recorded_exit now fee p) = p.
Proof. unfold close_via_recorded_exit. by split_cases. Qed.

Context {DS : DecimalSpec} {EX : DecimalExact}.

Lemma close_winner_spec now w fee p :
  pos_id (fst (close_via_resolution_with_winner now w fee p)) = pos_id p /\
  (forall e, snd (close_via_resolution_with_winner now w fee p) = Err e ->
     fst (close_via_resolution_with_winner now w fee p) = p).
Proof.
  destruct (enterable_dec p) as [He|He].
  - rewrite close_winner_records by apply He.
    destruct (close_exit_ok now (if w then ONE else ZERO) (if w then ZERO else ONE) fee p He)
      as (p' & E & _).
    rewrite E. simpl. split; [|done].
    rewrite close_via_exit_records in E by apply He.
    apply (f_equal (fun o => pos_id (fst o))) in E. by rewrite close_recorded_id in E.
  - unfold close_via_resolution_with_winner. by destruct He as [->| ->].
Qed.

Lemma close_position_outcome io now m ctx p s : outcome io p s (close_position io now m ctx p s).
Proof.
  unfold close_position. destruct m as [fee|w fee|fee].
  - pose proof (close_recorded_id now fee p) as Hid.
    pose proof (close_recorded_err now fee p) as He.
    destruct (close_via_recorded_exit now fee p) as [p' [[]|e]]; simpl in *;
      [by apply outcome_persist|rewrite (He e) by done; auto].
  - destruct (close_winner_spec now w fee p) as [Hid He].
    destruct (close_via_resolution_with_winner now w fee p) as [p' [[]|e]]; simpl in *;
      [by apply outcome_persist|rewrite (He e) by done; auto].
  - unfold close_via_resolution. repeat case_match; simplify_eq/=; auto.
Qed.

Lemma record_exit_fill_outcome io now leg x q ctx p s :
  outcome io p s (record_exit_fill io now leg x q ctx p s).
Proof.
  unfold record_exit_fill, record_yes_exit_fill, record_no_exit_fill, apply_yes_exit_fill,
    apply_no_exit_fill.
  destruct leg; split_cases; by apply outcome_persist.
Qed.

Lemma exit_recovery_outcome io now ctx p s : outcome io p s (service_exit_recovery io now ctx p s).
Proof. unfold service_exit_recovery, attempt_exit_recovery. split_cases; auto. Qed.
Lemma one_legged_outcome io now leg msg ctx p s :
  outcome io p s (transition_one_legged_to_exit_ready io now leg msg ctx p s).
Proof.
  unfold transition_one_legged_to_exit_ready. destruct (negb _); [auto|].
  unfold mark_open, mark_exit_ready. rewrite !transition_ok by done.
  apply outcome_persist. simpl. unfold drop_missing_leg. by case_bool_decide.
Qed.

Lemma exec_outcome io now ctx c p s p' s' ok :
  exec io now ctx c p s = (p', s', ok) -> contract io p s p' s' ok.
Proof.
  destruct c; simpl; apply outcome_exec.
  - apply outcome_persist. by destruct leg.
  - by apply service_transition_outcome; apply transition_keeps.
  - by apply service_transition_outcome; apply transition_keeps.
  - by apply service_transition_outcome; apply transition_keeps.
  - by apply outcome_persist.
  - by apply outcome_persist.
  - apply record_exit_fill_outcome.
  - apply close_position_outcome.
  - apply exit_recovery_outcome.
  - unfold service_stalled_recovery, attempt_stalled_recovery.
    destruct (bool_decide (pos_state p <> Stalled)); [auto|].
    by apply outcome_answering, outcome_persist.
  - apply one_legged_outcome.
Qed.

(** ** Closing *)

Lemma sweep_conserves p :
  held_yes_qty (sweep_held p) = ZERO /\ held_no_qty (sweep_held p) = ZERO /\
  (yes_shares (sweep_held p) == yes_shares p)%Q /\ (no_shares (sweep_held p) == no_shares p)%Q.
Proof.
  unfold yes_shares, no_shares, sweep_held. simpl. rewrite !dval_add, dval_ZERO.
  split_and!; try done; lra.
Qed.

(** What a close leaves: closed, with a P&L, nothing held, no share lost. *)
Definition emptied p p' : Prop :=
  pos_state p' = Closed /\ is_Some (realized_pnl p') /\ unrealized_pnl p' = ZERO /\
  held_yes_qty p' = ZERO /\ held_no_qty p' = ZERO /\
  (yes_shares p' == yes_shares p)%Q /\ (no_shares p' == no_shares p)%Q.

Lemma emptied_sweep p p' pnl :
  closed_with p' pnl -> kept p p' -> emptied p (sweep_held p').
Proof.
  intros (H1 & H2 & H3 & _) [_ K1 K2 K3 K4 _].
  destruct (sweep_conserves p') as (S1 & S2 & S3 & S4).
  unfold emptied. rewrite S1, S2, S3, S4. unfold yes_shares, no_shares. rewrite K1, K2, K3, K4.
  split_and!; done.
Qed.

(** Selling one leg of a position that has only that leg. *)
Lemma recorded_exit_yes now p y :
  enterable p -> has_yes_leg p = true -> yes_exit_price p = None ->
  record_yes_exit_fill now y p = ({| p with yes_exit_price := Some y; last_updated := now |}, Ok tt).
Proof.
  intros [H1 H2] Hy Hn. unfold record_yes_exit_fill, has_yes_leg in *.
  rewrite Hn, !bool_decide_false by (try done; by intros [? ?]).
  destruct (yes_entry_price p <=? ZERO)%dec eqn:E; [|done]. dec_to_Q. lra.
Qed.

Lemma apply_yes_exit_ok now q p :
  (dval q <= dval (held_yes_qty p))%Q ->
  apply_yes_exit_fill now q p =
    ({| p with held_yes_qty := (held_yes_qty p - q)%dec;
               exited_yes_qty := (exited_yes_qty p + q)%dec; last_updated := now |}, Ok tt).
Proof.
  intros Hq. unfold apply_yes_exit_fill.
  destruct (held_yes_qty p <? q)%dec eqn:E; [|done]. dec_to_Q. lra.
Qed.

(** An exit fill of the YES leg, with the database at hand. *)
Lemma exit_fill_yes_ok io now y q ctx p s :
  io_db io = true -> enterable p -> has_yes_leg p = true -> yes_exit_price p = None ->
  (dval q <= dval (held_yes_qty p))%Q ->
  let p' := {| p with yes_exit_price := Some y; held_yes_qty := (held_yes_qty p - q)%dec;
                      exited_yes_qty := (exited_yes_qty p + q)%dec; last_updated := now |} in
  exists s', record_exit_fill io now YES y q ctx p s = (p', s', Ok tt) /\
    svc_table s' = alter (update_row p') (pos_id p) (svc_table s).
Proof.
  intros Hio He Hy Hn Hq p'. unfold record_exit_fill.
  assert ((held_yes_qty p <? q)%dec = false) as ->.
  { destruct (held_yes_qty p <? q)%dec eqn:E; [|done]. dec_to_Q. lra. }
  rewrite recorded_exit_yes, apply_yes_exit_ok by done. simpl.
  rewrite persist_ok by done. eexists; split; [done|].
  unfold record_warn. by destruct (io_event io).
Qed.

(** The same for the NO leg. *)
Lemma exit_fill_no_ok io now n q ctx p s :
  io_db io = true -> enterable p -> has_no_leg p = true -> no_exit_price p = None ->
  (dval q <= dval (held_no_qty p))%Q ->
  let p' := {| p with no_exit_price := Some n; held_no_qty := (held_no_qty p - q)%dec;
                      exited_no_qty := (exited_no_qty p + q)%dec; last_updated := now |} in
  exists s', record_exit_fill io now NO n q ctx p s = (p', s', Ok tt) /\
    svc_table s' = alter (update_row p') (pos_id p) (svc_table s).
Proof.
  intros Hio [H1 H2] Hl Hn Hq p'. unfold record_exit_fill, record_no_exit_fill, apply_no_exit_fill.
  assert (Hc : (held_no_qty p <? q)%dec = false).
  { destruct (held_no_qty p <? q)%dec eqn:E; [|done]. dec_to_Q. lra. }
  assert ((no_entry_price p <=? ZERO)%dec = false) as ->.
  { unfold has_no_leg in Hl. destruct (no_entry_price p <=? ZERO)%dec eqn:E; [|done]. dec_to_Q. lra. }
  rewrite Hc, Hn, !bool_decide_false by (try done; by intros [? ?]). simpl. rewrite Hc. simpl.
  rewrite persist_ok by done. eexists; split; [done|].
  unfold record_warn. by destruct (io_event io).
Qed.

(** With the database at hand, what is persisted is what is loaded. *)
Lemma load_persisted {JS : JsonSpec} io what e p s r :
  io_db io = true -> svc_table s !! pos_id p = Some r -> is_u32 (retry_count p) ->
  exists s', persist_and_record io what e p s = (p, s', Ok tt) /\
    load true (pos_id p) s' = Ok (reloaded r p) /\
    svc_table s' = alter (update_row p) (pos_id p) (svc_table s).
Proof.
  intros Hio Hr Hu. rewrite persist_ok by done. eexists; split; [done|].
  assert (E : svc_table (record_warn io e
    {| s with svc_table := alter (update_row p) (pos_id p) (svc_table s) |})
    = alter (update_row p) (pos_id p) (svc_table s))
    by (unfold record_warn; by destruct (io_event io)).
  split; [|done]. unfold load, repo_get. rewrite E. simpl. rewrite lookup_alter_eq, Hr. simpl.
  by rewrite row_to_position_update.
Qed.

Lemma close_position_emptied io now m ctx p s p' s' :
  io_db io = true -> close_position io now m ctx p s = (p', s', Ok tt) -> emptied p p'.
Proof.
  intros Hio E. unfold close_position in E. destruct m as [fee|w fee|fee].
  - destruct (enterable_dec p) as [He|[He|He]];
      [|unfold close_via_recorded_exit in E; rewrite He in E; done..].
    pose proof (close_recorded_kept now fee p) as Hk.
    rewrite enterable_close in E, Hk by done.
    destruct (resolved_exit_prices p) as [[y n]|e]; simpl in *; [|done].
    rewrite persist_ok in E by done. simplify_eq.
    eapply emptied_sweep; [|exact Hk]. by unfold closed_with; simpl; eauto.
  - destruct (enterable_dec p) as [He|[He|He]];
      [|unfold close_via_resolution_with_winner in E; rewrite He in E; done..].
    pose proof (close_winner_kept now w fee p) as Hk.
    rewrite close_winner_records in E, Hk by apply He.
    destruct (close_exit_ok now (if w then ONE else ZERO) (if w then ZERO else ONE) fee p He)
      as (p1 & E1 & Hc). rewrite E1 in E, Hk. simpl in E, Hk.
    rewrite persist_ok in E by done. simplify_eq.
    apply (emptied_sweep p {| p1 with resolution_winner := Some (if w then "yes" else "no") |}
      (exit_pnl p (exit_yes p (if w then ONE else ZERO)) (exit_no p (if w then ZERO else ONE)) fee));
      [exact Hc|by destruct Hk].
  - destruct (enterable_dec p) as [He|[He|He]]; [|unfold close_via_resolution in E; rewrite He in E; done..].
    pose proof (close_resolution_kept now fee p) as Hk.
    destruct (close_resolution_ok now fee p He) as (p1 & E1 & Hc).
    rewrite E1 in E, Hk. simpl in E, Hk. rewrite persist_ok in E by done. simplify_eq.
    by eapply emptied_sweep.
Qed.

(** ** Theorems *)

(** C7. Every call of the service keeps its contract, whatever the position
    and the outcome of the queries: the identifier never changes; a call that
    answers a failure leaves the table and the events as they were, and the
    position too unless it was the UPDATE that failed; a call that answers a
    success either changes nothing at all or stores exactly the position it
    leaves, with one UPDATE, and records at most one event. *)
Theorem service_contract io now ctx c p s p' s' ok :
  exec io now ctx c p s = (p', s', ok) ->
  pos_id p' = pos_id p /\
  (ok = true -> (p' = p /\ s' = s) \/
     (svc_table s' = alter (update_row p') (pos_id p') (svc_table s) /\
      (svc_events s' = svc_events s \/ exists e, svc_events s' = svc_events s ++ [e]))) /\
  (ok = false -> s' = s /\ (p' = p \/ io_db io = false)).
Proof.
  intros E. apply exec_outcome in E as [Hid Hc]. split; [done|].
  destruct ok; split; try done; intros _; exact Hc.
Qed.

(** A close empties the position and loses no share: when it answers Ok
    the position is closed with a realized P&L, holds nothing, and the shares
    it held are counted as exited; and a resolution always answers Ok on a
    position that entered and is not closed. *)
Theorem close_empties io now m ctx p s :
  io_db io = true ->
  (forall p' s', close_position io now m ctx p s = (p', s', Ok tt) -> emptied p p') /\
  (enterable p -> match m with MarketExit _ => True | _ =>
     exists p' s', close_position io now m ctx p s = (p', s', Ok tt) end).
Proof.
  intros Hio. split; [intros p' s'; by apply close_position_emptied|].
  unfold close_position. intros He. destruct m as [fee|w fee|fee]; [done| |].
  - rewrite close_winner_records by apply He.
    destruct (close_exit_ok now (if w then ONE else ZERO) (if w then ZERO else ONE) fee p He)
      as (p1 & -> & _). simpl. rewrite persist_ok by done. by do 2 eexists.
  - destruct (close_resolution_ok now fee p He) as (p1 & -> & _). simpl.
    rewrite persist_ok by done. by do 2 eexists.
Qed.

(** An entry fill's price and quantity are not stored: the fill sets them
    on the position in memory, but after it, loading the position gives the
    price and quantity of the row, that is those requested when it was created,
    together with the held quantity of the fill. *)
Theorem entry_fill_not_stored {JS : JsonSpec} io now leg x q ctx p s r :
  io_db io = true -> svc_table s !! pos_id p = Some r -> is_u32 (retry_count p) ->
  exists p' s' p'',
    record_entry_fill io now leg x q ctx p s = (p', s', Ok tt) /\
    quantity p' = q /\
    match leg with YES => yes_entry_price p' = x | NO => no_entry_price p' = x end /\
    load true (pos_id p) s' = Ok p'' /\
    quantity p'' = r_quantity r /\
    yes_entry_price p'' = r_yes_entry_price r /\ no_entry_price p'' = r_no_entry_price r /\
    held_yes_qty p'' = held_yes_qty p' /\ held_no_qty p'' = held_no_qty p'.
Proof.
  intros Hio Hr Hp. unfold record_entry_fill.
  set (p' := fill_entry now leg x q p).
  match goal with |- context [persist_and_record _ ?what ?e _ _] =>
    destruct (load_persisted io what e p' s r Hio) as (s' & -> & Hl & _) end;
    [by unfold p'; destruct leg|by unfold p'; destruct leg|].
  exists p', s', (reloaded r p').
  split_and!; try done; try (unfold p'; by destruct leg).
Qed.

(** A one-legged entry cannot be closed once it is reloaded: the
    transition that keeps only the YES leg sets the missing leg's price to zero
    in memory, where the position can then be sold and closed; but the row
    keeps the requested price, so the position loaded back is taken to hold a
    NO leg, and after its YES leg is sold the close is refused for ever. *)
Theorem one_legged_reload_stuck {JS : JsonSpec} io now msg ctx p s r y q fee :
  io_db io = true -> svc_table s !! pos_id p = Some r -> is_u32 (retry_count p) ->
  (pos_state p = Pending \/ pos_state p = EntryFailed) ->
  yes_exit_price p = None -> no_exit_price p = None ->
  (0 < dval (yes_entry_price p))%Q -> (dval q <= dval (held_yes_qty p))%Q ->
  (0 < dval (r_yes_entry_price r))%Q -> (0 < dval (r_no_entry_price r))%Q ->
  exists p1 s1, transition_one_legged_to_exit_ready io now "yes" msg ctx p s = (p1, s1, Ok tt) /\
    (exists p2 s2 p3 s3,
       record_exit_fill io now YES y q ctx p1 s1 = (p2, s2, Ok tt) /\
       close_position io now (MarketExit fee) ctx p2 s2 = (p3, s3, Ok tt)) /\
    exists p1' p2' s2', load true (pos_id p) s1 = Ok p1' /\
      record_exit_fill io now YES y q ctx p1' s1 = (p2', s2', Ok tt) /\
      forall fee', close_position io now (MarketExit fee') ctx p2' s2' =
        (p2', s2', Err (Invalid "close_via_recorded_exit" (LegNotExited NO))).
Proof.
  intros Hio Hr Hu Hst Hy Hn Hyp Hq Hry Hrn.
  unfold transition_one_legged_to_exit_ready.
  assert (bool_decide (pos_state p = Pending) || bool_decide (pos_state p = EntryFailed) = true) as ->
    by (destruct Hst as [->| ->]; done). simpl negb. cbv iota.
  unfold mark_open, mark_exit_ready. rewrite !transition_ok by done.
  set (p1 := set_failure _ _).
  match goal with |- context [persist_and_record _ ?what ?e _ _] =>
    destruct (load_persisted io what e p1 s r Hio) as (s1 & -> & Hl & Ht) end; [done|done|].
  exists p1, s1. split; [done|]. split.
  - destruct (exit_fill_yes_ok io now y q ctx p1 s1) as (s2 & E2 & _); try done; try by split.
    + unfold has_yes_leg, p1. simpl. by apply dec_ltb_lt; rewrite dval_ZERO.
    + match type of E2 with _ = (?x, _, _) => set (p2 := x) in E2; exists p2, s2 end.
      rewrite E2. unfold close_position.
      destruct (close_recorded_ok now fee p2 y ZERO) as (p3 & E3 & _); [by split|done| |].
      * unfold has_no_leg, p2, p1. simpl. intros Hx. dec_to_Q. lra.
      * rewrite E3. rewrite persist_ok by done. by do 2 eexists.
  - exists (reloaded r p1).
    destruct (exit_fill_yes_ok io now y q ctx (reloaded r p1) s1) as (s2 & E2 & _); try done; try by split.
    + unfold has_yes_leg. simpl. by apply dec_ltb_lt; rewrite dval_ZERO.
    + eexists _, s2. split; [done|]. split; [exact E2|]. intros fee'.
      unfold close_position. rewrite enterable_close by by split.
      unfold resolved_exit_prices. simpl.
      assert ((ZERO <? r_yes_entry_price r)%dec = true) as -> by (apply dec_ltb_lt; by rewrite dval_ZERO).
      assert ((ZERO <? r_no_entry_price r)%dec = true) as -> by (apply dec_ltb_lt; by rewrite dval_ZERO).
      by rewrite Hn.
Qed.

(** A partial exit fill is closed as a whole one: once a fill of part of a
    single YES leg is recorded, a second fill of the rest is refused, and the
    market-exit close counts the rest as exited and books the P&L of the whole
    quantity at the first fill's price. *)
Theorem partial_exit_closed_as_whole io now y q ctx p s fee :
  io_db io = true -> enterable p -> has_yes_leg p = true -> has_no_leg p = false ->
  yes_exit_price p = None -> (dval q <= dval (held_yes_qty p))%Q ->
  exists p1 s1,
    record_exit_fill io now YES y q ctx p s = (p1, s1, Ok tt) /\
    (dval (held_yes_qty p1) == dval (held_yes_qty p) - dval q)%Q /\
    (forall y' q', (dval q' <= dval (held_yes_qty p1))%Q ->
       record_exit_fill io now YES y' q' ctx p1 s1 =
         (p1, s1, Err (Invalid "record_yes_exit_fill" (LegAlreadyExited YES)))) /\
    exists p2 s2, close_position io now (MarketExit fee) ctx p1 s1 = (p2, s2, Ok tt) /\
      realized_pnl p2 = Some (exit_pnl p y ZERO fee) /\
      (dval (exited_yes_qty p2) == dval (exited_yes_qty p) + dval (held_yes_qty p))%Q.
Proof.
  intros Hio He Hy Hn Hx Hq.
  destruct (exit_fill_yes_ok io now y q ctx p s Hio He Hy Hx Hq) as (s1 & E1 & _).
  match type of E1 with _ = (?x, _, _) => set (p1 := x) in E1; exists p1, s1 end.
  split; [exact E1|]. split; [simpl; by rewrite dval_sub|]. split.
  - intros y' q' Hq'. unfold record_exit_fill, record_yes_exit_fill. simpl in *.
    assert ((held_yes_qty p - q <? q')%dec = false) as ->.
    { destruct (_ <? q')%dec eqn:E; [|done]. dec_to_Q. lra. }
    destruct (yes_entry_price p <=? ZERO)%dec eqn:E; [|done].
    unfold has_yes_leg in Hy. dec_to_Q. lra.
  - unfold close_position.
    destruct (close_recorded_ok now fee p1 y ZERO) as (p3 & E3 & C1 & C2 & _);
      [done|done| |].
    { change (has_no_leg p1) with (has_no_leg p). by rewrite Hn. }
    pose proof (close_recorded_kept now fee p1) as [_ K1 _ K3 _ _].
    rewrite E3 in K1, K3 |- *. simpl in K1, K3. rewrite persist_ok by done.
    do 2 eexists. split; [done|]. simpl. split.
    + rewrite C2. unfold booked_price.
      change (has_yes_leg p1) with (has_yes_leg p). change (has_no_leg p1) with (has_no_leg p).
      by rewrite Hy, Hn.
    + rewrite dval_add, K1, K3, dval_add, dval_sub. lra.
Qed.

End Facts.

(** ** The theorems at concrete inputs *)

Section Witnesses.
#[local] Existing Instance Concrete.decimal.
#[local] Existing Instance Concrete.decimal_spec.
#[local] Existing Instance Concrete.decimal_exact.
#[local] Existing Instance Concrete.chrono.
#[local] Existing Instance Concrete.uuid.
#[local] Existing Instance ConcreteJson.json.
#[local] Existing Instance ConcreteJson.json_spec.
Abbreviation d := Concrete.d.
Abbreviation at_minute := Concrete.at_minute.

Definition all_io : Io := {| io_db := true; io_event := true |}.
Definition sample_ctx : EventContext :=
  {| ctx_execution_mode := "live"; ctx_strategy := "arb"; ctx_source_label := "test" |}.

(** A pair requested at 48 and 46 cents, of which YES was filled. *)
Definition requested : Position :=
  position_new 1%positive (at_minute 0) "m" (d 48 2) (d 46 2) (d 100 0) ExitOnCorrection.
Definition requested_row : PositionRow := insert_row requested SOURCE_ARBITRAGE None.
Definition sample_service : Service :=
  {| svc_table := {[ 1%positive := requested_row ]}; svc_events := [] |}.
Definition yes_filled : Position :=
  fill_entry (at_minute 1) YES (d 49 2) (d 80 0) requested.
(** A single YES leg, opened. *)
Definition single_leg : Position :=
  fst (mark_open (at_minute 2)
    {| yes_filled with no_entry_price := d 0 0; quantity := d 80 0 |}).

Lemma requested_stored : svc_table sample_service !! pos_id yes_filled = Some requested_row.
Proof. apply lookup_singleton_eq. Qed.

Lemma retry_fits : is_u32 (retry_count yes_filled).
Proof. unfold is_u32. simpl. lia. Qed.

Lemma service_contract_witness :
  let '(p', s', ok) := svc_exec (fun _ => "reason") all_io (at_minute 3) sample_ctx
                         (SClose (MarketExit (d 2 2))) yes_filled sample_service in
  pos_id p' = pos_id yes_filled.
Proof.
  destruct (svc_exec _ _ _ _ _ _ _) as [[p' s'] ok] eqn:E.
  by apply (service_contract _ _ _ _ _ _ _ _ _ _ E).
Defined.

Lemma close_empties_witness :
  exists p' s', close_position all_io (at_minute 3) (ResolutionWithWinner true (d 2 2)) sample_ctx
    single_leg sample_service = (p', s', Ok tt).
Proof.
  refine (proj2 (close_empties all_io (at_minute 3) (ResolutionWithWinner true (d 2 2)) sample_ctx
    single_leg sample_service eq_refl) _). by split.
Defined.

Lemma entry_fill_not_stored_witness :
  exists p' s' p'',
    record_entry_fill all_io (at_minute 1) YES (d 49 2) (d 80 0) sample_ctx requested sample_service
      = (p', s', Ok tt) /\
    quantity p' = d 80 0 /\ load true 1%positive s' = Ok p'' /\ quantity p'' = d 100 0.
Proof.
  destruct (entry_fill_not_stored all_io (at_minute 1) YES (d 49 2) (d 80 0) sample_ctx requested
    sample_service requested_row eq_refl requested_stored retry_fits)
    as (p' & s' & p'' & H1 & H2 & _ & H3 & H4 & _).
  by exists p', s', p''.
Defined.

Lemma one_legged_reload_stuck_witness :
  exists p1 s1, transition_one_legged_to_exit_ready all_io (at_minute 3) "yes" "no fill" sample_ctx
    yes_filled sample_service = (p1, s1, Ok tt).
Proof.
  destruct (one_legged_reload_stuck all_io (at_minute 3) "no fill" sample_ctx yes_filled
    sample_service requested_row (d 50 2) (d 80 0) (d 2 2) eq_refl requested_stored retry_fits)
    as (p1 & s1 & H & _); [by left|done|done|by vm_compute..|].
  by exists p1, s1.
Defined.

Lemma partial_exit_closed_as_whole_witness :
  exists p1 s1, record_exit_fill all_io (at_minute 3) YES (d 60 2) (d 30 0) sample_ctx single_leg
    sample_service = (p1, s1, Ok tt).
Proof.
  destruct (partial_exit_closed_as_whole all_io (at_minute 3) (d 60 2) (d 30 0) sample_ctx single_leg
    sample_service (d 2 2) eq_refl) as (p1 & s1 & H & _);
    [by split|by vm_compute|by vm_compute|done|by vm_compute|].
  by exists p1, s1.
Defined.

End Witnesses.
