(* ===== verification/Rollouts.v ===== *)
(** * Learning rollouts

    Models the decisions of [crates/api-server/src/learning_rollouts.rs]: how
    the active rollouts of a strategy skip or shrink a trade, and how the
    guardrails judge a rollout's observations.  The models and their scores
    ([learning_models.rs]) are an argument ([score_model]); [rollouts] and
    [models] are the answers of the two lookups (cached reads of the
    database).  JSON objects are read through [as_f64] of their keys; the text of a
    violation is the triple it formats. *)

From S2P Require Import Prelude F64 Platform.
From Stdlib Require Import SpecFloat.

Definition can_reject (authority_level : string) : bool :=
  bool_decide (authority_level = "tail_reject") || bool_decide (authority_level = "full").
Definition can_resize (authority_level : string) : bool :=
  bool_decide (authority_level = "size_adjust") || bool_decide (authority_level = "full").

Section Rollouts.
Context `{DO : DecimalOps} `{UO : UuidOps}.

Record ActiveRollout : Type := {
  ro_model_id : Uuid;
  ro_model_key : string;
  ro_strategy_scope : string;
  ro_target : string;
  ro_mode : string;
  ro_authority_level : string;
  ro_bounds : string -> option f64;
}.

Record ModelScore : Type := {
  predicted_score : f64;
  threshold : f64;
  recommended_action : string;
}.

Record RolloutDecision : Type := {
  skip_reason : option string;
  size_multiplier : dec;
}.
Definition default_decision : RolloutDecision :=
  {| skip_reason := None; size_multiplier := ONE |}.

Definition rollout_skip_reason (r : ActiveRollout) : string :=
  "learning_rollout:" +:+ ro_mode r +:+ ":" +:+ ro_model_key r +:+ ":" +:+ ro_target r.

(** The size factor of a rollout that downsizes. *)
Definition rollout_multiplier (r : ActiveRollout) : dec :=
  let reduction := f64_clamp (default (f64_lit 20 100) (ro_bounds r "max_size_reduction_pct"))
                     f64_zero (f64_lit 95 100) in
  default ONE (dec_from_f64 (f64_sub f64_one reduction)).

Definition is_downsize (action : string) : bool :=
  bool_decide (action = "downsize") || bool_decide (action = "deprioritize")
  || bool_decide (action = "skip").

Definition rejects (r : ActiveRollout) (s : ModelScore) : bool :=
  can_reject (ro_authority_level r) && bool_decide (recommended_action s = "skip").
Definition resizes (r : ActiveRollout) (s : ModelScore) : bool :=
  can_resize (ro_authority_level r) && is_downsize (recommended_action s).

Section Evaluate.
Context {LoadedModel : Type}.
Variable score_model : LoadedModel -> option ModelScore.
Variable models : gmap Uuid LoadedModel.

(** The score of a rollout's model, if it is loaded and scores the input. *)
Definition rollout_score (r : ActiveRollout) : option ModelScore :=
  models !! ro_model_id r ≫= score_model.

(** [for rollout in rollouts]. *)
Fixpoint evaluate_rollouts (rollouts : list ActiveRollout) (decision : RolloutDecision)
    : RolloutDecision :=
  match rollouts with
  | [] => decision
  | r :: rollouts =>
      match rollout_score r with
      | None => evaluate_rollouts rollouts decision
      | Some s =>
          if rejects r s then {| decision with skip_reason := Some (rollout_skip_reason r) |}
          else
            let multiplier := rollout_multiplier r in
            evaluate_rollouts rollouts
              (if resizes r s && (multiplier <? size_multiplier decision)%dec
               then {| decision with size_multiplier := multiplier |} else decision)
      end
  end.
End Evaluate.

(** [evaluate]: only live trades are affected, and a failed lookup decides
    nothing. *)
Definition evaluate {LoadedModel} (score_model : LoadedModel -> option ModelScore)
    (execution_mode : string) (schema_missing : bool)
    (rollouts : option (list ActiveRollout)) (models : option (gmap Uuid LoadedModel))
    : RolloutDecision :=
  if negb (bool_decide (execution_mode = "live")) || schema_missing then default_decision
  else match rollouts with
  | None => default_decision
  | Some rollouts =>
      match models with
      | None => default_decision
      | Some models => evaluate_rollouts score_model models rollouts default_decision
      end
  end.

(** ** Guardrails *)

Record Violation : Type := { v_key : string; v_actual : f64; v_limit : f64 }.

(** [check_max_guardrail]: the warning flag and the violations after it. *)
Definition check_max_guardrail (guardrails : string -> option f64) (key : string)
    (actual : option f64) (acc : bool * list Violation) : bool * list Violation :=
  match guardrails key, actual with
  | Some max_value, Some v =>
      if f64_ltb max_value v
      then (fst acc, snd acc ++ [{| v_key := key; v_actual := v; v_limit := max_value |}])
      else if f64_ltb (f64_mul max_value (f64_lit 8 10)) v then (true, snd acc)
      else acc
  | _, _ => acc
  end.

Definition check_edge_guardrail (guardrails : string -> option f64) (actual : option f64)
    (acc : bool * list Violation) : bool * list Violation :=
  match guardrails "min_edge_capture_ratio", actual with
  | Some min_value, Some v =>
      if f64_ltb v min_value
      then (fst acc, snd acc ++
             [{| v_key := "edge_capture_ratio"; v_actual := v; v_limit := min_value |}])
      else if f64_ltb v (f64_mul min_value (f64_lit 12 10)) then (true, snd acc)
      else acc
  | _, _ => acc
  end.

Record Observation : Type := {
  failure_rate : option f64;
  one_legged_rate : option f64;
  drawdown_pct : option f64;
  latency_p90_ms : option f64;
  edge_capture_ratio : option f64;
}.

Definition evaluate_guardrails (guardrails : string -> option f64) (o : Observation)
    : string * option (list Violation) :=
  let acc := (false, []) in
  let acc := check_max_guardrail guardrails "max_failure_rate" (failure_rate o) acc in
  let acc := check_max_guardrail guardrails "max_one_legged_rate" (one_legged_rate o) acc in
  let acc := check_max_guardrail guardrails "max_drawdown_pct" (drawdown_pct o) acc in
  let acc := check_max_guardrail guardrails "max_latency_p90_ms" (latency_p90_ms o) acc in
  let '(warn, violations) := check_edge_guardrail guardrails (edge_capture_ratio o) acc in
  match violations with
  | _ :: _ => ("rollback", Some violations)
  | [] => if warn : bool then ("warn", None) else ("ok", None)
  end.

(** ** Properties *)

Context {DS : DecimalSpec}.
Local Open Scope Q_scope.

(** The first rollout of a list that rejects, and the factors of those that
    resize. *)
Definition rejecting {M} (score : M -> option ModelScore) models (r : ActiveRollout) : Prop :=
  exists s, rollout_score score models r = Some s /\ rejects r s = true.
Definition resizing {M} (score : M -> option ModelScore) models (r : ActiveRollout) : Prop :=
  exists s, rollout_score score models r = Some s /\ resizes r s = true.

Lemma evaluate_rollouts_spec {M} (score : M -> option ModelScore) models rs d :
  let d' := evaluate_rollouts score models rs d in
  dval (size_multiplier d') <= dval (size_multiplier d) /\
  (size_multiplier d' = size_multiplier d \/
     exists r, r ∈ rs /\ resizing score models r /\ size_multiplier d' = rollout_multiplier r) /\
  (skip_reason d' = skip_reason d \/
     exists r, r ∈ rs /\ rejecting score models r /\ skip_reason d' = Some (rollout_skip_reason r)) /\
  ((exists r, r ∈ rs /\ rejecting score models r) -> is_Some (skip_reason d')).
Proof.
  simpl. revert d. induction rs as [|r rs IH]; intros d; simpl.
  - split_and!; [lra|by left|by left|]. intros (r & Hr & _). by apply elem_of_nil in Hr.
  - destruct (rollout_score score models r) as [s|] eqn:Es.
    + destruct (rejects r s) eqn:Er.
      * simpl. split_and!; [lra|by left| |done]. right. exists r. split; [apply list_elem_of_here|].
        split; [by exists s|done].
      * specialize (IH (if resizes r s && (rollout_multiplier r <? size_multiplier d)%dec
                        then {| d with size_multiplier := rollout_multiplier r |} else d)).
        destruct IH as (I1 & I2 & I3 & I4). split_and!.
        -- destruct (resizes r s && _) eqn:Ez; [|done]. reflect_bools. dec_to_Q. simpl in *. lra.
        -- destruct I2 as [I2|(r' & H1 & H2)]; [|right; exists r'; by split; [apply list_elem_of_further|]].
           rewrite I2. destruct (resizes r s && _) eqn:Ez; [|by left].
           reflect_bools. right. exists r. split; [apply list_elem_of_here|]. split; [by exists s|done].
        -- destruct I3 as [I3|(r' & H1 & H2)]; [|right; exists r'; by split; [apply list_elem_of_further|]].
           left. rewrite I3. by destruct (resizes r s && _).
        -- intros (r' & Hr & Hj). apply I4. apply elem_of_cons in Hr as [->|Hr]; [|by exists r'].
           destruct Hj as (s' & E1 & E2). congruence.
    + destruct (IH d) as (I1 & I2 & I3 & I4). split_and!; [done| | |].
      * destruct I2 as [I2|(r' & H1 & H2)]; [by left|right; exists r'; by split; [apply list_elem_of_further|]].
      * destruct I3 as [I3|(r' & H1 & H2)]; [by left|right; exists r'; by split; [apply list_elem_of_further|]].
      * intros (r' & Hr & Hj). apply I4. apply elem_of_cons in Hr as [->|Hr]; [|by exists r'].
        destruct Hj as (s' & E1 & E2). congruence.
Qed.

(** A rollout can only hold a live trade back: outside live mode, or when
    a lookup fails, nothing is skipped and the size is whole; otherwise the
    trade is skipped exactly when some rollout with the authority to reject
    has a loaded model that recommends it, and its size is never increased and
    only reduced by a rollout with the authority to resize. *)
Theorem rollout_only_restricts {M} (score : M -> option ModelScore) mode missing rollouts models :
  let d := evaluate score mode missing rollouts models in
  (mode <> "live" \/ missing = true \/ rollouts = None \/ models = None -> d = default_decision) /\
  dval (size_multiplier d) <= 1 /\
  (forall rs ms, mode = "live" -> missing = false -> rollouts = Some rs -> models = Some ms ->
     (is_Some (skip_reason d) <-> exists r, r ∈ rs /\ rejecting score ms r) /\
     (size_multiplier d = ONE \/
        exists r, r ∈ rs /\ resizing score ms r /\ size_multiplier d = rollout_multiplier r)).
Proof.
  simpl. unfold evaluate. destruct (decide (mode = "live")) as [->|Hm].
  - rewrite bool_decide_true by done. destruct missing; simpl.
    { rewrite dval_ONE. split_and!; [done|lra|done]. }
    destruct rollouts as [rs|]; [|rewrite dval_ONE; split_and!; [done|lra|done]].
    destruct models as [ms|]; [|rewrite dval_ONE; split_and!; [done|lra|done]].
    destruct (evaluate_rollouts_spec score ms rs default_decision) as (S1 & S2 & S3 & S4).
    split_and!; [naive_solver| |].
    + simpl in S1. by rewrite dval_ONE in S1.
    + intros rs' ms' _ _ [= <-] [= <-]. split; [|done]. split; [|done].
      intros [x Hx]. destruct S3 as [S3|(r & H1 & H2 & _)]; [simpl in S3; congruence|by exists r].
  - rewrite bool_decide_false by done. simpl. rewrite dval_ONE. split_and!; [done|lra|naive_solver].
Qed.

(** A limit exceeded, and the verdict. *)
Definition exceeds (guardrails : string -> option f64) (key : string) (actual : option f64) : bool :=
  match guardrails key, actual with
  | Some limit, Some v => f64_ltb limit v
  | _, _ => false
  end.
Definition falls_short (guardrails : string -> option f64) (actual : option f64) : bool :=
  match guardrails "min_edge_capture_ratio", actual with
  | Some limit, Some v => f64_ltb v limit
  | _, _ => false
  end.

Lemma check_max_violations g key actual acc :
  snd (check_max_guardrail g key actual acc) = [] <->
  snd acc = [] /\ exceeds g key actual = false.
Proof.
  unfold check_max_guardrail, exceeds. destruct (g key), actual; try tauto.
  destruct (f64_ltb _ _); [|destruct (f64_ltb _ _); simpl; tauto].
  simpl. split; [intros [_ ?]%app_nil|]; naive_solver.
Qed.

(** A rollout is rolled back exactly when an observation breaks its limit. *)
Lemma guardrails_roll_back g o :
  fst (evaluate_guardrails g o) = "rollback" <->
  exceeds g "max_failure_rate" (failure_rate o) || exceeds g "max_one_legged_rate" (one_legged_rate o)
  || exceeds g "max_drawdown_pct" (drawdown_pct o) || exceeds g "max_latency_p90_ms" (latency_p90_ms o)
  || falls_short g (edge_capture_ratio o) = true.
Proof.
  unfold evaluate_guardrails.
  set (acc := check_max_guardrail g "max_latency_p90_ms" _ _).
  assert (Hacc : snd acc = [] <->
    exceeds g "max_failure_rate" (failure_rate o) || exceeds g "max_one_legged_rate" (one_legged_rate o)
    || exceeds g "max_drawdown_pct" (drawdown_pct o) || exceeds g "max_latency_p90_ms" (latency_p90_ms o)
    = false).
  { unfold acc. rewrite !check_max_violations, !orb_false_iff. simpl. tauto. }
  assert (He : snd (check_edge_guardrail g (edge_capture_ratio o) acc) = [] <->
    snd acc = [] /\ falls_short g (edge_capture_ratio o) = false).
  { unfold check_edge_guardrail, falls_short.
    destruct (g "min_edge_capture_ratio"), (edge_capture_ratio o); try tauto.
    destruct (f64_ltb _ _); [|destruct (f64_ltb _ _); simpl; tauto].
    simpl. split; [intros [_ ?]%app_nil|]; naive_solver. }
  rewrite <- not_false_iff_true, orb_false_iff, <- Hacc, <- He.
  destruct (check_edge_guardrail _ _ _) as [w [|v vs]]; simpl; [|naive_solver].
  destruct w; naive_solver.
Qed.
End Rollouts.

(** ** The theorem at a concrete input *)

Section Witnesses.
#[local] Existing Instance Concrete.decimal.
#[local] Existing Instance Concrete.decimal_spec.
#[local] Existing Instance Concrete.uuid.

Definition sample_rollout : ActiveRollout := {|
  ro_model_id := 1%positive; ro_model_key := "k"; ro_strategy_scope := "arb"; ro_target := "t";
  ro_mode := "canary"; ro_authority_level := "full"; ro_bounds := fun _ => None |}.
Definition sample_score (action : string) : ModelScore :=
  {| predicted_score := f64_zero; threshold := f64_zero; recommended_action := action |}.

Lemma rollout_only_restricts_witness :
  is_Some (skip_reason (evaluate (fun a => Some (sample_score a)) "live" false
    (Some [sample_rollout]) (Some {[ 1%positive := "skip" ]}))).
Proof.
  destruct (rollout_only_restricts (fun a => Some (sample_score a)) "live" false
    (Some [sample_rollout]) (Some {[ 1%positive := "skip" ]})) as (_ & _ & H).
  destruct (H _ _ eq_refl eq_refl eq_refl eq_refl) as [[_ H'] _]. apply H'.
  exists sample_rollout. split; [apply list_elem_of_here|].
  exists (sample_score "skip"). by split.
Defined.
End Witnesses.
