(* ===== verification/TokenCache.v ===== *)
(** * The outcome token cache

    Models [OutcomeTokenCache] of [crates/api-server/src/arb_executor.rs]: the
    map of a market to its (YES, NO) tokens, the set of active markets, both
    replaced by a refresh from Gamma and extended by the hydration of one
    market, and the table [token_condition_cache] (the outcome's token to its
    market) they are written through to.  The answers of Gamma and of the CLOB
    are arguments; [io i] says whether the i-th batch of an upsert succeeds. *)

From stdpp Require Import sorting.
From S2P Require Import Prelude Platform Market.

Section TokenCache.
Context `{DO : DecimalOps} `{CO : ChronoOps}.

Record OutcomeTokenCache : Type := {
  tc_tokens : gmap string (string * string);
  tc_active : gset string;
  tc_conditions : gmap string string;
}.

Definition cache_new : OutcomeTokenCache :=
  {| tc_tokens := ∅; tc_active := ∅; tc_conditions := ∅ |}.

Definition cache_get (market_id : string) (c : OutcomeTokenCache) : option (string * string) :=
  tc_tokens c !! market_id.
Definition cache_len (c : OutcomeTokenCache) : nat := size (tc_tokens c).
Definition alias (name : string) (ids : string * string) (c : OutcomeTokenCache)
    : OutcomeTokenCache :=
  {| c with tc_tokens := <[name := ids]> (tc_tokens c) |}.

(** The (YES, NO) tokens of a market with two outcomes: the first outcome is
    YES if its name says so, else the second is. *)
Definition token_pair (m : Market) : option (string * string) :=
  match outcomes m with
  | [a; b] =>
      Some (if string_contains "yes" (string_lower (outcome_name a))
            then (token_id a, token_id b) else (token_id b, token_id a))
  | _ => None
  end.

(** The identifiers under which a market is active. *)
Definition market_ids (m : Market) : list string := mkt_id m :: (token_id <$> outcomes m).
Definition condition_pairs (m : Market) : list (string * string) :=
  (fun o => (token_id o, mkt_id m)) <$> outcomes m.

(** *** The upsert *)

Definition BATCH_SIZE : nat := 250.

(** [pairs.chunks(n)]. *)
Fixpoint chunks_of {A} (fuel n : nat) (l : list A) : list (list A) :=
  match fuel, l with
  | S fuel, _ :: _ => take n l :: chunks_of fuel n (drop n l)
  | _, _ => []
  end.
Definition chunks {A} (n : nat) (l : list A) : list (list A) := chunks_of (length l) n l.

(** [INSERT ... ON CONFLICT (token_id) DO UPDATE], one batch. *)
Definition upsert_batch (batch : list (string * string)) (t : gmap string string)
    : gmap string string :=
  foldl (fun t tc => <[fst tc := snd tc]> t) t batch.

(** The batches up to the first that fails. *)
Fixpoint upsert_batches (io : nat -> bool) (batches : list (list (string * string)))
    (t : gmap string string) : gmap string string * bool :=
  match batches with
  | [] => (t, true)
  | b :: batches =>
      if io O then upsert_batches (fun i => io (S i)) batches (upsert_batch b t) else (t, false)
  end.

Definition upsert_token_condition_cache (io : nat -> bool) (pairs : list (string * string))
    (t : gmap string string) : gmap string string * bool :=
  upsert_batches io (chunks BATCH_SIZE pairs) t.

Definition by_token (a b : string * string) : Prop := String.leb (fst a) (fst b) = true.
#[local] Instance by_token_dec : RelDecision by_token.
Proof. intros a b. unfold by_token. apply _. Defined.

(** *** The refresh *)

(** [for market in &markets]: the map, the active set and the pairs. *)
Definition refresh_market (m : Market)
    (acc : gmap string (string * string) * gset string * list (string * string))
    : gmap string (string * string) * gset string * list (string * string) :=
  let '(map, active, pairs) := acc in
  let '(active, pairs) := if negb (resolved m)
                          then (active ∪ list_to_set (market_ids m), pairs ++ condition_pairs m)
                          else (active, pairs) in
  let map := match token_pair m with
             | Some ids => <[mkt_id m := ids]> map
             | None => map
             end in
  (map, active, pairs).

(** Collected in a [HashMap], the last pair of a token staying, then sorted. *)
Definition dedup_pairs (pairs : list (string * string)) : list (string * string) :=
  merge_sort by_token (map_to_list (foldl (fun t tc => <[fst tc := snd tc]> t) ∅ pairs
                                    : gmap string string)).

Definition refresh (markets : result (list Market) string) (io : nat -> bool)
    (c : OutcomeTokenCache) : OutcomeTokenCache * result (nat * nat) string :=
  match markets with
  | Err e => (c, Err e)
  | Ok markets =>
      let '(map, active, pairs) := foldl (fun acc m => refresh_market m acc) (∅, ∅, []) markets in
      ({| tc_tokens := map; tc_active := active;
          tc_conditions :=
            fst (upsert_token_condition_cache io (dedup_pairs pairs) (tc_conditions c)) |},
       Ok (size map, size active))
  end.

(** *** One market *)

Definition apply_market_update (m : Market) (io : nat -> bool) (c : OutcomeTokenCache)
    : OutcomeTokenCache * option (string * string) :=
  let active := if resolved m
                then tc_active c ∖ list_to_set (market_ids m)
                else tc_active c ∪ list_to_set (market_ids m) in
  let tokens := match token_pair m with
                | Some ids => <[mkt_id m := ids]> (tc_tokens c)
                | None => delete (mkt_id m) (tc_tokens c)
                end in
  ({| tc_tokens := tokens; tc_active := active;
      tc_conditions := fst (upsert_token_condition_cache io
        (merge_sort by_token (condition_pairs m)) (tc_conditions c)) |},
   token_pair m).

(** [market] is the CLOB's answer, asked for only if the cache has none. *)
Definition hydrate_market (market_id : string) (market : result Market string) (io : nat -> bool)
    (c : OutcomeTokenCache) : OutcomeTokenCache * option (string * string) :=
  match cache_get market_id c with
  | Some ids => (c, Some ids)
  | None =>
      match market with
      | Err _ => (c, None)
      | Ok m => apply_market_update m io c
      end
  end.

(** ** Properties *)

Lemma token_pair_outcomes m y n :
  token_pair m = Some (y, n) -> token_id <$> outcomes m ≡ₚ [y; n].
Proof.
  unfold token_pair. destruct (outcomes m) as [|a [|b [|]]]; try done.
  destruct (string_contains _ _); intros [= <- <-]; [done|apply Permutation_swap].
Qed.

(** What a refresh knows of a market: the last one with that identifier and
    two outcomes. *)
Definition last_pair (ms : list Market) (id : string) : option (string * string) :=
  foldl (fun acc m => match token_pair m with
                      | Some ids => if bool_decide (mkt_id m = id) then Some ids else acc
                      | None => acc
                      end) None ms.

Lemma elem_of_with (X : gset string) l x : x ∈ X ∪ list_to_set l <-> x ∈ X \/ x ∈ l.
Proof. set_solver. Qed.
Lemma elem_of_without (X : gset string) l x : x ∈ X ∖ list_to_set l <-> x ∈ X /\ x ∉ l.
Proof. set_solver. Qed.

Lemma exists_cons {A} (P : A -> Prop) a l :
  (exists b, b ∈ a :: l /\ P b) <-> P a \/ exists b, b ∈ l /\ P b.
Proof. setoid_rewrite elem_of_cons. naive_solver. Qed.

Lemma refresh_market_eq m map active pairs :
  refresh_market m (map, active, pairs) =
    (match token_pair m with Some ids => <[mkt_id m := ids]> map | None => map end,
     if resolved m then active else active ∪ list_to_set (market_ids m),
     if resolved m then pairs else pairs ++ condition_pairs m).
Proof. unfold refresh_market. by destruct (resolved m). Qed.

Lemma refresh_fold ms map active pairs map' active' pairs' :
  foldl (fun acc m => refresh_market m acc) (map, active, pairs) ms = (map', active', pairs') ->
  (forall id, map' !! id =
     foldl (fun acc m => match token_pair m with
                         | Some ids => if bool_decide (mkt_id m = id) then Some ids else acc
                         | None => acc
                         end) (map !! id) ms) /\
  (forall x, x ∈ active' <-> x ∈ active \/
     exists m, m ∈ ms /\ resolved m = false /\ x ∈ market_ids m).
Proof.
  revert map active pairs. induction ms as [|m ms IH]; intros map active pairs E.
  - injection E as <- <- <-. split; [done|]. intros x. split; [by left|].
    intros [?|(m & Hm & _)]; [done|by apply elem_of_nil in Hm].
  - cbn [foldl] in E. rewrite refresh_market_eq in E. apply IH in E as [H1 H2]. split.
    + intros id. rewrite H1. simpl. f_equal. destruct (token_pair m); [|done].
      case_bool_decide; [subst; apply lookup_insert_eq|by apply lookup_insert_ne].
    + intros x. rewrite H2, exists_cons. destruct (resolved m); [intuition done|].
      rewrite elem_of_with. tauto.
Qed.

Lemma upsert_batch_lookup b t k :
  k ∉ b.*1 -> upsert_batch b t !! k = t !! k.
Proof.
  unfold upsert_batch. revert t. induction b as [|[x y] b IH]; intros t Hn; simpl; [done|].
  rewrite fmap_cons, not_elem_of_cons in Hn. destruct Hn as [H1 H2].
  rewrite IH by done. by apply lookup_insert_ne.
Qed.

Lemma update_active m io c x :
  x ∈ tc_active (fst (apply_market_update m io c)) <->
  if resolved m then x ∈ tc_active c /\ x ∉ market_ids m else x ∈ tc_active c \/ x ∈ market_ids m.
Proof.
  unfold apply_market_update, fst, tc_active at 1.
  destruct (resolved m); [apply elem_of_without|apply elem_of_with].
Qed.

Lemma update_tokens m io c id :
  cache_get id (fst (apply_market_update m io c)) =
  if bool_decide (id = mkt_id m) then token_pair m else cache_get id c.
Proof.
  unfold cache_get, apply_market_update, fst, tc_tokens at 1.
  case_bool_decide; subst; destruct (token_pair m);
    rewrite ?lookup_insert_eq, ?lookup_delete_eq, ?lookup_insert_ne, ?lookup_delete_ne; done.
Qed.

(** The cache is exact: after a refresh a market's tokens are those of the
    last listed market with that identifier and two outcomes, and the active
    set is the identifiers of the unresolved markets; a failed refresh keeps
    everything. A hydration answers what the cache then holds for the market
    that was fetched, changes the tokens of no other market, and moves exactly
    that market's identifiers in or out of the active set. *)
Theorem cache_exact c io :
  (forall ms c' r, refresh (Ok ms) io c = (c', r) ->
     (forall id, cache_get id c' = last_pair ms id) /\
     (forall x, x ∈ tc_active c' <-> exists m, m ∈ ms /\ resolved m = false /\ x ∈ market_ids m) /\
     r = Ok (cache_len c', size (tc_active c'))) /\
  (forall e, refresh (Err e) io c = (c, Err e)) /\
  (forall id m c' ids, cache_get id c = None -> hydrate_market id (Ok m) io c = (c', ids) ->
     ids = cache_get (mkt_id m) c' /\ ids = token_pair m /\
     (forall id', id' <> mkt_id m -> cache_get id' c' = cache_get id' c) /\
     (forall x, x ∉ market_ids m -> (x ∈ tc_active c' <-> x ∈ tc_active c)) /\
     (forall x, x ∈ market_ids m -> (x ∈ tc_active c' <-> resolved m = false))).
Proof.
  split_and!.
  - intros ms c' r E. unfold refresh in E.
    destruct (foldl _ _ ms) as [[map active] pairs] eqn:Ef. simplify_eq.
    apply refresh_fold in Ef as [H1 H2]. split_and!; [|intros x|done].
    + intros id. unfold cache_get. simpl. rewrite H1. unfold last_pair. by rewrite lookup_empty.
    + simpl. rewrite H2. split; [intros [Hx|?]; [by apply elem_of_empty in Hx|done]|by right].
  - done.
  - intros id m c' ids Hn E. unfold hydrate_market in E. rewrite Hn in E.
    pose proof (f_equal snd E) as E2. apply (f_equal fst) in E. change (fst (apply_market_update m io c) = c') in E. subst c'.
    change (token_pair m = ids) in E2. subst ids. setoid_rewrite update_active.
    setoid_rewrite update_tokens. split_and!; [by rewrite bool_decide_true|done| | |].
    + intros id' Hid. by rewrite bool_decide_false.
    + intros x Hx. destruct (resolved m); tauto.
    + intros x Hx. destruct (resolved m); intuition done.
Qed.

End TokenCache.

(** ** The theorem at a concrete input *)

Section Witnesses.
#[local] Existing Instance Concrete.decimal.
#[local] Existing Instance Concrete.chrono.

Definition sample_market : Market :=
  let outcome name token := {| outcome_id := token; outcome_name := name; token_id := token;
                               outcome_price := None; winner := None |} in
  {| mkt_id := "m"; question := "?"; description := None;
     outcomes := [outcome "No" "t0"; outcome "Yes" "t1"];
     volume := ZERO; liquidity := ZERO; end_date := None; resolved := false; resolution := None;
     category := None; tags := []; fees_enabled := false; fee_type := None |}.
Definition hydrated : OutcomeTokenCache :=
  fst (hydrate_market "m" (Ok sample_market) (fun _ => true) cache_new).

Lemma cache_exact_witness : token_pair sample_market = Some ("t1", "t0") /\
  Some ("t1", "t0") = cache_get "m" hydrated.
Proof.
  split; [done|].
  destruct (cache_exact cache_new (fun _ => true)) as (_ & _ & H).
  by destruct (H "m" sample_market hydrated (Some ("t1", "t0")) eq_refl eq_refl) as (E & _).
Defined.

Example hydrated_condition : tc_conditions hydrated !! "t0" = Some "m".
Proof. by vm_compute. Qed.
End Witnesses.
