(* ===== verification/Executor.v ===== *)
(** * Orders and their execution

    Models [crates/polymarket-core/src/types/order.rs] and
    [crates/trading-engine/src/executor.rs]: the orders and reports, the checks
    at the best level, the live and the paper execution, and the retry loop
    with its exponential backoff.  The exchange is not part of the source: an
    attempt is given the exchange's answers ([Replies]) and says, with its
    result, whether it placed an order there and asked to cancel it (refreshes of
    the exchange's allowance cache are left out).  Texts of errors use the
    [Display] of a [Decimal], which is a class. *)

From S2P Require Import Prelude F64 Platform Market.
From stdpp Require Import pretty.

(** Side of the order (buy or sell). *)
Inductive OrderSide : Type := Buy | Sell.
(** Type of order. *)
Inductive OrderType : Type := MarketType | LimitType | GTC | FOK.
(** Current status of an order. *)
Inductive OrderStatus : Type :=
| OCreated | OPending | OPartiallyFilled | OFilled | OCancelled | ORejected | OExpired.

#[export] Instance OrderSide_eq_dec : EqDecision OrderSide.
Proof. solve_decision. Defined.
#[export] Instance OrderStatus_eq_dec : EqDecision OrderStatus.
Proof. solve_decision. Defined.

(** [{}] and [{:.p}] of a [Decimal]. *)
Class DisplayOps `{DO : DecimalOps} : Type := {
  show_dec : dec -> string;
  show_dec_prec : nat -> dec -> string;
}.

Definition BALANCE_ALLOWANCE_RETRY_MARKER : string := "refreshable_balance_allowance".

Definition retryable_patterns : list string :=
  ["timeout"; "connection"; "network"; "temporarily unavailable"; "rate limit";
   "503"; "502"; "504"; "etimedout"; "econnreset"; "econnrefused"].

(** Determines if an error should trigger a retry. *)
Definition is_retryable_error (error : string) : bool :=
  let error_lower := string_lower error in
  string_contains BALANCE_ALLOWANCE_RETRY_MARKER error_lower
  || existsb (fun p => string_contains p error_lower) retryable_patterns.

Definition is_balance_allowance_error (error : string) : bool :=
  let error_lower := string_lower error in
  string_contains "not enough balance / allowance" error_lower
  || string_contains "insufficient balance" error_lower
  || string_contains "insufficient allowance" error_lower
  || (string_contains "balance" error_lower && string_contains "allowance" error_lower).

Section Orders.
Context `{DO : DecimalOps} `{CO : ChronoOps} `{UO : UuidOps}.

(** A market order that executes immediately at best available price. *)
Record MarketOrder : Type := {
  mo_id : Uuid;
  mo_market_id : string;
  mo_outcome_id : string;
  mo_side : OrderSide;
  mo_quantity : dec;
  mo_created_at : datetime;
  mo_status : OrderStatus;
  max_slippage : option dec;
  expected_price : dec;
}.

Definition market_order_new (id : Uuid) (now : datetime) (market_id outcome_id : string)
    (side : OrderSide) (qty : dec) : MarketOrder := {|
  mo_id := id; mo_market_id := market_id; mo_outcome_id := outcome_id; mo_side := side;
  mo_quantity := qty; mo_created_at := now; mo_status := OCreated;
  max_slippage := None; expected_price := ZERO |}.

Definition with_slippage (slippage : dec) (o : MarketOrder) : MarketOrder :=
  {| o with max_slippage := Some slippage |}.
Definition with_expected_price (price : dec) (o : MarketOrder) : MarketOrder :=
  {| o with expected_price := price |}.

(** A limit order with a specific price. *)
Record LimitOrder : Type := {
  lo_id : Uuid;
  lo_market_id : string;
  lo_outcome_id : string;
  lo_side : OrderSide;
  lo_price : dec;
  lo_quantity : dec;
  lo_order_type : OrderType;
  lo_created_at : datetime;
  lo_expires_at : option datetime;
  lo_status : OrderStatus;
  lo_filled_quantity : dec;
  lo_average_fill_price : option dec;
}.

Definition limit_order_new (id : Uuid) (now : datetime) (market_id outcome_id : string)
    (side : OrderSide) (price qty : dec) : LimitOrder := {|
  lo_id := id; lo_market_id := market_id; lo_outcome_id := outcome_id; lo_side := side;
  lo_price := price; lo_quantity := qty; lo_order_type := LimitType; lo_created_at := now;
  lo_expires_at := None; lo_status := OCreated; lo_filled_quantity := ZERO;
  lo_average_fill_price := None |}.

Definition gtc (o : LimitOrder) : LimitOrder := {| o with lo_order_type := GTC |}.
Definition fok (o : LimitOrder) : LimitOrder := {| o with lo_order_type := FOK |}.
Definition with_expiry (t : datetime) (o : LimitOrder) : LimitOrder :=
  {| o with lo_expires_at := Some t |}.
Definition remaining_quantity (o : LimitOrder) : dec := (lo_quantity o - lo_filled_quantity o)%dec.
Definition is_fully_filled (o : LimitOrder) : bool := (lo_filled_quantity o >=? lo_quantity o)%dec.

(** Report of an executed order. *)
Record ExecutionReport : Type := {
  er_order_id : Uuid;
  er_exchange_order_id : option string;
  er_market_id : string;
  er_outcome_id : string;
  er_side : OrderSide;
  er_status : OrderStatus;
  er_requested_quantity : dec;
  er_filled_quantity : dec;
  er_average_price : dec;
  er_fees_paid : dec;
  er_executed_at : datetime;
  er_transaction_hash : option string;
  er_error_message : option string;
}.

Definition partial_fill (now : datetime) (id : Uuid) (market_id outcome_id : string)
    (side : OrderSide) (requested filled price fees : dec) : ExecutionReport := {|
  er_order_id := id; er_exchange_order_id := None; er_market_id := market_id;
  er_outcome_id := outcome_id; er_side := side; er_status := OPartiallyFilled;
  er_requested_quantity := requested; er_filled_quantity := filled;
  er_average_price := price; er_fees_paid := fees; er_executed_at := now;
  er_transaction_hash := None; er_error_message := None |}.

Definition filled (now : datetime) (id : Uuid) (market_id outcome_id : string)
    (side : OrderSide) (requested price fees : dec) : ExecutionReport := {|
  er_order_id := id; er_exchange_order_id := None; er_market_id := market_id;
  er_outcome_id := outcome_id; er_side := side; er_status := OFilled;
  er_requested_quantity := requested; er_filled_quantity := requested;
  er_average_price := price; er_fees_paid := fees; er_executed_at := now;
  er_transaction_hash := None; er_error_message := None |}.

Definition rejected (now : datetime) (id : Uuid) (market_id outcome_id : string)
    (side : OrderSide) (error : string) : ExecutionReport := {|
  er_order_id := id; er_exchange_order_id := None; er_market_id := market_id;
  er_outcome_id := outcome_id; er_side := side; er_status := ORejected;
  er_requested_quantity := ZERO; er_filled_quantity := ZERO;
  er_average_price := ZERO; er_fees_paid := ZERO; er_executed_at := now;
  er_transaction_hash := None; er_error_message := Some error |}.

Definition total_value (r : ExecutionReport) : dec := (er_filled_quantity r * er_average_price r)%dec.
Definition is_success (r : ExecutionReport) : bool :=
  bool_decide (er_status r = OFilled) || bool_decide (er_status r = OPartiallyFilled).

(** Aggregated order for arbitrage (buying both YES and NO). *)
Record ArbOrder : Type := {
  ao_id : Uuid;
  ao_market_id : string;
  yes_order : MarketOrder;
  no_order : MarketOrder;
  total_quantity : dec;
  expected_cost : dec;
  expected_profit : dec;
  ao_created_at : datetime;
}.

Definition arb_order_new (id yes_id no_id : Uuid) (now : datetime)
    (market_id yes_outcome no_outcome : string) (qty yes_price no_price : dec) : ArbOrder :=
  let cost := ((yes_price + no_price) * qty)%dec in
  let gross := (qty - cost)%dec in
  {| ao_id := id; ao_market_id := market_id;
     yes_order := market_order_new yes_id now market_id yes_outcome Buy qty;
     no_order := market_order_new no_id now market_id no_outcome Buy qty;
     total_quantity := qty; expected_cost := cost;
     expected_profit := (gross - cost * dec_new 2 2)%dec; ao_created_at := now |}.

(** ** The executor *)

(** Metrics for order execution performance. *)
Record ExecutionMetrics : Type := {
  orders_submitted : Z;
  orders_filled : Z;
  orders_rejected : Z;
  em_total_volume : dec;
  em_total_fees : dec;
  avg_latency_us : Z;
}.

(** Configuration for the order executor. *)
Record ExecutorConfig : Type := {
  default_slippage : dec;
  max_order_size : dec;
  min_book_depth : dec;
  ec_fee_rate : dec;
  live_trading : bool;
  api_key : option string;
  timeout_ms : Z;
  max_retries : Z;
  retry_base_delay_ms : Z;
  retry_max_delay_ms : Z;
}.

Definition default_executor_config : ExecutorConfig := {|
  default_slippage := dec_new 1 2;
  max_order_size := dec_new 10000 0;
  min_book_depth := dec_new 100 0;
  ec_fee_rate := dec_new 2 2;
  live_trading := false;
  api_key := None;
  timeout_ms := 30000;
  max_retries := 3;
  retry_base_delay_ms := 100;
  retry_max_delay_ms := 5000;
|}.

(** [auth_client] is [None] without a wallet, else whether it has its API
    credentials; [reports] are those sent to the channel. *)
Record OrderExecutor : Type := {
  ex_config : ExecutorConfig;
  pending_orders : gmap Uuid OrderStatus;
  ex_reports : list ExecutionReport;
  ex_metrics : ExecutionMetrics;
  auth_client : option bool;
  live_override : bool;
}.

Definition executor_new (config : ExecutorConfig) (wallet : option bool) : OrderExecutor := {|
  ex_config := config; pending_orders := ∅; ex_reports := [];
  ex_metrics := {| orders_submitted := 0; orders_filled := 0; orders_rejected := 0;
                   em_total_volume := ZERO; em_total_fees := ZERO; avg_latency_us := 0 |};
  auth_client := wallet; live_override := live_trading config |}.

Definition is_live (x : OrderExecutor) : bool := live_override x.
Definition set_live_mode (enabled : bool) (x : OrderExecutor) : OrderExecutor :=
  {| x with live_override := enabled |}.
Definition is_live_ready (x : OrderExecutor) : bool :=
  if negb (is_live x) then false else default false (auth_client x).
Definition send_report (r : ExecutionReport) (x : OrderExecutor) : OrderExecutor :=
  {| x with ex_reports := ex_reports x ++ [r] |}.
Definition cancel_order (id : Uuid) (x : OrderExecutor) : OrderExecutor * bool :=
  match pending_orders x !! id with
  | Some _ => ({| x with pending_orders := delete id (pending_orders x) |}, true)
  | None => (x, false)
  end.

(** What the exchange answers: the order book, the balance and allowance
    before and after a refresh, the order's creation and its posting. *)
Record PostResponse : Type := { po_order_id : string; po_status : string }.
Record Replies : Type := {
  rp_book : result OrderBook string;
  rp_snapshot : option (option dec * option dec);
  rp_snapshot_refreshed : option (option dec * option dec);
  rp_create : result unit string;
  rp_post : result PostResponse string;
}.

(** Check if the order was explicitly not filled (FOK rejection). *)
Definition is_unfilled (r : PostResponse) : bool :=
  let s := string_lower (po_status r) in
  bool_decide (s = "unmatched") || bool_decide (s = "rejected").

Context `{SH : !DisplayOps}.

Definition short_of (value : option dec) (required : dec) : bool :=
  match value with Some v => (v <? required)%dec | None => false end.

(** The balance and allowance preflight. *)
Definition ensure_live_order_capacity (rp : Replies) (side : OrderSide) (required : dec)
    : result unit string :=
  if (required <=? ZERO)%dec then Ok tt
  else
    let label := match side with Buy => "collateral" | Sell => "conditional" end in
    let check (snapshot : option dec * option dec) : result unit string :=
      let '(balance, allowance) := snapshot in
      match balance with
      | Some v =>
          if (v <? required)%dec then
            Err ("Insufficient " +:+ label +:+ " balance for live order: available "
                 +:+ show_dec v +:+ ", required " +:+ show_dec required)
          else match allowance with
          | Some w =>
              if (w <? required)%dec then
                Err ("Insufficient " +:+ label +:+ " allowance for live order: available "
                     +:+ show_dec w +:+ ", required " +:+ show_dec required)
              else Ok tt
          | None => Ok tt
          end
      | None =>
          match allowance with
          | Some w =>
              if (w <? required)%dec then
                Err ("Insufficient " +:+ label +:+ " allowance for live order: available "
                     +:+ show_dec w +:+ ", required " +:+ show_dec required)
              else Ok tt
          | None => Ok tt
          end
      end in
    match rp_snapshot rp with
    | None => Ok tt
    | Some (balance, allowance) =>
        if short_of balance required || short_of allowance required
        then match rp_snapshot_refreshed rp with
             | None => Ok tt
             | Some snapshot => check snapshot
             end
        else check (balance, allowance)
    end.

(** Preflight of a multi-leg buy. *)
Definition ensure_live_buying_power (rp : Replies) (required : dec) (x : OrderExecutor)
    : result unit string :=
  if (required <=? ZERO)%dec || negb (is_live_ready x) then Ok tt
  else match auth_client x with
  | None => Err "Live trading wallet is not initialized for collateral preflight"
  | Some _ => ensure_live_order_capacity rp Buy required
  end.

Definition reject_market_order (now : datetime) (o : MarketOrder) (error : string)
    : ExecutionReport :=
  rejected now (mo_id o) (mo_market_id o) (mo_outcome_id o) (mo_side o) error.

Definition best_level_for_order (now : datetime) (o : MarketOrder) (b : OrderBook)
    : result (dec * dec) ExecutionReport :=
  match mo_side o with
  | Buy => match head (asks b) with
           | Some l => Ok (level_price l, level_size l)
           | None => Err (reject_market_order now o "No asks available")
           end
  | Sell => match head (bids b) with
            | Some l => Ok (level_price l, level_size l)
            | None => Err (reject_market_order now o "No bids available")
            end
  end.

(** The slippage from the expected price, when there is one; [None] is the
    panic of the division. *)
Definition order_slippage (o : MarketOrder) (price : dec) : option dec :=
  if (expected_price o >? ZERO)%dec then
    match mo_side o with
    | Buy => dec_div (price - expected_price o)%dec (expected_price o)
    | Sell => dec_div (expected_price o - price)%dec (expected_price o)
    end
  else Some ZERO.

(** The rejection, if any; outer [None] is a panic. *)
Definition validate_market_order_at_best_level (now : datetime) (config : ExecutorConfig)
    (o : MarketOrder) (price available : dec) : option (option ExecutionReport) :=
  let notional := (available * price)%dec in
  if (notional <? min_book_depth config)%dec then
    Some (Some (reject_market_order now o
      ("Insufficient liquidity: $" +:+ show_dec_prec 2 notional +:+ " at best level (min $"
       +:+ show_dec_prec 0 (min_book_depth config) +:+ ")")))
  else if (mo_quantity o >? available)%dec then
    Some (Some (reject_market_order now o
      ("Order size " +:+ show_dec (mo_quantity o) +:+ " exceeds available " +:+ show_dec available
       +:+ " at best price")))
  else match max_slippage o with
  | None => Some None
  | Some limit =>
      slippage ← order_slippage o price;
      Some (if (slippage >? limit)%dec then
        Some (reject_market_order now o
          ("Slippage " +:+ show_dec_prec 4 slippage +:+ " exceeds max " +:+ show_dec_prec 4 limit
           +:+ " (expected=" +:+ show_dec (expected_price o) +:+ ", actual=" +:+ show_dec price
           +:+ ")"))
      else None)
  end.

(** What an attempt gives: its result, the order it placed, if any, and the
    exchange order it asked to cancel. *)
Record Attempt : Type := {
  at_result : result ExecutionReport string;
  at_placed : option PostResponse;
  at_cancelled : option string;
}.
Definition unplaced (r : result ExecutionReport string) : Attempt :=
  {| at_result := r; at_placed := None; at_cancelled := None |}.

Definition not_matched (r : PostResponse) : bool :=
  negb (bool_decide (string_lower (po_status r) = "matched")).

(** The error of a refused posting. *)
Definition post_error (error : string) : string :=
  if is_balance_allowance_error error
  then BALANCE_ALLOWANCE_RETRY_MARKER +:+ ": Failed to post order: " +:+ error
  else "Failed to post order: " +:+ error.

Definition execute_live_market_order (now : datetime) (rp : Replies) (o : MarketOrder)
    (x : OrderExecutor) : option Attempt :=
  match auth_client x with
  | None => Some (unplaced (Ok (reject_market_order now o "Live trading wallet is not initialized")))
  | Some credentials =>
      match rp_book rp with
      | Err e => Some (unplaced (Err e))
      | Ok book =>
          match best_level_for_order now o book with
          | Err report => Some (unplaced (Ok report))
          | Ok (price, available) =>
              invalid ← validate_market_order_at_best_level now (ex_config x) o price available;
              match invalid with
              | Some report => Some (unplaced (Ok report))
              | None =>
                  if negb credentials then Some (unplaced (Err
                    "Live trading not initialized - call initialize_live_trading() first"))
                  else
                    let amount := match mo_side o with
                                  | Buy => (mo_quantity o * price)%dec
                                  | Sell => mo_quantity o
                                  end in
                    match ensure_live_order_capacity rp (mo_side o) amount with
                    | Err e => Some (unplaced (Err e))
                    | Ok _ =>
                        match rp_create rp with
                        | Err e => Some (unplaced (Err ("Failed to create market order: " +:+ e)))
                        | Ok _ =>
                            match rp_post rp with
                            | Err e => Some (unplaced (Err (post_error e)))
                            | Ok response =>
                                Some {| at_placed := Some response;
                                  at_cancelled := if not_matched response
                                                  then Some (po_order_id response) else None;
                                  at_result := Ok
                                  (if is_unfilled response || not_matched response
                                   then reject_market_order now o
                                     ("FOK order did not confirm a match: status="
                                      +:+ po_status response)
                                   else filled now (mo_id o) (mo_market_id o) (mo_outcome_id o)
                                          (mo_side o) (mo_quantity o) price
                                          (mo_quantity o * price * ec_fee_rate (ex_config x))%dec) |}
                            end
                        end
                    end
              end
          end
      end
  end.

Definition simulate_market_order (now : datetime) (rp : Replies) (o : MarketOrder)
    (x : OrderExecutor) : option Attempt :=
  match rp_book rp with
  | Err e => Some (unplaced (Err e))
  | Ok book =>
      match best_level_for_order now o book with
      | Err report => Some (unplaced (Ok report))
      | Ok (price, available) =>
          invalid ← validate_market_order_at_best_level now (ex_config x) o price available;
          Some (unplaced (Ok (match invalid with
            | Some report => report
            | None => filled now (mo_id o) (mo_market_id o) (mo_outcome_id o) (mo_side o)
                        (mo_quantity o) price
                        (mo_quantity o * price * ec_fee_rate (ex_config x))%dec
            end)))
      end
  end.

Definition limit_fill (now : datetime) (o : LimitOrder) (x : OrderExecutor) : ExecutionReport :=
  filled now (lo_id o) (lo_market_id o) (lo_outcome_id o) (lo_side o) (lo_quantity o) (lo_price o)
    (lo_quantity o * lo_price o * ec_fee_rate (ex_config x))%dec.

Definition execute_live_limit_order (now : datetime) (rp : Replies) (o : LimitOrder)
    (x : OrderExecutor) : Attempt :=
  match auth_client x with
  | None => unplaced (Ok (rejected now (lo_id o) (lo_market_id o) (lo_outcome_id o) (lo_side o)
              "Live trading wallet is not initialized"))
  | Some credentials =>
      if negb credentials then unplaced (Err
        "Live trading not initialized - call initialize_live_trading() first")
      else
        let required := match lo_side o with
                        | Buy => (lo_quantity o * lo_price o)%dec
                        | Sell => lo_quantity o
                        end in
        match ensure_live_order_capacity rp (lo_side o) required with
        | Err e => unplaced (Err e)
        | Ok _ =>
            match rp_create rp with
            | Err e => unplaced (Err ("Failed to create order: " +:+ e))
            | Ok _ =>
                match rp_post rp with
                | Err e => unplaced (Err (post_error e))
                | Ok response =>
                    {| at_placed := Some response; at_cancelled := None;
                       at_result := Ok (limit_fill now o x) |}
                end
            end
        end
  end.

Definition simulate_limit_order (now : datetime) (o : LimitOrder) (x : OrderExecutor) : Attempt :=
  unplaced (Ok (limit_fill now o x)).

(** ** Retries *)

(** The delay before the next attempt, after [attempts]: wrapping [u64]s. *)
Definition backoff_delay (config : ExecutorConfig) (attempts : Z) : Z :=
  Z.min (u64_mul (retry_base_delay_ms config) ((2 ^ (attempts - 1)) mod 2 ^ 64))
        (retry_max_delay_ms config).

(** The result of one call of the operation under [tokio::time::timeout]; a
    timeout drops the operation, whose order may have been placed. *)
Inductive Timed : Type := InTime | TimedOut.

(** What a whole run gives: the report, the delays slept and the orders placed
    on the exchange, in order. *)
Record RetryRun : Type := {
  rr_report : ExecutionReport;
  rr_attempts : Z;
  rr_delays : list Z;
  rr_placed : list PostResponse;
}.

Definition placed_of (a : Attempt) : list PostResponse :=
  match at_placed a with Some r => [r] | None => [] end.

(** The loop from [attempts] done; [op i] is the i-th call, [None] its panic.
    Without fuel: [None]. *)
Fixpoint retry_loop (fuel : nat) (config : ExecutorConfig) (op : Z -> option (Attempt * Timed))
    (reject : string -> ExecutionReport) (attempts : Z) (last_error : string)
    (delays : list Z) (placed : list PostResponse) : option RetryRun :=
  match fuel with
  | O => None
  | S fuel =>
      if (attempts <=? max_retries config)%Z then
        let attempts := u32_add attempts 1 in
        '(a, timed) ← op attempts;
        let placed := placed ++ placed_of a in
        let slept := if (attempts <=? max_retries config)%Z
                     then delays ++ [backoff_delay config attempts] else delays in
        match timed with
        | TimedOut =>
            retry_loop fuel config op reject attempts
              ("Operation timed out after " +:+ pretty (timeout_ms config) +:+ "ms") slept placed
        | InTime =>
            match at_result a with
            | Ok report => Some {| rr_report := report; rr_attempts := attempts;
                                   rr_delays := delays; rr_placed := placed |}
            | Err e =>
                if negb (is_retryable_error e)
                then Some {| rr_report := reject e; rr_attempts := attempts;
                             rr_delays := delays; rr_placed := placed |}
                else retry_loop fuel config op reject attempts e slept placed
            end
        end
      else
        Some {| rr_report := reject ("Failed after " +:+ pretty attempts +:+ " attempts: "
                                     +:+ last_error);
                rr_attempts := attempts; rr_delays := delays; rr_placed := placed |}
  end.

Definition execute_with_retry (config : ExecutorConfig) (op : Z -> option (Attempt * Timed))
    (reject : string -> ExecutionReport) : option RetryRun :=
  retry_loop (Z.to_nat (max_retries config) + 2) config op reject 0 EmptyString [] [].

(** [metrics] after a report, with the latency measured. *)
Definition update_metrics (report : ExecutionReport) (latency_us : Z) (m : ExecutionMetrics)
    : ExecutionMetrics :=
  let submitted := u64_add (orders_submitted m) 1 in
  let m := if is_success report
           then {| m with orders_submitted := submitted;
                          orders_filled := u64_add (orders_filled m) 1;
                          em_total_volume := (em_total_volume m + total_value report)%dec;
                          em_total_fees := (em_total_fees m + er_fees_paid report)%dec |}
           else {| m with orders_submitted := submitted;
                          orders_rejected := u64_add (orders_rejected m) 1 |} in
  {| m with avg_latency_us :=
       (u64_add (u64_mul (avg_latency_us m) (u64_sub submitted 1)) latency_us / submitted)%Z |}.

Definition size_error (config : ExecutorConfig) (qty : dec) : string :=
  "Order size " +:+ show_dec qty +:+ " exceeds maximum " +:+ show_dec (max_order_size config).

(** Execute a market order; [replies i] are the exchange's answers to the i-th
    attempt and [timed i] whether it ran in time. *)
Definition execute_market_order (now : datetime) (replies : Z -> Replies) (timed : Z -> Timed)
    (latency_us : Z) (o : MarketOrder) (x : OrderExecutor)
    : option (OrderExecutor * result ExecutionReport string * list PostResponse) :=
  let config := ex_config x in
  if (mo_quantity o >? max_order_size config)%dec then
    let report := reject_market_order now o (size_error config (mo_quantity o)) in
    Some (send_report report x, Ok report, [])
  else
    let x := {| x with pending_orders := <[mo_id o := OPending]> (pending_orders x) |} in
    let op i := a ← (if is_live x then execute_live_market_order now (replies i) o x
                     else simulate_market_order now (replies i) o x);
                Some (a, timed i) in
    run ← execute_with_retry config op (reject_market_order now o);
    let report := rr_report run in
    let x := {| x with ex_metrics := update_metrics report latency_us (ex_metrics x);
                       pending_orders := delete (mo_id o) (pending_orders x) |} in
    Some (send_report report x, Ok report, rr_placed run).

Definition execute_limit_order (now : datetime) (replies : Z -> Replies) (timed : Z -> Timed)
    (o : LimitOrder) (x : OrderExecutor)
    : option (OrderExecutor * result ExecutionReport string * list PostResponse) :=
  let config := ex_config x in
  let reject := rejected now (lo_id o) (lo_market_id o) (lo_outcome_id o) (lo_side o) in
  if (lo_quantity o >? max_order_size config)%dec then
    let report := reject (size_error config (lo_quantity o)) in
    Some (send_report report x, Ok report, [])
  else
    let x := {| x with pending_orders := <[lo_id o := OPending]> (pending_orders x) |} in
    let op i := Some (if is_live x then execute_live_limit_order now (replies i) o x
                      else simulate_limit_order now o x, timed i) in
    run ← execute_with_retry config op reject;
    let x := {| x with pending_orders := delete (lo_id o) (pending_orders x) |} in
    Some (send_report (rr_report run) x, Ok (rr_report run), rr_placed run).

End Orders.
