(* ===== verification/ExecutorFacts.v ===== *)
(** * Properties of the order executor

    The retry loop terminates within its attempts and delays, a filled report
    respects the checks at the best level, and two ways in which a report and
    the exchange disagree. *)

From S2P Require Import Prelude F64 Platform Market Executor.

Section Facts.
Context `{DO : DecimalOps} `{CO : ChronoOps} `{UO : UuidOps} `{SH : !DisplayOps}.

(** ** The retry loop *)

Section Loop.
Variables (config : ExecutorConfig) (op : Z -> option (Attempt * Timed))
  (reject : string -> ExecutionReport).
Hypothesis retries_fit : (0 <= max_retries config < 2 ^ 32 - 1)%Z.
Hypothesis op_returns : forall i, is_Some (op i).

Abbreviation max_delay := (retry_max_delay_ms config).

(** What a run that continues from [attempts] ends with. *)
Record ends (attempts : Z) (delays : list Z) (placed : list PostResponse) (run : RetryRun) : Prop := {
  ends_attempts : (Z.max 1 attempts <= rr_attempts run <= max_retries config + 1)%Z;
  ends_delays : Forall (fun d => d <= max_delay)%Z delays ->
    Forall (fun d => d <= max_delay)%Z (rr_delays run);
  ends_placed : (Z.of_nat (length (rr_placed run)) <=
    Z.of_nat (length placed) + (rr_attempts run - attempts))%Z;
  ends_report : (exists e, rr_report run = reject e) \/
    exists a, op (rr_attempts run) = Some (a, InTime) /\ at_result a = Ok (rr_report run);
}.

Lemma backoff_bounded k : (backoff_delay config k <= max_delay)%Z.
Proof. unfold backoff_delay. lia. Qed.

Lemma slept_bounded k delays :
  Forall (fun d => d <= max_delay)%Z delays ->
  Forall (fun d => d <= max_delay)%Z
    (if (k <=? max_retries config)%Z then delays ++ [backoff_delay config k] else delays).
Proof.
  intros H. case_match; [|done]. apply Forall_app. split; [done|].
  constructor; [apply backoff_bounded|constructor].
Qed.

Lemma placed_of_length a : (length (placed_of a) <= 1)%nat.
Proof. unfold placed_of. case_match; simpl; lia. Qed.

Lemma ends_step attempts delays placed a run :
  (0 <= attempts <= max_retries config)%Z ->
  ends (attempts + 1)
    (if (attempts + 1 <=? max_retries config)%Z
     then delays ++ [backoff_delay config (attempts + 1)] else delays)
    (placed ++ placed_of a) run ->
  ends attempts delays placed run.
Proof.
  intros Ha [H1 H2 H3 H4]. pose proof (placed_of_length a) as Hpl. split; [lia| | |done].
  - intros H. by apply H2, slept_bounded.
  - rewrite length_app in H3. lia.
Qed.

Lemma retry_loop_ends fuel attempts last_error delays placed :
  (0 <= attempts <= max_retries config + 1)%Z ->
  (max_retries config + 2 - attempts <= Z.of_nat fuel)%Z ->
  exists run, retry_loop fuel config op reject attempts last_error delays placed = Some run /\
    ends attempts delays placed run.
Proof.
  revert attempts last_error delays placed.
  induction fuel as [|fuel IH]; intros attempts le delays placed Ha Hf; [lia|]. simpl.
  destruct (Z.leb_spec attempts (max_retries config)) as [Hle|Hgt].
  - rewrite u32_add_small by lia.
    destruct (op_returns (attempts + 1)) as [[a timed] Eop]. rewrite Eop. simpl.
    assert (K : forall e, exists run,
      retry_loop fuel config op reject (attempts + 1) e
        (if (attempts + 1 <=? max_retries config)%Z
         then delays ++ [backoff_delay config (attempts + 1)] else delays)
        (placed ++ placed_of a) = Some run /\ ends attempts delays placed run).
    { intros e. destruct (IH (attempts + 1)%Z e (if (attempts + 1 <=? max_retries config)%Z
        then delays ++ [backoff_delay config (attempts + 1)] else delays)
        (placed ++ placed_of a) ltac:(lia) ltac:(lia)) as (run & E & Hr).
      exists run. split; [done|]. apply (ends_step _ _ _ a); [lia|done]. }
    assert (P : (Z.of_nat (length (placed ++ placed_of a)) <= Z.of_nat (length placed) + 1)%Z).
    { rewrite length_app. pose proof (placed_of_length a). lia. }
    destruct timed; [|apply K].
    destruct (at_result a) as [report|e] eqn:Ea.
    + eexists; split; [done|]. split; simpl; [lia|done|lia|]. right. by exists a.
    + destruct (is_retryable_error e); simpl; [apply K|].
      eexists; split; [done|]. split; simpl; [lia|done|lia|]. left. by exists e.
  - eexists; split; [done|]. split; simpl; [lia|done|lia|]. left. by eexists.
Qed.

(** When every attempt times out, every order it placed counts. *)
Lemma retry_loop_all_timed_out fuel attempts last_error delays placed :
  (forall i, exists a r, op i = Some (a, TimedOut) /\ at_placed a = Some r) ->
  (0 <= attempts <= max_retries config + 1)%Z ->
  (max_retries config + 2 - attempts <= Z.of_nat fuel)%Z ->
  exists run e, retry_loop fuel config op reject attempts last_error delays placed = Some run /\
    rr_report run = reject e /\
    Z.of_nat (length (rr_placed run)) = (Z.of_nat (length placed) + (max_retries config + 1 - attempts))%Z.
Proof.
  intros Hop. revert attempts last_error delays placed.
  induction fuel as [|fuel IH]; intros attempts le delays placed Ha Hf; [lia|]. simpl.
  destruct (Z.leb_spec attempts (max_retries config)) as [Hle|Hgt].
  - rewrite u32_add_small by lia.
    destruct (Hop (attempts + 1)%Z) as (a & r & -> & Er). simpl.
    destruct (IH (attempts + 1)%Z
      ("Operation timed out after " +:+ pretty.pretty (timeout_ms config) +:+ "ms")
      (if (attempts + 1 <=? max_retries config)%Z
       then delays ++ [backoff_delay config (attempts + 1)] else delays)
      (placed ++ placed_of a) ltac:(lia) ltac:(lia)) as (run & e & E & Hr & Hl).
    exists run, e. split; [done|]. split; [done|]. rewrite Hl, length_app.
    unfold placed_of. rewrite Er. simpl. lia.
  - do 2 eexists. split; [done|]. simpl. split; [done|lia].
Qed.

End Loop.

(** ** Checks at the best level *)

Context {DS : DecimalSpec}.
Local Open Scope Q_scope.

Lemma order_slippage_some o price : is_Some (order_slippage o price).
Proof.
  unfold order_slippage. destruct (ZERO <? expected_price o)%dec eqn:E; [|by eexists].
  dec_to_Q. destruct (mo_side o); by apply dec_div_pos_some.
Qed.

Lemma validate_some now config o price available :
  is_Some (validate_market_order_at_best_level now config o price available).
Proof.
  unfold validate_market_order_at_best_level. repeat case_match; try by eexists.
  destruct (order_slippage_some o price) as [x ->]. by eexists.
Qed.

Lemma execute_live_some now rp o x : is_Some (execute_live_market_order now rp o x).
Proof.
  unfold execute_live_market_order.
  destruct (auth_client x); [|by eexists]. destruct (rp_book rp); [|by eexists].
  destruct (best_level_for_order _ _ _) as [[price available]|]; [|by eexists].
  destruct (validate_some now (ex_config x) o price available) as [[r|] ->]; simpl; [by eexists|].
  repeat case_match; by eexists.
Qed.

Lemma simulate_some now rp o x : is_Some (simulate_market_order now rp o x).
Proof.
  unfold simulate_market_order. destruct (rp_book rp); [|by eexists].
  destruct (best_level_for_order _ _ _) as [[price available]|]; [|by eexists].
  destruct (validate_some now (ex_config x) o price available) as [r ->]. by eexists.
Qed.

(** A market order always gets a report. *)
Lemma execute_market_order_some now replies timed latency o x :
  (0 <= max_retries (ex_config x) < 2 ^ 32 - 1)%Z ->
  exists x' report placed,
    execute_market_order now replies timed latency o x = Some (x', Ok report, placed).
Proof.
  intros Hm. unfold execute_market_order. case_match; [by do 3 eexists|].
  match goal with |- context [execute_with_retry ?c ?f ?g] =>
    destruct (retry_loop_ends c f g Hm) with (fuel := (Z.to_nat (max_retries c) + 2)%nat)
      (attempts := 0%Z) (last_error := EmptyString) (delays := @nil Z) (placed := @nil PostResponse)
      as (run & E & _); [|lia|lia|] end.
  - intros i. case_match.
    + match goal with |- context [execute_live_market_order now ?rp o ?y] =>
        destruct (execute_live_some now rp o y) as [a ->] end. by eexists.
    + match goal with |- context [simulate_market_order now ?rp o ?y] =>
        destruct (simulate_some now rp o y) as [a ->] end. by eexists.
  - unfold execute_with_retry. rewrite E. simpl. by do 3 eexists.
Qed.

(** An attempt that answers in time ends the loop. *)
Lemma retry_first config op reject a r :
  (0 <= max_retries config)%Z -> op 1%Z = Some (a, InTime) -> at_result a = Ok r ->
  option_map rr_report (execute_with_retry config op reject) = Some r.
Proof.
  intros Hm Eop Er. unfold execute_with_retry.
  rewrite Nat.add_comm. cbn [Nat.add retry_loop].
  destruct (Z.leb_spec 0 (max_retries config)); [|lia].
  change (u32_add 0 1) with 1%Z. rewrite Eop. simpl. by rewrite Er.
Qed.

(** A paper sell against a book without bids is refused. *)
Lemma paper_sell_refused now replies timed latency o x b :
  (0 <= max_retries (ex_config x))%Z -> live_override x = false -> mo_side o = Sell ->
  timed 1%Z = InTime -> rp_book (replies 1%Z) = Ok b -> bids b = [] ->
  exists x' report placed, execute_market_order now replies timed latency o x =
    Some (x', Ok report, placed) /\ is_success report = false.
Proof.
  intros Hm Hlive Hside Ht Hb Hbids. unfold execute_market_order.
  case_match; [by do 4 eexists|].
  match goal with |- context [execute_with_retry ?c ?f ?g] =>
    assert (Hop : f 1%Z = Some (unplaced (Ok (reject_market_order now o "No bids available")), InTime)) end.
  { unfold is_live. simpl. rewrite Hlive, Ht. unfold simulate_market_order. rewrite Hb.
    unfold best_level_for_order. by rewrite Hside, Hbids. }
  match goal with |- context [execute_with_retry ?c ?f ?g] =>
    pose proof (retry_first c f g _ _ Hm Hop eq_refl) as Hrun;
    destruct (execute_with_retry c f g) as [run|]; [|done] end.
  simpl in *. injection Hrun as ->. by do 4 eexists.
Qed.

(** What a filled market order promises of the book it was filled on. *)
Record fair_fill (config : ExecutorConfig) (o : MarketOrder) (b : OrderBook)
    (r : ExecutionReport) : Prop := {
  ff_level : exists l, head (match mo_side o with Buy => asks b | Sell => bids b end) = Some l /\
    er_average_price r = level_price l /\ dval (mo_quantity o) <= dval (level_size l) /\
    dval (min_book_depth config) <= dval (level_size l * level_price l)%dec;
  ff_quantity : er_filled_quantity r = mo_quantity o;
  ff_slippage : forall limit, max_slippage o = Some limit -> 0 < dval (expected_price o) ->
    match mo_side o with
    | Buy => forall c, dval limit < dval c ->
        dval (er_average_price r) < dval (expected_price o) * (1 + dval c)
    | Sell => forall c, dval limit < dval c ->
        dval (expected_price o) * (1 - dval c) < dval (er_average_price r)
    end;
}.

Context {EX : DecimalExact}.

(** An accepted slippage bounds the price, up to the rounding of the quotient. *)
Lemma slippage_bounds o price limit s :
  order_slippage o price = Some s -> 0 < dval (expected_price o) -> dval s <= dval limit ->
  match mo_side o with
  | Buy => forall c, dval limit < dval c -> dval price < dval (expected_price o) * (1 + dval c)
  | Sell => forall c, dval limit < dval c -> dval (expected_price o) * (1 - dval c) < dval price
  end.
Proof.
  unfold order_slippage. intros E Hp Hs.
  assert ((ZERO <? expected_price o)%dec = true) as Hz by (apply dec_ltb_lt; by rewrite dval_ZERO).
  rewrite Hz in E. destruct (mo_side o); intros c Hc; apply Qnot_le_lt; intros Hn;
    pose proof (dec_div_ge _ _ _ c E Hp) as Hge; rewrite dval_sub in Hge; lra.
Qed.

Lemma level_checks now config o price available :
  validate_market_order_at_best_level now config o price available = Some None ->
  dval (min_book_depth config) <= dval (available * price)%dec /\
  dval (mo_quantity o) <= dval available /\
  forall limit, max_slippage o = Some limit -> 0 < dval (expected_price o) ->
    match mo_side o with
    | Buy => forall c, dval limit < dval c -> dval price < dval (expected_price o) * (1 + dval c)
    | Sell => forall c, dval limit < dval c -> dval (expected_price o) * (1 - dval c) < dval price
    end.
Proof.
  unfold validate_market_order_at_best_level. intros E.
  destruct (_ <? min_book_depth config)%dec eqn:E1; [done|].
  destruct (available <? mo_quantity o)%dec eqn:E2; [done|]. dec_to_Q.
  split; [done|]. split; [done|]. intros limit El Hp. rewrite El in E.
  destruct (order_slippage o price) as [s|] eqn:Es; simpl in E; [|done].
  destruct (limit <? s)%dec eqn:E3; [done|]. dec_to_Q. by eapply slippage_bounds.
Qed.

Lemma best_level_head now o b price available :
  best_level_for_order now o b = Ok (price, available) ->
  exists l, head (match mo_side o with Buy => asks b | Sell => bids b end) = Some l /\
    price = level_price l /\ available = level_size l.
Proof.
  unfold best_level_for_order. destruct (mo_side o).
  - destruct (head (asks b)) as [l|]; intros E; simplify_eq. by exists l.
  - destruct (head (bids b)) as [l|]; intros E; simplify_eq. by exists l.
Qed.

Lemma fair_of_checks now config o b price available fees :
  best_level_for_order now o b = Ok (price, available) ->
  validate_market_order_at_best_level now config o price available = Some None ->
  fair_fill config o b (filled now (mo_id o) (mo_market_id o) (mo_outcome_id o) (mo_side o)
    (mo_quantity o) price fees).
Proof.
  intros Hb Hv. apply best_level_head in Hb as (l & Hh & -> & ->).
  apply level_checks in Hv as (H1 & H2 & H3).
  split; simpl; [by exists l|done|done].
Qed.

Lemma best_level_rejects now o b r :
  best_level_for_order now o b = Err r -> is_success r = false.
Proof. unfold best_level_for_order. intros E. repeat case_match; by simplify_eq. Qed.

Lemma validate_rejects now config o price available r :
  validate_market_order_at_best_level now config o price available = Some (Some r) ->
  is_success r = false.
Proof.
  unfold validate_market_order_at_best_level. intros E.
  destruct (_ <? _)%dec; [by simplify_eq|]. destruct (_ <? _)%dec; [by simplify_eq|].
  destruct (max_slippage o); [|done]. destruct (order_slippage o price); simpl in E; [|done].
  case_match; by simplify_eq.
Qed.

(** What a retry loop reports comes from an attempt or is a rejection. *)
Lemma retry_loop_report config op reject fuel attempts last_error delays placed run :
  retry_loop fuel config op reject attempts last_error delays placed = Some run ->
  (exists e, rr_report run = reject e) \/
  exists i a timed, op i = Some (a, timed) /\ at_result a = Ok (rr_report run).
Proof.
  revert attempts last_error delays placed.
  induction fuel as [|fuel IH]; intros attempts last_error delays placed E; [done|]. simpl in E.
  destruct (attempts <=? max_retries config)%Z; [|simplify_eq; left; by eexists].
  destruct (op (u32_add attempts 1)) as [[a timed]|] eqn:Eop; simpl in E; [|done].
  destruct timed; [|by eapply IH].
  destruct (at_result a) as [report|e] eqn:Ea; [simplify_eq; right; by do 3 eexists|].
  destruct (is_retryable_error e); simpl in E; [by eapply IH|simplify_eq; left; by eexists].
Qed.

Lemma attempt_fills now rp o x a r :
  execute_live_market_order now rp o x = Some a \/ simulate_market_order now rp o x = Some a ->
  at_result a = Ok r -> is_success r = true -> er_filled_quantity r = mo_quantity o.
Proof.
  unfold execute_live_market_order, simulate_market_order. intros He Hr Hs.
  destruct (rp_book rp) as [b|e].
  2: { destruct He as [He|He]; repeat case_match; by simplify_eq/=. }
  destruct (best_level_for_order now o b) as [[price available]|r0] eqn:El.
  2: { assert (r0 = r) as <-.
       { destruct He as [He|He]; repeat case_match; by simplify_eq/=. }
       apply best_level_rejects in El. congruence. }
  destruct (validate_market_order_at_best_level now (ex_config x) o price available)
    as [[r0|]|] eqn:Ev; simpl in He.
  - assert (r0 = r) as <-.
    { destruct He as [He|He]; repeat case_match; by simplify_eq/=. }
    apply validate_rejects in Ev. congruence.
  - destruct He as [He|He]; repeat case_match; by simplify_eq/=.
  - destruct He as [He|He]; repeat case_match; by simplify_eq/=.
Qed.

(** A successful market order was filled in full. *)
Lemma market_order_fills now replies timed latency o x x' r placed :
  execute_market_order now replies timed latency o x = Some (x', Ok r, placed) ->
  is_success r = true -> er_filled_quantity r = mo_quantity o.
Proof.
  unfold execute_market_order. intros E Hs. case_match; [by simplify_eq/=|].
  match type of E with context [execute_with_retry ?c ?f ?g] =>
    destruct (execute_with_retry c f g) as [run|] eqn:Er; simpl in E; [|done] end.
  simplify_eq. apply retry_loop_report in Er as [[e He]|(i & a & t & Hop & Ha)].
  { rewrite He in Hs. done. }
  match type of Hop with (_ ← ?o; _) = _ => destruct o as [a'|] eqn:Eo end; simpl in Hop; [|done].
  simplify_eq. eapply attempt_fills; [|exact Ha|exact Hs].
  destruct (is_live _); [by left; exact Eo|by right; exact Eo].
Qed.

(** ** Theorems *)


(** A filled market order was fair: a successful report of a live or a
    paper attempt is for the whole quantity at the best price of the book
    fetched, which held that quantity and the minimum depth, and its price is
    within every slippage above the order's limit. *)
Theorem fills_respect_checks now rp o x a r b :
  execute_live_market_order now rp o x = Some a \/ simulate_market_order now rp o x = Some a ->
  at_result a = Ok r -> is_success r = true -> rp_book rp = Ok b ->
  fair_fill (ex_config x) o b r.
Proof.
  intros He Hr Hs Hb. unfold execute_live_market_order, simulate_market_order in He.
  rewrite Hb in He.
  destruct (best_level_for_order now o b) as [[price available]|r0] eqn:El.
  2: { assert (r0 = r) as <-.
       { destruct He as [He|He]; repeat case_match; by simplify_eq/=. }
       apply best_level_rejects in El. congruence. }
  destruct (validate_market_order_at_best_level now (ex_config x) o price available)
    as [[r0|]|] eqn:Ev; simpl in He.
  - assert (r0 = r) as <-.
    { destruct He as [He|He]; repeat case_match; by simplify_eq/=. }
    apply validate_rejects in Ev. congruence.
  - assert (Hf : exists fees, r = filled now (mo_id o) (mo_market_id o) (mo_outcome_id o) (mo_side o)
      (mo_quantity o) price fees).
    { destruct He as [He|He]; repeat case_match; simplify_eq/=; by eexists. }
    destruct Hf as [fees ->]. by eapply fair_of_checks.
  - destruct He as [He|He]; repeat case_match; by simplify_eq/=.
Qed.

(** Reports and the exchange disagree in two ways.  When each live attempt
    is cut off by the timeout after its order was placed, the retries place
    max_retries + 1 orders on the exchange for one order, which is reported
    rejected.  And a live limit order is reported filled in full as soon as it
    is accepted, whatever status the exchange answered. *)
Theorem reports_disagree_with_exchange :
  (forall config op reject,
     (0 <= max_retries config < 2 ^ 32 - 1)%Z ->
     (forall i, exists a r, op i = Some (a, TimedOut) /\ at_placed a = Some r) ->
     exists run e, execute_with_retry config op reject = Some run /\
       rr_report run = reject e /\
       Z.of_nat (length (rr_placed run)) = (max_retries config + 1)%Z) /\
  (forall now rp o x response r,
     at_placed (execute_live_limit_order now rp o x) = Some response ->
     at_result (execute_live_limit_order now rp o x) = Ok r ->
     er_status r = OFilled /\ er_filled_quantity r = lo_quantity o).
Proof.
  split.
  - intros config op reject Hm Hop. unfold execute_with_retry.
    destruct (retry_loop_all_timed_out config op reject Hm (Z.to_nat (max_retries config) + 2) 0
      EmptyString [] [] Hop) as (run & e & E & Hr & Hl); [lia|lia|].
    exists run, e. split; [done|]. split; [done|]. rewrite Hl. simpl. lia.
  - intros now rp o x response r. unfold execute_live_limit_order.
    repeat case_match; intros; by simplify_eq/=.
Qed.

End Facts.

(** ** Witnesses *)

Module Example_execution.
Import Concrete.

#[local] Existing Instance decimal.
#[local] Existing Instance decimal_spec.
#[local] Existing Instance decimal_exact.
#[local] Existing Instance chrono.
#[local] Existing Instance uuid.

(** A [Decimal]'s text, as a fraction. *)
Definition show_fraction (q : Q) : string :=
  pretty.pretty (Qnum q) +:+ "/" +:+ pretty.pretty (Z.pos (Qden q)).
#[export] Instance display : DisplayOps := {|
  show_dec := (show_fraction : @dec decimal -> string);
  show_dec_prec := (fun _ : nat => (show_fraction : @dec decimal -> string));
|}.

Definition book : OrderBook := {|
  ob_market_id := "m"; ob_outcome_id := "yes"; ob_timestamp := at_minute 0;
  bids := [{| level_price := d 49 2; level_size := d 1000 0 |}];
  asks := [{| level_price := d 50 2; level_size := d 1000 0 |}] |}.
Definition replies : Replies := {|
  rp_book := Ok book; rp_snapshot := None; rp_snapshot_refreshed := None; rp_create := Ok tt;
  rp_post := Ok {| po_order_id := "o"; po_status := "matched" |} |}.
(** The exchange takes the order and says it matched nothing. *)
Definition unmatched : Replies :=
  {| replies with rp_post := Ok {| po_order_id := "o"; po_status := "unmatched" |} |}.
(** A buy of 100 at an expected 0.50 with 1% slippage. *)
Definition buy : MarketOrder :=
  with_slippage (d 1 2) (with_expected_price (d 50 2)
    (market_order_new 1%positive (at_minute 0) "m" "yes" Buy (d 100 0))).
Definition resting : LimitOrder :=
  limit_order_new 2%positive (at_minute 0) "m" "yes" Buy (d 40 2) (d 100 0).
Definition live : OrderExecutor := set_live_mode true (executor_new default_executor_config (Some true)).
Definition reject : string -> ExecutionReport := reject_market_order (at_minute 0) buy.
(** Every attempt is refused with a retryable error. *)
Definition refused (i : Z) : option (Attempt * Timed) := Some (unplaced (Err "502 Bad Gateway"), InTime).
(** Every attempt places an order and is then cut off. *)
Definition cut_off (i : Z) : option (Attempt * Timed) :=
  Some ({| at_result := Ok (reject "late");
           at_placed := Some {| po_order_id := "o"; po_status := "matched" |}; at_cancelled := None |}, TimedOut).
Definition bought : ExecutionReport :=
  filled (at_minute 0) 1%positive "m" "yes" Buy (d 100 0) (d 50 2)
    (d 100 0 * d 50 2 * ec_fee_rate default_executor_config)%dec.

Lemma refused_delays :
  option_map rr_delays (execute_with_retry default_executor_config refused reject) = Some [100; 200; 400]%Z.
Proof. vm_compute. reflexivity. Qed.


Lemma fills_respect_checks_witness :
  let config := default_executor_config in
  fair_fill config buy book bought.
Proof.
  apply (fills_respect_checks (at_minute 0) replies buy live
    {| at_result := Ok bought;
       at_placed := Some {| po_order_id := "o"; po_status := "matched" |}; at_cancelled := None |}).
  - left. reflexivity.
  - reflexivity.
  - reflexivity.
  - reflexivity.
Defined.

Lemma reports_disagree_with_exchange_witness :
  (exists run e,
     execute_with_retry default_executor_config cut_off reject = Some run /\
     rr_report run = reject e /\ length (rr_placed run) = 4%nat) /\
  er_status (limit_fill (at_minute 0) resting live) = OFilled.
Proof.
  destruct reports_disagree_with_exchange as [H1 H2]. split.
  - destruct (H1 default_executor_config cut_off reject)
      as (run & e & E & Hr & Hl).
    + simpl. lia.
    + intros i. do 2 eexists. split; reflexivity.
    + exists run, e. split; [exact E|]. split; [exact Hr|]. cbn [max_retries default_executor_config] in Hl. lia.
  - destruct (H2 (at_minute 0) unmatched resting live {| po_order_id := "o"; po_status := "unmatched" |}
      (limit_fill (at_minute 0) resting live)) as [E _]; [reflexivity|reflexivity|exact E].
Defined.

End Example_execution.
