(* ===== verification/Signal.v ===== *)
(** * Quantitative signals

    Models [crates/polymarket-core/src/types/signal.rs]: the signals that the
    generators send to the quantitative executor, and the strings their kinds
    and directions are stored as.  A JSON value is what it reads as, and an
    object is read through its keys. *)

From S2P Require Import Prelude F64 Platform.

Inductive QuantSignalKind : Type := Flow | CrossMarket | MeanReversion | ResolutionProximity.
Inductive SignalDirection : Type := BuyYes | BuyNo.

Definition kind_as_str (k : QuantSignalKind) : string :=
  match k with
  | Flow => "flow" | CrossMarket => "cross_market" | MeanReversion => "mean_reversion"
  | ResolutionProximity => "resolution_proximity"
  end.
Definition direction_as_str (d : SignalDirection) : string :=
  match d with BuyYes => "buy_yes" | BuyNo => "buy_no" end.

#[export] Instance kind_eq_dec : EqDecision QuantSignalKind.
Proof. solve_decision. Defined.
#[export] Instance kind_countable : Countable QuantSignalKind.
Proof.
  refine (inj_countable'
    (fun k => match k with
              | Flow => 0 | CrossMarket => 1 | MeanReversion => 2 | ResolutionProximity => 3
              end)%nat
    (fun n => match n with
              | 0 => Flow | 1 => CrossMarket | 2 => MeanReversion | _ => ResolutionProximity
              end)%nat _).
  by intros [].
Defined.

Definition parse_quant_kind (kind : string) : option QuantSignalKind :=
  if bool_decide (kind = "flow") then Some Flow
  else if bool_decide (kind = "mean_reversion") then Some MeanReversion
  else if bool_decide (kind = "cross_market") then Some CrossMarket
  else if bool_decide (kind = "resolution_proximity") then Some ResolutionProximity
  else None.
Definition parse_signal_direction (direction : string) : option SignalDirection :=
  if bool_decide (direction = "buy_yes") then Some BuyYes
  else if bool_decide (direction = "buy_no") then Some BuyNo
  else None.
Definition direction_sign (d : SignalDirection) : Z := match d with BuyYes => 1 | BuyNo => -1 end.

(** A JSON value, by what it reads as; an object, by its keys. *)
Record JsonValue : Type := {
  as_str : option string;
  as_i64 : option Z;
  as_f64 : option f64;
}.
Abbreviation Metadata := (string -> option JsonValue).

Section Signal.
Context `{DO : DecimalOps} `{CO : ChronoOps} `{UO : UuidOps}.

(** A signal of a generator for the executor. *)
Record QuantSignal : Type := {
  qs_id : Uuid;
  qs_kind : QuantSignalKind;
  qs_condition_id : string;
  qs_direction : SignalDirection;
  qs_confidence : f64;
  qs_suggested_size_usd : dec;
  qs_expiry : datetime;
  qs_metadata : Metadata;
  qs_generated_at : datetime;
}.

(** A new signal, its confidence clamped to [0, 1]. *)
Definition quant_signal_new (id : Uuid) (now : datetime) (kind : QuantSignalKind)
    (condition_id : string) (direction : SignalDirection) (confidence : f64)
    (suggested_size_usd : dec) (expiry : datetime) : QuantSignal := {|
  qs_id := id; qs_kind := kind; qs_condition_id := condition_id; qs_direction := direction;
  qs_confidence := f64_clamp confidence f64_zero f64_one;
  qs_suggested_size_usd := suggested_size_usd; qs_expiry := expiry;
  qs_metadata := fun _ => None; qs_generated_at := now |}.
Definition with_metadata (m : Metadata) (s : QuantSignal) : QuantSignal :=
  {| s with qs_metadata := m |}.

Definition is_expired (now : datetime) (s : QuantSignal) : bool := dt_ltb (qs_expiry s) now.
Definition meets_confidence (min_confidence : f64) (s : QuantSignal) : bool :=
  f64_leb min_confidence (qs_confidence s).
End Signal.

(** Kinds and directions are read back from their strings. *)
Lemma parse_kind_as_str k : parse_quant_kind (kind_as_str k) = Some k.
Proof. by destruct k. Qed.
Lemma parse_direction_as_str d : parse_signal_direction (direction_as_str d) = Some d.
Proof. by destruct d. Qed.
