(* ===== verification/StrategyRisk.v ===== *)
(** * The per-strategy breaker

    Models [StrategyState] of [crates/api-server/src/quant_signal_executor.rs]:
    the daily P&L, the consecutive losses and the halt of one strategy, with
    its row in [strategy_risk_state].  A read of the clock is an argument;
    PostgreSQL stores the P&L with ten fractional digits, which the amounts at
    hand fit. *)

From S2P Require Import Prelude F64 Platform Signal Executor.

(** [x as i64] of a [u64]. *)
Definition u64_as_i64 (x : Z) : Z := if (x <? 2 ^ 63)%Z then x else (x - 2 ^ 64)%Z.

Section StrategyRisk.
Context `{DO : DecimalOps} `{CO : ChronoOps} `{SH : !DisplayOps}.
(** The text of a [u32]. *)
Variable show_u32 : Z -> string.

Record StrategyState : Type := {
  ss_daily_pnl : dec;
  ss_daily_pnl_date : naive_date;
  ss_consecutive_losses : Z;
  ss_halted : bool;
  ss_halt_reason : option string;
  ss_halted_at : option datetime;
}.

(** The state at the beginning of a day. *)
Definition day_start (today : naive_date) : StrategyState := {|
  ss_daily_pnl := ZERO; ss_daily_pnl_date := today; ss_consecutive_losses := 0;
  ss_halted := false; ss_halt_reason := None; ss_halted_at := None |}.
Definition strategy_new (now : datetime) : StrategyState := day_start (date_naive now).

(** The halt and the losses it is about are gone. *)
Definition clear_halt (s : StrategyState) : StrategyState :=
  {| s with ss_halted := false; ss_halt_reason := None; ss_halted_at := None;
            ss_consecutive_losses := 0 |}.

Definition starts_with (prefix s : string) : bool := String.prefix prefix s.

(** Has the halt lasted as long as the cooldown? *)
Definition cooldown_elapsed (now : datetime) (halt_cooldown_secs : Z) (s : StrategyState) : bool :=
  match ss_halted_at s with
  | Some halted_at => (u64_as_i64 halt_cooldown_secs <=? secs_since now halted_at)%Z
  | None => false
  end.
Definition halted_for_losses (s : StrategyState) : bool :=
  match ss_halt_reason s with
  | Some reason => starts_with "consecutive_losses:" reason
  | None => false
  end.

(** A new day clears everything; a halt for consecutive losses is cleared
    when the cooldown has elapsed. *)
Definition refresh_strategy (now : datetime) (halt_cooldown_secs : Z) (s : StrategyState)
    : StrategyState :=
  let today := date_naive now in
  if negb (date_eqb today (ss_daily_pnl_date s))
  then day_start today
  else if negb (ss_halted s) || (halt_cooldown_secs =? 0)%Z then s
  else if cooldown_elapsed now halt_cooldown_secs s && halted_for_losses s
  then clear_halt s
  else s.

Definition daily_loss_reason (daily_pnl max_daily_loss : dec) : string :=
  "daily_loss_exceeded: " +:+ show_dec daily_pnl +:+ " < -" +:+ show_dec max_daily_loss.
Definition losses_reason (losses max_losses : Z) : string :=
  "consecutive_losses: " +:+ show_u32 losses +:+ " >= " +:+ show_u32 max_losses.

Definition halt (now : datetime) (reason : string) (s : StrategyState) : StrategyState :=
  {| s with ss_halted := true; ss_halt_reason := Some reason; ss_halted_at := Some now |}.

(** The P&L of a trade and the losses in a row it makes. *)
Definition book_outcome (pnl : dec) (s : StrategyState) : StrategyState :=
  {| s with ss_daily_pnl := (ss_daily_pnl s + pnl)%dec;
            ss_consecutive_losses :=
              if (pnl >? ZERO)%dec then 0%Z else u32_add (ss_consecutive_losses s) 1 |}.

(** Record a trade outcome: is the strategy to be halted? *)
Definition record_outcome (now : datetime) (pnl max_daily_loss : dec) (max_consecutive_losses : Z)
    (s : StrategyState) : StrategyState * bool :=
  let s := book_outcome pnl (refresh_strategy now 0 s) in
  if (ss_daily_pnl s <? - max_daily_loss)%dec
  then (halt now (daily_loss_reason (ss_daily_pnl s) max_daily_loss) s, true)
  else if (max_consecutive_losses <=? ss_consecutive_losses s)%Z
  then (halt now (losses_reason (ss_consecutive_losses s) max_consecutive_losses) s, true)
  else (s, false).

(** ** [strategy_risk_state] *)

Record RiskRow : Type := {
  rr_daily_pnl : dec;
  rr_daily_pnl_date : naive_date;
  rr_consecutive_losses : Z;
  rr_halted : bool;
  rr_halt_reason : option string;
  rr_halted_at : option datetime;
}.

(** The table, by strategy. *)
Abbreviation RiskTable := (gmap string RiskRow).

Definition risk_row (s : StrategyState) : RiskRow := {|
  rr_daily_pnl := ss_daily_pnl s; rr_daily_pnl_date := ss_daily_pnl_date s;
  rr_consecutive_losses := u32_as_i32 (ss_consecutive_losses s); rr_halted := ss_halted s;
  rr_halt_reason := ss_halt_reason s; rr_halted_at := ss_halted_at s |}.
Definition state_of_row (r : RiskRow) : StrategyState := {|
  ss_daily_pnl := rr_daily_pnl r; ss_daily_pnl_date := rr_daily_pnl_date r;
  ss_consecutive_losses := i32_as_u32 (rr_consecutive_losses r); ss_halted := rr_halted r;
  ss_halt_reason := rr_halt_reason r; ss_halted_at := rr_halted_at r |}.

(** The upsert; a failure is logged. *)
Definition persist_strategy (io : bool) (strategy : string) (s : StrategyState) (t : RiskTable)
    : RiskTable := if io then <[strategy := risk_row s]> t else t.

(** The stored state, or a new one. *)
Definition load_strategy (io : bool) (now : datetime) (strategy : string) (t : RiskTable)
    : StrategyState :=
  if io then match t !! strategy with
             | Some r => state_of_row r
             | None => strategy_new now
             end
  else strategy_new now.
End StrategyRisk.
