(* ===== verification/StrategyRiskFacts.v ===== *)
(** * Properties of the per-strategy breaker

    What a day of outcomes leaves, when a halt is released, and the round trip
    through [strategy_risk_state]. *)

From S2P Require Import Prelude F64 Platform Market Signal Executor ExecutorFacts StrategyRisk.

Section Facts.
Context `{DO : DecimalOps} `{CO : ChronoOps} `{SH : !DisplayOps} {DS : DecimalSpec} {CS : ChronoSpec}.
Variable show_u32 : Z -> string.
Implicit Types (s : StrategyState) (now : datetime) (L : dec) (N : Z).
Local Open Scope Q_scope.

Abbreviation record := (record_outcome show_u32).

(** The outcomes of a day, each with the time it is recorded. *)
Definition run_outcomes L N (l : list (datetime * dec)) s : StrategyState :=
  foldl (fun s o => fst (record (fst o) (snd o) L N s)) s l.

(** The losses at the end of a list of P&Ls. *)
Definition is_loss (pnl : dec) : bool := negb (pnl >? ZERO)%dec.
Definition streak : list dec -> nat := trailing is_loss.

(** The limits are broken by the P&Ls of the day so far. *)
Definition breaches L N (pnls : list dec) : Prop :=
  Qsum (map dval pnls) < - dval L \/ (N <= Z.of_nat (streak pnls))%Z.

Lemma streak_length l : (streak l <= length l)%nat.
Proof. apply trailing_length. Qed.
Lemma streak_snoc l x : streak (l ++ [x]) = if is_loss x then S (streak l) else O.
Proof. apply trailing_snoc. Qed.

Lemma run_outcomes_snoc L N l o s :
  run_outcomes L N (l ++ [o]) s = fst (record (fst o) (snd o) L N (run_outcomes L N l s)).
Proof. unfold run_outcomes. by rewrite foldl_snoc. Qed.

(** The P&L and the losses of a record do not depend on the halt. *)
Lemma record_books now pnl L N s :
  let s1 := book_outcome pnl (refresh_strategy now 0 s) in
  let '(s', halted) := record now pnl L N s in
  ss_daily_pnl s' = ss_daily_pnl s1 /\ ss_daily_pnl_date s' = ss_daily_pnl_date s1 /\
  ss_consecutive_losses s' = ss_consecutive_losses s1 /\
  (halted = true <-> dval (ss_daily_pnl s1) < - dval L \/ (N <= ss_consecutive_losses s1)%Z) /\
  ss_halted s' = ss_halted s1 || halted.
Proof.
  intros s1. unfold record_outcome. fold s1. clearbody s1.
  destruct (ss_daily_pnl s1 <? - L)%dec eqn:E1; simpl.
  { dec_to_Q. rewrite dval_neg in E1. rewrite orb_true_r. split_and!; try done. tauto. }
  destruct (N <=? ss_consecutive_losses s1)%Z eqn:E2; simpl.
  - apply Z.leb_le in E2. rewrite orb_true_r. split_and!; try done. tauto.
  - apply Z.leb_gt in E2. dec_to_Q. rewrite dval_neg in E1. rewrite orb_false_r. split_and!; try done.
    split; [done|]. intros [H|H]; [lra|lia].
Qed.

Lemma refresh_same_day now s :
  date_naive now = ss_daily_pnl_date s -> refresh_strategy now 0 s = s.
Proof.
  intros E. unfold refresh_strategy. rewrite E, date_eqb_refl. simpl. by rewrite orb_true_r.
Qed.
Lemma refresh_new_day now cooldown s :
  date_naive now <> ss_daily_pnl_date s -> refresh_strategy now cooldown s = day_start (date_naive now).
Proof.
  intros E. unfold refresh_strategy.
  destruct (date_eqb _ _) eqn:Ed; [by apply date_eqb_eq in Ed|done].
Qed.

(** What a day's run keeps. *)
Record day_run L N (day : naive_date) (pnls : list dec) s : Prop := {
  dr_date : ss_daily_pnl_date s = day;
  dr_pnl : dval (ss_daily_pnl s) == Qsum (map dval pnls);
  dr_losses : ss_consecutive_losses s = Z.of_nat (streak pnls);
  dr_halted : ss_halted s = true <->
    exists k, (0 < k <= length pnls)%nat /\ breaches L N (take k pnls);
}.

Lemma day_run_start L N day : day_run L N day [] (day_start day).
Proof.
  split; try done; simpl.
  - by rewrite dval_ZERO.
  - split; [done|]. intros (k & [Hk Hl] & _). simpl in Hl. lia.
Qed.

Lemma breach_snoc L N pnls x :
  (exists k, (0 < k <= length (pnls ++ [x]))%nat /\ breaches L N (take k (pnls ++ [x]))) <->
  (exists k, (0 < k <= length pnls)%nat /\ breaches L N (take k pnls)) \/ breaches L N (pnls ++ [x]).
Proof.
  rewrite length_app. simpl. split.
  - intros (k & Hk & Hb). destruct (decide (k <= length pnls)%nat) as [Hle|Hgt].
    + left. exists k. split; [lia|]. by rewrite take_app_le in Hb.
    + right. by rewrite take_ge in Hb by (rewrite length_app; simpl; lia).
  - intros [(k & Hk & Hb)|Hb].
    + exists k. split; [lia|]. rewrite take_app_le; [done|lia].
    + exists (length pnls + 1)%nat. split; [lia|]. by rewrite take_ge by (rewrite length_app; simpl; lia).
Qed.

Lemma breaches_Z L N pnls s :
  dval (ss_daily_pnl s) == Qsum (map dval pnls) -> ss_consecutive_losses s = Z.of_nat (streak pnls) ->
  breaches L N pnls <-> dval (ss_daily_pnl s) < - dval L \/ (N <= ss_consecutive_losses s)%Z.
Proof. unfold breaches. intros E1 E2. by rewrite E1, E2. Qed.

Context {EX : DecimalExact}.

Lemma book_outcome_day L N day pnls s pnl :
  day_run L N day pnls s -> (Z.of_nat (length pnls) + 1 < 2 ^ 32)%Z ->
  dval (ss_daily_pnl (book_outcome pnl s)) == Qsum (map dval (pnls ++ [pnl])) /\
  ss_consecutive_losses (book_outcome pnl s) = Z.of_nat (streak (pnls ++ [pnl])).
Proof.
  intros [_ Hp Hl _] Hn. pose proof (streak_length pnls). split; simpl.
  - rewrite dval_add, Hp, map_app, Qsum_app. simpl. lra.
  - rewrite streak_snoc. unfold is_loss. destruct (pnl >? ZERO)%dec; simpl negb; cbv iota; [done|].
    rewrite Hl, u32_add_small; lia.
Qed.

Lemma day_run_step L N day pnls s now pnl :
  day_run L N day pnls (refresh_strategy now 0 s) -> (Z.of_nat (length pnls) + 1 < 2 ^ 32)%Z ->
  day_run L N day (pnls ++ [pnl]) (fst (record now pnl L N s)).
Proof.
  intros Hr Hn. destruct (book_outcome_day _ _ _ _ _ pnl Hr Hn) as [Hp Hl].
  pose proof (record_books now pnl L N s) as H. cbv zeta in H.
  destruct (record now pnl L N s) as [s' halted]. destruct H as (E1 & E2 & E3 & Hh & E5).
  destruct Hr as [Hd _ _ Hha]. split; simpl fst.
  - by rewrite E2.
  - by rewrite E1.
  - by rewrite E3.
  - rewrite E5, orb_true_iff, Hh, breach_snoc, <- Hha.
    rewrite (breaches_Z L N (pnls ++ [pnl]) _ Hp Hl). done.
Qed.

(** A day's outcomes, whatever the day before left. *)
Lemma run_day L N day l s :
  Forall (fun o => date_naive (fst o) = day) l -> (Z.of_nat (length l) < 2 ^ 32)%Z ->
  (s = day_start day \/ ss_daily_pnl_date s <> day /\ l <> []) ->
  day_run L N day (snd <$> l) (run_outcomes L N l s).
Proof.
  intros Hl Hn Hs. induction l as [|o l IH] using rev_ind; intros.
  { destruct Hs as [->|[_ []]]; [apply day_run_start|done]. }
  apply Forall_app in Hl as [Hl Ho]. apply Forall_cons_1 in Ho as [Ho _].
  rewrite length_app in Hn. simpl in Hn. rewrite run_outcomes_snoc, fmap_app. simpl.
  apply day_run_step; [|rewrite length_fmap; lia].
  destruct l as [|o' l'].
  - simpl. destruct Hs as [->|[Hd _]].
    + rewrite refresh_same_day by exact Ho. apply day_run_start.
    + rewrite refresh_new_day by congruence. rewrite Ho. apply day_run_start.
  - assert (H : day_run L N day (snd <$> o' :: l') (run_outcomes L N (o' :: l') s)).
    { apply IH; [done|lia|]. destruct Hs as [->|[Hd _]]; [by left|by right]. }
    rewrite refresh_same_day; [done|]. by rewrite (dr_date _ _ _ _ _ H).
Qed.

(** ** Theorems *)

(** C14. The breaker of a strategy is exact: whatever the day before left, the
    outcomes of a day make its P&L their sum and its losses the run of
    non-wins they end with, and it is halted exactly when after some outcome of
    the day the sum was below the daily limit or the run reached the limit of
    losses. *)
Theorem strategy_breaker_exact L N day l s :
  Forall (fun o => date_naive (fst o) = day) l -> l <> [] -> (Z.of_nat (length l) < 2 ^ 32)%Z ->
  ss_daily_pnl_date s <> day ->
  let s' := run_outcomes L N l s in
  dval (ss_daily_pnl s') == Qsum (map dval (snd <$> l)) /\
  ss_consecutive_losses s' = Z.of_nat (streak (snd <$> l)) /\
  (ss_halted s' = true <->
     exists k, (0 < k <= length l)%nat /\ breaches L N (take k (snd <$> l))).
Proof.
  intros Hl Hn0 Hn Hd s'.
  destruct (run_day L N day l s Hl Hn (or_intror (conj Hd Hn0))) as [_ Hp Hc Hh].
  rewrite length_fmap in Hh. by split_and!.
Qed.

Lemma starts_with_losses n m : starts_with "consecutive_losses:" (losses_reason show_u32 n m) = true.
Proof. reflexivity. Qed.
Lemma starts_with_daily pnl L : starts_with "consecutive_losses:" (daily_loss_reason pnl L) = false.
Proof. reflexivity. Qed.

(** A halt is released on a new day, or, if it is for losses in a row and
    not for the daily loss, when the cooldown has elapsed, a cooldown of zero
    never releasing one; a release clears the losses. *)
Theorem halt_released_iff t pnl L N s now cooldown :
  snd (record t pnl L N s) = true ->
  let s' := fst (record t pnl L N s) in
  let s'' := refresh_strategy now cooldown s' in
  (ss_halted s'' = false <->
     date_naive now <> date_naive t \/
     (- dval L <= dval (ss_daily_pnl s') /\ cooldown <> 0%Z /\
      (u64_as_i64 cooldown <= secs_since now t)%Z)) /\
  (ss_halted s'' = false -> ss_consecutive_losses s'' = 0%Z).
Proof.
  intros Hr s'.
  assert (Hs : ss_daily_pnl_date s' = date_naive t /\ ss_halted s' = true /\ ss_halted_at s' = Some t /\
    (halted_for_losses s' = true <-> - dval L <= dval (ss_daily_pnl s'))).
  { revert Hr. unfold s', record_outcome.
    assert (Ed : ss_daily_pnl_date (refresh_strategy t 0 s) = date_naive t).
    { unfold refresh_strategy. destruct (date_eqb _ _) eqn:E; simpl; [|done].
      rewrite orb_true_r. by apply date_eqb_eq in E. }
    set (s1 := book_outcome pnl _). assert (E1 : ss_daily_pnl_date s1 = date_naive t) by done. clearbody s1.
    destruct (ss_daily_pnl s1 <? - L)%dec eqn:El; [|destruct (N <=? _)%Z]; simpl; intros Hr; [| |done].
    - split_and!; try done. unfold halted_for_losses. simpl ss_halt_reason. cbv iota.
      rewrite starts_with_daily. dec_to_Q. rewrite dval_neg in El. split; [done|simpl; intros ?; lra].
    - split_and!; try done. unfold halted_for_losses. simpl ss_halt_reason. cbv iota.
      rewrite starts_with_losses. dec_to_Q. rewrite dval_neg in El. done. }
  destruct Hs as (Hd & Hh & Ha & Hl). cbv zeta. clearbody s'.
  assert (Hday : date_naive now = date_naive t \/ date_naive now <> date_naive t).
  { destruct (date_eqb (date_naive now) (date_naive t)) eqn:E; [left; by apply date_eqb_eq|right].
    intros Ed. by rewrite Ed, date_eqb_refl in E. }
  destruct Hday as [Ed|Ed].
  - unfold refresh_strategy. rewrite Hd, Ed, date_eqb_refl. simpl negb. cbv iota. rewrite Hh. simpl negb.
    cbv iota. simpl orb. destruct (cooldown =? 0)%Z eqn:Ec.
    { apply Z.eqb_eq in Ec. rewrite Hh. split; [|done]. split; [done|]. intros [[]|(_ & [] & _)]; done. }
    apply Z.eqb_neq in Ec. unfold cooldown_elapsed. rewrite Ha.
    destruct ((u64_as_i64 cooldown <=? secs_since now t)%Z && halted_for_losses s') eqn:E.
    + apply andb_prop in E as [E1 E2]. simpl. split; [|done]. split; [|done]. intros _. right.
      apply Z.leb_le in E1. by split_and!; [apply Hl| |].
    + rewrite Hh. split; [|done]. split; [done|]. intros [[]|(H1 & _ & H2)]; [done|].
      apply Hl in H1. rewrite H1, andb_true_r in E. apply Z.leb_gt in E. lia.
  - rewrite refresh_new_day by congruence. simpl. split; [|done]. split; [by left|done].
Qed.

(** A stored state is loaded as it was, with every [u32] of losses, and
    storing it leaves the other strategies alone; a failed read gives a new
    state. *)
Theorem strategy_state_round_trip now strategy s t :
  is_u32 (ss_consecutive_losses s) ->
  load_strategy true now strategy (persist_strategy true strategy s t) = s /\
  (forall other, other <> strategy ->
     persist_strategy true strategy s t !! other = t !! other) /\
  load_strategy false now strategy t = strategy_new now.
Proof.
  intros Hu. unfold load_strategy, persist_strategy. rewrite lookup_insert_eq. split_and!; [|by intros; apply lookup_insert_ne|done].
  unfold state_of_row, risk_row. simpl. rewrite i32_u32_roundtrip by done. by destruct s.
Qed.
End Facts.

(** ** The theorems at concrete inputs *)

Module StrategySample.
#[local] Existing Instance Concrete.decimal.
#[local] Existing Instance Concrete.decimal_spec.
#[local] Existing Instance Concrete.decimal_exact.
#[local] Existing Instance Concrete.chrono.
#[local] Existing Instance Concrete.chrono_spec.
#[local] Existing Instance Example_execution.display.
Abbreviation d := Concrete.d.

Definition no_text (_ : Z) : string := "".
(** Two losses on the second day. *)
Definition day1 : Z := 1440.
Definition losses : list (datetime * dec) :=
  [(Concrete.at_minute (day1 + 1), d (-1) 0); (Concrete.at_minute (day1 + 2), d (-1) 0)].
Definition first_day : StrategyState := strategy_new (Concrete.at_minute 0).

Lemma strategy_breaker_exact_witness :
  ss_consecutive_losses (run_outcomes no_text (d 200 0) 2 losses first_day) = 2%Z.
Proof.
  destruct (strategy_breaker_exact no_text (d 200 0) 2 (date_naive (Concrete.at_minute day1)) losses first_day) as (_ & E & _).
  - repeat constructor.
  - discriminate.
  - vm_compute. reflexivity.
  - vm_compute. discriminate.
  - rewrite E. vm_compute. reflexivity.
Defined.

Lemma halt_released_iff_witness :
  let s := fst (record_outcome no_text (Concrete.at_minute 0) (d (-1) 0) (d 200 0) 1 first_day) in
  ss_consecutive_losses (refresh_strategy (Concrete.at_minute 61) 3600 s) = 0%Z.
Proof.
  destruct (halt_released_iff no_text (Concrete.at_minute 0) (d (-1) 0) (d 200 0) 1 first_day
    (Concrete.at_minute 61) 3600) as [H1 H2].
  - vm_compute. reflexivity.
  - apply H2, H1. right. split_and!; vm_compute; [discriminate|discriminate|congruence].
Defined.

Lemma strategy_state_round_trip_witness :
  load_strategy true (Concrete.at_minute 0) "flow" (persist_strategy true "flow" first_day ∅) = first_day.
Proof.
  apply (strategy_state_round_trip (Concrete.at_minute 0) "flow" first_day ∅).
  split; vm_compute; [discriminate|reflexivity].
Defined.

(** The tests of the code. *)
Example test_daily_pnl_halt :
  ss_halted (run_outcomes no_text (d 200 0) 5
    ((fun x => (Concrete.at_minute 1, x)) <$> [d (-100) 0; d (-80) 0; d (-50) 0]) first_day) = true.
Proof. vm_compute. reflexivity. Qed.
Example test_win_resets_consecutive :
  ss_consecutive_losses (run_outcomes no_text (d 200 0) 5
    ((fun x => (Concrete.at_minute 1, x)) <$> [d (-1) 0; d (-1) 0; d 10 0]) first_day) = 0%Z.
Proof. vm_compute. reflexivity. Qed.
End StrategySample.
