(* ===== verification/Trading.v ===== *)
(** * The state the trading tasks share

    The arbitrage executor and the exit handler of [crates/api-server/src] run
    as two tasks over shared services: the order executor, the circuit
    breaker, the position service with the database behind it, the outcome
    token cache, the set of markets with an active position, and the channel
    of signals ([websocket.rs]).  [Shared] is that state; this file lifts the
    calls of each service to handlers over it. *)

From S2P Require Import Prelude F64 Platform Handler Market CircuitBreaker Position PositionRepo.
From S2P Require Import PositionService TokenCache Executor.

Section Trading.
Context `{DO : DecimalOps} `{CO : ChronoOps} `{UO : UuidOps} `{JO : !JsonOps} `{SH : !DisplayOps}.

(** Type of trading signal. *)
Inductive SignalType : Type := ArbitrageSignal | AlertSignal | QuantSignalType.

(** Trading signal update message, without its metadata. *)
Record SignalUpdate : Type := {
  su_signal_id : Uuid;
  su_signal_type : SignalType;
  su_market_id : string;
  su_outcome_id : string;
  su_action : string;
  su_confidence : f64;
  su_timestamp : datetime;
}.

(** [sh_placed] are the orders placed on the exchange, which is outside. *)
Record Shared : Type := {
  sh_executor : OrderExecutor;
  sh_breaker : CircuitBreaker;
  sh_service : Service;
  sh_cache : OutcomeTokenCache;
  sh_dedup : gset string;
  sh_signals : list SignalUpdate;
  sh_placed : list PostResponse;
}.

(** What surrounds the execution of one market order. *)
Record OrderEnv : Type := {
  oe_id : Uuid;
  oe_created : datetime;
  oe_now : datetime;
  oe_replies : Z -> Replies;
  oe_timed : Z -> Timed;
  oe_latency_us : Z;
}.

Definition set_service (s : Service) (w : Shared) : Shared := {| w with sh_service := s |}.
Definition set_executor (x : OrderExecutor) (w : Shared) : Shared := {| w with sh_executor := x |}.
Definition set_breaker (b : CircuitBreaker) (w : Shared) : Shared := {| w with sh_breaker := b |}.
Definition set_cache (c : OutcomeTokenCache) (w : Shared) : Shared := {| w with sh_cache := c |}.
Definition set_dedup (d : gset string) (w : Shared) : Shared := {| w with sh_dedup := d |}.
Definition set_table (t : Table) (w : Shared) : Shared :=
  set_service {| (sh_service w) with svc_table := t |} w.

Definition table (w : Shared) : Table := svc_table (sh_service w).

Definition dedup_insert (market : string) (w : Shared) : Shared :=
  set_dedup ({[ market ]} ∪ sh_dedup w) w.
Definition dedup_remove (market : string) (w : Shared) : Shared :=
  set_dedup (sh_dedup w ∖ {[ market ]}) w.
Definition send_signal (s : SignalUpdate) (w : Shared) : Shared :=
  {| w with sh_signals := sh_signals w ++ [s] |}.

(** A call of the service on a position. *)
Definition on_position {A} (f : Service -> Position * Service * result A ServiceError) (w : Shared)
    : Shared * (Position * result A ServiceError) :=
  let '(p, s, r) := f (sh_service w) in (set_service s w, (p, r)).

(** A market order: its report, and the orders it placed. *)
Definition place_market_order (oe : OrderEnv) (o : MarketOrder) (w : Shared)
    : option (Shared * result ExecutionReport string) :=
  '(x, r, placed) ← execute_market_order (oe_now oe) (oe_replies oe) (oe_timed oe)
                      (oe_latency_us oe) o (sh_executor w);
  Some ({| (set_executor x w) with sh_placed := sh_placed w ++ placed |}, r).

Definition breaker_can_trade (io : bool) (now : datetime) (w : Shared) : option (Shared * bool) :=
  '(b, ok) ← can_trade io now (sh_breaker w); Some (set_breaker b w, ok).

Definition breaker_record_trade (io : bool) (now trip_now : datetime) (pnl : dec) (is_win : bool)
    (w : Shared) : option (Shared * option TripReason) :=
  '(b, r) ← record_trade io now trip_now pnl is_win (sh_breaker w); Some (set_breaker b w, r).

Definition record_event (io : Io) (e : NewTradeEvent) (w : Shared) : Shared :=
  set_service (record_warn io e (sh_service w)) w.

End Trading.
