(* ===== verification/ArbExecutor.v ===== *)
(** * The arbitrage executor

    Models [ArbAutoExecutor] of [crates/api-server/src/arb_executor.rs]: its
    configuration, its runtime status, and the processing of a signal, from
    the checks before the trade ([preflight]) to the two orders and the
    position they leave ([enter]).  What comes from outside while one signal is
    processed is an [ArbEnv]: the clock and the outcome of the statements at
    each step, the answers of the CLOB, the learning rollouts, and the
    surroundings of the two orders.  The text of a decision is the constructor
    of [Decision] with the values it formats; the telemetry (JSON metadata),
    the shadow predictions, the log lines and the heartbeat are left out. *)

From S2P Require Import Prelude F64 Platform Handler Market CircuitBreaker Position PositionRepo.
From S2P Require Import PositionService Rollouts TokenCache Executor Trading.

Local Open Scope handler_scope.

(** The steps at which a signal's processing reads the clock or the database. *)
Inductive ArbStep : Type :=
| AtSignal | AtOpportunity | AtSignalEvent | AtSkip | AtBreaker | AtExposure
| AtCreate | AtEntryFailed | AtYesFill | AtNoFill | AtOneLegged | AtOpen | AtDecision | AtPublish.

Section ArbExecutor.
Context `{DO : DecimalOps} `{CO : ChronoOps} `{UO : UuidOps} `{JO : !JsonOps} `{SH : !DisplayOps}.
Variable debug_reason : FailureReason -> string.

(** Configuration for the arb auto-executor. *)
Record ArbExecutorConfig : Type := {
  ac_enabled : bool;
  allow_live_execution : bool;
  ac_position_size : dec;
  min_net_profit : dec;
  max_signal_age_secs : Z;
  cache_refresh_secs : Z;
  dynamic_sizing : bool;
  ac_min_position_size : dec;
  ac_max_position_size : dec;
  ac_min_book_depth : dec;
  ac_fee_rate : dec;
  max_total_exposure : dec;
}.

Definition default_arb_config : ArbExecutorConfig := {|
  ac_enabled := false;
  allow_live_execution := false;
  ac_position_size := dec_new 50 0;
  min_net_profit := dec_new 1 3;
  max_signal_age_secs := 30;
  cache_refresh_secs := 300;
  dynamic_sizing := true;
  ac_min_position_size := dec_new 25 0;
  ac_max_position_size := dec_new 200 0;
  ac_min_book_depth := dec_new 100 0;
  ac_fee_rate := dec_new 2 2;
  max_total_exposure := dec_new 25000 0;
|}.

(** [from_env]; [env] is [std::env::var(..).ok()]. *)
Definition env_dec (env : string -> option string) (key : string) (d : dec) : dec :=
  default d (env key ≫= dec_parse).
Definition arb_config_from_env (env : string -> option string) : ArbExecutorConfig := {|
  ac_enabled := bool_decide (env "ARB_AUTO_EXECUTE" = Some "true");
  allow_live_execution :=
    bool_decide (env "ARB_ALLOW_LIVE_EXECUTION" = Some "true")
    || bool_decide (env "ARB_ALLOW_LIVE_EXECUTION" = Some "1");
  ac_position_size := env_dec env "ARB_POSITION_SIZE" (dec_new 50 0);
  min_net_profit := env_dec env "ARB_MIN_NET_PROFIT" (dec_new 1 3);
  max_signal_age_secs := default 30%Z (env "ARB_MAX_SIGNAL_AGE_SECS" ≫= parse_i64);
  cache_refresh_secs := default 300%Z (env "ARB_CACHE_REFRESH_SECS" ≫= parse_u64);
  dynamic_sizing := negb (bool_decide (env "ARB_DYNAMIC_SIZING" = Some "false"));
  ac_min_position_size := env_dec env "ARB_MIN_POSITION_SIZE" (dec_new 5 0);
  ac_max_position_size := env_dec env "ARB_MAX_POSITION_SIZE" (dec_new 25 0);
  ac_min_book_depth := env_dec env "ARB_MIN_BOOK_DEPTH" (dec_new 25 0);
  ac_fee_rate := dec_new 2 2;
  max_total_exposure := env_dec env "ARB_MAX_TOTAL_EXPOSURE" (dec_new 25000 0);
|}.

(** ** Runtime status *)

(** What the last decision was, with the values its text shows. *)
Inductive Decision : Type :=
| Startup (enabled live_ready : bool) (min_profit min_depth : dec) (max_age : Z)
| Lagged (n : Z)
| CacheRefreshFailed (e : string)
| SkipStale (age max : Z)
| SkipDisabled
| SkipLiveNotAcknowledged
| SkipMinProfit (net min : dec)
| SkipActivePosition
| SkipCircuitBreaker
| SkipExposure (total limit : dec)
| SkipTokenLookup
| SkipBookUnavailable (e : string)
| SkipDepth (yes no min : dec)
| SkipRollout (reason : string)
| RolloutSize (multiplier : dec)
| SkipZeroCost
| SkipYesAskMissing
| SkipNoAskMissing
| SkipBuyingPower (required : dec) (e : string)
| FailYesError (e : string)
| FailYesRejected (msg : string)
| FailNoError (e : string)
| FailNoRejected (msg : string)
| Executed (position : Uuid) (estimated_pnl : dec).

Record ArbExecutorRuntimeStatus : Type := {
  st_enabled : bool;
  st_live_ready : bool;
  signals_seen : Z;
  lagged_signals : Z;
  disabled_skips : Z;
  stale_skips : Z;
  min_profit_skips : Z;
  active_position_skips : Z;
  circuit_breaker_skips : Z;
  token_lookup_skips : Z;
  depth_skips : Z;
  zero_cost_skips : Z;
  execution_failures : Z;
  executed : Z;
  cache_refresh_failures : Z;
  last_signal_at : option datetime;
  last_decision_at : option datetime;
  last_market_id : option string;
  last_decision : option Decision;
}.

Definition default_status : ArbExecutorRuntimeStatus := {|
  st_enabled := false; st_live_ready := false; signals_seen := 0; lagged_signals := 0;
  disabled_skips := 0; stale_skips := 0; min_profit_skips := 0; active_position_skips := 0;
  circuit_breaker_skips := 0; token_lookup_skips := 0; depth_skips := 0; zero_cost_skips := 0;
  execution_failures := 0; executed := 0; cache_refresh_failures := 0;
  last_signal_at := None; last_decision_at := None; last_market_id := None;
  last_decision := None |}.

Definition record_signal (now : datetime) (market_id : string) (s : ArbExecutorRuntimeStatus) :=
  {| s with signals_seen := u64_sat_add (signals_seen s) 1;
            last_signal_at := Some now; last_market_id := Some market_id |}.
Definition record_decision (now : datetime) (market_id : string) (d : Decision)
    (s : ArbExecutorRuntimeStatus) :=
  {| s with last_decision_at := Some now; last_market_id := Some market_id;
            last_decision := Some d |}.

(** [runtime.x = runtime.x.saturating_add(1)], for each counter. *)
Definition count_disabled (s : ArbExecutorRuntimeStatus) :=
  {| s with disabled_skips := u64_sat_add (disabled_skips s) 1 |}.
Definition count_stale (s : ArbExecutorRuntimeStatus) :=
  {| s with stale_skips := u64_sat_add (stale_skips s) 1 |}.
Definition count_min_profit (s : ArbExecutorRuntimeStatus) :=
  {| s with min_profit_skips := u64_sat_add (min_profit_skips s) 1 |}.
Definition count_active_position (s : ArbExecutorRuntimeStatus) :=
  {| s with active_position_skips := u64_sat_add (active_position_skips s) 1 |}.
Definition count_circuit_breaker (s : ArbExecutorRuntimeStatus) :=
  {| s with circuit_breaker_skips := u64_sat_add (circuit_breaker_skips s) 1 |}.
Definition count_token_lookup (s : ArbExecutorRuntimeStatus) :=
  {| s with token_lookup_skips := u64_sat_add (token_lookup_skips s) 1 |}.
Definition count_depth (s : ArbExecutorRuntimeStatus) :=
  {| s with depth_skips := u64_sat_add (depth_skips s) 1 |}.
Definition count_zero_cost (s : ArbExecutorRuntimeStatus) :=
  {| s with zero_cost_skips := u64_sat_add (zero_cost_skips s) 1 |}.
Definition count_failure (s : ArbExecutorRuntimeStatus) :=
  {| s with execution_failures := u64_sat_add (execution_failures s) 1 |}.
Definition count_executed (s : ArbExecutorRuntimeStatus) :=
  {| s with executed := u64_sat_add (executed s) 1 |}.

(** ** The executor *)

(** [ae_opportunities] is the table [arb_opportunities]. *)
Record ArbAutoExecutor : Type := {
  ae_config : ArbExecutorConfig;
  ae_shared : Shared;
  ae_status : ArbExecutorRuntimeStatus;
  ae_opportunities : list ArbOpportunity;
}.

Record ArbEnv : Type := {
  en_position_id : Uuid;
  en_signal_id : Uuid;
  en_clock : ArbStep -> datetime;
  en_io : ArbStep -> Io;
  en_market : result Market string;
  en_upsert : nat -> bool;
  en_yes_book : result OrderBook string;
  en_no_book : result OrderBook string;
  en_schema_missing : bool;
  en_rollouts : option (list ActiveRollout);
  en_models : option (gmap Uuid (option ModelScore));
  en_capacity : Replies;
  en_yes : OrderEnv;
  en_no : OrderEnv;
}.

Abbreviation handling := (handler ArbAutoExecutor (result unit string)).

Definition set_status (f : ArbExecutorRuntimeStatus -> ArbExecutorRuntimeStatus) : handling unit :=
  modify (fun w => {| w with ae_status := f (ae_status w) |}).
Definition on_shared {A} (f : Shared -> Shared * A) : handling A :=
  update (fun w => let '(s, a) := f (ae_shared w) in ({| w with ae_shared := s |}, a)).
Definition try_shared {A} (f : Shared -> option (Shared * A)) : handling A :=
  try_update (fun w => '(s, a) ← f (ae_shared w); Some ({| w with ae_shared := s |}, a)).
Definition change_shared (f : Shared -> Shared) : handling unit :=
  modify (fun w => {| w with ae_shared := f (ae_shared w) |}).

Section Signal.
Variable en : ArbEnv.
Variable arb : ArbOpportunity.

(** An event about the signal, and the one that says it was skipped. *)
Definition arb_event (mode type : string) : NewTradeEvent :=
  {| (trade_event_new "arb" mode "arb" (arb_market_id arb) type) with
     ev_expected_edge := Some (net_profit arb); ev_observed_edge := Some (gross_profit arb) |}.
Definition record_skip_event (mode reason : string) : handling unit :=
  change_shared (record_event (en_io en AtSkip)
    (with_reason (Some reason) (arb_event mode "signal_skipped"))).

Definition decide_status (count : ArbExecutorRuntimeStatus -> ArbExecutorRuntimeStatus)
    (d : Decision) : handling unit :=
  set_status (fun s => record_decision (en_clock en AtDecision) (arb_market_id arb) d (count s)).

(** A skip: the counter, the decision and the event, then the return. *)
Definition skip {A} (count : ArbExecutorRuntimeStatus -> ArbExecutorRuntimeStatus) (d : Decision)
    (mode reason : string) : handling A :=
  decide_status count d ;; record_skip_event mode reason ;; return_ (Ok tt).

Definition publish (action : string) (confidence : f64) : handling unit :=
  change_shared (send_signal {|
    su_signal_id := en_signal_id en; su_signal_type := ArbitrageSignal;
    su_market_id := arb_market_id arb; su_outcome_id := "both"; su_action := action;
    su_confidence := confidence; su_timestamp := en_clock en AtPublish |}).
Definition publish_failure_signal : handling unit := publish "execution_failed" f64_zero.

(** Persist the signal; a failure is ignored. *)
Definition record_opportunity : handling unit :=
  modify (fun w => if io_db (en_io en AtOpportunity)
                   then {| w with ae_opportunities := ae_opportunities w ++ [arb] |} else w).

(** The outcome tokens, from the cache or by hydrating the market. *)
Definition lookup_tokens : handling (option (string * string)) :=
  on_shared (fun w =>
    match cache_get (arb_market_id arb) (sh_cache w) with
    | Some ids => (w, Some ids)
    | None =>
        let '(c, ids) := hydrate_market (arb_market_id arb) (en_market en) (en_upsert en)
                           (sh_cache w) in
        (set_cache c w, ids)
    end).

(** [asks.iter().map(|l| l.price * l.size).sum()]. *)
Definition ask_depth (b : OrderBook) : dec :=
  dec_sum ((fun l => (level_price l * level_size l)%dec) <$> asks b).

(** The size in dollars: between the two bounds, by where the net profit lies
    in [min_net_profit, 0.05]; [None] is the panic of the division. *)
Definition dynamic_size (cfg : ArbExecutorConfig) : option dec :=
  let floor := min_net_profit cfg in
  let ceiling := dec_new 5 2 in
  let range := (ceiling - floor)%dec in
  if dec_is_zero range then Some (ac_min_position_size cfg)
  else
    t ← dec_div (net_profit arb - floor)%dec range;
    let t_clamped := dec_min (dec_max t ZERO) ONE in
    let size_range := (ac_max_position_size cfg - ac_min_position_size cfg)%dec in
    Some (ac_min_position_size cfg + size_range * t_clamped)%dec.
Definition base_size (cfg : ArbExecutorConfig) : option dec :=
  if dynamic_sizing cfg then dynamic_size cfg else Some (ac_position_size cfg).

(** [if live_ready { "live" } else { "paper" }]. *)
Definition mode_name (live_ready : bool) : string := if live_ready then "live" else "paper".

Definition rollout_decision (mode : string) : RolloutDecision :=
  evaluate id mode (en_schema_missing en) (en_rollouts en) (en_models en).

(** The checks that need no market data: the configuration and the readiness
    they were made with. *)
Definition signal_checks : handling (ArbExecutorConfig * bool) :=
  let market_id := arb_market_id arb in
  let! w := get_state in
  let cfg := ae_config w in
  let signal_age_ms := Z.max (millis_since (en_clock en AtSignal) (arb_timestamp arb)) 0 in
  let age_secs := Z.quot signal_age_ms 1000 in
  set_status (fun s => record_signal (en_clock en AtSignal) market_id
                         {| s with st_enabled := ac_enabled cfg |}) ;;
  when (max_signal_age_secs cfg <? age_secs)%Z
    (skip count_stale (SkipStale age_secs (max_signal_age_secs cfg)) "unknown" "too_stale") ;;
  let live_ready := is_live_ready (sh_executor (ae_shared w)) in
  let mode := mode_name live_ready in
  set_status (fun s => {| s with st_live_ready := live_ready |}) ;;
  record_opportunity ;;
  change_shared (record_event (en_io en AtSignalEvent) (arb_event mode "signal_generated")) ;;
  when (negb (ac_enabled cfg)) (skip count_disabled SkipDisabled mode "executor_disabled") ;;
  when (live_ready && negb (allow_live_execution cfg))
    (skip count_disabled SkipLiveNotAcknowledged mode "live_execution_not_acknowledged") ;;
  (* 2. minimum profit *)
  when (net_profit arb <? min_net_profit cfg)%dec
    (skip count_min_profit (SkipMinProfit (net_profit arb) (min_net_profit cfg)) mode
       "below_min_profit") ;;
  (* 3. dedup *)
  let! w := get_state in
  when (bool_decide (market_id ∈ sh_dedup (ae_shared w)))
    (skip count_active_position SkipActivePosition mode "active_position_exists") ;;
  (* 4. circuit breaker *)
  let! can_trade := try_shared (breaker_can_trade (io_db (en_io en AtBreaker))
                                  (en_clock en AtBreaker)) in
  when (negb can_trade) (skip count_circuit_breaker SkipCircuitBreaker mode "circuit_breaker") ;;
  (* 4a. total exposure *)
  let! w := get_state in
  match get_total_active_exposure (io_db (en_io en AtExposure)) (table (ae_shared w)) with
  | Ok total =>
      when (total >=? max_total_exposure cfg)%dec
        (skip id (SkipExposure total (max_total_exposure cfg)) mode "exposure_limit") ;;
      ret (cfg, live_ready)
  | Err _ => ret (cfg, live_ready)
  end.

(** The tokens and the books of the market, deep enough on both sides. *)
Definition market_checks (cfg : ArbExecutorConfig) (mode : string)
    : handling (string * string * OrderBook * OrderBook) :=
  (* 5. outcome tokens *)
  let! ids := lookup_tokens in
  let! (yes_token_id, no_token_id) := match ids with
    | Some ids => ret ids
    | None => skip count_token_lookup SkipTokenLookup mode "token_lookup_failed"
    end in
  (* 6. depth on both sides *)
  let! (yes_book, no_book) := match en_yes_book en, en_no_book en with
    | Ok y, Ok n => ret (y, n)
    | Err e, _ | _, Err e => skip count_depth (SkipBookUnavailable e) mode "orderbook_unavailable"
    end in
  let yes_depth := ask_depth yes_book in
  let no_depth := ask_depth no_book in
  when ((yes_depth <? ac_min_book_depth cfg)%dec || (no_depth <? ac_min_book_depth cfg)%dec)
    (skip count_depth (SkipDepth yes_depth no_depth (ac_min_book_depth cfg)) mode
       "insufficient_depth") ;;
  ret (yes_token_id, no_token_id, yes_book, no_book).

(** The size after the rollout's factor. *)
Definition rollout_size (rollout : RolloutDecision) (size : dec) : dec :=
  if (size_multiplier rollout <? ONE)%dec then (size * size_multiplier rollout)%dec else size.

(** The quantity to buy, which a live wallet can pay for. *)
Definition size_trade (cfg : ArbExecutorConfig) (live_ready : bool) (yes_book no_book : OrderBook)
    : handling dec :=
  let mode := mode_name live_ready in
  let rollout := rollout_decision mode in
  match skip_reason rollout with
  | Some reason => skip id (SkipRollout reason) mode reason
  | None =>
      (* 7. size *)
      let! size := attempt (base_size cfg) in
      when (size_multiplier rollout <? ONE)%dec
        (decide_status id (RolloutSize (size_multiplier rollout))) ;;
      when (dec_is_zero (total_cost arb))
        (skip count_zero_cost SkipZeroCost mode "zero_total_cost") ;;
      let! quantity := attempt (dec_div (rollout_size rollout size) (total_cost arb)) in
      if negb live_ready then ret quantity
      else match best_ask yes_book with
      | None => skip count_depth SkipYesAskMissing mode "yes_best_ask_missing"
      | Some yes_best_ask =>
          match best_ask no_book with
          | None => skip count_depth SkipNoAskMissing mode "no_best_ask_missing"
          | Some no_best_ask =>
              let required := (quantity * (yes_best_ask + no_best_ask))%dec in
              let! w := get_state in
              match ensure_live_buying_power (en_capacity en) required
                      (sh_executor (ae_shared w)) with
              | Err e => skip count_failure (SkipBuyingPower required e) mode
                           "insufficient_pair_buying_power"
              | Ok _ => ret quantity
              end
          end
      end
  end.

(** Everything up to the quantity to buy. *)
Definition preflight : handling (string * string * string * dec) :=
  let! (cfg, live_ready) := signal_checks in
  let mode := mode_name live_ready in
  let! (yes_token_id, no_token_id, yes_book, no_book) := market_checks cfg mode in
  let! quantity := size_trade cfg live_ready yes_book no_book in
  ret (mode, yes_token_id, no_token_id, quantity).

(** The order for one leg. *)
Definition leg_order (oe : OrderEnv) (token : string) (qty expected slippage : dec) : MarketOrder :=
  with_slippage slippage (with_expected_price expected
    (market_order_new (oe_id oe) (oe_created oe) (arb_market_id arb) token Buy qty)).

(** A mutation of the position whose failure is ignored. *)
Definition mutate {A} (f : Service -> Position * Service * result A ServiceError)
    : handling (Position * result A ServiceError) := on_shared (on_position f).

Definition create_params (quantity : dec) : CreatePositionParams := {|
  cp_market_id := arb_market_id arb; cp_yes_entry_price := yes_ask arb;
  cp_no_entry_price := no_ask arb; cp_quantity := quantity;
  cp_exit_strategy := HoldToResolution; cp_source := SOURCE_ARBITRAGE;
  cp_source_signal_id := None; cp_arb_opportunity := Some arb |}.

(** 8. The pending position. *)
Definition create_pending (quantity : dec) (ctx : EventContext) : handling Position :=
  let! created := on_shared (fun w =>
    let '(s, r) := create_position (en_io en AtCreate) (en_position_id en) (en_clock en AtCreate)
                     (create_params quantity) ctx (sh_service w) in
    (set_service s w, r)) in
  match created with
  | Ok position => ret position
  | Err _ => return_ (Err "Failed to persist position")
  end.

(** The YES order failed: the entry did. *)
Definition fail_entry (d : Decision) (reason : FailureReason) (ctx : EventContext) (p : Position)
    : handling ExecutionReport :=
  decide_status count_failure d ;;
  mutate (service_mark_entry_failed debug_reason (en_io en AtEntryFailed)
            (en_clock en AtEntryFailed) reason ctx p) ;;
  publish_failure_signal ;; return_ (Ok tt).

(** The NO order failed after the YES fill: the YES leg is to be sold. *)
Definition fail_one_legged (d : Decision) (msg : string) (ctx : EventContext) (p : Position)
    : handling ExecutionReport :=
  decide_status count_failure d ;;
  mutate (transition_one_legged_to_exit_ready (en_io en AtOneLegged) (en_clock en AtOneLegged)
            "yes" msg ctx p) ;;
  change_shared (dedup_insert (arb_market_id arb)) ;;
  publish_failure_signal ;; return_ (Ok tt).

(** 9. and 10. The YES order. *)
Definition yes_leg (token : string) (quantity : dec) (ctx : EventContext) (p : Position)
    : handling ExecutionReport :=
  let! w := get_state in
  let slippage := default_slippage (ex_config (sh_executor (ae_shared w))) in
  let! result := try_shared (place_market_order (en_yes en)
                   (leg_order (en_yes en) token quantity (yes_ask arb) slippage)) in
  match result with
  | Err e => fail_entry (FailYesError e) (ConnectivityError ("YES order error: " +:+ e)) ctx p
  | Ok report =>
      if negb (is_success report) then
        let msg := default "YES order not filled" (er_error_message report) in
        fail_entry (FailYesRejected msg) (OrderRejected msg) ctx p
      else ret report
  end.

(** 11. and 12. The NO order, for what YES filled. *)
Definition no_leg (token : string) (yes_report : ExecutionReport) (ctx : EventContext)
    (p : Position) : handling ExecutionReport :=
  let! w := get_state in
  let slippage := default_slippage (ex_config (sh_executor (ae_shared w))) in
  let! result := try_shared (place_market_order (en_no en)
                   (leg_order (en_no en) token (er_filled_quantity yes_report) (no_ask arb)
                      slippage)) in
  match result with
  | Err e => fail_one_legged (FailNoError e) ("NO order error after YES fill: " +:+ e) ctx p
  | Ok report =>
      if negb (is_success report) then
        let msg := default "NO order not filled" (er_error_message report) in
        fail_one_legged (FailNoRejected msg) ("NO order rejected after YES fill: " +:+ msg) ctx p
      else ret report
  end.

Definition fill_leg (step : ArbStep) (leg : Leg) (report : ExecutionReport) (ctx : EventContext)
    (p : Position) : handling Position :=
  let! (p, _) := mutate (record_entry_fill (en_io en step) (en_clock en step) leg
                    (er_average_price report) (er_filled_quantity report) ctx p) in
  ret p.

Definition arb_context (mode : string) : EventContext :=
  {| ctx_execution_mode := mode; ctx_strategy := "arb"; ctx_source_label := "arb" |}.

(** From the quantity to the open position. *)
Definition enter (mode yes_token no_token : string) (quantity : dec)
    : handling (result unit string) :=
  let ctx := arb_context mode in
  let! p := create_pending quantity ctx in
  let! yes_report := yes_leg yes_token quantity ctx p in
  let! p := fill_leg AtYesFill YES yes_report ctx p in
  let! no_report := no_leg no_token yes_report ctx p in
  let! p := fill_leg AtNoFill NO no_report ctx p in
  (* 13. both filled *)
  let! _ := mutate (service_mark_open (en_io en AtOpen) (en_clock en AtOpen) ctx p) in
  change_shared (dedup_insert (arb_market_id arb)) ;;
  (* 14. *)
  publish "executed" f64_one ;;
  decide_status count_executed (Executed (pos_id p) (net_profit arb * quantity)%dec) ;;
  ret (Ok tt).

Definition process_arb_signal : handling (result unit string) :=
  let! (mode, yes_token, no_token, quantity) := preflight in
  enter mode yes_token no_token quantity.
End Signal.

(** ** The task *)

(** Positions stuck in Pending for more than 24 hours become EntryFailed. *)
Definition stale_cleanup_reason : FailureReason :=
  UnknownFailure "stale_cleanup: stuck in Pending >24h".
Definition stale_pending (now : datetime) (r : PositionRow) : bool :=
  (r_state r =? 0)%Z && dt_ltb (r_entry_timestamp r) (add_minutes now (-1440)).
Definition cleanup_row (now : datetime) (r : PositionRow) : PositionRow :=
  if stale_pending now r
  then {| r with r_state := 5%Z; r_failure_reason := Some (encode_reason stale_cleanup_reason) |}
  else r.
Definition cleanup_stale (io : bool) (now : datetime) (t : Table) : Table :=
  if io then cleanup_row now <$> t else t.

(** What [run] does before its loop: the status, the cleanup, the active
    positions of the dedup set, the first load of the cache. *)
Definition load_dedup (io : bool) (w : Shared) : Shared :=
  match get_active io (table w) with
  | Ok active => set_dedup (sh_dedup w ∪ list_to_set (pos_market_id <$> active)) w
  | Err _ => w
  end.

Definition refresh_cache (markets : result (list Market) string) (upsert : nat -> bool) (w : Shared)
    : Shared * result (nat * nat) string :=
  let '(c, r) := refresh markets upsert (sh_cache w) in (set_cache c w, r).

Definition arb_startup (now : datetime) (io_cleanup io_active : bool)
    (markets : result (list Market) string) (upsert : nat -> bool) (w : ArbAutoExecutor)
    : ArbAutoExecutor :=
  let cfg := ae_config w in
  let live_ready := is_live_ready (sh_executor (ae_shared w)) in
  let d := Startup (ac_enabled cfg) live_ready (min_net_profit cfg) (ac_min_book_depth cfg)
             (max_signal_age_secs cfg) in
  let s := record_decision now "startup" d
             {| (ae_status w) with st_enabled := ac_enabled cfg; st_live_ready := live_ready |} in
  let sh := ae_shared w in
  let sh := set_table (cleanup_stale io_cleanup now (table sh)) sh in
  let sh := load_dedup io_active sh in
  let sh := fst (refresh_cache markets upsert sh) in
  {| w with ae_status := s; ae_shared := sh |}.

(** What the loop receives. *)
Inductive arb_input : Type :=
| ArbSignal (en : ArbEnv) (arb : ArbOpportunity)
| ArbLagged (now : datetime) (n : Z)
| ArbCacheTick (now : datetime) (markets : result (list Market) string) (upsert : nat -> bool)
| ArbHeartbeat
| ArbConfigured (config : ArbExecutorConfig).

(** One turn of the loop; an error of a signal is logged. The refresh is
    spawned, and its failure counted. *)
Definition arb_turn (i : arb_input) (w : ArbAutoExecutor) : option ArbAutoExecutor :=
  match i with
  | ArbSignal en arb => '(w, _) ← run_handler (process_arb_signal en arb) w; Some w
  | ArbLagged now n =>
      Some {| w with ae_status := record_decision now "channel" (Lagged n)
                {| (ae_status w) with lagged_signals := u64_sat_add (lagged_signals (ae_status w)) n |} |}
  | ArbCacheTick now markets upsert =>
      let '(sh, r) := refresh_cache markets upsert (ae_shared w) in
      Some {| w with ae_shared := sh; ae_status :=
        match r with
        | Ok _ => ae_status w
        | Err e => record_decision now "cache" (CacheRefreshFailed e)
            {| (ae_status w) with
               cache_refresh_failures := u64_sat_add (cache_refresh_failures (ae_status w)) 1 |}
        end |}
  | ArbHeartbeat => Some w
  | ArbConfigured config => Some {| w with ae_config := config |}
  end.

Definition arb_loop (inputs : list arb_input) (w : ArbAutoExecutor) : option ArbAutoExecutor :=
  foldl (fun o i => w ← o; arb_turn i w) (Some w) inputs.

End ArbExecutor.
