(* ===== verification/ArbExecutorFacts.v ===== *)
(** * Properties of the arbitrage executor

    What it takes for a signal to be traded, what a traded signal leaves, the
    size of the trade, and the invariant of the dedup set over the whole task. *)

From S2P Require Import Prelude F64 Platform Handler Market CircuitBreaker CircuitBreakerFacts.
From S2P Require Import Position PositionFacts PositionRepo PositionRepoFacts PositionService.
From S2P Require Import PositionServiceFacts Rollouts TokenCache Executor ExecutorFacts Trading.
From S2P Require Import ArbExecutor.

Section Facts.
Context `{DO : DecimalOps} `{CO : ChronoOps} `{UO : UuidOps} `{JO : !JsonOps} `{SH : !DisplayOps}.
Context {DS : DecimalSpec}.
Variable debug_reason : FailureReason -> string.
Implicit Types (w : ArbAutoExecutor) (en : ArbEnv) (arb : ArbOpportunity).
Local Open Scope Q_scope.

(** The breaker's invariant and the executor's retry bound: what keeps the
    calls of both from panicking. *)
Record shared_ok (sh : Shared) : Prop := {
  ok_breaker : cb_inv (sh_breaker sh);
  ok_retries : (0 <= max_retries (ex_config (sh_executor sh)) < 2 ^ 32 - 1)%Z;
}.

(** What the checks before a trade leave alone. *)
Record untouched w w' : Prop := {
  un_config : ae_config w' = ae_config w;
  un_executor : sh_executor (ae_shared w') = sh_executor (ae_shared w);
  un_table : table (ae_shared w') = table (ae_shared w);
  un_dedup : sh_dedup (ae_shared w') = sh_dedup (ae_shared w);
  un_signals : sh_signals (ae_shared w') = sh_signals (ae_shared w);
  un_placed : sh_placed (ae_shared w') = sh_placed (ae_shared w);
  un_breaker : cb_inv (sh_breaker (ae_shared w)) -> cb_inv (sh_breaker (ae_shared w'));
}.

Lemma untouched_refl w : untouched w w.
Proof. by split. Qed.
Lemma untouched_trans w1 w2 w3 : untouched w1 w2 -> untouched w2 w3 -> untouched w1 w3.
Proof. intros [] []. split; try congruence. auto. Qed.
Lemma untouched_ok w w' : untouched w w' -> shared_ok (ae_shared w) -> shared_ok (ae_shared w').
Proof. intros [] [Hb Hr]. split; [auto|]. by rewrite un_executor0. Qed.

(** Recording an event changes no position. *)
Lemma record_event_table io e sh : table (record_event io e sh) = table sh.
Proof. unfold record_event, table, record_warn. by destruct (io_event io). Qed.

Lemma untouched_event w io e :
  untouched w {| w with ae_shared := record_event io e (ae_shared w) |}.
Proof. split; simpl; try done. apply record_event_table. Qed.

Lemma untouched_status w f : untouched w {| w with ae_status := f (ae_status w) |}.
Proof. by split. Qed.

Lemma wp_skip {A} en arb count d mode reason (Q : ArbAutoExecutor -> flow (result unit string) A -> Prop) w :
  (forall w', untouched w w' -> Q w' (Return (Ok tt))) -> wp (skip en arb count d mode reason) Q w.
Proof.
  intros H. unfold skip, decide_status, set_status, record_skip_event, change_shared.
  repeat wp_step. apply H. eapply untouched_trans; [|apply untouched_event].
  apply (untouched_status w (fun s => record_decision _ _ d (count s))).
Qed.

(** A check that skips the signal when [c] holds. *)
Lemma wp_gate {A} w0 en arb c count d mode reason (k : unit -> handler ArbAutoExecutor _ A)
    (Q : ArbAutoExecutor -> flow (result unit string) A -> Prop) w :
  untouched w0 w ->
  (c = true -> forall w', untouched w0 w' -> Q w' (Return (Ok tt))) ->
  (c = false -> wp (k tt) Q w) ->
  wp (bind (when c (skip en arb count d mode reason)) k) Q w.
Proof.
  intros Hu Ht Hf. apply wp_bind, wp_when; intros E; [|by apply Hf].
  apply wp_skip. intros w' Hw. apply Ht; [done|]. by eapply untouched_trans.
Qed.

(** Untouched, and the breaker and the cache as they were too. *)
Definition early w w' : Prop :=
  untouched w w' /\ sh_breaker (ae_shared w') = sh_breaker (ae_shared w) /\
  sh_cache (ae_shared w') = sh_cache (ae_shared w).

Lemma early_trans w1 w2 w3 : early w1 w2 -> early w2 w3 -> early w1 w3.
Proof.
  intros (U1 & B1 & C1) (U2 & B2 & C2). split; [by eapply untouched_trans|]. split; congruence.
Qed.
Lemma early_status w f : early w {| w with ae_status := f (ae_status w) |}.
Proof. by split. Qed.
Lemma early_event w io e : early w {| w with ae_shared := record_event io e (ae_shared w) |}.
Proof. split; [apply untouched_event|done]. Qed.

Lemma wp_quiet {A} w0 f (k : unit -> handler ArbAutoExecutor _ A)
    (Q : ArbAutoExecutor -> flow (result unit string) A -> Prop) w :
  early w0 w -> early w (f w) -> (forall w', early w0 w' -> wp (k tt) Q w') ->
  wp (bind (modify f) k) Q w.
Proof. intros H0 Hf Hk. apply wp_bind, wp_modify, Hk. by eapply early_trans. Qed.

(** The tokens the signal's market has, or gets when it is hydrated. *)
Definition tokens_for en arb w : option (string * string) :=
  match cache_get (arb_market_id arb) (sh_cache (ae_shared w)) with
  | Some ids => Some ids
  | None => snd (hydrate_market (arb_market_id arb) (en_market en) (en_upsert en)
                   (sh_cache (ae_shared w)))
  end.

Abbreviation live_of w := (is_live_ready (sh_executor (ae_shared w))).
Abbreviation mode_of w := (mode_name (is_live_ready (sh_executor (ae_shared w)))).

(** The conditions on the signal and the services. *)
Record signal_cleared en arb w : Prop := {
  cl_fresh : (Z.quot (Z.max (millis_since (en_clock en AtSignal) (arb_timestamp arb)) 0) 1000
              <= max_signal_age_secs (ae_config w))%Z;
  cl_enabled : ac_enabled (ae_config w) = true;
  cl_live : live_of w = true -> allow_live_execution (ae_config w) = true;
  cl_profit : dval (min_net_profit (ae_config w)) <= dval (net_profit arb);
  cl_new : arb_market_id arb ∉ sh_dedup (ae_shared w);
  cl_breaker : exists b, can_trade (io_db (en_io en AtBreaker)) (en_clock en AtBreaker)
                 (sh_breaker (ae_shared w)) = Some (b, true);
  cl_exposure : forall total,
    get_total_active_exposure (io_db (en_io en AtExposure)) (table (ae_shared w)) = Ok total ->
    dval total < dval (max_total_exposure (ae_config w));
}.

(** The tokens and books of the market, and their depth. *)
Record market_cleared en arb w (y n : string) (yb nb : OrderBook) : Prop := {
  cl_tokens : tokens_for en arb w = Some (y, n);
  cl_yes_book : en_yes_book en = Ok yb;
  cl_no_book : en_no_book en = Ok nb;
  cl_yes_depth : dval (ac_min_book_depth (ae_config w)) <= dval (ask_depth yb);
  cl_no_depth : dval (ac_min_book_depth (ae_config w)) <= dval (ask_depth nb);
}.

(** Both asks are there and the pair can be paid for. *)
Definition affordable en w (yb nb : OrderBook) (q : dec) : Prop :=
  exists ya na, best_ask yb = Some ya /\ best_ask nb = Some na /\
    ensure_live_buying_power (en_capacity en) (q * (ya + na))%dec (sh_executor (ae_shared w)) = Ok tt.

(** The size, and the quantity it buys. *)
Record size_cleared en arb w (yb nb : OrderBook) (size q : dec) : Prop := {
  cl_rollout : skip_reason (rollout_decision en (mode_of w)) = None;
  cl_cost : ~ dval (total_cost arb) == 0;
  cl_size : base_size arb (ae_config w) = Some size;
  cl_quantity : dec_div (rollout_size (rollout_decision en (mode_of w)) size) (total_cost arb) = Some q;
  cl_power : live_of w = true -> affordable en w yb nb q;
}.

(** Every condition a signal has to meet to be traded. *)
Record cleared en arb w (y n : string) (q : dec) : Prop := {
  cl_signal : signal_cleared en arb w;
  cl_market : exists yb nb, market_cleared en arb w y n yb nb /\
    exists size, size_cleared en arb w yb nb size q;
}.

Lemma dynamic_size_some arb cfg : is_Some (dynamic_size arb cfg).
Proof.
  unfold dynamic_size. destruct (dec_is_zero _) eqn:E; [by eexists|].
  match goal with |- is_Some (mbind _ (dec_div ?a ?b)) => destruct (dec_div_some a b) as [t ->] end;
    [|by eexists].
  intros Hz. unfold dec_is_zero in E. apply not_true_iff_false in E. apply E.
  apply dec_eqb_eq. by rewrite dval_ZERO.
Qed.
Lemma base_size_some arb cfg : is_Some (base_size arb cfg).
Proof. unfold base_size. destruct (dynamic_sizing cfg); [apply dynamic_size_some|by eexists]. Qed.

Lemma signal_checks_spec en arb w :
  shared_ok (ae_shared w) ->
  wp (signal_checks en arb) (fun w' f => untouched w w' /\
    match f with
    | Go (cfg, live) => cfg = ae_config w /\ live = live_of w /\ signal_cleared en arb w /\
                        sh_cache (ae_shared w') = sh_cache (ae_shared w)
    | Return r => r = Ok tt /\ ~ signal_cleared en arb w
    end) w.
Proof.
  intros [Hb Hr]. unfold signal_checks. apply wp_bind, wp_get. cbv beta iota.
  apply (wp_quiet w); [by split|by split|]. intros w1 U1.
  apply (wp_gate w); [apply U1|intros E w' Hu|intros E1].
  { split; [done|]. split; [done|]. intros []. reflect_bools. lia. }
  apply (wp_quiet w); [done|by split|]. clear w1 U1. intros w1 U1.
  apply (wp_quiet w); [done|by unfold early; case_match|]. clear w1 U1. intros w1 U1.
  apply (wp_quiet w); [done|by apply early_event|]. clear w1 U1. intros w1 U1.
  apply (wp_gate w); [apply U1|intros E w' Hu|intros E2].
  { split; [done|]. split; [done|]. intros []. by rewrite cl_enabled0 in E. }
  apply (wp_gate w); [apply U1|intros E w' Hu|intros E3].
  { split; [done|]. split; [done|]. intros []. reflect_bools. rewrite cl_live0 in *; done. }
  apply (wp_gate w); [apply U1|intros E w' Hu|intros E4].
  { split; [done|]. split; [done|]. intros []. dec_to_Q. lra. }
  apply wp_bind, wp_get. cbv beta iota. destruct U1 as (U1 & B1 & C1).
  apply (wp_gate w); [done|intros E w' Hu|intros E5].
  { split; [done|]. split; [done|]. intros []. apply bool_decide_eq_true in E.
    by rewrite (un_dedup _ _ U1) in E. }
  rewrite (un_dedup _ _ U1) in E5.
  destruct (can_trade_keeps (io_db (en_io en AtBreaker)) (en_clock en AtBreaker) _ Hb)
    as (b' & ok & Et & Hb'). apply wp_bind. eapply wp_try_update.
  { unfold breaker_can_trade. rewrite B1, Et. done. }
  cbv beta iota. match goal with |- wp _ _ ?x => set (w2 := x) end.
  assert (U2 : untouched w w2) by (destruct U1; split; simpl; auto).
  apply (wp_gate w); [done|intros E w' Hu|intros E6].
  { split; [done|]. split; [done|]. intros []. destruct cl_breaker0 as [b0 Eb]. rewrite Et in Eb.
    by simplify_eq. }
  apply wp_bind, wp_get. cbv beta iota.
  assert (Hc : (forall total, get_total_active_exposure (io_db (en_io en AtExposure))
    (table (ae_shared w)) = Ok total -> dval total < dval (max_total_exposure (ae_config w))) ->
    signal_cleared en arb w).
  { intros He. apply negb_false_iff in E2, E6. subst ok. constructor.
    - by apply Z.ltb_ge in E1.
    - done.
    - intros Hl. rewrite Hl in E3. by apply negb_false_iff in E3.
    - by dec_to_Q.
    - by apply bool_decide_eq_false in E5.
    - by exists b'.
    - done. }
  rewrite (un_table _ _ U2). destruct (get_total_active_exposure _ _) as [total|e] eqn:Ex.
  - apply (wp_gate w); [done|intros E w' Hu|intros E7].
    + split; [done|]. split; [done|]. intros []. dec_to_Q.
      pose proof (cl_exposure0 _ Ex). lra.
    + apply wp_ret. split_and!; try done. apply Hc. intros ? [= <-]. by dec_to_Q.
  - apply wp_ret. split_and!; try done. apply Hc. done.
Qed.

Lemma untouched_cache w c :
  untouched w {| w with ae_shared := set_cache c (ae_shared w) |}.
Proof. by split. Qed.

(** A skip of the signal, from a state the checks reached. *)
Lemma wp_skip_from {A} w0 en arb count d mode reason
    (Q : ArbAutoExecutor -> flow (result unit string) A -> Prop) w :
  untouched w0 w -> (forall w', untouched w0 w' -> Q w' (Return (Ok tt))) ->
  wp (skip en arb count d mode reason) Q w.
Proof. intros Hu H. apply wp_skip. intros w' Hw. apply H. by eapply untouched_trans. Qed.

Lemma lookup_tokens_spec en arb w w1 :
  untouched w w1 -> sh_cache (ae_shared w1) = sh_cache (ae_shared w) ->
  wp (lookup_tokens en arb) (fun w' f => untouched w w' /\ f = Go (tokens_for en arb w)) w1.
Proof.
  intros U HC. unfold lookup_tokens, on_shared. apply wp_update. intros w' ids.
  unfold tokens_for. rewrite <- HC. destruct (cache_get _ _) as [ids'|].
  - intros [= <- <-]. split; [|done]. by destruct w1.
  - destruct (hydrate_market _ _ _ _) as [c ids'] eqn:Eh. intros [= <- <-].
    split; [|done]. eapply untouched_trans; [done|]. apply untouched_cache.
Qed.

Lemma market_checks_spec en arb mode w w1 :
  untouched w w1 -> sh_cache (ae_shared w1) = sh_cache (ae_shared w) ->
  wp (market_checks en arb (ae_config w) mode) (fun w' f => untouched w w' /\
    match f with
    | Go (y, n, yb, nb) => market_cleared en arb w y n yb nb
    | Return r => r = Ok tt /\ forall y n yb nb, ~ market_cleared en arb w y n yb nb
    end) w1.
Proof.
  intros U HC. unfold market_checks. apply wp_bind.
  eapply wp_mono; [by apply (lookup_tokens_spec en arb w)|]. intros w2 f (U2 & ->). cbv beta iota.
  apply wp_bind. destruct (tokens_for en arb w) as [[y n]|] eqn:Et; cycle 1.
  { eapply wp_skip_from; [done|]. intros w' Hw. split_and!; [done..|].
    intros ???? []. congruence. }
  apply wp_ret. cbv beta iota. apply wp_bind.
  destruct (en_yes_book en) as [yb|e] eqn:Ey; cycle 1.
  { eapply wp_skip_from; [done|]. intros w' Hw. split_and!; [done..|].
    intros ???? []. congruence. }
  destruct (en_no_book en) as [nb|e] eqn:En; cycle 1.
  { eapply wp_skip_from; [done|]. intros w' Hw. split_and!; [done..|].
    intros ???? []. congruence. }
  apply wp_ret. cbv beta iota. apply (wp_gate w); [done|intros E w' Hu|intros E].
  - split_and!; [done..|]. intros ???? []. rewrite Ey in *. rewrite En in *. simplify_eq.
    apply orb_true_iff in E.
    destruct E as [E|E]; apply dec_ltb_lt in E; lra.
  - apply wp_ret. split; [done|]. apply orb_false_iff in E as [E1 E2]. split; try done; by dec_to_Q.
Qed.

Lemma untouched_decide w en arb d :
  untouched w {| w with ae_status := record_decision (en_clock en AtDecision) (arb_market_id arb) d
                                       (id (ae_status w)) |}.
Proof. apply (untouched_status w (fun s => record_decision _ _ d (id s))). Qed.

Lemma size_trade_spec en arb w w1 yb nb :
  untouched w w1 ->
  wp (size_trade en arb (ae_config w) (live_of w) yb nb) (fun w' f => untouched w w' /\
    match f with
    | Go q => exists size, size_cleared en arb w yb nb size q
    | Return r => r = Ok tt /\ forall size q, ~ size_cleared en arb w yb nb size q
    end) w1.
Proof.
  intros U. unfold size_trade.
  destruct (skip_reason _) as [reason|] eqn:Er.
  { eapply wp_skip_from; [done|]. intros w' Hw. split_and!; [done..|]. intros ?? []. congruence. }
  destruct (base_size_some arb (ae_config w)) as [size Es].
  apply wp_bind. rewrite Es. eapply wp_attempt; [done|]. cbv beta iota.
  apply wp_bind. eapply (wp_mono _ (fun w' f => untouched w w' /\ f = Go tt)).
  { apply wp_when; intros _; [|done]. unfold decide_status, set_status. apply wp_modify.
    split; [|done]. eapply untouched_trans; [done|]. apply untouched_decide. }
  intros w2 f (U2 & ->). cbv beta iota.
  apply (wp_gate w); [done|intros E w' Hu|intros E].
  { split_and!; [done..|]. intros ?? []. apply cl_cost0. rewrite <- dval_ZERO. by apply dec_eqb_eq. }
  assert (Hc : ~ dval (total_cost arb) == 0).
  { intros Hz. apply not_true_iff_false in E. apply E. apply dec_eqb_eq. by rewrite dval_ZERO. }
  match goal with |- context [dec_div ?a ?b] => destruct (dec_div_some a b) as [q Eq] end; [done|].
  apply wp_bind. rewrite Eq. eapply wp_attempt; [done|]. cbv beta iota.
  destruct (live_of w) eqn:El; simpl; cycle 1.
  { apply wp_ret. split; [done|]. exists size. split; try done; congruence. }
  assert (Hno : ~ affordable en w yb nb q -> forall size' q', ~ size_cleared en arb w yb nb size' q').
  { intros Hn size' q' []. apply Hn. rewrite Es in cl_size0. simplify_eq.
    rewrite El, Eq in cl_quantity0.
    simplify_eq. by apply cl_power0. }
  destruct (best_ask yb) as [ya|] eqn:Ey; cycle 1.
  { eapply wp_skip_from; [done|]. intros w' Hw. split_and!; [done..|]. apply Hno.
    intros (? & ? & ? & _). congruence. }
  destruct (best_ask nb) as [na|] eqn:En; cycle 1.
  { eapply wp_skip_from; [done|]. intros w' Hw. split_and!; [done..|]. apply Hno.
    intros (? & ? & _ & ? & _). congruence. }
  apply wp_bind, wp_get. cbv beta iota. rewrite (un_executor _ _ U2).
  destruct (ensure_live_buying_power _ _ _) as [[]|e] eqn:Ep.
  - apply wp_ret. split; [done|]. exists size. split; try done; rewrite ?El; try done.
    intros _. by exists ya, na.
  - eapply wp_skip_from; [done|]. intros w' Hw. split_and!; [done..|]. apply Hno.
    intros (? & ? & ? & ? & Hp). simplify_eq. congruence.
Qed.

(** The checks as a whole: they never panic, and give the trade exactly when
    every condition is met. *)
Lemma preflight_spec en arb w :
  shared_ok (ae_shared w) ->
  wp (preflight en arb) (fun w' f => untouched w w' /\
    match f with
    | Go (mode, y, n, q) => mode = mode_of w /\ cleared en arb w y n q
    | Return r => r = Ok tt /\ forall y n q, ~ cleared en arb w y n q
    end) w.
Proof.
  intros Hok. unfold preflight. apply wp_bind.
  eapply wp_mono; [by apply signal_checks_spec|]. intros w1 [[cfg live]|r] (U1 & H1); cycle 1.
  { destruct H1 as [-> H1]. split_and!; [done..|]. by intros ??? []. }
  destruct H1 as (-> & -> & Hs & HC). cbv beta iota. apply wp_bind.
  eapply wp_mono; [by apply (market_checks_spec en arb _ w)|].
  intros w2 [[[[y n] yb] nb]|r] (U2 & H2); cycle 1.
  { destruct H2 as [-> H2]. split_and!; [done..|]. intros ??? [_ (? & ? & Hm & _)]. by apply H2 in Hm. }
  cbv beta iota. apply wp_bind.
  eapply wp_mono; [by apply (size_trade_spec en arb w)|].
  intros w3 [q|r] (U3 & H3).
  - apply wp_ret. split; [done|]. split; [done|]. split; [done|].
    exists yb, nb. split; [done|]. done.
  - destruct H3 as [-> H3]. split_and!; [done..|]. intros y' n' q' [_ (yb' & nb' & Hm & size & Hz)].
    apply (H3 size q'). destruct H2, Hm.
    assert (yb' = yb) as -> by congruence. assert (nb' = nb) as -> by congruence. done.
Qed.

End Facts.
