(* ===== verification/ArbEntryFacts.v ===== *)
(** * Entering an arbitrage

    What the two orders of a traded signal leave behind: the row, the dedup
    set and the services, for every outcome of the orders; and the invariant
    of the dedup set over the whole task. *)

From S2P Require Import Prelude F64 Platform Handler Market CircuitBreaker CircuitBreakerFacts.
From S2P Require Import Position PositionFacts PositionRepo PositionRepoFacts PositionService.
From S2P Require Import PositionServiceFacts Rollouts TokenCache Executor ExecutorFacts Trading.
From S2P Require Import ArbExecutor ArbExecutorFacts.

Section Entry.
Context `{DO : DecimalOps} `{CO : ChronoOps} `{UO : UuidOps} `{JO : !JsonOps} `{SH : !DisplayOps}.
Context {DS : DecimalSpec}.
Variable debug_reason : FailureReason -> string.
Implicit Types (w : ArbAutoExecutor) (en : ArbEnv) (arb : ArbOpportunity) (p : Position).

(** The columns that follow the position. *)
Record row_of p (r : PositionRow) : Prop := {
  ro_market : r_market_id r = pos_market_id p;
  ro_state : r_state r = state_code (pos_state p);
  ro_yes : r_held_yes_qty r = Some (held_yes_qty p);
  ro_no : r_held_no_qty r = Some (held_no_qty p);
  ro_failure : r_failure_reason r = encode_reason <$> failure_reason p;
  ro_yes_exit : r_yes_exit_price r = yes_exit_price p;
  ro_no_exit : r_no_exit_price r = no_exit_price p;
}.
Lemma row_of_update p r : r_market_id r = pos_market_id p -> row_of p (update_row p r).
Proof. by split. Qed.

(** The columns of the entry, which no UPDATE sets. *)
Record entry_of en arb (q : dec) (r : PositionRow) : Prop := {
  eo_id : r_id r = en_position_id en;
  eo_market : r_market_id r = arb_market_id arb;
  eo_yes : r_yes_entry_price r = yes_ask arb;
  eo_no : r_no_entry_price r = no_ask arb;
  eo_quantity : r_quantity r = q;
  eo_source : r_source r = Some SOURCE_ARBITRAGE;
}.
Lemma entry_of_update en arb q p r : entry_of en arb q r -> entry_of en arb q (update_row p r).
Proof. intros []. by split. Qed.

(** What a mutation during the entry leaves alone. *)
Definition same_position p p' : Prop :=
  pos_id p' = pos_id p /\ pos_market_id p' = pos_market_id p /\
  yes_exit_price p' = yes_exit_price p /\ no_exit_price p' = no_exit_price p.

(** The state while the position [p] is being entered, from [w0] on: one row
    was added. *)
Record entering en arb q w0 p w : Prop := {
  et_id : pos_id p = en_position_id en;
  et_market : pos_market_id p = arb_market_id arb;
  et_exits : yes_exit_price p = None /\ no_exit_price p = None;
  et_table : exists r,
    table (ae_shared w) = <[en_position_id en := r]> (table (ae_shared w0)) /\
    entry_of en arb q r;
  et_config : ae_config w = ae_config w0;
  et_breaker : sh_breaker (ae_shared w) = sh_breaker (ae_shared w0);
  et_dedup : sh_dedup (ae_shared w) = sh_dedup (ae_shared w0);
  et_executor : ex_config (sh_executor (ae_shared w)) = ex_config (sh_executor (ae_shared w0));
}.

Definition saved en p w : Prop := exists r,
  table (ae_shared w) !! en_position_id en = Some r /\ row_of p r.

Lemma execute_keeps_config now replies timed latency o x x' r placed :
  execute_market_order now replies timed latency o x = Some (x', r, placed) ->
  ex_config x' = ex_config x.
Proof.
  unfold execute_market_order. case_match; [by intros [= <- _ _]|].
  match goal with |- context [execute_with_retry ?c ?f ?g] => destruct (execute_with_retry c f g) end;
    simpl; [|done]. by intros [= <- _ _].
Qed.

(** A mutation of the position that persists [p']. *)
Lemma wp_mutate {B} en arb q w0 p w io what e p' (f : Service -> Position * Service * result unit ServiceError)
    (k : Position * result unit ServiceError -> handler ArbAutoExecutor (result unit string) B) Q :
  entering en arb q w0 p w ->
  f (sh_service (ae_shared w)) = persist_and_record io what e p' (sh_service (ae_shared w)) ->
  same_position p p' ->
  (forall w' r, entering en arb q w0 p' w' -> (io_db io = true -> saved en p' w') ->
     sh_executor (ae_shared w') = sh_executor (ae_shared w) ->
     sh_placed (ae_shared w') = sh_placed (ae_shared w) -> wp (k (p', r)) Q w') ->
  wp (bind (mutate f) k) Q w.
Proof.
  intros [] Hf (Hid & Hm & Hy & Hn) Hk. destruct et_table0 as (r & Ht & Hr). destruct et_exits0.
  apply wp_bind. unfold mutate, on_shared, on_position. apply wp_update.
  rewrite Hf. unfold persist_and_record, repo_update.
  destruct (io_db io) eqn:Eio; simpl; intros w' [p2 res] [= <- <- <-].
  - assert (E : table (ae_shared {| w with ae_shared := set_service (record_warn io e
        {| (sh_service (ae_shared w)) with svc_table := alter (update_row p') (pos_id p')
             (svc_table (sh_service (ae_shared w))) |}) (ae_shared w) |}) =
        <[en_position_id en := update_row p' r]> (table (ae_shared w0))).
    { unfold record_warn. transitivity (alter (update_row p') (pos_id p') (table (ae_shared w))).
      - destruct (io_event io); reflexivity.
      - rewrite Ht, Hid, et_id0. apply alter_insert_eq. }
    apply Hk; try done.
    + split; simpl; try done; try congruence; [split; congruence|].
      exists (update_row p' r). split; [apply E|by apply entry_of_update].
    + intros _. exists (update_row p' r). split; [|apply row_of_update; rewrite (eo_market _ _ _ _ Hr); congruence].
      transitivity (<[en_position_id en := update_row p' r]> (table (ae_shared w0)) !! en_position_id en);
        [by f_equal|]. apply lookup_insert_eq.
  - apply Hk; try done. split; simpl; try done; try congruence; [split; congruence|]. by exists r.
Qed.

(** One leg's order, from the executor [x]. *)
Definition leg_run (oe : OrderEnv) arb (token : string) (qty expected : dec)
    (x x' : OrderExecutor) (r : ExecutionReport) (placed : list PostResponse) : Prop :=
  execute_market_order (oe_now oe) (oe_replies oe) (oe_timed oe) (oe_latency_us oe)
    (leg_order arb oe token qty expected (default_slippage (ex_config x))) x
  = Some (x', Ok r, placed).

Definition add_when (c : bool) (market : string) (d : gset string) : gset string :=
  if c then {[ market ]} ∪ d else d.

(** What an entry leaves: the row at [st] with the quantities held, if the last
    statement, at [step], succeeded; and the market in the dedup set or not. *)
Record ended en arb q w0 w' (step : ArbStep) (st : PositionState) (yes no : dec) (deduped : bool)
    (placed : list PostResponse) : Prop := {
  ed_table : exists row,
    table (ae_shared w') = <[en_position_id en := row]> (table (ae_shared w0)) /\
    entry_of en arb q row /\
    (io_db (en_io en step) = true ->
       r_state row = state_code st /\ r_held_yes_qty row = Some yes /\ r_held_no_qty row = Some no /\
       r_yes_exit_price row = None /\ r_no_exit_price row = None);
  ed_dedup : sh_dedup (ae_shared w') =
    add_when deduped (arb_market_id arb) (sh_dedup (ae_shared w0));
  ed_placed : sh_placed (ae_shared w') = sh_placed (ae_shared w0) ++ placed;
  ed_breaker : sh_breaker (ae_shared w') = sh_breaker (ae_shared w0);
  ed_executor : ex_config (sh_executor (ae_shared w')) = ex_config (sh_executor (ae_shared w0));
}.

Lemma entering_ended en arb q w0 p w w' step deduped placed :
  entering en arb q w0 p w -> (io_db (en_io en step) = true -> saved en p w) ->
  sh_placed (ae_shared w) = sh_placed (ae_shared w0) ++ placed ->
  table (ae_shared w') = table (ae_shared w) -> sh_breaker (ae_shared w') = sh_breaker (ae_shared w) ->
  sh_executor (ae_shared w') = sh_executor (ae_shared w) ->
  sh_placed (ae_shared w') = sh_placed (ae_shared w) ->
  sh_dedup (ae_shared w') = add_when deduped (arb_market_id arb) (sh_dedup (ae_shared w)) ->
  ended en arb q w0 w' step (pos_state p) (held_yes_qty p) (held_no_qty p) deduped placed.
Proof.
  intros [] Hs Hp Ht Hb Hx Hp' Hd. split; try congruence.
  destruct et_table0 as (r & Et & Ee). exists r. split; [congruence|]. split; [done|]. intros Hio.
  destruct (Hs Hio) as (r' & El & []). rewrite Et, lookup_insert_eq in El. injection El as <-.
  destruct et_exits0. split_and!; congruence.
Qed.

(** A leg's order goes through the executor. *)
Lemma wp_order {B} en arb q w0 p w oe token qty expected
    (k : result ExecutionReport string -> handler ArbAutoExecutor (result unit string) B) Q :
  entering en arb q w0 p w -> (0 <= max_retries (ex_config (sh_executor (ae_shared w))) < 2 ^ 32 - 1)%Z ->
  (forall w' x' r placed, entering en arb q w0 p w' ->
     leg_run oe arb token qty expected (sh_executor (ae_shared w)) x' r placed ->
     sh_executor (ae_shared w') = x' ->
     sh_placed (ae_shared w') = sh_placed (ae_shared w) ++ placed -> wp (k (Ok r)) Q w') ->
  wp (bind (try_shared (place_market_order oe (leg_order arb oe token qty expected
        (default_slippage (ex_config (sh_executor (ae_shared w))))))) k) Q w.
Proof.
  intros [] Hm Hk.
  destruct (execute_market_order_some (oe_now oe) (oe_replies oe) (oe_timed oe) (oe_latency_us oe)
    (leg_order arb oe token qty expected (default_slippage (ex_config (sh_executor (ae_shared w))))) _ Hm)
    as (x' & r & placed & E).
  apply wp_bind. eapply wp_try_update; [unfold place_market_order; by rewrite E|].
  cbv beta iota. eapply Hk; try done. split; simpl; try done; try congruence.
  rewrite <- et_executor0. by apply execute_keeps_config in E.
Qed.

Lemma entering_keep en arb q w0 p w w' :
  entering en arb q w0 p w ->
  ae_config w' = ae_config w -> table (ae_shared w') = table (ae_shared w) ->
  sh_breaker (ae_shared w') = sh_breaker (ae_shared w) ->
  sh_dedup (ae_shared w') = sh_dedup (ae_shared w) ->
  sh_executor (ae_shared w') = sh_executor (ae_shared w) -> entering en arb q w0 p w'.
Proof. intros [] ?????. split; try congruence. destruct et_table0 as (r & ? & ?).
  exists r. split; [congruence|done].
Qed.

(** The created position, or the error of the INSERT. *)
Lemma wp_create {B} en arb q ctx w (k : Position -> handler ArbAutoExecutor (result unit string) B) Q :
  (forall w' p, entering en arb q w p w' -> pos_state p = Pending ->
     held_yes_qty p = ZERO -> held_no_qty p = ZERO ->
     sh_executor (ae_shared w') = sh_executor (ae_shared w) ->
     sh_placed (ae_shared w') = sh_placed (ae_shared w) ->
     io_db (en_io en AtCreate) = true -> table (ae_shared w) !! en_position_id en = None ->
     wp (k p) Q w') ->
  (io_db (en_io en AtCreate) = false \/ is_Some (table (ae_shared w) !! en_position_id en) ->
     Q w (Return (Err "Failed to persist position"))) ->
  wp (bind (create_pending en arb q ctx) k) Q w.
Proof.
  intros Hk He. apply wp_bind. unfold create_pending. apply wp_bind. unfold on_shared, create_position.
  apply wp_update. simpl. unfold insert_with_source, table in *. simpl.
  destruct (io_db (en_io en AtCreate)) eqn:Eio; simpl.
  - destruct (svc_table (sh_service (ae_shared w)) !! en_position_id en) as [r|] eqn:El.
    + intros w' a [= <- <-]. apply wp_return. destruct w as [? [? ? []] ? ?]; apply He; eauto.
    + intros w' a [= <- <-]. apply wp_ret. apply Hk; try done.
      * split; try done. simpl. eexists. split.
        -- unfold table, record_warn. destruct (io_event _); reflexivity.
        -- done.
  - intros w' a [= <- <-]. apply wp_return. destruct w as [? [? ? []] ? ?]; apply He; eauto.
Qed.
(** The end of an entry at the position that was persisted last. *)
Ltac end_entry en arb q w0 step deduped :=
  match goal with
  | He : entering _ _ _ _ ?p ?w, Hs : _ -> saved _ ?p ?w |- _ =>
      apply (entering_ended en arb q w0 p w _ step deduped); try done
  end.

(** What [enter] leaves, by the reports of the two orders. *)
Definition entry_outcome en arb (y n : string) (q : dec) w w' (r : result unit string) : Prop :=
  (r = Err "Failed to persist position" /\ w' = w /\
   (io_db (en_io en AtCreate) = false \/ is_Some (table (ae_shared w) !! en_position_id en))) \/
  (r = Ok tt /\ exists x1 ry pl1,
     leg_run (en_yes en) arb y q (yes_ask arb) (sh_executor (ae_shared w)) x1 ry pl1 /\
     if is_success ry then exists x2 rn pl2,
       leg_run (en_no en) arb n (er_filled_quantity ry) (no_ask arb) x1 x2 rn pl2 /\
       if is_success rn
       then ended en arb q w w' AtOpen Open (ZERO + er_filled_quantity ry)%dec
              (ZERO + er_filled_quantity rn)%dec true (pl1 ++ pl2)
       else ended en arb q w w' AtOneLegged ExitReady (ZERO + er_filled_quantity ry)%dec ZERO true
              (pl1 ++ pl2)
     else ended en arb q w w' AtEntryFailed EntryFailed ZERO ZERO false pl1).

Abbreviation Report_post := (ArbAutoExecutor -> flow (result unit string) ExecutionReport -> Prop).

(** The YES order failed. *)
Lemma wp_fail_entry en arb q w0 p w d reason ctx placed (Q : Report_post) :
  entering en arb q w0 p w -> held_yes_qty p = ZERO -> held_no_qty p = ZERO ->
  sh_placed (ae_shared w) = sh_placed (ae_shared w0) ++ placed ->
  (forall w', ended en arb q w0 w' AtEntryFailed EntryFailed ZERO ZERO false placed ->
     Q w' (Return (Ok tt))) ->
  wp (fail_entry debug_reason en arb d reason ctx p) Q w.
Proof.
  intros He Hy Hn Hp HQ. unfold fail_entry, decide_status, set_status, publish_failure_signal, publish,
    change_shared.
  apply wp_bind, wp_modify. cbv beta iota.
  eapply (wp_mutate en arb q w0 p); [by eapply entering_keep|reflexivity|done|].
  intros w' r He' Hs Hx Hp'. cbv beta iota. do 2 wp_step. wp_step. apply HQ.
  rewrite <- Hy at 1. rewrite <- Hn at 1.
  end_entry en arb q w0 AtEntryFailed false. by rewrite Hp', <- Hp.
Qed.

(** The position after the transition of a one-legged entry. *)
Definition one_legged (now : datetime) (held_leg msg : string) p : Position :=
  set_failure (OneLeggedEntry held_leg msg)
    (moved now ExitReady (moved now Open (reset_pending (drop_missing_leg held_leg p)))).
Lemma one_legged_persists io now held_leg msg ctx p s :
  pos_state p = Pending -> exists e,
  transition_one_legged_to_exit_ready io now held_leg msg ctx p s =
    persist_and_record io "update after one-legged transition" e (one_legged now held_leg msg p) s.
Proof.
  intros Hst. unfold transition_one_legged_to_exit_ready. replace (negb _) with false by by rewrite Hst.
  cbv beta iota zeta. unfold mark_open, mark_exit_ready. rewrite !transition_ok by done. by eexists.
Qed.
Lemma open_persists io now ctx p s :
  pos_state p = Pending -> exists e,
  service_mark_open io now ctx p s =
    persist_and_record io "update after mark_open" e (moved now Open p) s.
Proof.
  intros Hst. unfold service_mark_open, service_transition, mark_open. cbv beta.
  rewrite transition_ok by done. by eexists.
Qed.
Lemma one_legged_keeps now held_leg msg p :
  same_position p (one_legged now held_leg msg p).
Proof. unfold same_position, one_legged, drop_missing_leg. by case_bool_decide. Qed.

(** The NO order failed after the YES fill. *)
Lemma wp_fail_one_legged en arb q w0 p w d msg ctx placed (Q : Report_post) :
  entering en arb q w0 p w -> pos_state p = Pending ->
  sh_placed (ae_shared w) = sh_placed (ae_shared w0) ++ placed ->
  (forall w', ended en arb q w0 w' AtOneLegged ExitReady (held_yes_qty p) ZERO true placed ->
     Q w' (Return (Ok tt))) ->
  wp (fail_one_legged en arb d msg ctx p) Q w.
Proof.
  intros He Hst Hp HQ. unfold fail_one_legged, decide_status, set_status, publish_failure_signal,
    publish, change_shared.
  apply wp_bind, wp_modify. cbv beta iota.
  match goal with |- wp _ _ ?x => destruct (one_legged_persists (en_io en AtOneLegged)
    (en_clock en AtOneLegged) "yes" msg ctx p (sh_service (ae_shared x)) Hst) as [e one_legged_e] end.
  eapply (wp_mutate en arb q w0 p); [by eapply entering_keep|apply one_legged_e|apply one_legged_keeps|].
  intros w' r He' Hs Hx Hp'. cbv beta iota. do 4 wp_step. wp_step. apply HQ.
  end_entry en arb q w0 AtOneLegged true. by rewrite Hp', <- Hp.
Qed.

(** [enter] never panics, and leaves what the reports say. *)
Lemma enter_spec en arb mode y n q w :
  (0 <= max_retries (ex_config (sh_executor (ae_shared w))) < 2 ^ 32 - 1)%Z ->
  wp (enter debug_reason en arb mode y n q) (fun w' f =>
    entry_outcome en arb y n q w w' match f with Go r | Return r => r end) w.
Proof.
  intros Hm. unfold enter. apply wp_create; [|by left]. cbv beta.
  intros w1 p He Hst Hy Hn Hx1 Hp1 _ _.
  apply wp_bind. unfold yes_leg. apply wp_bind, wp_get. cbv beta iota.
  apply (wp_order en arb q w p); [done|by rewrite (et_executor _ _ _ _ _ _ He)|].
  intros w2 x1 ry pl1 He2 Hry Hx2 Hp2. rewrite Hx1 in Hry. rewrite Hp1 in Hp2. cbv beta iota.
  destruct (is_success ry) eqn:Ey; simpl negb; cbv beta iota; cycle 1.
  { eapply wp_fail_entry; try done. intros w' Hend. right. split; [done|].
    exists x1, ry, pl1. by rewrite Ey. }
  apply wp_ret. unfold fill_leg at 1. apply wp_bind.
  eapply (wp_mutate en arb q w p); [done|reflexivity|done|].
  intros w3 r3 He3 _ Hx3 Hp3. apply wp_ret. cbv beta iota.
  apply wp_bind. unfold no_leg. apply wp_bind, wp_get. cbv beta iota.
  eapply (wp_order en arb q w _ w3); [done|by rewrite (et_executor _ _ _ _ _ _ He3)|].
  intros w4 x2 rn pl2 He4 Hrn Hx4 Hp4. cbv beta iota. rewrite Hx3, Hx2 in Hrn.
  rewrite Hp3, Hp2, <- app_assoc in Hp4.
  destruct (is_success rn) eqn:En; simpl negb; cbv beta iota; cycle 1.
  { eapply wp_fail_one_legged; try done. intros w' Hend. right. split; [done|].
    exists x1, ry, pl1. rewrite Ey. split; [done|]. exists x2, rn, pl2. rewrite En. split; [done|].
    simpl in Hend. by rewrite Hy in Hend. }
  apply wp_ret. unfold fill_leg. apply wp_bind.
  eapply (wp_mutate en arb q w _ w4); [done|reflexivity|done|].
  intros w5 r5 He5 _ Hx5 Hp5. apply wp_ret. cbv beta iota.
  match type of He5 with entering _ _ _ _ ?p5 _ => destruct (open_persists (en_io en AtOpen)
    (en_clock en AtOpen) (arb_context mode) p5 (sh_service (ae_shared w5)) Hst) as [e open_e] end.
  eapply (wp_mutate en arb q w _ w5); [done|apply open_e|done|].
  intros w6 r6 He6 Hs6 Hx6 Hp6. unfold publish, change_shared, decide_status, set_status.
  repeat wp_step. right. split; [done|].
  exists x1, ry, pl1. rewrite Ey. split; [done|]. exists x2, rn, pl2. rewrite En. split; [done|].
  rewrite <- Hy at 1. rewrite <- Hn at 1.
  end_entry en arb q w AtOpen true. by rewrite Hp6, Hp5, Hp4.
Qed.
(** ** The dedup set *)

(** At most one row per market satisfies [P]. *)
Definition unique_by (P : PositionRow -> bool) (t : Table) : Prop := forall i j r s,
  t !! i = Some r -> t !! j = Some s -> P r = true -> P s = true ->
  r_market_id r = r_market_id s -> i = j.

(** And the market of each is in the dedup set. *)
Record covered_by (P : PositionRow -> bool) (sh : Shared) : Prop := {
  cv_unique : unique_by P (table sh);
  cv_dedup : forall i r, table sh !! i = Some r -> P r = true -> r_market_id r ∈ sh_dedup sh;
}.
Abbreviation unique_active := (unique_by row_active).
Abbreviation covered := (covered_by row_active).

Lemma covered_same P sh sh' :
  table sh' = table sh -> sh_dedup sh' = sh_dedup sh -> covered_by P sh -> covered_by P sh'.
Proof. intros Ht Hd [Hu Hc]. split; rewrite Ht; [done|]. rewrite Hd. apply Hc. Qed.

(** One more row, of a market that was not in the set. *)
Lemma covered_insert sh sh' id row (deduped : bool) m :
  covered sh -> m ∉ sh_dedup sh -> r_market_id row = m ->
  table sh' = <[id := row]> (table sh) -> sh_dedup sh' = add_when deduped m (sh_dedup sh) ->
  (deduped = false -> row_active row = false) -> covered sh'.
Proof.
  intros [Hu Hc] Hm Hr Ht Hd Hf. split; rewrite Ht.
  - intros i j r s Hi Hj Hri Hsj Heq.
    destruct (decide (i = id)) as [->|Hi'], (decide (j = id)) as [->|Hj'];
      rewrite ?lookup_insert_eq, ?lookup_insert_ne in Hi by done;
      rewrite ?lookup_insert_eq, ?lookup_insert_ne in Hj by done; [done| | |by eapply Hu].
    + injection Hi as <-. apply Hc in Hj; [|done]. congruence.
    + injection Hj as <-. apply Hc in Hi; [|done]. congruence.
  - intros i r Hi Ha. rewrite lookup_insert in Hi. rewrite Hd. unfold add_when. case_decide; subst.
    + simplify_eq. destruct deduped; [by apply elem_of_union_l, elem_of_singleton|].
      by rewrite Hf in Ha.
    + apply Hc in Hi; [|done]. destruct deduped; [by apply elem_of_union_r|done].
Qed.

Lemma entry_covered en arb y n q w w' r :
  covered (ae_shared w) -> arb_market_id arb ∉ sh_dedup (ae_shared w) ->
  io_db (en_io en AtEntryFailed) = true -> entry_outcome en arb y n q w w' r -> covered (ae_shared w').
Proof.
  intros Hc Hm Hio [(_ & -> & _)|(_ & x1 & ry & pl1 & _ & H)]; [done|].
  destruct (is_success ry).
  - destruct H as (x2 & rn & pl2 & _ & H).
    destruct (is_success rn); destruct H as [(row & Ht & [_ Hr _ _ _ _] & _) Hd _ _ _];
      by eapply (covered_insert _ _ _ row true).
  - destruct H as [(row & Ht & [_ Hr _ _ _ _] & Hrow) Hd _ _ _].
    eapply (covered_insert _ _ _ row false); try done. intros _. destruct (Hrow Hio) as [Hs _].
    unfold row_active. by rewrite Hs.
Qed.

(** The row that an entry adds, if it adds one. *)
Lemma entry_row en arb y n q w w' r :
  entry_outcome en arb y n q w w' r -> w' = w \/
  exists row, table (ae_shared w') = <[en_position_id en := row]> (table (ae_shared w)) /\
    r_id row = en_position_id en /\ r_source row = Some SOURCE_ARBITRAGE.
Proof.
  intros [(_ & -> & _)|(_ & x1 & ry & pl1 & _ & H)]; [by left|right].
  destruct (is_success ry); [destruct H as (x2 & rn & pl2 & _ & H); destruct (is_success rn)|];
    destruct H as [(row & Ht & [Hi _ _ _ _ Hs] & _) _ _ _ _]; by exists row.
Qed.

Lemma entry_keeps_ok en arb y n q w w' r :
  shared_ok (ae_shared w) -> entry_outcome en arb y n q w w' r -> shared_ok (ae_shared w').
Proof.
  intros [Hb Hm] [(_ & -> & _)|(_ & x1 & ry & pl1 & _ & H)]; [done|].
  assert (Hk : forall step st yes no d placed, ended en arb q w w' step st yes no d placed -> shared_ok (ae_shared w')).
  { intros ?????? [_ _ _ Hb' Hx]. split; [by rewrite Hb'|by rewrite Hx]. }
  destruct (is_success ry); [|by eapply Hk].
  destruct H as (x2 & rn & pl2 & _ & H). destruct (is_success rn); by eapply Hk.
Qed.

(** What the processing of a signal does. *)
Definition signal_result en arb w w' (r : result unit string) : Prop :=
  (r = Ok tt /\ untouched w w' /\ forall y n q, ~ cleared en arb w y n q) \/
  exists y n q w1, cleared en arb w y n q /\ untouched w w1 /\ entry_outcome en arb y n q w1 w' r.

Lemma process_spec en arb w :
  shared_ok (ae_shared w) ->
  wp (process_arb_signal debug_reason en arb) (fun w' f =>
    signal_result en arb w w' match f with Go r | Return r => r end) w.
Proof.
  intros Hok. unfold process_arb_signal. apply wp_bind.
  eapply wp_mono; [by apply preflight_spec|]. intros w1 [[[[mode y] n] q]|r] (U & H).
  - destruct H as [-> Hc]. cbv beta iota.
    eapply wp_mono; [apply enter_spec, (untouched_ok _ _ U Hok)|]. intros w' f He.
    right. by exists y, n, q, w1.
  - destruct H as [-> Hc]. left. by split_and!.
Qed.

(** The key of a row is its identifier. *)
Definition keyed (t : Table) : Prop := forall j r, t !! j = Some r -> r_id r = j.

Lemma signal_keyed en arb w w' r :
  signal_result en arb w w' r -> keyed (table (ae_shared w)) -> keyed (table (ae_shared w')).
Proof.
  intros [(_ & U & _)|(y & n & q & w1 & _ & U & He)] Hk; [by rewrite (un_table _ _ U)|].
  rewrite <- (un_table _ _ U) in Hk. apply entry_row in He as [->|(row & -> & Hi & _)]; [done|].
  intros j r' Hj. rewrite lookup_insert in Hj. case_decide; [by simplify_eq|by apply Hk].
Qed.

Lemma signal_keeps en arb w w' r :
  shared_ok (ae_shared w) -> signal_result en arb w w' r ->
  shared_ok (ae_shared w') /\
  (io_db (en_io en AtEntryFailed) = true -> covered (ae_shared w) -> covered (ae_shared w')).
Proof.
  intros Hok [(_ & U & _)|(y & n & q & w1 & Hc & U & He)].
  - split; [by eapply untouched_ok|]. intros _. by apply covered_same; apply U.
  - split; [eapply entry_keeps_ok; [by eapply untouched_ok|done]|]. intros Hio Hcov.
    eapply entry_covered; [by eapply covered_same; [..|exact Hcov]; apply U| |done|done].
    rewrite (un_dedup _ _ U). apply Hc.
Qed.
(** ** The task *)

Definition input_ok (i : arb_input) : Prop :=
  match i with ArbSignal en _ => io_db (en_io en AtEntryFailed) = true | _ => True end.

Lemma turn_keeps i w :
  shared_ok (ae_shared w) -> exists w', arb_turn debug_reason i w = Some w' /\
    shared_ok (ae_shared w') /\ (keyed (table (ae_shared w)) -> keyed (table (ae_shared w'))) /\
    (input_ok i -> covered (ae_shared w) -> covered (ae_shared w')).
Proof.
  intros Hok. destruct i as [en arb|now n|now markets upsert| |config]; simpl.
  - destruct (wp_run _ (fun w' r => signal_result en arb w w' r) w (process_spec en arb w Hok))
      as (w' & r & -> & H). exists w'. split; [done|]. destruct (signal_keeps _ _ _ _ _ Hok H).
    split; [done|]. split; [by eapply signal_keyed|done].
  - by eexists.
  - unfold refresh_cache. destruct (refresh _ _ _) as [c r]. eexists. split; [done|].
    destruct Hok. split; [by split|]. split; [done|]. intros _. by apply covered_same.
  - by exists w.
  - by eexists.
Qed.

Lemma cleanup_unique io now t : unique_active t -> unique_active (cleanup_stale io now t).
Proof.
  unfold cleanup_stale. destruct io; [|done]. intros Hu i j r s Hi Hj.
  rewrite lookup_fmap in Hi, Hj.
  destruct (t !! i) as [r0|] eqn:Ei; [|done]. destruct (t !! j) as [s0|] eqn:Ej; [|done].
  simpl in Hi, Hj. injection Hi as <-. injection Hj as <-. unfold cleanup_row.
  destruct (stale_pending now r0), (stale_pending now s0); simpl; try done. by eapply Hu.
Qed.

Lemma elem_of_active t :
  exists ps, get_active true t = Ok ps /\ forall m, m ∈ pos_market_id <$> ps <->
    exists id r, t !! id = Some r /\ row_active r = true /\ m = r_market_id r.
Proof.
  eexists. split; [done|]. intros m. rewrite list_elem_of_fmap. setoid_rewrite elem_of_sorted. split.
  - intros (p & -> & id & r & Hl & Ha & ->). by exists id, r.
  - intros (id & r & Hl & Ha & ->). exists (row_to_position r). split; [done|]. by exists id, r.
Qed.

Lemma load_dedup_covers sh : unique_active (table sh) -> covered (load_dedup true sh).
Proof.
  intros Hu. unfold load_dedup. destruct (elem_of_active (table sh)) as (ps & -> & Hps). split; [done|].
  intros i r Hi Ha. apply elem_of_union_r, elem_of_list_to_set, Hps. by exists i, r.
Qed.

Lemma startup_covers now io_cleanup markets upsert w :
  unique_active (table (ae_shared w)) ->
  covered (ae_shared (arb_startup now io_cleanup true markets upsert w)).
Proof.
  intros Hu. unfold arb_startup, refresh_cache. simpl. destruct (refresh _ _ _) as [c r]. simpl.
  eapply covered_same; [..|apply (load_dedup_covers
    (set_table (cleanup_stale io_cleanup now (table (ae_shared w))) (ae_shared w)))];
    [done|done|by apply cleanup_unique].
Qed.
Lemma startup_ok now io_cleanup io_active markets upsert w :
  shared_ok (ae_shared w) ->
  shared_ok (ae_shared (arb_startup now io_cleanup io_active markets upsert w)).
Proof.
  intros [Hb Hm]. unfold arb_startup, refresh_cache, load_dedup. simpl.
  destruct (refresh _ _ _) as [c r]. simpl. by destruct (get_active _ _); split.
Qed.

(** ** Theorems *)


(** The division of the dynamic size never panics, and when the profit
    floor is below five percent the size lies between its two bounds: the
    smallest for a profit at the floor or below, the largest for a profit of
    five percent or more.  A rollout never raises a size. *)
Theorem dynamic_size_bounds {EX : DecimalExact} arb cfg r :
  (dval (min_net_profit cfg) < 5 # 100)%Q ->
  (dval (ac_min_position_size cfg) <= dval (ac_max_position_size cfg))%Q ->
  exists s, dynamic_size arb cfg = Some s /\
    (dval (ac_min_position_size cfg) <= dval s <= dval (ac_max_position_size cfg))%Q /\
    ((dval (net_profit arb) <= dval (min_net_profit cfg))%Q ->
     (dval s == dval (ac_min_position_size cfg))%Q) /\
    ((5 # 100 <= dval (net_profit arb))%Q -> (dval s == dval (ac_max_position_size cfg))%Q) /\
    ((0 <= dval s)%Q -> (dval (rollout_size r s) <= dval s)%Q).
Proof.
  intros Hf Hm. assert (H5 : (dval (dec_new 5 2) == 5 # 100)%Q) by by rewrite dval_new.
  assert (Hr : (0 < dval (dec_new 5 2 - min_net_profit cfg)%dec)%Q) by (rewrite dval_sub, H5; lra).
  unfold dynamic_size. destruct (dec_is_zero _) eqn:Ez.
  { unfold dec_is_zero in Ez. dec_to_Q. lra. }
  destruct (dec_div_some (net_profit arb - min_net_profit cfg)%dec
    (dec_new 5 2 - min_net_profit cfg)%dec) as [t Et]; [lra|]. rewrite Et. eexists. split; [done|].
  set (c := dec_min (dec_max t ZERO) ONE).
  assert (Hc : (0 <= dval c <= 1)%Q).
  { unfold c, dec_min, dec_max. repeat case_match; dec_to_Q; rewrite ?dval_ZERO, ?dval_ONE in *; lra. }
  assert (Hs : (dval (ac_min_position_size cfg + (ac_max_position_size cfg - ac_min_position_size cfg) * c)%dec
     == dval (ac_min_position_size cfg) + (dval (ac_max_position_size cfg) - dval (ac_min_position_size cfg)) * dval c)%Q).
  { by rewrite dval_add, dval_mul, dval_sub. }
  split_and!.
  - rewrite Hs. nra.
  - rewrite Hs. nra.
  - intros Hp. enough (dval c == 0)%Q as Hz by (rewrite Hs, Hz; ring).
    assert (Ht : (dval t <= 0)%Q).
    { rewrite <- dval_ZERO. eapply dec_div_upper; [exact Et|]. rewrite dval_ZERO.
      apply Qle_shift_div_r; [done|]. rewrite dval_sub. lra. }
    unfold c, dec_min, dec_max. repeat case_match; dec_to_Q; rewrite ?dval_ZERO, ?dval_ONE in *; lra.
  - intros Hp. enough (dval c == 1)%Q as Hz by (rewrite Hs, Hz; ring).
    assert (Ht : (1 <= dval t)%Q).
    { rewrite <- dval_ONE. eapply dec_div_lower; [exact Et|]. rewrite dval_ONE.
      apply Qle_shift_div_l; [done|]. rewrite !dval_sub, H5. lra. }
    unfold c, dec_min, dec_max. repeat case_match; dec_to_Q; rewrite ?dval_ZERO, ?dval_ONE in *; lra.
  - intros Hp. unfold rollout_size. case_match; [|lra]. apply dec_mul_upper. dec_to_Q.
    rewrite ?dval_ONE in *. nra.
Qed.
End Entry.

(** ** The theorems at concrete inputs *)

Module ArbSample.
#[local] Existing Instance Concrete.decimal.
#[local] Existing Instance Concrete.decimal_spec.
#[local] Existing Instance Concrete.decimal_exact.
#[local] Existing Instance Concrete.chrono.
#[local] Existing Instance Concrete.uuid.
#[local] Existing Instance ConcreteJson.json.
#[local] Existing Instance Example_execution.display.
Abbreviation d := Concrete.d.
Abbreviation at_minute := Concrete.at_minute.

Definition breaker : CircuitBreaker := cb_new default_config (at_minute 0).
Definition tokens : OutcomeTokenCache :=
  {| cache_new with tc_tokens := {[ "m" := ("yes", "no") ]} |}.
(** A paper-trading system with nothing in it. *)
Definition shared : Shared := {|
  sh_executor := executor_new default_executor_config (Some false); sh_breaker := breaker;
  sh_service := {| svc_table := ∅; svc_events := [] |}; sh_cache := tokens; sh_dedup := ∅;
  sh_signals := []; sh_placed := [] |}.
Definition executor : ArbAutoExecutor := {|
  ae_config := {| default_arb_config with ac_enabled := true |}; ae_shared := shared;
  ae_status := default_status; ae_opportunities := [] |}.

Definition order_env (id : Uuid) : OrderEnv := {|
  oe_id := id; oe_created := at_minute 1; oe_now := at_minute 1;
  oe_replies := fun _ => Example_execution.replies; oe_timed := fun _ => InTime; oe_latency_us := 5 |}.
(** Everything answers. *)
Definition env : ArbEnv := {|
  en_position_id := 7%positive; en_signal_id := 8%positive; en_clock := fun _ => at_minute 1;
  en_io := fun _ => {| io_db := true; io_event := true |};
  en_market := Err "unused"; en_upsert := fun _ => true;
  en_yes_book := Ok Example_execution.book; en_no_book := Ok Example_execution.book;
  en_schema_missing := false; en_rollouts := None; en_models := None;
  en_capacity := Example_execution.replies;
  en_yes := order_env 1%positive; en_no := order_env 2%positive |}.
(** A pair at 50 and 45 cents, with 3 cents of net profit. *)
Definition opportunity : ArbOpportunity := {|
  arb_market_id := "m"; arb_timestamp := at_minute 1; yes_ask := d 50 2; no_ask := d 50 2;
  total_cost := d 1 0; gross_profit := d 5 2; net_profit := d 3 2; fee_drag := d 2 2;
  worst_case_payout := d 98 2; yes_fee_shares := d 0 0; no_fee_shares := d 0 0 |}.

Definition no_reason (_ : FailureReason) : string := "".

Lemma breaker_inv : cb_inv breaker.
Proof. split; [done|apply state_wf_default|unfold config_wf, is_u32; simpl; lia|done]. Qed.
Lemma shared_fine : shared_ok shared.
Proof. split; [apply breaker_inv|simpl; lia]. Qed.


Lemma dynamic_size_bounds_witness :
  exists s, dynamic_size opportunity default_arb_config = Some s /\ (25 <= s <= 200)%Q.
Proof.
  destruct (dynamic_size_bounds opportunity default_arb_config default_decision)
    as (s & E & H & _); [by vm_compute..|]. exists s. exact (conj E H).
Defined.

(** The sample signal is traded, the second is skipped. *)
Example sample_signal_trades :
  (w' ← arb_loop no_reason [ArbSignal env opportunity; ArbSignal env opportunity] executor;
   Some (executed (ae_status w'), active_position_skips (ae_status w'),
         omap (fun i => r_state <$> table (ae_shared w') !! i) [7%positive]))
  = Some (1, 1, [1])%Z.
Proof. vm_compute. reflexivity. Qed.
End ArbSample.
