(* ===== verification/ExitHandler.v ===== *)
(** * The exit handler

    Models [ExitHandler] of [crates/api-server/src/exit_handler.rs], which
    closes the positions: the evaluation of the open positions at the current
    bids, the sell orders of a position to exit, the resolution of markets, the
    retries of failed exits and of one-legged entries.  It works on the state
    [Trading.Shared] with the arbitrage executor.  What comes from outside
    while one position is handled is an [ExitEnv].  The table [quant_signals]
    is only read; a JSON value is read through [as_str], [as_i64] and [as_f64].
    The recovery of orphan wallet inventory, the log lines, the metadata of the
    signals and the heartbeat are left out. *)

From S2P Require Import Prelude F64 Platform Handler Market CircuitBreaker Position PositionRepo.
From S2P Require Import PositionService Rollouts TokenCache Executor Signal Trading ArbExecutor.

Local Open Scope handler_scope.

(** [v as i32]. *)
Definition i64_as_i32 (x : Z) : Z := ((x + 2 ^ 31) mod 2 ^ 32 - 2 ^ 31)%Z.
(** [f64::abs]. *)
Definition f64_abs (x : f64) : f64 := SpecFloat.SFabs x.

Section Targets.
Context `{DO : DecimalOps} `{UO : UuidOps}.

Record QuantExitContext : Type := {
  qx_signal_id : Uuid;
  qx_kind : QuantSignalKind;
  qx_direction : SignalDirection;
  qx_metadata : Metadata;
}.
Implicit Types (q : QuantExitContext).

(** *** The exit targets *)

Definition infer_yes_price (yes_bid no_bid : dec) : dec :=
  if (yes_bid >? ZERO)%dec then yes_bid
  else if (no_bid >? ZERO)%dec then dec_max (ONE - no_bid)%dec ZERO
  else ZERO.
Definition infer_no_price (yes_bid no_bid : dec) : dec :=
  if (no_bid >? ZERO)%dec then no_bid
  else if (yes_bid >? ZERO)%dec then dec_max (ONE - yes_bid)%dec ZERO
  else ZERO.

Definition json_decimal (m : Metadata) (key : string) : option dec :=
  value ← m key;
  match as_str value with
  | Some raw => dec_parse raw
  | None => raw ← as_f64 value; dec_from_f64 raw
  end.
Definition json_decimal_abs (m : Metadata) (key : string) : option dec :=
  dec_abs <$> json_decimal m key.

(** The outer [option] is the panic of a division. *)
Definition mean_reversion_target_hit q (current_yes current_no : dec) : option bool :=
  match json_decimal (qx_metadata q) "current_price", json_decimal (qx_metadata q) "previous_price" with
  | Some current_price, Some previous_price =>
      target_yes ← dec_div (current_price + previous_price)%dec (dec_new 2 0);
      Some match qx_direction q with
           | BuyYes => (target_yes <=? current_yes)%dec
           | BuyNo => (dec_max (ONE - target_yes)%dec ZERO <=? current_no)%dec
           end
  | _, _ => Some false
  end.

Definition cross_market_target_hit q (current_yes : dec) : bool :=
  match json_decimal (qx_metadata q) "lag_current_price" with
  | None => false
  | Some lag_current_price =>
      let change key := f64_abs (default f64_zero (v ← qx_metadata q key; as_f64 v)) in
      let gap := f64_max (f64_div (f64_sub (change "lead_change") (change "lag_change"))
                            (f64_of_Z 2)) f64_zero in
      match dec_from_f64 gap with
      | None => false
      | Some divergence_gap =>
          match qx_direction q with
          | BuyYes => (lag_current_price + divergence_gap <=? current_yes)%dec
          | BuyNo => (current_yes <=? dec_max (lag_current_price - divergence_gap) ZERO)%dec
          end
      end
  end.

Definition resolution_lean_decay q (current_yes : dec) : option bool :=
  match json_decimal_abs (qx_metadata q) "deviation" with
  | None => Some false
  | Some entry_deviation =>
      half ← dec_div entry_deviation (dec_new 2 0);
      Some (dec_abs (current_yes - dec_new 50 2)%dec <=? half)%dec
  end.

(** Does the flow no longer support the position? *)
Definition flow_turned q (imbalance_ratio : dec) : bool :=
  let entry_imbalance := default ZERO (json_decimal_abs (qx_metadata q) "imbalance_ratio") in
  let current_sign := (if imbalance_ratio >? ZERO then 1
                       else if imbalance_ratio <? ZERO then -1 else 0)%dec%Z in
  let min_supported_imbalance :=
    dec_max (default ZERO (dec_div entry_imbalance (dec_new 2 0))) (dec_new 15 2) in
  (negb (current_sign =? 0)%Z && negb (current_sign =? direction_sign (qx_direction q))%Z)
  || (dec_abs imbalance_ratio <? min_supported_imbalance)%dec.
Definition flow_window q : Z :=
  i64_as_i32 (default 60%Z (v ← qx_metadata q "window_minutes"; as_i64 v)).

End Targets.

(** ** Configuration *)

(** The steps at which the clock, the database or the CLOB is asked. *)
Inductive ExitStep : Type :=
| XEvaluate | XBids | XUpdate | XReady | XFlow | XContext | XClosing | XTokens
| XYes | XYesAgain | XNo | XNoAgain | XYesFill | XNoFill | XExitFailed | XClose | XBreaker | XTrip
| XResolution | XSellFailed | XOneLegged | XRecover | XPublish.

Section ExitHandler.
Context `{DO : DecimalOps} `{CO : ChronoOps} `{UO : UuidOps} `{JO : !JsonOps} `{SH : !DisplayOps}.
Variable debug_reason : FailureReason -> string.
(** The text of a service's error in a failure reason. *)
Variable show_service_error : ServiceError -> string.
(** Is an [Api] error with status 404 in the chain of the error with this
    text? *)
Variable caused_by_404 : string -> bool.

Record ExitHandlerConfig : Type := {
  xc_enabled : bool;
  exit_poll_interval_secs : Z;
  resolution_check_secs : Z;
  quant_take_profit_pct : dec;
  quant_stop_loss_pct : dec;
  quant_max_hold_hours : Z;
  failed_exit_retry_backoff_secs : Z;
}.

Definition default_exit_config : ExitHandlerConfig := {|
  xc_enabled := false;
  exit_poll_interval_secs := 30;
  resolution_check_secs := 300;
  quant_take_profit_pct := dec_new 15 2;
  quant_stop_loss_pct := dec_new 10 2;
  quant_max_hold_hours := 24;
  failed_exit_retry_backoff_secs := 300;
|}.

Definition exit_config_from_env (env : string -> option string) : ExitHandlerConfig := {|
  xc_enabled := bool_decide (env "EXIT_HANDLER_ENABLED" = Some "true");
  exit_poll_interval_secs := default 30%Z (env "EXIT_POLL_INTERVAL_SECS" ≫= parse_u64);
  resolution_check_secs := default 300%Z (env "EXIT_RESOLUTION_CHECK_SECS" ≫= parse_u64);
  quant_take_profit_pct := env_dec env "QUANT_TAKE_PROFIT_PCT" (dec_new 15 2);
  quant_stop_loss_pct := env_dec env "QUANT_STOP_LOSS_PCT" (dec_new 10 2);
  quant_max_hold_hours := default 24%Z (env "QUANT_MAX_HOLD_HOURS" ≫= parse_i64);
  failed_exit_retry_backoff_secs := default 300%Z (env "EXIT_FAILED_RETRY_BACKOFF_SECS" ≫= parse_u64);
|}.

(** A row of [quant_signals]. *)
Record QuantSignalRow : Type := {
  qr_kind : string;
  qr_direction : string;
  qr_metadata : Metadata;
}.
Variable quant_signals : gmap Uuid QuantSignalRow.

(** The errors a method returns. *)
Inductive ExitError : Type := DbError (e : RepoError) | OrderError (e : string).
Variable show_exit_error : ExitError -> string.

(** What comes from outside while one position is handled: the clock and the
    outcome of the statements, the CLOB's markets and books, the features of
    the flow signals, the surroundings of each order. *)
Record ExitEnv : Type := {
  xe_clock : ExitStep -> datetime;
  xe_io : ExitStep -> Io;
  xe_markets : ExitStep -> result (list Market) string;
  xe_refresh_io : ExitStep -> nat -> bool;
  xe_market : ExitStep -> string -> result Market string;
  xe_upsert : ExitStep -> string -> nat -> bool;
  xe_book : string -> result OrderBook string;
  xe_flow : string -> Z -> result (option dec) RepoError;
  xe_order : ExitStep -> OrderEnv;
  xe_signal_id : Uuid;
}.

Abbreviation method A := (handler Shared (result A ExitError) (result A ExitError)).
Abbreviation piece R A := (handler Shared (result R ExitError) A).

(** A query's error, returned. *)
Definition fetch {R A} (r : result A RepoError) : piece R A :=
  propagate match r with Ok a => Ok a | Err e => Err (DbError e) end.

(** The first outcome named yes or no that has a winner flag. *)
Definition resolved_yes_winner (m : Market) : option bool :=
  head (omap (fun o =>
    winner ← winner o;
    if bool_decide (string_lower (outcome_name o) = "yes") then Some winner
    else if bool_decide (string_lower (outcome_name o) = "no") then Some (negb winner)
    else None) (outcomes m)).

Definition is_not_found_error (e : string) : bool :=
  caused_by_404 e ||
  (let lower := string_lower e in string_contains "404" lower || string_contains "not found" lower).

Definition event_context (mode : string) (source : Z) (q : option QuantExitContext) : EventContext :=
  let '(strategy, source_label) := match q with
    | Some q => (kind_as_str (qx_kind q), "quant")
    | None => if (source =? SOURCE_RECOMMENDATION)%Z then ("quant", "quant") else ("arb", "arb")
    end in
  {| ctx_execution_mode := mode; ctx_strategy := strategy; ctx_source_label := source_label |}.

Definition current_execution_mode (w : Shared) : string := mode_name (is_live_ready (sh_executor w)).
(** The source a context says. *)
Definition context_source (q : option QuantExitContext) : Z :=
  if q then SOURCE_RECOMMENDATION else SOURCE_ARBITRAGE.

(** *** The quant context *)

(** [positions JOIN quant_signals], for one position. *)
Definition context_of_row (t : Table) (id : Uuid) : option QuantExitContext :=
  p ← t !! id;
  signal ← r_source_signal_id p;
  row ← quant_signals !! signal;
  kind ← parse_quant_kind (qr_kind row);
  direction ← parse_signal_direction (qr_direction row);
  Some {| qx_signal_id := signal; qx_kind := kind; qx_direction := direction;
          qx_metadata := qr_metadata row |}.
Definition load_quant_exit_context (io : bool) (id : Uuid) (t : Table)
    : result (option QuantExitContext) RepoError := query io (context_of_row t id).

Definition load_quant_exit_contexts (io : bool) (candidates : list ExitCandidate) (t : Table)
    : result (gmap Uuid QuantExitContext) RepoError :=
  match pos_id ∘ candidate_position <$>
          List.filter (fun c => candidate_source c =? SOURCE_RECOMMENDATION)%Z candidates with
  | [] => Ok ∅
  | ids => query io (list_to_map (omap (fun id => pair id <$> context_of_row t id) ids))
  end.

(** *** One position *)

Section Position.
Variable en : ExitEnv.

(** A call of the service on the position, its failure left to the caller. *)
Definition serve {R A} (f : Service -> Position * Service * result A ServiceError)
    : piece R (Position * result A ServiceError) := update (on_position f).

Definition publish_signal {R} (type : SignalType) (market_id action : string) (confidence : f64)
    : piece R unit :=
  modify (send_signal {|
    su_signal_id := xe_signal_id en; su_signal_type := type; su_market_id := market_id;
    su_outcome_id := "both"; su_action := action; su_confidence := confidence;
    su_timestamp := xe_clock en XPublish |}).
Definition publish_alert {R} (market_id action : string) : piece R unit :=
  publish_signal AlertSignal market_id action f64_zero.

(** *** Tokens *)

Definition refresh_shared {R} (step : ExitStep) : piece R unit :=
  modify (fun w => fst (refresh_cache (xe_markets en step) (xe_refresh_io en step) w)).
Definition cached {R} (market_id : string) : piece R (option (string * string)) :=
  let! w := get_state in ret (cache_get market_id (sh_cache w)).
Definition hydrate {R} (step : ExitStep) (market_id : string) : piece R (option (string * string)) :=
  update (fun w =>
    let '(c, ids) := hydrate_market market_id (xe_market en step market_id)
                       (xe_upsert en step market_id) (sh_cache w) in
    (set_cache c w, ids)).
Definition alias_token {R} (name : string) (ids : string * string) : piece R unit :=
  modify (fun w => set_cache (alias name ids (sh_cache w)) w).

Definition lookup_condition_id_for_token (step : ExitStep) (token_id : string) (w : Shared)
    : result (option string) RepoError :=
  query (io_db (xe_io en step)) (tc_conditions (sh_cache w) !! token_id).

Definition resolve_market_tokens (step : ExitStep) (market_id : string)
    : method (option (string * string)) :=
  let! ids := cached market_id in
  match ids with Some ids => return_ (Ok (Some ids)) | None =>
  refresh_shared step ;;
  let! ids := cached market_id in
  match ids with Some ids => return_ (Ok (Some ids)) | None =>
  let! ids := hydrate step market_id in
  match ids with Some ids => return_ (Ok (Some ids)) | None =>
  let! w := get_state in
  let! condition := fetch (lookup_condition_id_for_token step market_id w) in
  match condition with None => ret (Ok None) | Some condition_id =>
  let! ids := cached condition_id in
  match ids with Some ids => alias_token market_id ids ;; return_ (Ok (Some ids)) | None =>
  let! ids := hydrate step condition_id in
  match ids with Some ids => alias_token market_id ids ;; return_ (Ok (Some ids)) | None =>
  ret (Ok None) end end end end end end.

(** *** Bids *)

Inductive ExitBidStatus : Type :=
| BidsAvailable (yes_bid no_bid : dec)
| BidsResolved
| BidsUnavailable.

(** A missing book and a failed request are the same. *)
Definition load_exit_best_bid (token_id : string) : option dec :=
  match xe_book en token_id with
  | Ok book => Some (default ZERO (best_bid book))
  | Err _ => None
  end.

Definition exit_bid_fallback_status (market_id : string) : ExitBidStatus :=
  match xe_market en XBids market_id with
  | Ok market => if resolved market then BidsResolved else BidsUnavailable
  | Err _ => BidsUnavailable
  end.

Definition current_exit_bids (p : Position) : method ExitBidStatus :=
  let market_id := pos_market_id p in
  let! ids := try_call (resolve_market_tokens XTokens market_id) in
  match ids with
  | None => return_ (Ok BidsUnavailable)
  | Some (yes_token_id, no_token_id) =>
      let '(has_yes, has_no) := held_outcomes p in
      let bid (has : bool) token := if has then load_exit_best_bid token else Some ZERO in
      match bid has_yes yes_token_id with
      | None => return_ (Ok (exit_bid_fallback_status market_id))
      | Some yes_bid =>
          match bid has_no no_token_id with
          | None => return_ (Ok (exit_bid_fallback_status market_id))
          | Some no_bid => ret (Ok (BidsAvailable yes_bid no_bid))
          end
      end
  end.

(** *** Closing *)

Definition exit_fee : dec := dec_new 2 2.

(** Book the close with the breaker, unblock the market, tell the clients. *)
Definition book_close {R} (market_id action : string) (p : Position) : piece R unit :=
  let realized_pnl := default ZERO (realized_pnl p) in
  let is_win := (realized_pnl >? ZERO)%dec in
  let! _ := try_update (breaker_record_trade (io_db (xe_io en XBreaker)) (xe_clock en XBreaker)
                          (xe_clock en XTrip) realized_pnl is_win) in
  modify (dedup_remove market_id) ;;
  publish_signal ArbitrageSignal market_id action f64_one.

(** How a resolved market is closed; [None] if the price is not known. *)
Definition resolution_method (p : Position) (resolved_yes_winner : option bool) : option CloseMethod :=
  match resolved_yes_winner with
  | Some yes_wins => Some (ResolutionWithWinner yes_wins exit_fee)
  | None => if has_full_pair_exposure p then Some (ResolutionConservative exit_fee) else None
  end.

Definition finalize_resolution_close (p : Position) (source : Z) (q : option QuantExitContext)
    (resolved_yes_winner : option bool) : method bool :=
  match resolution_method p resolved_yes_winner with
  | None => return_ (Ok false)
  | Some close_method =>
      let market_id := pos_market_id p in
      let! w := get_state in
      let ctx := event_context (current_execution_mode w) source q in
      let! (p, closed) := serve (close_position (xe_io en XClose) (xe_clock en XClose) close_method
                                   ctx p) in
      match closed with
      | Err _ => return_ (Ok false)
      | Ok _ => book_close market_id "closed_via_resolution" p ;; ret (Ok true)
      end
  end.

(** [close_open_position_via_resolution] and
    [close_via_resolution_if_market_resolved], by the step that asks. *)
Definition close_if_resolved (step : ExitStep) (p : Position) (source : Z)
    (q : option QuantExitContext) : method bool :=
  match xe_market en step (pos_market_id p) with
  | Err _ => return_ (Ok false)
  | Ok market =>
      if negb (resolved market) then return_ (Ok false)
      else finalize_resolution_close p source q (resolved_yes_winner market)
  end.
Definition close_open_position_via_resolution := close_if_resolved XResolution.
Definition close_via_resolution_if_market_resolved (p : Position) (q : option QuantExitContext) :=
  close_if_resolved XSellFailed p (context_source q) q.

(** *** Selling *)

Definition sell_order (oe : OrderEnv) (market_id token : string) (qty : dec) : MarketOrder :=
  market_order_new (oe_id oe) (oe_created oe) market_id token Sell qty.
Definition sell {R} (step : ExitStep) (market_id token : string) (qty : dec)
    : piece R (result ExecutionReport string) :=
  let oe := xe_order en step in
  try_update (place_market_order oe (sell_order oe market_id token qty)).

(** A sell order; after a 404, one more with the refreshed token, if it
    changed. *)
Definition execute_sell_order_with_refresh (step again : ExitStep) (leg : Leg)
    (market_id token_id : string) (qty : dec) : method ExecutionReport :=
  let! result := sell step market_id token_id qty in
  match result with
  | Ok report => ret (Ok report)
  | Err error =>
      if negb (is_not_found_error error) then ret (Err (OrderError error)) else
      refresh_shared again ;;
      let! ids := try_call (resolve_market_tokens again market_id) in
      match ids with
      | None => return_ (Err (OrderError error))
      | Some (yes_token_id, no_token_id) =>
          let refreshed := match leg with YES => yes_token_id | NO => no_token_id end in
          if bool_decide (refreshed = token_id) then return_ (Err (OrderError error)) else
          let! retried := sell again market_id refreshed qty in
          ret match retried with Ok r => Ok r | Err e => Err (OrderError e) end
      end
  end.

Definition leg_name (leg : Leg) : string := match leg with YES => "YES" | NO => "NO" end.

(** The exit failed: the position says why, the clients are told. *)
Definition fail_exit (reason : FailureReason) (ctx : EventContext) (p : Position)
    : piece unit Position :=
  serve (service_mark_exit_failed debug_reason (xe_io en XExitFailed) (xe_clock en XExitFailed)
           reason ctx p) ;;
  publish_alert (pos_market_id p) "exit_failed" ;; return_ (Ok tt).

(** Sell one leg and record the fill. *)
Definition exit_leg (leg : Leg) (step again fill : ExitStep) (token_id : string)
    (q : option QuantExitContext) (ctx : EventContext) (p : Position) : piece unit Position :=
  let name := leg_name leg in
  let! sold := call (execute_sell_order_with_refresh step again leg (pos_market_id p) token_id
                       (quantity p)) in
  match sold with
  | Err e =>
      let! closed := try_call (close_via_resolution_if_market_resolved p q) in
      if closed : bool then return_ (Ok tt)
      else fail_exit (ConnectivityError (name +:+ " sell error: " +:+ show_exit_error e)) ctx p
  | Ok report =>
      if negb (is_success report) then
        let msg := default (name +:+ " sell not filled") (er_error_message report) in
        fail_exit (OrderRejected (name +:+ " sell failed: " +:+ msg)) ctx p
      else
        let! (p, recorded) := serve (record_exit_fill (xe_io en fill) (xe_clock en fill) leg
                                (er_average_price report) (er_filled_quantity report) ctx p) in
        match recorded with
        | Err e =>
            fail_exit (UnknownFailure ("failed to record " +:+ name +:+ " exit fill: "
                                       +:+ show_service_error e)) ctx p
        | Ok _ => ret p
        end
  end.

(** Sell what an ExitReady position holds and close it. *)
Definition execute_exit (p : Position) : method unit :=
  let market_id := pos_market_id p in
  let! w := get_state in
  let mode := current_execution_mode w in
  let q := match load_quant_exit_context (io_db (xe_io en XContext)) (pos_id p) (table w) with
           | Ok q => q
           | Err _ => None
           end in
  let ctx := event_context mode (context_source q) q in
  let! (p, marked) := serve (service_mark_closing (xe_io en XClosing) (xe_clock en XClosing) ctx p) in
  match marked with
  | Err _ => return_ (Ok tt)
  | Ok _ =>
      let! ids := try_call (resolve_market_tokens XTokens market_id) in
      match ids with
      | None =>
          let! _ := fail_exit (ConnectivityError "No token IDs for market") ctx p in ret (Ok tt)
      | Some (yes_token_id, no_token_id) =>
          let '(has_yes, has_no) := held_outcomes p in
          let! p := if has_yes : bool
                    then exit_leg YES XYes XYesAgain XYesFill yes_token_id q ctx p else ret p in
          let! p := if has_no : bool
                    then exit_leg NO XNo XNoAgain XNoFill no_token_id q ctx p else ret p in
          let! (p, closed) := serve (close_position (xe_io en XClose) (xe_clock en XClose)
                                       (MarketExit exit_fee) ctx p) in
          match closed with
          | Err _ => return_ (Ok tt)
          | Ok _ => book_close market_id "closed_via_exit" p ;; ret (Ok tt)
          end
      end
  end.

(** *** Open positions *)

(** The profit in percent of the cost. *)
Definition pnl_pct (p : Position) : option dec :=
  if (position_cost p >? ZERO)%dec
  then x ← dec_div (unrealized_pnl p) (position_cost p); Some (x * dec_new 100 0)%dec
  else Some ZERO.

Definition generic_quant_exit (now : datetime) (cfg : ExitHandlerConfig) (p : Position)
    : option bool :=
  x ← pnl_pct p;
  let held_hours := hours_since now (entry_timestamp p) in
  Some ((quant_take_profit_pct cfg <=? x)%dec || (x <=? dec_neg (quant_stop_loss_pct cfg))%dec
        || (quant_max_hold_hours cfg <=? held_hours)%Z).

(** A failed query is no exit. *)
Definition flow_strategy_exit (p : Position) (q : QuantExitContext) : bool :=
  match xe_flow en (pos_market_id p) (flow_window q) with
  | Ok (Some imbalance_ratio) => flow_turned q imbalance_ratio
  | Ok None | Err _ => false
  end.

Definition should_mark_exit_ready (p : Position) (source : Z) (q : option QuantExitContext)
    (yes_bid no_bid : dec) (cfg : ExitHandlerConfig) : option bool :=
  if negb (source =? SOURCE_RECOMMENDATION)%Z then Some (unrealized_pnl p >? ZERO)%dec
  else
    generic_exit ← generic_quant_exit (xe_clock en XEvaluate) cfg p;
    if generic_exit : bool then Some true
    else match q with
    | None => Some false
    | Some q =>
        let current_yes := infer_yes_price yes_bid no_bid in
        let current_no := infer_no_price yes_bid no_bid in
        match qx_kind q with
        | Flow => Some (flow_strategy_exit p q)
        | MeanReversion => mean_reversion_target_hit q current_yes current_no
        | CrossMarket => Some (cross_market_target_hit q current_yes)
        | ResolutionProximity => resolution_lean_decay q current_yes
        end
    end.

(** One candidate of [evaluate_open_positions]; an error ends the loop. *)
Definition evaluate_candidate (cfg : ExitHandlerConfig) (contexts : gmap Uuid QuantExitContext)
    (c : ExitCandidate) : method unit :=
  let p := candidate_position c in
  let source := candidate_source c in
  let q := contexts !! pos_id p in
  let! bids := try_call (current_exit_bids p) in
  match bids with
  | BidsResolved =>
      let! _ := try_call (close_open_position_via_resolution p source q) in return_ (Ok tt)
  | BidsUnavailable => return_ (Ok tt)
  | BidsAvailable yes_bid no_bid =>
      let p := update_pnl (xe_clock en XUpdate) yes_bid no_bid exit_fee p in
      let! r := update (fun w => let '(t, r) := repo_update (io_db (xe_io en XUpdate)) p (table w) in
                                 (set_table t w, r)) in
      let! _ := fetch r in
      let! ready := attempt (should_mark_exit_ready p source q yes_bid no_bid cfg) in
      if ready : bool then
        let! w := get_state in
        let ctx := event_context (current_execution_mode w) source q in
        let! _ := serve (service_mark_exit_ready (xe_io en XReady) (xe_clock en XReady)
                           "spread_normalized" ctx p) in
        ret (Ok tt)
      else ret (Ok tt)
  end.

(** *** Retries *)

Definition recover_failed_exit (cfg : ExitHandlerConfig) (p : Position) : piece unit unit :=
  if (age_secs (xe_clock en XRecover) p <? failed_exit_retry_backoff_secs cfg)%Z then ret tt
  else
    let! w := get_state in
    let q := match load_quant_exit_context (io_db (xe_io en XContext)) (pos_id p) (table w) with
             | Ok q => q
             | Err _ => None
             end in
    let ctx := event_context (current_execution_mode w) (context_source q) q in
    let! _ := serve (service_exit_recovery (xe_io en XRecover) (xe_clock en XRecover) ctx p) in
    ret tt.

Definition one_legged_msg : string := "one-legged recovery: flattening held YES leg".

(** A one-legged entry: to ExitReady, then through the exit. *)
Definition recover_one_legged (p : Position) : piece unit unit :=
  if (yes_entry_price p <=? ZERO)%dec then ret tt
  else
    let! w := get_state in
    let ctx := event_context (current_execution_mode w) SOURCE_ARBITRAGE None in
    let! (p, moved) := serve (transition_one_legged_to_exit_ready (xe_io en XOneLegged)
                         (xe_clock en XOneLegged) "yes" one_legged_msg ctx p) in
    match moved with
    | Err _ => ret tt
    | Ok _ =>
        modify (dedup_insert (pos_market_id p)) ;;
        let! _ := call (execute_exit p) in ret tt
    end.
End Position.

(** ** The ticks *)

(** The passes over the positions a tick makes. *)
Inductive Pass : Type := EvaluatePass | FailedPass | ReadyPass | OneLeggedPass | ResolutionPass.

(** What comes from outside during a tick. *)
Record TickEnv : Type := {
  te_list : Pass -> bool;
  te_contexts : bool;
  te_market : string -> result Market string;
  te_of : Pass -> Uuid -> ExitEnv;
}.

Section Tick.
Variable te : TickEnv.

Definition evaluate_open_positions (cfg : ExitHandlerConfig) : method unit :=
  let! w := get_state in
  let! candidates := fetch (get_open_exit_candidates (te_list te EvaluatePass) (table w)) in
  match candidates with [] => return_ (Ok tt) | _ =>
    let! contexts := fetch (load_quant_exit_contexts (te_contexts te) candidates (table w)) in
    for_each (fun c => try_call (evaluate_candidate
                (te_of te EvaluatePass (pos_id (candidate_position c))) cfg contexts c)) candidates ;;
    ret (Ok tt)
  end.

(** Every position of the list; the failure of one is logged. *)
Definition process_exit_ready : method unit :=
  let! w := get_state in
  let! positions := fetch (get_exit_ready (te_list te ReadyPass) (table w)) in
  for_each (fun p => let! _ := call (execute_exit (te_of te ReadyPass (pos_id p)) p) in ret tt)
    positions ;;
  ret (Ok tt).

Definition process_failed_exits (cfg : ExitHandlerConfig) : method unit :=
  let! w := get_state in
  let! positions := fetch (get_failed_exits (te_list te FailedPass) (table w)) in
  for_each (fun p => recover_failed_exit (te_of te FailedPass (pos_id p)) cfg p) positions ;;
  ret (Ok tt).

Definition process_one_legged_recovery : method unit :=
  let! w := get_state in
  let! positions := fetch (get_one_legged_entry_failed (te_list te OneLeggedPass) (table w)) in
  for_each (fun p => recover_one_legged (te_of te OneLeggedPass (pos_id p)) p) positions ;;
  ret (Ok tt).

(** The winner flags of the resolved markets among those of the positions. *)
Definition resolved_markets (positions : list Position) : gmap string (option bool) :=
  list_to_map (omap (fun id =>
    match te_market te id with
    | Ok market => if resolved market then Some (id, resolved_yes_winner market) else None
    | Err _ => None
    end) (elements (list_to_set (pos_market_id <$> positions) : gset string))).

Definition resolve_position (markets : gmap string (option bool)) (p : Position) : piece unit unit :=
  match markets !! pos_market_id p with
  | None => ret tt
  | Some yes_winner =>
      let! _ := try_call (finalize_resolution_close (te_of te ResolutionPass (pos_id p)) p
                            SOURCE_ARBITRAGE None yes_winner) in
      ret tt
  end.

Definition check_market_resolutions : method unit :=
  let! w := get_state in
  let! positions := fetch (get_hold_to_resolution (te_list te ResolutionPass) (table w)) in
  match positions with [] => return_ (Ok tt) | _ =>
    for_each (resolve_position (resolved_markets positions)) positions ;; ret (Ok tt)
  end.

(** One exit tick; the failure of a pass is logged. *)
Definition exit_tick (cfg : ExitHandlerConfig) (w : Shared) : option Shared :=
  if negb (xc_enabled cfg) then Some w else
  '(w, _) ← run_handler (evaluate_open_positions cfg) w;
  '(w, _) ← run_handler (process_failed_exits cfg) w;
  '(w, _) ← run_handler process_exit_ready w;
  '(w, _) ← run_handler process_one_legged_recovery w;
  Some w.

Definition resolution_tick (cfg : ExitHandlerConfig) (w : Shared) : option Shared :=
  if negb (xc_enabled cfg) then Some w else fst <$> run_handler check_market_resolutions w.
End Tick.

(** ** The tasks together *)

(** The executor's inputs and the handler's ticks, in any order.  The
    configuration of the handler is read at each tick. *)
Inductive task_input : Type :=
| ArbTurn (i : arb_input)
| ExitTick (cfg : ExitHandlerConfig) (te : TickEnv)
| ResolutionTick (cfg : ExitHandlerConfig) (te : TickEnv).

Definition on_tick (f : Shared -> option Shared) (w : ArbAutoExecutor) : option ArbAutoExecutor :=
  sh ← f (ae_shared w); Some {| w with ae_shared := sh |}.

Definition task_turn (i : task_input) (w : ArbAutoExecutor) : option ArbAutoExecutor :=
  match i with
  | ArbTurn i => arb_turn debug_reason i w
  | ExitTick cfg te => on_tick (exit_tick te cfg) w
  | ResolutionTick cfg te => on_tick (resolution_tick te cfg) w
  end.
Definition task_loop (inputs : list task_input) (w : ArbAutoExecutor) : option ArbAutoExecutor :=
  foldl (fun o i => w ← o; task_turn i w) (Some w) inputs.

End ExitHandler.
