(* ===== verification/ExitHandlerFacts.v ===== *)
(** * Properties of the exit handler

    What handling one position may change, how an exit ends, when a position is
    booked with the circuit breaker, and what becomes of the positions the
    arbitrage executor leaves with one leg. *)

From S2P Require Import Prelude F64 Platform Handler Market CircuitBreaker CircuitBreakerFacts.
From S2P Require Import Position PositionFacts PositionRepo PositionRepoFacts PositionService.
From S2P Require Import PositionServiceFacts Rollouts TokenCache Executor ExecutorFacts Trading.
From S2P Require Import ArbExecutor ArbExecutorFacts ArbEntryFacts ExitHandler.

Local Open Scope handler_scope.

Section Facts.
Context `{DO : DecimalOps} `{CO : ChronoOps} `{UO : UuidOps} `{JO : !JsonOps} `{SH : !DisplayOps}.
Context {DS : DecimalSpec} {EX : DecimalExact}.
Variable debug_reason : FailureReason -> string.
Variable show_service_error : ServiceError -> string.
Variable caused_by_404 : string -> bool.
Variable show_exit_error : ExitError -> string.
Variable quant_signals : gmap Uuid QuantSignalRow.
Implicit Types (w : Shared) (en : ExitEnv) (p : Position) (id : Uuid).

(** *** What handling one position changes *)

(** The columns no UPDATE sets. *)
Definition same_entry (r r' : PositionRow) : Prop :=
  r_id r' = r_id r /\ r_market_id r' = r_market_id r /\ r_source r' = r_source r /\
  r_yes_entry_price r' = r_yes_entry_price r /\ r_no_entry_price r' = r_no_entry_price r /\
  r_quantity r' = r_quantity r /\ r_source_signal_id r' = r_source_signal_id r /\
  r_exit_strategy r' = r_exit_strategy r.

(** Only the row of [id] changes, and not its entry. *)
Record frame id w w' : Prop := {
  fr_others : forall j, j <> id -> table w' !! j = table w !! j;
  fr_row : option_Forall2 same_entry (table w !! id) (table w' !! id);
  fr_executor : ex_config (sh_executor w') = ex_config (sh_executor w);
}.
(** And neither the breaker nor the dedup set. *)
Record touches id w w' : Prop := {
  to_frame : frame id w w';
  to_breaker : sh_breaker w' = sh_breaker w;
  to_dedup : sh_dedup w' = sh_dedup w;
}.

Lemma entry_refl r : same_entry r r.
Proof. by unfold same_entry. Qed.
Lemma same_entry_trans r1 r2 r3 : same_entry r1 r2 -> same_entry r2 r3 -> same_entry r1 r3.
Proof. unfold same_entry. intuition congruence. Qed.
Lemma same_entry_update p r : same_entry r (update_row p r).
Proof. by unfold same_entry. Qed.

Lemma frame_trans id w1 w2 w3 : frame id w1 w2 -> frame id w2 w3 -> frame id w1 w3.
Proof.
  intros [O1 R1 X1] [O2 R2 X2]. split.
  - intros j Hj. by rewrite O2, O1.
  - destruct R1 as [r1 r2 H1|]; inversion R2; subst; constructor. by eapply same_entry_trans.
  - congruence.
Qed.
Lemma touches_trans id w1 w2 w3 : touches id w1 w2 -> touches id w2 w3 -> touches id w1 w3.
Proof. intros [] []. split; [by eapply frame_trans|congruence..]. Qed.

Lemma frame_same id w w' :
  table w' = table w -> ex_config (sh_executor w') = ex_config (sh_executor w) -> frame id w w'.
Proof.
  intros Ht Hx. split; [by rewrite Ht| |done]. rewrite Ht.
  destruct (table w !! id); constructor. apply entry_refl.
Qed.
Lemma touches_refl id w : touches id w w.
Proof. split; [by apply frame_same|done..]. Qed.

Lemma frame_update id p w t :
  pos_id p = id -> t = alter (update_row p) id (table w) -> frame id w (set_table t w).
Proof.
  intros Hid ->. split; [| |done].
  - intros j Hj. change (table (set_table ?t w)) with t. by rewrite lookup_alter_ne.
  - change (table (set_table ?t w)) with t. rewrite lookup_alter_eq.
    destruct (table w !! id); constructor. apply same_entry_update.
Qed.

Lemma touches_service id p w s' :
  pos_id p = id -> svc_table s' = alter (update_row p) id (table w) -> touches id w (set_service s' w).
Proof.
  intros Hid Hs. split; [|done..].
  destruct (frame_update id p w _ Hid Hs) as [H1 H2 _]. by split.
Qed.

(** A call of the service that keeps its contract. *)
Lemma wp_serve {R A B} io p (f : Service -> Position * Service * result A ServiceError)
    (k : Position * result A ServiceError -> handler Shared (result R ExitError) B) Q w :
  outcome io p (sh_service w) (f (sh_service w)) ->
  (forall p' s' r, f (sh_service w) = (p', s', r) -> pos_id p' = pos_id p ->
     touches (pos_id p) w (set_service s' w) -> wp (k (p', r)) Q (set_service s' w)) ->
  wp (bind (serve f) k) Q w.
Proof.
  intros Ho Hk. apply wp_bind. unfold serve, on_position. apply wp_update.
  unfold outcome in Ho. destruct (f (sh_service w)) as [[p' s'] r] eqn:Ef.
  intros w' [q r'] [= <- <- <-]. destruct Ho as [Hid Hc]. apply Hk; [done..|].
  destruct (is_ok r).
  - destruct Hc as [[-> ->]|[Ht _]].
    + destruct w. apply touches_refl.
    + eapply touches_service; [exact Hid|]. by rewrite <- Hid.
  - destruct Hc as [-> _]. destruct w. apply touches_refl.
Qed.

(** *** Tokens *)

(** Only the cache changes. *)
Definition cache_only w w' : Prop := exists c, w' = set_cache c w.
Lemma cache_only_refl w : cache_only w w.
Proof. exists (sh_cache w). by destruct w. Qed.
Lemma cache_only_trans w1 w2 w3 : cache_only w1 w2 -> cache_only w2 w3 -> cache_only w1 w3.
Proof. intros [c ->] [c' ->]. by exists c'. Qed.
Lemma cache_only_touches id w w' : cache_only w w' -> touches id w w'.
Proof. intros [c ->]. split; [by apply frame_same|done..]. Qed.

Lemma wp_cached {R B} m (k : option (string * string) -> handler Shared (result R ExitError) B) Q w :
  wp (k (cache_get m (sh_cache w))) Q w -> wp (bind (cached m) k) Q w.
Proof. done. Qed.
Lemma wp_refresh {R B} en step (k : unit -> handler Shared (result R ExitError) B) Q w :
  (forall w', cache_only w w' -> wp (k tt) Q w') -> wp (bind (refresh_shared en step) k) Q w.
Proof.
  intros H. apply wp_bind, wp_modify, H. unfold refresh_cache. destruct (refresh _ _ _). by eexists.
Qed.
Lemma wp_hydrate {R B} en step m (k : option (string * string) -> handler Shared (result R ExitError) B) Q w :
  (forall w' ids, cache_only w w' -> wp (k ids) Q w') -> wp (bind (hydrate en step m) k) Q w.
Proof.
  intros H. apply wp_bind, wp_update. intros w' ids. destruct (hydrate_market _ _ _ _) as [c ids'].
  intros [= <- <-]. apply H. by eexists.
Qed.

(** The resolution of the tokens changes the cache only; its one error is the
    query of [token_condition_cache]; a market in the cache needs no query. *)
Lemma resolve_spec en step m w :
  wp (resolve_market_tokens en step m) (fun w' f => cache_only w w' /\
    match match f with Go r | Return r => r end with
    | Ok ids => cache_get m (sh_cache w) <> None -> ids = cache_get m (sh_cache w) /\ w' = w
    | Err e => e = DbError QueryFailed /\ cache_get m (sh_cache w) = None /\
               io_db (xe_io en step) = false
    end) w.
Proof.
  unfold resolve_market_tokens. apply wp_cached.
  destruct (cache_get m (sh_cache w)) as [ids|] eqn:E0.
  { apply wp_return. split; [apply cache_only_refl|done]. }
  apply wp_refresh. intros w1 H1. apply wp_cached.
  destruct (cache_get m (sh_cache w1)) as [ids|]; [by apply wp_return|].
  apply wp_hydrate. intros w2 [ids|] H2; pose proof (cache_only_trans _ _ _ H1 H2) as H12.
  { by apply wp_return. }
  apply wp_bind, wp_get. cbv beta iota. apply wp_bind. unfold fetch, lookup_condition_id_for_token, query.
  destruct (io_db (xe_io en step)) eqn:Eio; simpl; [|by apply wp_return].
  apply wp_ret. destruct (_ !! m) as [condition|]; [|by apply wp_ret].
  apply wp_cached. destruct (cache_get condition (sh_cache w2)) as [ids|].
  { apply wp_bind, wp_modify. apply wp_return. split; [|done].
    eapply cache_only_trans; [exact H12|]. by eexists. }
  apply wp_hydrate. intros w3 ids H3. pose proof (cache_only_trans _ _ _ H12 H3) as H13.
  destruct ids as [ids|]; [|by apply wp_ret].
  apply wp_bind, wp_modify. apply wp_return. split; [|done].
  eapply cache_only_trans; [exact H13|]. by eexists.
Qed.

(** *** Orders *)

Abbreviation retries_ok w := (0 <= max_retries (ex_config (sh_executor w)) < 2 ^ 32 - 1)%Z.

(** A sell order always has a report: the executor turns every failure into a
    rejection. *)
Lemma wp_sell {R B} en step m token qty
    (k : result ExecutionReport string -> handler Shared (result R ExitError) B) Q w :
  retries_ok w ->
  (forall x' r placed, let w' := {| (set_executor x' w) with sh_placed := sh_placed w ++ placed |} in
     execute_market_order (oe_now (xe_order en step)) (oe_replies (xe_order en step))
       (oe_timed (xe_order en step)) (oe_latency_us (xe_order en step))
       (sell_order (xe_order en step) m token qty) (sh_executor w) = Some (x', Ok r, placed) ->
     (forall id, touches id w w') -> wp (k (Ok r)) Q w') ->
  wp (bind (sell en step m token qty) k) Q w.
Proof.
  intros Hm Hk. apply wp_bind. unfold sell.
  edestruct execute_market_order_some as (x' & r & placed & E); [exact Hm|].
  eapply wp_try_update; [unfold place_market_order; rewrite E; done|]. cbv beta iota.
  apply Hk; [done|]. intros id. split; [|done..]. apply frame_same; [done|].
  by apply execute_keeps_config in E.
Qed.
(** The sale of a leg never returns an error, whatever the exchange answers. *)
Lemma sell_with_refresh_spec en step again leg m token qty w :
  retries_ok w ->
  wp (execute_sell_order_with_refresh caused_by_404 en step again leg m token qty) (fun w' f =>
    exists r x' placed, f = Go (Ok r) /\
      w' = {| (set_executor x' w) with sh_placed := sh_placed w ++ placed |} /\
      execute_market_order (oe_now (xe_order en step)) (oe_replies (xe_order en step))
        (oe_timed (xe_order en step)) (oe_latency_us (xe_order en step))
        (sell_order (xe_order en step) m token qty) (sh_executor w) = Some (x', Ok r, placed) /\
      forall id, touches id w w') w.
Proof.
  intros Hm. unfold execute_sell_order_with_refresh. apply wp_sell; [done|].
  intros x' r placed w' E Ht. apply wp_ret. by exists r, x', placed.
Qed.

Lemma touches_retries id w w' : touches id w w' -> retries_ok w -> retries_ok w'.
Proof. intros [[_ _ ->] _ _]. done. Qed.

(** *** The exit *)

(** The row of [id], if it is still there, is in this state. *)
Definition row_in id (st : PositionState) w : Prop :=
  forall r, table w !! id = Some r -> r_state r = state_code st.
Definition exit_failed en id w w' : Prop :=
  touches id w w' /\ (io_db (xe_io en XExitFailed) = true -> row_in id ExitFailed w').

Lemma persist_row_in io what e p s p' s' r st :
  persist_and_record io what e p s = (p', s', r) -> io_db io = true -> pos_state p = st ->
  forall row, svc_table s' !! pos_id p = Some row -> r_state row = state_code st.
Proof.
  intros E Hio <- row. rewrite persist_ok in E by done. simplify_eq. unfold record_warn.
  destruct (io_event io); simpl; rewrite lookup_alter_eq;
    destruct (svc_table s !! _); simpl; by intros [= <-].
Qed.

Lemma wp_fail_exit en reason ctx p w0 w (Q : Shared -> flow (result unit ExitError) Position -> Prop) :
  touches (pos_id p) w0 w ->
  (forall w', exit_failed en (pos_id p) w0 w' -> Q w' (Return (Ok tt))) ->
  wp (fail_exit debug_reason en reason ctx p) Q w.
Proof.
  intros H0 HQ. unfold fail_exit. apply (wp_serve (xe_io en XExitFailed) p).
  { by apply outcome_persist. }
  intros p' s' r E Hid Ht. cbv beta. unfold publish_alert, publish_signal.
  apply wp_bind, wp_modify. apply wp_return. apply HQ. split.
  - eapply touches_trans; [exact H0|]. eapply touches_trans; [exact Ht|]. split; [by apply frame_same|done..].
  - intros Hio row Hrow. eapply persist_row_in in E; [|exact Hio|reflexivity|exact Hrow]. exact E.
Qed.

(** One leg: the fill is recorded, or the exit has failed. *)
Lemma exit_leg_spec en leg step again fill token q ctx p w :
  retries_ok w ->
  wp (exit_leg debug_reason show_service_error caused_by_404 show_exit_error en leg step again fill
        token q ctx p) (fun w' f =>
    match f with
    | Go p' => pos_id p' = pos_id p /\ touches (pos_id p) w w'
    | Return r => r = Ok tt /\ exit_failed en (pos_id p) w w'
    end) w.
Proof.
  intros Hm. unfold exit_leg. apply wp_bind, wp_call.
  eapply wp_mono; [by apply sell_with_refresh_spec|].
  intros w1 f (report & x' & placed & -> & _ & _ & H1). cbv beta iota.
  destruct (is_success report); simpl negb; cbv beta iota; cycle 1.
  { eapply wp_fail_exit; [apply H1|]. by intros w' H. }
  apply (wp_serve (xe_io en fill) p); [apply record_exit_fill_outcome|].
  intros p' s' r E Hid Ht. pose proof (touches_trans _ _ _ _ (H1 _) Ht) as H2. cbv beta iota.
  destruct r as [[]|e].
  - by apply wp_ret.
  - rewrite <- Hid in *. eapply wp_fail_exit; [exact H2|]. by intros w' H.
Qed.

Lemma close_position_ok io now m ctx p s p' s' :
  close_position io now m ctx p s = (p', s', Ok tt) ->
  io_db io = true /\ emptied p p' /\ pos_id p' = pos_id p /\
  svc_table s' = alter (update_row p') (pos_id p) (svc_table s).
Proof.
  intros E. assert (Hio : io_db io = true).
  { unfold close_position, persist_and_record, repo_update in E.
    destruct (io_db io); [done|]. destruct m; split_cases. }
  split; [done|]. pose proof (close_position_emptied _ _ _ _ _ _ _ _ Hio E) as He.
  split; [done|]. pose proof (close_position_outcome io now m ctx p s) as Ho. unfold outcome in Ho.
  rewrite E in Ho. destruct Ho as [Hid [[-> _]|[Ht _]]]; [|by rewrite <- Hid].
  exfalso. unfold close_position in E. destruct He as [He _].
  destruct m; [unfold close_via_recorded_exit in E|unfold close_via_resolution_with_winner in E
    |unfold close_via_resolution in E]; by rewrite He in E.
Qed.
(** Position [p] was closed, once: its row, the breaker, the dedup set. *)
Record booked en id market w w' : Prop := {
  bk_close : exists p p' method ctx s s' trip,
    close_position (xe_io en XClose) (xe_clock en XClose) method ctx p s = (p', s', Ok tt) /\
    emptied p p' /\ table w' = svc_table s' /\ pos_id p' = id /\
    record_trade (io_db (xe_io en XBreaker)) (xe_clock en XBreaker) (xe_clock en XTrip)
      (default ZERO (realized_pnl p')) (default ZERO (realized_pnl p') >? ZERO)%dec
      (sh_breaker w) = Some (sh_breaker w', trip);
  bk_row : row_in id Closed w';
  bk_frame : frame id w w';
  bk_dedup : sh_dedup w' = sh_dedup w ∖ {[market]};
}.

Lemma booked_after en id market w0 w w' :
  touches id w0 w -> booked en id market w w' -> booked en id market w0 w'.
Proof.
  intros [Hf Hb Hd] [Hc Hr Hf' Hd']. split; [by rewrite <- Hb|done|by eapply frame_trans|by rewrite <- Hd].
Qed.

(** Closing a position: booked if the service closed it, else nothing. *)
Lemma wp_close {R B} en method ctx p market action
    (k : Position * result unit ServiceError -> handler Shared (result R ExitError) B)
    (m : handler Shared (result R ExitError) B) Q w :
  cb_inv (sh_breaker w) ->
  (forall p' s' e w', close_position (xe_io en XClose) (xe_clock en XClose) method ctx p (sh_service w)
                   = (p', s', Err e) -> touches (pos_id p) w w' -> wp (k (p', Err e)) Q w') ->
  (forall p', k (p', Ok tt) = (book_close en market action p' ;; m)) ->
  (forall w', booked en (pos_id p) market w w' -> cb_inv (sh_breaker w') -> wp m Q w') ->
  wp (bind (serve (close_position (xe_io en XClose) (xe_clock en XClose) method ctx p)) k) Q w.
Proof.
  intros Hb He Hk Hm. apply (wp_serve (xe_io en XClose) p); [apply close_position_outcome|].
  intros p' s' r E Hid Ht. destruct r as [[]|e]; [|by eapply He; [exact E|]]. rewrite Hk.
  destruct (close_position_ok _ _ _ _ _ _ _ _ E) as (Hio & Hem & _ & Htab).
  apply wp_bind. unfold book_close. apply wp_bind.
  destruct (record_trade_keeps (io_db (xe_io en XBreaker)) (xe_clock en XBreaker) (xe_clock en XTrip)
    (default ZERO (realized_pnl p')) (default ZERO (realized_pnl p') >? ZERO)%dec (sh_breaker w) Hb)
    as (b' & trip & Er & Hb').
  eapply wp_try_update; [unfold breaker_record_trade; simpl; by rewrite Er|].
  cbv beta iota. apply wp_bind, wp_modify. cbv beta iota. unfold publish_signal. apply wp_modify.
  apply Hm; [|done]. destruct Ht as [[Ho Hrow Hx] _ _].
  split; [| |by split|done].
  - exists p, p', method, ctx, (sh_service w), s', trip. by split_and!.
  - intros row Hr. change (svc_table s' !! pos_id p = Some row) in Hr. rewrite Htab, lookup_alter_eq in Hr.
    destruct (svc_table (sh_service w) !! pos_id p); simpl in Hr; [|done].
    injection Hr as <-. simpl. by rewrite (proj1 Hem).
Qed.

(** How an exit ends: nothing is done to a position that is not ExitReady; the
    tokens could not be resolved; the exit failed; the close failed; or the
    position was closed and booked. *)
Definition exit_end en p w w' (r : result unit ExitError) : Prop :=
  (r = Ok tt /\ w' = w /\ pos_state p <> ExitReady) \/
  (r = Err (DbError QueryFailed) /\ touches (pos_id p) w w' /\ io_db (xe_io en XTokens) = false) \/
  (r = Ok tt /\ exit_failed en (pos_id p) w w') \/
  (r = Ok tt /\ touches (pos_id p) w w') \/
  (r = Ok tt /\ booked en (pos_id p) (pos_market_id p) w w' /\ cb_inv (sh_breaker w')).

Lemma execute_exit_spec en p w :
  shared_ok w ->
  wp (execute_exit debug_reason show_service_error caused_by_404 quant_signals show_exit_error en p)
    (fun w' f => exit_end en p w w' match f with Go r | Return r => r end) w.
Proof.
  intros [Hb Hm]. unfold execute_exit. apply wp_bind, wp_get. cbv beta iota zeta.
  generalize (match load_quant_exit_context quant_signals (io_db (xe_io en XContext)) (pos_id p) (table w)
              with Ok q => q | Err _ => None end). intros q.
  generalize (event_context (current_execution_mode w) (context_source q) q). intros ctx.
  apply (wp_serve (xe_io en XClosing) p).
  { apply service_transition_outcome; apply transition_keeps. }
  intros p1 s1 r1 E1 Hid1 Ht1. cbv beta iota. destruct r1 as [[]|e]; cycle 1.
  { apply wp_return. unfold service_mark_closing, service_transition, mark_closing in E1.
    destruct (decide (pos_state p = ExitReady)) as [Hst|Hst].
    - right. right. right. left. by split.
    - left. unfold transition in E1. rewrite bool_decide_true in E1 by done.
      injection E1 as <- <- <-. split; [done|]. split; [by destruct w|done]. }
  apply wp_bind, wp_try_call. eapply wp_mono; [apply resolve_spec|].
  intros w2 f [Hc Hr]. pose proof (cache_only_touches (pos_id p) _ _ Hc) as Ht2.
  pose proof (touches_trans _ _ _ _ Ht1 Ht2) as H2. cbv beta iota.
  destruct (match f with Go r | Return r => r end) as [ids|e]; cycle 1.
  { destruct Hr as (-> & _ & Hio). right. left. by split_and!. }
  destruct ids as [[yt nt]|]; cycle 1.
  { apply wp_bind. eapply wp_fail_exit; [by rewrite Hid1|]. intros w' H. rewrite Hid1 in H.
    right. right. left. by split. }
  clear Hr. destruct (held_outcomes p1) as [has_yes has_no].
  assert (Hleg : forall (has : bool) leg step again fill token p2 w2',
    pos_id p2 = pos_id p -> touches (pos_id p) w w2' ->
    wp (if has then exit_leg debug_reason show_service_error caused_by_404 show_exit_error en leg
                      step again fill token q ctx p2 else ret p2)
      (fun w' f => match f with
        | Go p' => pos_id p' = pos_id p /\ touches (pos_id p) w w'
        | Return r => r = Ok tt /\ exit_failed en (pos_id p) w w' end) w2').
  { intros has leg step again fill token p2 w2' Hid2 Hw2. destruct has; [|by apply wp_ret].
    eapply wp_mono; [apply exit_leg_spec; by eapply touches_retries|]. rewrite Hid2.
    intros w' [p'|r]; [|intros [-> [Ht Hf]]].
    - intros [? ?]. split; [done|]. by eapply touches_trans.
    - split; [done|]. split; [by eapply touches_trans|done]. }
  apply wp_bind. eapply wp_mono; [by apply (Hleg has_yes); [rewrite Hid1|]|].
  intros w3 [p3|r]; [intros [Hid3 H3]|intros [-> Hf]; right; right; left; by split].
  apply wp_bind. eapply wp_mono; [by apply (Hleg has_no)|].
  intros w4 [p4|r]; [intros [Hid4 H4]|intros [-> Hf]; right; right; left; by split].
  eapply wp_close; [by rewrite (to_breaker _ _ _ H4)| |intros; reflexivity|].
  - intros p' s' e w' _ Ht. apply wp_return. right. right. right. left. split; [done|].
    rewrite Hid4 in Ht. by eapply touches_trans.
  - intros w' Hk Hcb. apply wp_ret. rewrite Hid4 in Hk. right. right. right. right.
    split; [done|]. split; [by eapply booked_after|done].
Qed.

Lemma finalize_spec en p source q winner w :
  cb_inv (sh_breaker w) ->
  wp (finalize_resolution_close en p source q winner) (fun w' f => exists closed,
    match f with Go r | Return r => r end = Ok closed /\
    if closed : bool then booked en (pos_id p) (pos_market_id p) w w' /\ cb_inv (sh_breaker w')
    else touches (pos_id p) w w') w.
Proof.
  intros Hb. unfold finalize_resolution_close.
  destruct (resolution_method p winner) as [method|].
  2: { apply wp_return. exists false. split; [done|]. apply touches_refl. }
  apply wp_bind, wp_get. cbv beta iota zeta. eapply wp_close; [done| |intros; reflexivity|].
  - intros p' s' e w' _ Ht. apply wp_return. by exists false.
  - intros w' Hk Hcb. apply wp_ret. by exists true.
Qed.
(** *** The other handlers of one position *)

Lemma pnl_pct_some p : is_Some (pnl_pct p).
Proof.
  unfold pnl_pct. destruct (_ <? _)%dec eqn:E; [|by eexists]. dec_to_Q.
  destruct (dec_div_some (unrealized_pnl p) (position_cost p)) as [x ->]; [lra|by eexists].
Qed.
Lemma half_some x : is_Some (dec_div x (dec_new 2 0)).
Proof. apply dec_div_some. rewrite dval_new by lia. done. Qed.

(** No division of the evaluation panics. *)
Lemma should_exit_some en p source q yes_bid no_bid cfg :
  is_Some (should_mark_exit_ready en p source q yes_bid no_bid cfg).
Proof.
  unfold should_mark_exit_ready. case_match; [by eexists|].
  unfold generic_quant_exit. destruct (pnl_pct_some p) as [x ->]. simpl. case_match; [by eexists|].
  destruct q as [q|]; [|by eexists]. destruct (qx_kind q); try by eexists.
  - unfold mean_reversion_target_hit. do 2 (case_match; [|by eexists]).
    match goal with |- context [dec_div ?a ?b] => destruct (half_some a) as [h ->] end. by eexists.
  - unfold resolution_lean_decay. case_match; [|by eexists].
    match goal with |- context [dec_div ?a ?b] => destruct (half_some a) as [h ->] end. by eexists.
Qed.

Lemma bids_spec en p w :
  wp (current_exit_bids en p) (fun w' f => cache_only w w' /\
    match match f with Go r | Return r => r end with
    | Ok _ => True
    | Err e => io_db (xe_io en XTokens) = false
    end) w.
Proof.
  unfold current_exit_bids. apply wp_bind, wp_try_call.
  eapply wp_mono; [apply resolve_spec|]. intros w' f [Hc Hr].
  destruct (match f with Go r | Return r => r end) as [[[yt nt]|]|e]; [|by apply wp_return|split; [done|apply Hr]].
  cbv beta iota. destruct (held_outcomes p) as [has_yes has_no].
  repeat case_match; by (apply wp_return || apply wp_ret).
Qed.

(** Handling the position [p] of market [m] left it as it was for the others,
    or closed it. *)
Definition handled en p w w' : Prop :=
  touches (pos_id p) w w' \/
  (booked en (pos_id p) (pos_market_id p) w w' /\ cb_inv (sh_breaker w')).

Lemma handled_after en p w0 w w' : touches (pos_id p) w0 w -> handled en p w w' -> handled en p w0 w'.
Proof.
  intros Ht [H|[H ?]]; [left; by eapply touches_trans|right; split; [by eapply booked_after|done]].
Qed.

Lemma close_if_resolved_spec en step p source q w :
  cb_inv (sh_breaker w) ->
  wp (close_if_resolved en step p source q) (fun w' f =>
    is_ok match f with Go r | Return r => r end = true /\ handled en p w w') w.
Proof.
  intros Hb. unfold close_if_resolved.
  destruct (xe_market en step _) as [m|e]; [destruct (resolved m); simpl negb|]; cbv iota;
    [|apply wp_return; split; [done|left; apply touches_refl]..].
  eapply wp_mono; [by apply finalize_spec|]. intros w' f (closed & -> & H). split; [done|].
  by destruct closed; [right|left].
Qed.

Lemma evaluate_spec en cfg contexts c w :
  cb_inv (sh_breaker w) ->
  wp (evaluate_candidate en cfg contexts c) (fun w' _ => handled en (candidate_position c) w w') w.
Proof.
  intros Hb. unfold evaluate_candidate. generalize (candidate_position c). intros p.
  apply wp_bind, wp_try_call. eapply wp_mono; [apply bids_spec|]. intros w1 f [Hc _].
  pose proof (cache_only_touches (pos_id p) _ _ Hc) as H1.
  destruct (match f with Go r | Return r => r end) as [bids|e]; [|by left]. cbv beta iota.
  destruct bids as [yes_bid no_bid| |]; [|apply wp_bind, wp_try_call|by apply wp_return; left].
  - apply wp_bind, wp_update. intros w2 r E.
    assert (H2 : touches (pos_id p) w w2).
    { eapply touches_trans; [exact H1|]. unfold repo_update in E. destruct (io_db (xe_io en XUpdate)).
      - injection E as <- <-. split; [eapply frame_update; [|reflexivity]; reflexivity|done..].
      - injection E as <- <-. destruct w1 as [? ? []]. apply touches_refl. }
    apply wp_bind. unfold fetch. destruct r as [[]|e]; [|by apply wp_return; left].
    apply wp_ret. cbv beta iota. apply wp_bind.
    match goal with |- wp (attempt ?o) _ _ => assert (is_Some o) as [ready Er] end.
    { apply should_exit_some. }
    eapply wp_attempt; [exact Er|]. cbv beta iota. destruct ready; [|by apply wp_ret; left].
    apply wp_bind, wp_get. cbv beta iota zeta.
    match goal with |- wp (bind (serve (service_mark_exit_ready ?io ?now ?r ?ctx ?p')) _) _ _ =>
      apply (wp_serve io p'); [by apply service_transition_outcome; apply transition_keeps|] end.
    intros p' s' r _ _ Ht. cbv beta. apply wp_ret. left. by eapply touches_trans.
  - eapply wp_mono; [apply close_if_resolved_spec; by rewrite (to_breaker _ _ _ H1)|].
    intros w2 f' [Ho Hh]. destruct (match f' with Go r | Return r => r end); [|done].
    apply wp_return. by eapply handled_after.
Qed.

Lemma recover_failed_spec en cfg p w :
  wp (recover_failed_exit quant_signals en cfg p) (fun w' f => f = Go tt /\ touches (pos_id p) w w') w.
Proof.
  unfold recover_failed_exit. case_match; [apply wp_ret; split; [done|apply touches_refl]|].
  apply wp_bind, wp_get. cbv beta iota zeta.
  match goal with |- wp (bind (serve (service_exit_recovery ?io ?now ?ctx ?p')) _) _ _ =>
    apply (wp_serve io p') end.
  { apply exit_recovery_outcome. }
  intros p' s' r _ _ Ht. by apply wp_ret.
Qed.
(** *** A complete exit *)

(** The order that sells a leg the position has is filled, with no more than it
    holds. *)
Definition leg_sold en step p (token : string) (entry held : dec) (x x' : OrderExecutor)
    (r : ExecutionReport) : Prop :=
  if (ZERO <? entry)%dec
  then exists placed, execute_market_order (oe_now (xe_order en step)) (oe_replies (xe_order en step))
         (oe_timed (xe_order en step)) (oe_latency_us (xe_order en step))
         (sell_order (xe_order en step) (pos_market_id p) token (quantity p)) x = Some (x', Ok r, placed) /\
         is_success r = true /\ (dval (er_filled_quantity r) <= dval held)%Q
  else x' = x.

(** A fill of a leg is recorded. *)
Definition leg_exited (leg : Leg) (price qty : dec) (now : datetime) p : Position :=
  match leg with
  | YES => {| p with yes_exit_price := Some price; held_yes_qty := (held_yes_qty p - qty)%dec;
                     exited_yes_qty := (exited_yes_qty p + qty)%dec; last_updated := now |}
  | NO => {| p with no_exit_price := Some price; held_no_qty := (held_no_qty p - qty)%dec;
                    exited_no_qty := (exited_no_qty p + qty)%dec; last_updated := now |}
  end.
Definition leg_entry (leg : Leg) p : dec := match leg with YES => yes_entry_price p | NO => no_entry_price p end.
Definition leg_exit (leg : Leg) p : option dec := match leg with YES => yes_exit_price p | NO => no_exit_price p end.
Definition leg_held (leg : Leg) p : dec := match leg with YES => held_yes_qty p | NO => held_no_qty p end.

Lemma exit_fill_ok io now leg x q ctx p s :
  io_db io = true -> enterable p -> (ZERO <? leg_entry leg p)%dec = true -> leg_exit leg p = None ->
  (dval q <= dval (leg_held leg p))%Q ->
  exists s', record_exit_fill io now leg x q ctx p s = (leg_exited leg x q now p, s', Ok tt).
Proof.
  intros Hio He Hl Hn Hq. destruct leg.
  - destruct (exit_fill_yes_ok io now x q ctx p s) as (s' & E & _); try done. by exists s'.
  - destruct (exit_fill_no_ok io now x q ctx p s) as (s' & E & _); try done. by exists s'.
Qed.

Lemma wp_exit_leg {B} en leg step again fill token q ctx p x' r
    (k : Position -> handler Shared (result unit ExitError) B) Q w :
  retries_ok w -> io_db (xe_io en fill) = true -> enterable p -> leg_exit leg p = None ->
  leg_sold en step p token (leg_entry leg p) (leg_held leg p) (sh_executor w) x' r ->
  (forall w', touches (pos_id p) w w' -> sh_executor w' = x' ->
     wp (k (if (ZERO <? leg_entry leg p)%dec
            then leg_exited leg (er_average_price r) (er_filled_quantity r) (xe_clock en fill) p
            else p)) Q w') ->
  wp (bind (if (ZERO <? leg_entry leg p)%dec then
              exit_leg debug_reason show_service_error caused_by_404 show_exit_error en leg step again
                fill token q ctx p else ret p) k) Q w.
Proof.
  intros Hm Hio He Hn Hs Hk. unfold leg_sold in Hs.
  destruct (ZERO <? leg_entry leg p)%dec eqn:El.
  2: { apply wp_bind, wp_ret. cbv beta iota. apply Hk; [apply touches_refl|done]. }
  destruct Hs as (placed & Ex & Hsuc & Hq). apply wp_bind. unfold exit_leg. apply wp_bind, wp_call.
  eapply wp_mono; [by apply sell_with_refresh_spec|].
  intros w1 f (r1 & x1 & pl1 & -> & Hw1 & E1 & H1). cbv beta iota.
  rewrite Ex in E1. injection E1 as <- <- <-. rewrite Hsuc. simpl negb. cbv iota.
  apply (wp_serve (xe_io en fill) p); [apply record_exit_fill_outcome|].
  intros p' s' r' E Hid Ht. edestruct (exit_fill_ok (xe_io en fill)) as (s1 & E1); [done..|].
  rewrite E1 in E. injection E as <- <- <-. cbv beta iota. apply wp_ret. cbv beta iota. apply Hk.
  - eapply touches_trans; [apply H1|exact Ht].
  - by rewrite Hw1.
Qed.

(** The fills of both legs are recorded, each by the price of its sale. *)
Lemma wp_legs {B} en q ctx p yt nt x1 x2 ry rn
    (k : Position -> handler Shared (result unit ExitError) B) Q w :
  retries_ok w -> (forall step, io_db (xe_io en step) = true) ->
  yes_exit_price p = None -> no_exit_price p = None -> enterable p ->
  leg_sold en XYes p yt (yes_entry_price p) (held_yes_qty p) (sh_executor w) x1 ry ->
  leg_sold en XNo p nt (no_entry_price p) (held_no_qty p) x1 x2 rn ->
  (forall p' w', touches (pos_id p) w w' -> pos_id p' = pos_id p -> enterable p' ->
     (has_yes_leg p' = true -> yes_exit_price p' = Some (er_average_price ry)) ->
     (has_no_leg p' = true -> no_exit_price p' = Some (er_average_price rn)) -> wp (k p') Q w') ->
  wp (bind (if (ZERO <? yes_entry_price p)%dec then
              exit_leg debug_reason show_service_error caused_by_404 show_exit_error en YES XYes XYesAgain
                XYesFill yt q ctx p else ret p) (fun p' =>
      bind (if (ZERO <? no_entry_price p)%dec then
              exit_leg debug_reason show_service_error caused_by_404 show_exit_error en NO XNo XNoAgain
                XNoFill nt q ctx p' else ret p') k)) Q w.
Proof.
  intros Hm Hio Hy Hn He Hsy Hsn Hk.
  eapply (wp_exit_leg en YES XYes XYesAgain XYesFill yt q ctx p x1 ry); [done|apply Hio|done..|].
  intros w2 Ht2 Hx2.
  match goal with |- wp (bind (if _ then exit_leg _ _ _ _ _ _ _ _ _ _ _ _ ?q2 else _) _) _ _ =>
    set (p2 := q2 : Position) end.
  assert (Hp2 : pos_id p2 = pos_id p /\ enterable p2 /\ no_exit_price p2 = None /\
    pos_market_id p2 = pos_market_id p /\ quantity p2 = quantity p /\
    no_entry_price p2 = no_entry_price p /\ held_no_qty p2 = held_no_qty p /\
    (has_yes_leg p2 = true -> yes_exit_price p2 = Some (er_average_price ry))).
  { unfold p2, has_yes_leg, leg_entry. simpl.
    destruct (ZERO <? yes_entry_price p)%dec eqn:Ey; simpl; rewrite ?Ey; by split_and!. }
  destruct Hp2 as (Hid2 & He2 & Hn2 & Hm2 & Hq2 & Hen2 & Hh2 & Hyx2). rewrite <- Hen2 at 1.
  eapply (wp_exit_leg en NO XNo XNoAgain XNoFill nt q ctx p2 x2 rn);
    [by eapply touches_retries|apply Hio|done|done| |].
  { unfold leg_sold, leg_entry, leg_held in *. by rewrite Hen2, Hm2, Hq2, Hh2, Hx2. }
  intros w3 Ht3 _. rewrite Hid2 in Ht3. apply Hk.
  - by eapply touches_trans.
  - by destruct (ZERO <? leg_entry NO p2)%dec.
  - by destruct (ZERO <? leg_entry NO p2)%dec.
  - by destruct (ZERO <? leg_entry NO p2)%dec.
  - unfold has_no_leg, leg_entry. destruct (ZERO <? no_entry_price p2)%dec eqn:En; simpl; by rewrite ?En.
Qed.

Lemma closing_persists io now ctx p s :
  pos_state p = ExitReady -> io_db io = true ->
  exists s', service_mark_closing io now ctx p s = (moved now Closing p, s', Ok tt).
Proof.
  intros Hst Hio. unfold service_mark_closing, service_transition, mark_closing.
  rewrite transition_ok, persist_ok by done. by eexists.
Qed.

Lemma market_exit_closes io now fee ctx p s y n :
  io_db io = true -> enterable p ->
  (has_yes_leg p = true -> yes_exit_price p = Some y) ->
  (has_no_leg p = true -> no_exit_price p = Some n) ->
  exists p' s', close_position io now (MarketExit fee) ctx p s = (p', s', Ok tt).
Proof.
  intros Hio He Hy Hn. unfold close_position.
  destruct (close_recorded_ok now fee p y n He Hy Hn) as (p' & -> & _). rewrite persist_ok by done.
  by do 2 eexists.
Qed.
(** *** A NO leg that was never bought *)

(** The position has a NO entry price and no NO shares. *)
Record unbought_no p : Prop := {
  ub_entry : (0 < dval (no_entry_price p))%Q;
  ub_exit : no_exit_price p = None;
  ub_held : (dval (held_no_qty p) <= 0)%Q;
  ub_quantity : (0 < dval (quantity p))%Q;
}.

Lemma yes_fill_unbought io now x q ctx p s p' s' r :
  record_exit_fill io now YES x q ctx p s = (p', s', r) -> unbought_no p ->
  unbought_no p' /\ pos_state p' = pos_state p.
Proof.
  unfold record_exit_fill, record_yes_exit_fill, apply_yes_exit_fill, persist_and_record,
    repo_update.
  intros E []. destruct (negb (io_db io)); repeat case_match; simplify_eq/=; by split.
Qed.

Lemma exit_yes_unbought en step again fill token q ctx p w :
  retries_ok w -> unbought_no p ->
  wp (exit_leg debug_reason show_service_error caused_by_404 show_exit_error en YES step again fill
        token q ctx p) (fun w' f =>
    match f with
    | Go p' => pos_id p' = pos_id p /\ pos_state p' = pos_state p /\ unbought_no p' /\
               touches (pos_id p) w w'
    | Return r => r = Ok tt /\ exit_failed en (pos_id p) w w'
    end) w.
Proof.
  intros Hm Hu. unfold exit_leg. apply wp_bind, wp_call.
  eapply wp_mono; [by apply sell_with_refresh_spec|].
  intros w1 f (report & x' & placed & -> & _ & _ & H1). cbv beta iota.
  destruct (is_success report); simpl negb; cbv beta iota; cycle 1.
  { eapply wp_fail_exit; [apply H1|]. by intros w' H. }
  apply (wp_serve (xe_io en fill) p); [apply record_exit_fill_outcome|].
  intros p' s' r E Hid Ht. pose proof (touches_trans _ _ _ _ (H1 _) Ht) as H2. cbv beta iota.
  destruct r as [[]|e].
  - apply wp_ret. by destruct (yes_fill_unbought _ _ _ _ _ _ _ _ _ _ E Hu).
  - rewrite <- Hid in *. eapply wp_fail_exit; [exact H2|]. by intros w' H.
Qed.

(** The sale of the NO leg sells a positive quantity or nothing: either way the
    exit has failed. *)
Lemma exit_no_fails en step again fill token q ctx p w :
  retries_ok w -> unbought_no p ->
  wp (exit_leg debug_reason show_service_error caused_by_404 show_exit_error en NO step again fill
        token q ctx p) (fun w' f => f = Return (Ok tt) /\ exit_failed en (pos_id p) w w') w.
Proof.
  intros Hm [He Hx Hh Hq]. unfold exit_leg. apply wp_bind, wp_call.
  eapply wp_mono; [by apply sell_with_refresh_spec|].
  intros w1 f (report & x' & placed & -> & _ & E & H1). cbv beta iota.
  destruct (is_success report) eqn:Es; simpl negb; cbv beta iota; cycle 1.
  { eapply wp_fail_exit; [apply H1|]. by intros w' H. }
  assert (Hf : er_filled_quantity report = quantity p) by exact (market_order_fills _ _ _ _ _ _ _ _ _ E Es).
  apply (wp_serve (xe_io en fill) p); [apply record_exit_fill_outcome|].
  intros p' s' r E' Hid Ht. pose proof (touches_trans _ _ _ _ (H1 _) Ht) as H2. cbv beta iota.
  unfold record_exit_fill in E'. rewrite Hf in E'.
  assert ((held_no_qty p <? quantity p)%dec = true) as Hlt by (apply dec_ltb_lt; lra).
  rewrite Hlt in E'. injection E' as <- <- <-.
  eapply wp_fail_exit; [exact H2|]. by intros w' H.
Qed.

(** So the exit ends without a close, whatever the orders do. *)
Lemma unbought_exit en p w yt nt :
  shared_ok w -> pos_state p = ExitReady -> unbought_no p ->
  cache_get (pos_market_id p) (sh_cache w) = Some (yt, nt) -> io_db (xe_io en XClosing) = true ->
  wp (execute_exit debug_reason show_service_error caused_by_404 quant_signals show_exit_error en p)
    (fun w' f => match f with Go r | Return r => r end = Ok tt /\ exit_failed en (pos_id p) w w') w.
Proof.
  intros [Hb Hm] Hst Hu Hc Hio. unfold execute_exit. apply wp_bind, wp_get. cbv beta iota zeta.
  generalize (match load_quant_exit_context quant_signals (io_db (xe_io en XContext)) (pos_id p) (table w)
              with Ok q => q | Err _ => None end). intros q.
  generalize (event_context (current_execution_mode w) (context_source q) q). intros ctx.
  apply (wp_serve (xe_io en XClosing) p).
  { apply service_transition_outcome; apply transition_keeps. }
  destruct (closing_persists (xe_io en XClosing) (xe_clock en XClosing) ctx p (sh_service w) Hst Hio)
    as (s1 & E1).
  intros p1' s1' r1 E1' _ Ht1. rewrite E1 in E1'. injection E1' as <- <- <-. cbv beta iota.
  set (w1 := set_service s1 w) in *. set (p1 := moved (xe_clock en XClosing) Closing p).
  apply wp_bind, wp_try_call. eapply wp_mono; [apply resolve_spec|]. intros w1' f [_ Hr].
  change (cache_get (pos_market_id p) (sh_cache w1)) with (cache_get (pos_market_id p) (sh_cache w)) in Hr.
  rewrite Hc in Hr.
  destruct (match f with Go r | Return r => r end) as [ids|e]; [|by destruct Hr as (_ & ? & _)].
  destruct Hr as [-> ->]; [done|]. cbv beta iota.
  assert (Hu1 : unbought_no p1) by by destruct Hu.
  assert (exists has_yes, held_outcomes p1 = (has_yes, true)) as [has_yes ->].
  { destruct Hu1 as [He Hx _ _]. unfold held_outcomes. simpl in *. rewrite Hx, andb_true_r.
    assert ((ZERO <? no_entry_price p)%dec = true) as -> by (apply dec_ltb_lt; by rewrite dval_ZERO).
    by eexists. }
  apply wp_bind. apply (wp_mono _ (fun w' f => match f with
    | Go p' => pos_id p' = pos_id p /\ unbought_no p' /\ touches (pos_id p) w w'
    | Return r => r = Ok tt /\ exit_failed en (pos_id p) w w' end)).
  { destruct has_yes; [|by apply wp_ret].
    eapply wp_mono; [apply exit_yes_unbought; [exact Hm|exact Hu1]|].
    intros w' [p'|r]; [intros (Hid & _ & Hu' & Ht)|intros [-> [Ht Hf]]].
    - split_and!; [done|done|]. by eapply touches_trans.
    - split; [done|]. split; [by eapply touches_trans|done]. }
  intros w2 [p2|r]; [intros (Hid2 & Hu2 & H2)|done]. apply wp_bind.
  eapply wp_mono; [apply exit_no_fails; [by eapply touches_retries|done]|].
  intros w' f' [-> [Ht Hf]]. rewrite Hid2 in *. split; [done|]. split; [by eapply touches_trans|done].
Qed.

(** ** Theorems *)

Abbreviation exit en p := (execute_exit debug_reason show_service_error caused_by_404 quant_signals
  show_exit_error en p).



(** No failure of a sale reaches the handler: the order executor answers
    every order with a report, so the token refresh after a 404, the retry with
    the refreshed token and the close by resolution after a failed sale never
    run; one order is placed and its report returned, whatever the exchange
    answers. *)
Theorem sale_never_fails en step again leg m token qty w :
  shared_ok w ->
  exists w' r, run_handler (execute_sell_order_with_refresh caused_by_404 en step again leg m token qty) w
      = Some (w', Ok r) /\
    place_market_order (xe_order en step) (sell_order (xe_order en step) m token qty) w = Some (w', Ok r) /\
    sh_cache w' = sh_cache w.
Proof.
  intros [_ Hm].
  destruct (wp_run (execute_sell_order_with_refresh caused_by_404 en step again leg m token qty)
    (fun w' res => exists r, res = Ok r /\
    place_market_order (xe_order en step) (sell_order (xe_order en step) m token qty) w = Some (w', Ok r) /\
    sh_cache w' = sh_cache w) w) as (w' & res & E & r & -> & H).
  - eapply wp_mono; [exact (sell_with_refresh_spec en step again leg m token qty w Hm)|].
    intros w' f (r & x' & placed & -> & -> & E & _). exists r. split; [done|].
    unfold place_market_order. by rewrite E.
  - by exists w', r.
Qed.

(** The generic exit of a quant position compares a percentage with a
    fraction: with the default thresholds, 0.15 and 0.10, a position is to be
    sold as soon as it has gained 0.15 percent of its cost, or lost 0.10
    percent. *)
Theorem quant_exit_thresholds now p :
  (0 < dval (position_cost p))%Q ->
  (15 # 10000 <= dval (unrealized_pnl p) / dval (position_cost p))%Q \/
  (dval (unrealized_pnl p) / dval (position_cost p) <= - (10 # 10000))%Q \/
  (24 <= hours_since now (entry_timestamp p))%Z ->
  generic_quant_exit now default_exit_config p = Some true.
Proof.
  intros Hc H. unfold generic_quant_exit, pnl_pct.
  assert ((ZERO <? position_cost p)%dec = true) as -> by (apply dec_ltb_lt; by rewrite dval_ZERO).
  destruct (dec_div_some (unrealized_pnl p) (position_cost p)) as [x Ex]; [lra|]. rewrite Ex. simpl.
  f_equal.
  assert (Hx : (dval (x * dec_new 100 0)%dec == dval x * 100)%Q) by (rewrite dval_mul, dval_new by lia; done).
  destruct H as [H|[H|H]].
  - assert (Hl : (dval (dec_new 15 4) <= dval x)%Q).
    { eapply dec_div_lower; [exact Ex|]. by rewrite dval_new. }
    rewrite dval_new in Hl by lia.
    assert ((dec_new 15 2 <=? x * dec_new 100 0)%dec = true) as ->; [|done].
    apply dec_leb_le. rewrite Hx, dval_new by lia. change (10 ^ 4)%Z with 10000%Z in Hl.
    change (10 ^ 2)%Z with 100%Z. simpl Z.to_pos in *. lra.
  - assert (Hl : (dval x <= dval (dec_new (-10) 4))%Q).
    { eapply dec_div_upper; [exact Ex|]. by rewrite dval_new. }
    rewrite dval_new in Hl by lia.
    assert ((x * dec_new 100 0 <=? dec_neg (dec_new 10 2))%dec = true) as ->; [|by rewrite orb_true_r].
    apply dec_leb_le. rewrite Hx, dval_neg, dval_new by lia. change (10 ^ 4)%Z with 10000%Z in Hl.
    change (10 ^ 2)%Z with 100%Z. simpl Z.to_pos in *. lra.
  - apply Z.leb_le in H. rewrite H. by rewrite orb_true_r.
Qed.
End Facts.

(** ** The theorems at concrete inputs *)

Module ExitSample.
#[local] Existing Instance Concrete.decimal.
#[local] Existing Instance Concrete.decimal_spec.
#[local] Existing Instance Concrete.decimal_exact.
#[local] Existing Instance Concrete.chrono.
#[local] Existing Instance Concrete.uuid.
#[local] Existing Instance ConcreteJson.json.
#[local] Existing Instance Example_execution.display.
Abbreviation d := Concrete.d.
Abbreviation at_minute := Concrete.at_minute.

Definition no_service_error (_ : ServiceError) : string := "".
Definition no_exit_error (_ : ExitError) : string := "".
Definition no_404 (_ : string) : bool := false.

(** Everything answers, but for the CLOB's markets. *)
Definition exit_env : ExitEnv := {|
  xe_clock := fun _ => at_minute 5;
  xe_io := fun _ => {| io_db := true; io_event := true |};
  xe_markets := fun _ => Err "unused"; xe_refresh_io := fun _ _ => true;
  xe_market := fun _ _ => Err "unused"; xe_upsert := fun _ _ _ => true;
  xe_book := fun _ => Ok Example_execution.book; xe_flow := fun _ _ => Ok None;
  xe_order := fun _ => ArbSample.order_env 3%positive; xe_signal_id := 9%positive |}.

(** A pair of 50 shares at 48 and 46 cents, to be sold. *)
Definition pair : Position :=
  {| (position_new 1%positive (at_minute 0) "m" (d 48 2) (d 46 2) (d 50 0) ExitOnCorrection) with
     pos_state := ExitReady; held_yes_qty := d 50 0; held_no_qty := d 50 0 |}.
Definition holding : Shared :=
  {| ArbSample.shared with
     sh_service := {| svc_table := {[ 1%positive := insert_row pair SOURCE_ARBITRAGE None ]};
                      svc_events := [] |};
     sh_dedup := {[ "m" ]} |}.

Lemma holding_fine : shared_ok holding.
Proof. split; [exact ArbSample.breaker_inv|simpl; lia]. Qed.

Definition sample_exit :=
  execute_exit ArbSample.no_reason no_service_error no_404 ∅ no_exit_error exit_env pair.


(** The sale of a leg of the pair, from [x]. *)
Definition sale (token : string) (x : OrderExecutor) :=
  execute_market_order (at_minute 1) (fun _ => Example_execution.replies) (fun _ => InTime) 5
    (sell_order (ArbSample.order_env 3%positive) "m" token (d 50 0)) x.
Definition sold (token : string) (x : OrderExecutor) : OrderExecutor * ExecutionReport :=
  match sale token x with
  | Some (x', Ok r, _) => (x', r)
  | _ => (x, Example_execution.bought)
  end.
Lemma sold_sale token x :
  (0 <= max_retries (ex_config x) < 2 ^ 32 - 1)%Z ->
  exists placed, sale token x = Some (fst (sold token x), Ok (snd (sold token x)), placed).
Proof.
  intros Hm. unfold sold, sale.
  edestruct execute_market_order_some as (x' & r & placed & E); [exact Hm|]. exists placed. by rewrite E.
Qed.
Definition after_yes := sold "yes" (sh_executor holding).
Definition after_no := sold "no" (fst after_yes).


Lemma sale_never_fails_witness :
  exists w' r, place_market_order (ArbSample.order_env 3%positive)
    (sell_order (ArbSample.order_env 3%positive) "m" "yes" (d 50 0)) holding = Some (w', Ok r).
Proof.
  destruct (sale_never_fails no_404 exit_env XYes XYesAgain YES "m" "yes" (d 50 0) holding holding_fine)
    as (w' & r & _ & E & _). exists w', r. exact E.
Defined.

(** A profit of 0.2 percent. *)
Definition barely_up : Position := {| pair with unrealized_pnl := d 94 3 |}.
Lemma quant_exit_thresholds_witness :
  generic_quant_exit (at_minute 5) default_exit_config barely_up = Some true.
Proof.
  apply quant_exit_thresholds; [vm_compute; reflexivity|]. left. vm_compute. discriminate.
Defined.

(** The sample exit closes the pair and unblocks the market. *)
Example sample_exit_closes :
  (w' ← run_handler sample_exit holding;
   Some (r_state <$> table (fst w') !! 1%positive, elements (sh_dedup (fst w')), snd w'))
  = Some (Some 4%Z, [], Ok tt).
Proof. vm_compute. reflexivity. Qed.
End ExitSample.
