(* ===== verification/TradingFacts.v ===== *)
(** * The trading tasks together

    The passes of the exit handler over the positions of the table, and the
    invariants of the table and the dedup set over every run of the arbitrage
    executor and the exit handler. *)

From stdpp Require Import sorting.
From S2P Require Import Prelude F64 Platform Handler Market CircuitBreaker CircuitBreakerFacts.
From S2P Require Import Position PositionFacts PositionRepo PositionRepoFacts PositionService.
From S2P Require Import PositionServiceFacts Rollouts TokenCache Executor ExecutorFacts Trading.
From S2P Require Import ArbExecutor ArbExecutorFacts ArbEntryFacts ExitHandler ExitHandlerFacts.

Local Open Scope handler_scope.

Section Facts.
Context `{DO : DecimalOps} `{CO : ChronoOps} `{UO : UuidOps} `{JO : !JsonOps} `{SH : !DisplayOps}.
Context {DS : DecimalSpec} {EX : DecimalExact}.
Variable debug_reason : FailureReason -> string.
Variable show_service_error : ServiceError -> string.
Variable caused_by_404 : string -> bool.
Variable quant_signals : gmap Uuid QuantSignalRow.
Variable show_exit_error : ExitError -> string.
Implicit Types (w : Shared) (en : ExitEnv) (te : TickEnv) (p : Position) (id : Uuid).

(** *** Some positions handled *)

(** What handling the positions [ids] leaves: the other rows as they were, the
    entries of all, and a market taken out of the dedup set only by the close
    of one of its positions. *)
Record passed (ids : list Uuid) w w' : Prop := {
  pa_ok : shared_ok w';
  pa_others : forall j, j ∉ ids -> table w' !! j = table w !! j;
  pa_rows : forall j, option_Forall2 same_entry (table w !! j) (table w' !! j);
  pa_dedup : forall x, x ∈ sh_dedup w -> x ∈ sh_dedup w' \/ exists j r,
    j ∈ ids /\ table w' !! j = Some r /\ r_state r = 4%Z /\ r_market_id r = x;
}.

Lemma rows_refl w j : option_Forall2 same_entry (table w !! j) (table w !! j).
Proof. destruct (table w !! j); constructor. apply entry_refl. Qed.

Lemma passed_refl w : shared_ok w -> passed [] w w.
Proof. intros Hok. split; [done|done|apply rows_refl|by left]. Qed.

Lemma passed_cons id ids w1 w2 w3 :
  id ∉ ids -> passed [id] w1 w2 -> passed ids w2 w3 -> passed (id :: ids) w1 w3.
Proof.
  intros Hid [_ O1 R1 D1] [Hok O2 R2 D2]. split; [done| | |].
  - intros j [Hj Hjs]%not_elem_of_cons. rewrite O2, O1; [done| |done]. by apply not_elem_of_cons; split; [|apply not_elem_of_nil].
  - intros j. specialize (R1 j). specialize (R2 j).
    destruct R1 as [r1 r2 H1|]; inversion R2; subst; constructor. by eapply same_entry_trans.
  - intros x Hx. destruct (D1 x Hx) as [Hx2|(j & r & Hj & Hr & Hst & Hm)].
    + destruct (D2 x Hx2) as [|(j & r & Hj & ?)]; [by left|].
      right. exists j, r. split; [by apply list_elem_of_further|done].
    + apply list_elem_of_singleton in Hj as ->. right. exists id, r.
      split; [apply list_elem_of_here|]. by rewrite O2.
Qed.

(** The position was read from the table as it is. *)
Definition loaded w p : Prop := exists r,
  table w !! pos_id p = Some r /\ r_market_id r = pos_market_id p.
Definition loadeds w (l : list Position) : Prop := forall p, p ∈ l -> loaded w p.

Lemma frame_rows id w w' j :
  frame id w w' -> option_Forall2 same_entry (table w !! j) (table w' !! j).
Proof.
  intros [Ho Hr _]. destruct (decide (j = id)) as [->|Hj]; [done|]. rewrite Ho by done. apply rows_refl.
Qed.
Lemma frame_others id w w' j : frame id w w' -> j ∉ [id] -> table w' !! j = table w !! j.
Proof. intros H Hj. apply (fr_others _ _ _ H). intros ->. by apply Hj, list_elem_of_here. Qed.

Lemma touches_passed id w w' : shared_ok w -> touches id w w' -> passed [id] w w'.
Proof.
  intros [Hb Hm] [Hf Hbr Hd]. split.
  - split; [by rewrite Hbr|]. by rewrite (fr_executor _ _ _ Hf).
  - intros j. by apply frame_others.
  - intros j. by eapply frame_rows.
  - intros x. rewrite Hd. by left.
Qed.

Lemma booked_passed en p w w' :
  shared_ok w -> loaded w p -> booked en (pos_id p) (pos_market_id p) w w' -> cb_inv (sh_breaker w') ->
  passed [pos_id p] w w'.
Proof.
  intros [Hb Hm] (r & Hr & Hmk) [_ Hst Hf Hd] Hb'. split.
  - split; [done|]. by rewrite (fr_executor _ _ _ Hf).
  - intros j. by apply frame_others.
  - intros j. by eapply frame_rows.
  - intros x Hx. rewrite Hd. destruct (decide (x = pos_market_id p)) as [->|Hne].
    + right. pose proof (frame_rows _ _ _ (pos_id p) Hf) as Hrow. rewrite Hr in Hrow.
      inversion Hrow as [? r' Hs E1 E2|]; subst. exists (pos_id p), r'.
      split_and!; [apply list_elem_of_here|done|by apply Hst|]. destruct Hs as (_ & -> & _). done.
    + left. apply elem_of_difference. split; [done|]. by rewrite elem_of_singleton.
Qed.

Lemma handled_passed en p w w' :
  shared_ok w -> loaded w p -> handled en p w w' -> passed [pos_id p] w w'.
Proof. intros Hok Hl [H|[H Hb]]; [by apply touches_passed|by eapply booked_passed]. Qed.

Lemma exit_passed en p w w' r :
  shared_ok w -> loaded w p -> exit_end en p w w' r -> passed [pos_id p] w w'.
Proof.
  intros Hok Hl [(_ & -> & _)|[(_ & H & _)|[[_ [H _]]|[[_ H]|(_ & H & Hb)]]]];
    [apply touches_passed, touches_refl|by apply touches_passed..|by eapply booked_passed]; done.
Qed.

(** A loop over loaded positions, each handled once. *)
Lemma wp_pass {A} (pos_of : A -> Position) (f : A -> handler Shared (result unit ExitError) unit) l w :
  (forall a w, a ∈ l -> shared_ok w -> loaded w (pos_of a) ->
     wp (f a) (fun w' _ => passed [pos_id (pos_of a)] w w') w) ->
  shared_ok w -> NoDup (pos_id <$> (pos_of <$> l)) -> loadeds w (pos_of <$> l) ->
  wp (for_each f l) (fun w' _ => exists ids, ids ⊆ pos_id <$> (pos_of <$> l) /\ passed ids w w') w.
Proof.
  revert w. induction l as [|a l IH]; intros w Hf Hok Hn Hl; csimpl in *.
  { apply wp_ret. exists []. split; [done|by apply passed_refl]. }
  apply NoDup_cons in Hn as [Ha Hn]. apply wp_bind.
  eapply wp_mono; [apply Hf; [apply list_elem_of_here|done|apply Hl, list_elem_of_here]|].
  intros w1 [[]|r] H1.
  - eapply wp_mono; [apply IH; [|apply H1|done|]|].
    + intros b w' Hb. apply Hf. by apply list_elem_of_further.
    + intros p Hp. destruct (Hl p) as (r & Hr & Hm); [by apply list_elem_of_further|].
      exists r. split; [|done]. rewrite (pa_others _ _ _ H1); [done|].
      intros Hin%list_elem_of_singleton. apply Ha. rewrite <- Hin. by apply list_elem_of_fmap_2.
    + intros w' f' (ids & Hs & Hp). exists (pos_id (pos_of a) :: ids). split.
      * intros x [->|Hx]%elem_of_cons; [apply list_elem_of_here|by apply list_elem_of_further, Hs].
      * eapply passed_cons; [|exact H1|exact Hp]. intros Hin. by apply Ha, Hs.
  - exists [pos_id (pos_of a)]. split; [|done].
    intros x ->%list_elem_of_singleton. apply list_elem_of_here.
Qed.

(** *** The queries *)

Lemma passed_keyed ids w w' : passed ids w w' -> keyed (table w) -> keyed (table w').
Proof.
  intros [_ _ R _] Hk j r' Hr'. specialize (R j). rewrite Hr' in R.
  inversion R as [r ? Hs E|]; subst. destruct Hs as [-> _]. by apply Hk.
Qed.

Lemma selected_ids where_ t : keyed t -> NoDup (r_id <$> select_rows where_ t).
Proof.
  intros Hk. unfold select_rows.
  assert (Hl : NoDup (r_id <$> (snd <$> map_to_list t))).
  { rewrite <- list_fmap_compose.
    replace ((r_id ∘ snd) <$> map_to_list t) with (fst <$> map_to_list t); [apply NoDup_fst_map_to_list|].
    apply list_fmap_ext. intros i [j r] Hi. simpl. symmetry. apply Hk.
    apply elem_of_map_to_list. by eapply list_elem_of_lookup_2. }
  revert Hl. generalize (snd <$> map_to_list t). intros l. induction l as [|r l IH]; csimpl; [done|].
  intros [Hr Hl]%NoDup_cons. destruct (where_ r); csimpl; [|by apply IH].
  apply NoDup_cons. split; [|by apply IH]. intros Hin. apply Hr.
  apply list_elem_of_fmap in Hin as (s & E & Hs). rewrite E. apply list_elem_of_fmap_2.
  apply list_elem_of_In. apply list_elem_of_In, List.filter_In in Hs. apply Hs.
Qed.

(** The positions of a sorted query: each once, and loaded. *)
Lemma query_positions {R : PositionRow -> PositionRow -> Prop} `{!RelDecision R} where_ w :
  keyed (table w) ->
  let ps := row_to_position <$> merge_sort R (select_rows where_ (table w)) in
  NoDup (pos_id <$> ps) /\ loadeds w ps /\
  forall p, p ∈ ps -> exists r, table w !! pos_id p = Some r /\ where_ r = true /\ p = row_to_position r.
Proof.
  intros Hk ps. assert (Hps : forall p, p ∈ ps -> exists r,
    table w !! pos_id p = Some r /\ where_ r = true /\ p = row_to_position r).
  { intros p (id & r & Hr & Hw & ->)%elem_of_sorted. exists r. split; [|done].
    simpl. by rewrite (Hk _ _ Hr). }
  split_and!; [|intros p (r & Hr & _ & ->)%Hps; by exists r|exact Hps].
  unfold ps. rewrite <- list_fmap_compose. change (pos_id ∘ row_to_position) with r_id.
  rewrite (merge_sort_Permutation R). by apply selected_ids.
Qed.
(** *** The passes *)

(** A pass that handled rows satisfying [P] only. *)
Definition pass_of (P : PositionRow -> bool) w w' : Prop := exists ids, passed ids w w' /\
  forall j, j ∈ ids -> exists r, table w !! j = Some r /\ P r = true.

Lemma pass_none P w : shared_ok w -> pass_of P w w.
Proof. exists []. split; [by apply passed_refl|]. by intros j ?%elem_of_nil. Qed.

Lemma wp_pass_of {A} P (pos_of : A -> Position) (f : A -> handler Shared (result unit ExitError) unit) l
    (k : unit -> handler Shared (result unit ExitError) (result unit ExitError)) w :
  (forall a w, a ∈ l -> shared_ok w -> loaded w (pos_of a) ->
     wp (f a) (fun w' _ => passed [pos_id (pos_of a)] w w') w) ->
  shared_ok w -> NoDup (pos_id <$> (pos_of <$> l)) -> loadeds w (pos_of <$> l) ->
  (forall p, p ∈ pos_of <$> l -> exists r, table w !! pos_id p = Some r /\ P r = true) ->
  k tt = ret (Ok tt) ->
  wp (bind (for_each f l) k) (fun w' _ => pass_of P w w') w.
Proof.
  intros Hf Hok Hn Hl HP Hk. apply wp_bind.
  eapply wp_mono; [apply (wp_pass pos_of); try done|].
  intros w' f' (ids & Hs & Hp).
  assert (H : pass_of P w w').
  { exists ids. split; [done|]. intros j Hj%Hs. apply list_elem_of_fmap in Hj as (p & -> & Hp'). by apply HP. }
  destruct f'; [destruct a; rewrite Hk; by apply wp_ret|done].
Qed.

Lemma evaluate_pass te cfg w :
  shared_ok w -> keyed (table w) ->
  wp (evaluate_open_positions quant_signals te cfg)
    (fun w' _ => pass_of (fun r => (r_exit_strategy r =? 1) && (r_state r =? 1))%Z w w') w.
Proof.
  intros Hok Hk. unfold evaluate_open_positions. apply wp_bind, wp_get. cbv beta iota.
  apply wp_bind. unfold get_open_exit_candidates, query, fetch.
  destruct (te_list te EvaluatePass); [apply wp_ret|by apply wp_return, pass_none].
  match goal with |- context [?f <$> merge_sort ?R ?l] => set (cs := f <$> merge_sort R l) end.
  assert (Hcs : candidate_position <$> cs = row_to_position <$> merge_sort by_entry_asc
    (select_rows (fun r => (r_exit_strategy r =? 1) && (r_state r =? 1))%Z (table w))).
  { unfold cs. by rewrite <- list_fmap_compose. }
  destruct (query_positions (R := by_entry_asc)
    (fun r => (r_exit_strategy r =? 1) && (r_state r =? 1))%Z w Hk) as (Hn & Hl & HP).
  destruct cs as [|c cs'] eqn:Ecs; [by apply wp_return, pass_none|]. rewrite <- Ecs in *. clear Ecs c cs'.
  apply wp_bind. destruct (load_quant_exit_contexts _ _ _ _) as [contexts|e]; [apply wp_ret|by apply wp_return, pass_none].
  apply (wp_pass_of _ candidate_position); [|done|by rewrite Hcs|by rewrite Hcs| |done].
  - intros c w1 _ Hok1 Hl1. apply wp_try_call. eapply wp_mono; [apply evaluate_spec, Hok1|].
    intros w' f H. pose proof (handled_passed _ _ _ _ Hok1 Hl1 H).
    by destruct (match f with Go r | Return r => r end).
  - rewrite Hcs. intros p (r & Hr & Hw & _)%HP. by exists r.
Qed.

Lemma failed_pass te cfg w :
  shared_ok w -> keyed (table w) ->
  wp (process_failed_exits quant_signals te cfg) (fun w' _ => pass_of (fun r => r_state r =? 6)%Z w w') w.
Proof.
  intros Hok Hk. unfold process_failed_exits. apply wp_bind, wp_get. cbv beta iota.
  apply wp_bind. unfold get_failed_exits, query, fetch.
  destruct (te_list te FailedPass); [apply wp_ret|by apply wp_return, pass_none].
  destruct (query_positions (R := by_updated_asc) (fun r => r_state r =? 6)%Z w Hk) as (Hn & Hl & HP).
  apply (wp_pass_of _ id); [|done|by rewrite list_fmap_id..| |done].
  - intros p w1 _ Hok1 _. eapply wp_mono; [apply recover_failed_spec|].
    intros w' f [_ H]. by apply touches_passed.
  - rewrite list_fmap_id. intros p (r & Hr & Hw & _)%HP. by exists r.
Qed.

Lemma ready_pass te w :
  shared_ok w -> keyed (table w) ->
  wp (process_exit_ready debug_reason show_service_error caused_by_404 quant_signals show_exit_error te)
    (fun w' _ => pass_of (fun r => r_state r =? 2)%Z w w') w.
Proof.
  intros Hok Hk. unfold process_exit_ready. apply wp_bind, wp_get. cbv beta iota.
  apply wp_bind. unfold get_exit_ready, query, fetch.
  destruct (te_list te ReadyPass); [apply wp_ret|by apply wp_return, pass_none].
  destruct (query_positions (R := by_updated_asc) (fun r => r_state r =? 2)%Z w Hk) as (Hn & Hl & HP).
  apply (wp_pass_of _ id); [|done|by rewrite list_fmap_id..| |done].
  - intros p w1 _ Hok1 Hl1. apply wp_bind, wp_call. eapply wp_mono; [by apply execute_exit_spec|].
    intros w' f H. apply wp_ret. exact (exit_passed _ _ _ _ _ Hok1 Hl1 H).
  - rewrite list_fmap_id. intros p (r & Hr & Hw & _)%HP. by exists r.
Qed.

Lemma resolution_pass te w :
  shared_ok w -> keyed (table w) ->
  wp (check_market_resolutions te) (fun w' _ => pass_of
    (fun r => (r_exit_strategy r =? 0) && ((r_state r =? 1) || (r_state r =? 2)))%Z w w') w.
Proof.
  intros Hok Hk. unfold check_market_resolutions. apply wp_bind, wp_get. cbv beta iota.
  apply wp_bind. unfold get_hold_to_resolution, query, fetch.
  destruct (te_list te ResolutionPass); [apply wp_ret|by apply wp_return, pass_none].
  destruct (query_positions (R := by_entry_asc)
    (fun r => (r_exit_strategy r =? 0) && ((r_state r =? 1) || (r_state r =? 2)))%Z w Hk) as (Hn & Hl & HP).
  match goal with |- context [?f <$> merge_sort ?R ?l] => set (ps := f <$> merge_sort R l) in * end.
  destruct ps as [|c cs'] eqn:Ecs; [by apply wp_return, pass_none|]. rewrite <- Ecs in *. clear Ecs c cs'.
  apply (wp_pass_of _ id); [|done|by rewrite list_fmap_id..| |done].
  - intros p w1 _ Hok1 Hl1. unfold resolve_position.
    destruct (_ !! _) as [winner|]; [|apply wp_ret, touches_passed; [done|apply touches_refl]].
    apply wp_bind, wp_try_call. eapply wp_mono; [apply finalize_spec, Hok1|].
    intros w' f (closed & -> & H). apply wp_ret. apply (handled_passed (te_of te ResolutionPass (pos_id p)) _ _ _ Hok1 Hl1).
    by destruct closed; [right|left].
  - rewrite list_fmap_id. intros p (r & Hr & Hw & _)%HP. by exists r.
Qed.
Lemma one_legged_market io now leg msg ctx p s :
  pos_market_id (fst (fst (transition_one_legged_to_exit_ready io now leg msg ctx p s))) = pos_market_id p.
Proof.
  unfold transition_one_legged_to_exit_ready. destruct (negb _); [done|].
  unfold mark_open, mark_exit_ready. rewrite !transition_ok by done.
  unfold persist_and_record, repo_update, drop_missing_leg. by destruct (io_db io); case_bool_decide.
Qed.

(** What was added to the dedup set does not matter. *)
Lemma passed_grow id w w1 w2 :
  frame id w w1 -> (forall x, x ∈ sh_dedup w -> x ∈ sh_dedup w1) -> passed [id] w1 w2 -> passed [id] w w2.
Proof.
  intros Hf Hd [Hok O R D]. split; [done| | |].
  - intros j Hj. rewrite O by done. by eapply frame_others.
  - intros j. pose proof (frame_rows _ _ _ j Hf) as R1. specialize (R j).
    destruct R1 as [r1 r2 H1|]; inversion R; subst; constructor. by eapply same_entry_trans.
  - intros x Hx. by apply D, Hd.
Qed.

Lemma recover_one_legged_spec en p w :
  shared_ok w -> loaded w p ->
  wp (recover_one_legged debug_reason show_service_error caused_by_404 quant_signals show_exit_error en p)
    (fun w' f => passed [pos_id p] w w') w.
Proof.
  intros Hok Hl. unfold recover_one_legged.
  destruct (_ <=? _)%dec; [by apply wp_ret, touches_passed, touches_refl|].
  apply wp_bind, wp_get. cbv beta iota zeta.
  apply (wp_serve (xe_io en XOneLegged) p); [apply one_legged_outcome|].
  intros p' s' r E Hid Ht. cbv beta iota. destruct r as [[]|e]; [|by apply wp_ret, touches_passed].
  pose proof (one_legged_market (xe_io en XOneLegged) (xe_clock en XOneLegged) "yes" one_legged_msg
    (event_context (current_execution_mode w) SOURCE_ARBITRAGE None) p (sh_service w)) as Hm.
  rewrite E in Hm. simpl in Hm. apply wp_bind, wp_modify. cbv beta iota.
  pose proof (pa_ok _ _ _ (touches_passed _ _ _ Hok Ht)) as [Hb Hx].
  match goal with |- wp _ _ ?w2 => set (w1 := w2) end.
  assert (Hok1 : shared_ok w1) by by split.
  assert (Hf : frame (pos_id p) w w1).
  { destruct Ht as [Hf _ _]. eapply frame_trans; [exact Hf|by apply frame_same]. }
  apply wp_bind, wp_call. eapply wp_mono; [by apply execute_exit_spec|].
  intros w' f H. apply wp_ret. eapply passed_grow; [exact Hf| |].
  - intros x Hx'. apply elem_of_union_r. exact Hx'.
  - rewrite <- Hid. eapply exit_passed; [done| |exact H].
    destruct Hl as (row & Hr & Hmk). pose proof (frame_rows _ _ _ (pos_id p) Hf) as Hrow.
    rewrite Hr in Hrow. inversion Hrow as [? r' Hs E1 E2|]; subst. exists r'.
    destruct Hs as (_ & Hs & _). split; [by rewrite Hid|congruence].
Qed.

Definition row_one_legged (r : PositionRow) : bool := is_one_legged_entry_fail (row_to_position r).

Lemma filter_nodup (P : Position -> bool) ps :
  NoDup (pos_id <$> ps) -> NoDup (pos_id <$> List.filter P ps).
Proof.
  induction ps as [|p ps IH]; csimpl; [done|]. intros [Hp Hn]%NoDup_cons.
  destruct (P p); csimpl; [|by apply IH]. apply NoDup_cons. split; [|by apply IH].
  intros (q & E & Hq)%list_elem_of_fmap. apply Hp. rewrite E. apply list_elem_of_fmap_2.
  apply list_elem_of_In, List.filter_In in Hq. apply list_elem_of_In, Hq.
Qed.

Lemma one_legged_pass te w :
  shared_ok w -> keyed (table w) ->
  wp (process_one_legged_recovery debug_reason show_service_error caused_by_404 quant_signals
        show_exit_error te) (fun w' _ => pass_of row_one_legged w w') w.
Proof.
  intros Hok Hk. unfold process_one_legged_recovery. apply wp_bind, wp_get. cbv beta iota.
  apply wp_bind. unfold get_one_legged_entry_failed, query, fetch.
  destruct (te_list te OneLeggedPass); [apply wp_ret|by apply wp_return, pass_none].
  match goal with |- context [select_rows ?where_ _] =>
    destruct (query_positions (R := by_updated_asc) where_ w Hk) as (Hn & Hl & HP) end.
  apply (wp_pass_of _ id); rewrite ?list_fmap_id; try done.
  - intros p w1 _ Hok1 Hl1. by apply recover_one_legged_spec.
  - by apply filter_nodup.
  - intros p Hp. apply list_elem_of_In, List.filter_In in Hp as [Hp _]. by apply Hl, list_elem_of_In.
  - intros p Hp. apply list_elem_of_In, List.filter_In in Hp as [Hp Ho].
    apply list_elem_of_In, HP in Hp as (r & Hr & _ & ->). by exists r.
Qed.

(** *** The dedup set *)

(** An active position, or a one-legged entry that the handler will sell. *)
Definition occupies (r : PositionRow) : bool := row_active r || row_one_legged r.

Lemma closed_free r : r_state r = 4%Z -> occupies r = false.
Proof.
  intros Hs. unfold occupies, row_active, row_one_legged, is_one_legged_entry_fail. simpl. by rewrite Hs.
Qed.

Lemma passed_covers ids w w' :
  covered_by occupies w -> (forall j, j ∈ ids -> exists r, table w !! j = Some r /\ occupies r = true) ->
  passed ids w w' -> covered_by occupies w'.
Proof.
  intros [Hu Hd] Hids [_ O R D].
  assert (Hback : forall i r', table w' !! i = Some r' -> occupies r' = true ->
    exists r, table w !! i = Some r /\ occupies r = true /\ r_market_id r' = r_market_id r).
  { intros i r' Hr' Hoc. specialize (R i). rewrite Hr' in R. inversion R as [r ? Hs E|]; subst.
    exists r. split; [done|]. split; [|apply Hs].
    destruct (decide (i ∈ ids)) as [Hi|Hi].
    - destruct (Hids i Hi) as (r0 & E0 & H0). rewrite <- E in E0. by injection E0 as ->.
    - rewrite (O i Hi) in Hr'. rewrite <- E in Hr'. by injection Hr' as ->. }
  split.
  - intros i j r s Hi Hj Hr Hs Hm.
    destruct (Hback i r Hi Hr) as (r0 & E1 & O1 & M1). destruct (Hback j s Hj Hs) as (s0 & E2 & O2 & M2).
    eapply Hu; [exact E1|exact E2|done..|congruence].
  - intros i r Hi Hr. destruct (Hback i r Hi Hr) as (r0 & E1 & O1 & M1).
    destruct (D (r_market_id r)) as [|(j & s & Hj & Hs & Hst & Hm)]; [rewrite M1; by eapply Hd|done|].
    destruct (Hids j Hj) as (s0 & E2 & O2). exfalso.
    pose proof (R j) as Rj. rewrite E2, Hs in Rj. inversion Rj as [? ? Hse|]; subst.
    assert (i = j) as ->.
    { eapply Hu; [exact E1|exact E2|done..|]. destruct Hse as (_ & Hse & _). congruence. }
    rewrite Hi in Hs. injection Hs as ->. by rewrite closed_free in Hr.
Qed.

(** What every tick keeps. *)
Record sound w : Prop := {
  so_ok : shared_ok w;
  so_keyed : keyed (table w);
}.

Lemma pass_sound P w w' : sound w -> pass_of P w w' -> sound w'.
Proof. intros [_ Hk] (ids & Hp & _). split; [apply Hp|by eapply passed_keyed]. Qed.

Lemma pass_covers P w w' :
  (forall r, P r = true -> occupies r = true) -> pass_of P w w' ->
  covered_by occupies w -> covered_by occupies w'.
Proof.
  intros HP (ids & Hp & Hids) Hc. eapply passed_covers; [exact Hc| |exact Hp].
  intros j (r & Hr & HPr)%Hids. exists r. split; [done|by apply HP].
Qed.

(** A pass leaves the rows it does not select alone. *)
Lemma pass_keeps P w w' j r :
  pass_of P w w' -> table w !! j = Some r -> P r = false -> table w' !! j = Some r.
Proof.
  intros (ids & Hp & Hids) Hr HP. rewrite (pa_others _ _ _ Hp); [done|].
  intros (r' & Hr' & HP')%Hids. congruence.
Qed.

(** The run of a pass. *)
Lemma run_pass P (m : handler Shared (result unit ExitError) (result unit ExitError)) w :
  wp m (fun w' _ => pass_of P w w') w -> exists w' r, run_handler m w = Some (w', r) /\ pass_of P w w'.
Proof. intros H. by apply (wp_run m (fun w' _ => pass_of P w w')). Qed.
(** ** The ticks *)

(** A row no pass selects: pending, closing, closed, stalled, or a failed entry
    that holds nothing. *)
Definition idle (r : PositionRow) : bool :=
  negb ((r_state r =? 1) || (r_state r =? 2) || (r_state r =? 6))%Z && negb (row_one_legged r).

(** A position in a slot, in recovery, or a one-legged entry to be sold. *)
Definition holds (r : PositionRow) : bool := row_slot r || row_recovery r || row_one_legged r.

(** No row is added, no entry changes, and a row that holds nothing stays so. *)
Definition evolves w w' : Prop := forall j r', table w' !! j = Some r' ->
  exists r, table w !! j = Some r /\ same_entry r r' /\ (holds r' = true -> holds r = true).

Lemma evolves_refl w : evolves w w.
Proof. intros j r Hr. exists r. split; [done|]. split; [apply entry_refl|done]. Qed.
Lemma evolves_trans w1 w2 w3 : evolves w1 w2 -> evolves w2 w3 -> evolves w1 w3.
Proof.
  intros E1 E2 j r3 H3. destruct (E2 j r3 H3) as (r2 & H2 & S2 & O2).
  destruct (E1 j r2 H2) as (r1 & H1 & S1 & O1). exists r1. split; [done|].
  split; [by eapply same_entry_trans|auto].
Qed.

Lemma pass_evolves P w w' :
  (forall r, P r = true -> holds r = true) -> pass_of P w w' -> evolves w w'.
Proof.
  intros HP (ids & [_ O R _] & Hids) j r' Hr'. specialize (R j). rewrite Hr' in R.
  inversion R as [r ? Hs E|]; subst. symmetry in E. exists r. split; [done|]. split; [done|].
  destruct (decide (j ∈ ids)) as [Hj|Hj].
  - destruct (Hids j Hj) as (r0 & E0 & H0). rewrite E in E0. injection E0 as <-. intros _. by apply HP.
  - rewrite (O j Hj), E in Hr'. injection Hr' as ->. done.
Qed.

Record keeps w w' : Prop := {
  ke_sound : sound w';
  ke_evolves : evolves w w';
  ke_covered : covered_by occupies w -> covered_by occupies w';
  ke_idle : forall j r, table w !! j = Some r -> idle r = true -> table w' !! j = Some r;
}.

Lemma keeps_refl w : sound w -> keeps w w.
Proof. split; [done|apply evolves_refl|done..]. Qed.
Lemma keeps_trans w1 w2 w3 : keeps w1 w2 -> keeps w2 w3 -> keeps w1 w3.
Proof. intros [] []. split; [done|by eapply evolves_trans|auto..]. Qed.

Lemma pass_keeps_all P w w' :
  (forall r, P r = true -> occupies r = true /\ holds r = true /\ idle r = false) ->
  sound w -> pass_of P w w' -> keeps w w'.
Proof.
  intros HP Hs Hp. split; [by eapply pass_sound|..].
  - apply (pass_evolves P); [|done]. intros r Hr. by apply HP.
  - apply (pass_covers P); [|done]. intros r Hr. by apply HP.
  - intros j r Hr Hi. eapply pass_keeps; [done..|]. destruct (P r) eqn:E; [|done].
    destruct (HP r E) as (_ & _ & Hi'). congruence.
Qed.

Lemma selects_state r s :
  (r_state r =? s)%Z = true -> s ∈ [1; 2; 6]%Z -> occupies r = true /\ holds r = true /\ idle r = false.
Proof.
  intros E Hs. apply Z.eqb_eq in E. unfold occupies, holds, row_slot, row_recovery, idle, row_active. rewrite E.
  rewrite !elem_of_cons in Hs. destruct Hs as [->|[->|[->|Hs]]]; try done. by apply elem_of_nil in Hs.
Qed.
Lemma selects_one_legged r :
  row_one_legged r = true -> occupies r = true /\ holds r = true /\ idle r = false.
Proof. intros E. unfold occupies, holds, idle. rewrite E, !orb_true_r. by rewrite andb_false_r. Qed.

Lemma exit_tick_keeps te cfg w :
  sound w -> exists w', exit_tick debug_reason show_service_error caused_by_404 quant_signals
    show_exit_error te cfg w = Some w' /\ keeps w w'.
Proof.
  intros Hs. unfold exit_tick. destruct (negb (xc_enabled cfg)); [exists w; split; [done|by apply keeps_refl]|].
  destruct (run_pass _ _ _ (evaluate_pass te cfg w (so_ok _ Hs) (so_keyed _ Hs))) as (w1 & r1 & -> & H1).
  assert (K1 : keeps w w1).
  { eapply pass_keeps_all; [|done|exact H1]. intros r [_ E]%andb_prop. apply (selects_state r 1 E).
    apply list_elem_of_here. }
  pose proof (ke_sound _ _ K1) as S1. cbn [mbind option_bind].
  destruct (run_pass _ _ _ (failed_pass te cfg w1 (so_ok _ S1) (so_keyed _ S1))) as (w2 & r2 & -> & H2).
  assert (K2 : keeps w w2).
  { eapply keeps_trans; [exact K1|]. eapply pass_keeps_all; [|done|exact H2]. intros r E.
    apply (selects_state r 6 E). by do 2 apply list_elem_of_further; apply list_elem_of_here. }
  pose proof (ke_sound _ _ K2) as S2. cbn [mbind option_bind].
  destruct (run_pass _ _ _ (ready_pass te w2 (so_ok _ S2) (so_keyed _ S2))) as (w3 & r3 & -> & H3).
  assert (K3 : keeps w w3).
  { eapply keeps_trans; [exact K2|]. eapply pass_keeps_all; [|done|exact H3]. intros r E.
    apply (selects_state r 2 E). apply list_elem_of_further, list_elem_of_here. }
  pose proof (ke_sound _ _ K3) as S3. cbn [mbind option_bind].
  destruct (run_pass _ _ _ (one_legged_pass te w3 (so_ok _ S3) (so_keyed _ S3))) as (w4 & r4 & -> & H4).
  exists w4. split; [done|]. eapply keeps_trans; [exact K3|].
  eapply pass_keeps_all; [exact selects_one_legged|done|exact H4].
Qed.

Lemma resolution_tick_keeps te cfg w :
  sound w -> exists w', resolution_tick te cfg w = Some w' /\ keeps w w'.
Proof.
  intros Hs. unfold resolution_tick. destruct (negb (xc_enabled cfg)); [exists w; split; [done|by apply keeps_refl]|].
  destruct (run_pass _ _ _ (resolution_pass te w (so_ok _ Hs) (so_keyed _ Hs))) as (w1 & r1 & -> & H1).
  exists w1. split; [done|]. eapply pass_keeps_all; [|done|exact H1].
  intros r [_ [E|E]%orb_prop]%andb_prop; [apply (selects_state r 1 E)|apply (selects_state r 2 E)].
  - apply list_elem_of_here.
  - apply list_elem_of_further, list_elem_of_here.
Qed.

(** ** The tasks *)

Abbreviation unique_active := (unique_by row_active).
Abbreviation covered := (covered_by row_active).

Definition no_one_legged (t : Table) : Prop := forall i r, t !! i = Some r -> row_one_legged r = false.

Lemma covered_occupies w :
  no_one_legged (table w) -> covered w -> covered_by occupies w.
Proof.
  intros Hn [Hu Hd].
  assert (Ha : forall i r, table w !! i = Some r -> occupies r = true -> row_active r = true).
  { intros i r Hr Ho. unfold occupies in Ho. rewrite (Hn i r Hr), orb_false_r in Ho. done. }
  split.
  - intros i j r s Hi Hj Hr Hs. eapply Hu; [done..|by eapply Ha|by eapply Ha].
  - intros i r Hi Hr. eapply Hd; [done|by eapply Ha].
Qed.
Lemma covered_active w : covered_by occupies w -> covered w.
Proof.
  intros [Hu Hd]. assert (Ha : forall r, row_active r = true -> occupies r = true).
  { intros r Hr. unfold occupies. by rewrite Hr. }
  split.
  - intros i j r s Hi Hj Hr Hs. eapply Hu; [done..|by apply Ha|by apply Ha].
  - intros i r Hi Hr. eapply Hd; [done|by apply Ha].
Qed.

Abbreviation turn := (task_turn debug_reason show_service_error caused_by_404 quant_signals show_exit_error).
Abbreviation loop := (task_loop debug_reason show_service_error caused_by_404 quant_signals show_exit_error).

Definition task_ok (i : task_input) : Prop := match i with ArbTurn i => input_ok i | _ => True end.

Lemma task_turn_keeps i (w : ArbAutoExecutor) :
  sound (ae_shared w) -> exists w' : ArbAutoExecutor, turn i w = Some w' /\ sound (ae_shared w') /\
    (task_ok i -> no_one_legged (table (ae_shared w)) -> covered (ae_shared w) -> covered (ae_shared w')).
Proof.
  intros Hs. destruct i as [i|cfg te|cfg te]; simpl; unfold on_tick.
  - destruct (turn_keeps debug_reason i w (so_ok _ Hs)) as (w' & -> & Hok & Hk & Hc).
    exists w'. split; [done|]. split; [split; [done|by apply Hk, Hs]|]. auto.
  - destruct (exit_tick_keeps te cfg _ Hs) as (sh & -> & K). eexists. split; [done|].
    split; [apply K|]. intros _ Hn Hc. by apply covered_active, K, covered_occupies.
  - destruct (resolution_tick_keeps te cfg _ Hs) as (sh & -> & K). eexists. split; [done|].
    split; [apply K|]. intros _ Hn Hc. by apply covered_active, K, covered_occupies.
Qed.

Lemma startup_keyed now io_cleanup io_active markets upsert (w : ArbAutoExecutor) :
  keyed (table (ae_shared w)) ->
  keyed (table (ae_shared (arb_startup now io_cleanup io_active markets upsert w))).
Proof.
  intros Hk.
  assert (Hc : keyed (cleanup_stale io_cleanup now (table (ae_shared w)))).
  { unfold cleanup_stale. destruct io_cleanup; [|done]. intros j r Hj. rewrite lookup_fmap in Hj.
    destruct (table (ae_shared w) !! j) as [r0|] eqn:E; [|done]. simpl in Hj. injection Hj as <-.
    unfold cleanup_row. destruct (stale_pending now r0); by apply Hk in E. }
  unfold arb_startup, refresh_cache, load_dedup. simpl. destruct (refresh _ _ _) as [c r]. simpl.
  by destruct (get_active _ _).
Qed.

(** Before each turn, no row is a one-legged failed entry. *)
Fixpoint quiet (inputs : list task_input) (w : ArbAutoExecutor) : Prop :=
  match inputs with
  | [] => True
  | i :: inputs => no_one_legged (table (ae_shared w)) /\
      match turn i w with Some w' => quiet inputs w' | None => True end
  end.

Lemma task_loop_keeps inputs (w : ArbAutoExecutor) :
  sound (ae_shared w) -> exists w' : ArbAutoExecutor, loop inputs w = Some w' /\ sound (ae_shared w') /\
    (Forall task_ok inputs -> quiet inputs w -> covered (ae_shared w) -> covered (ae_shared w')).
Proof.
  unfold task_loop. revert w. induction inputs as [|i l IH]; intros w Hs; [by exists w|].
  destruct (task_turn_keeps i w Hs) as (w1 & E & S1 & C1).
  destruct (IH w1 S1) as (w' & E' & S' & C'). exists w'. simpl. rewrite E. split; [done|].
  split; [done|]. intros [Hi Hl]%Forall_cons_1 [Hn Hq] Hc. auto.
Qed.
(** ** Theorems *)


(** The ticks of the exit handler never panic and never touch a position
    that is pending, closing, closed or stalled, nor an entry that failed
    before it held anything: a position whose exit stopped between the mark
    and the sale stays in Closing whatever the later ticks do. *)
Theorem ticks_leave_idle te cfg w :
  sound w ->
  exists w1 w2,
    exit_tick debug_reason show_service_error caused_by_404 quant_signals show_exit_error te cfg w
      = Some w1 /\
    resolution_tick te cfg w = Some w2 /\ sound w1 /\ sound w2 /\
    forall id r, table w !! id = Some r -> idle r = true ->
      table w1 !! id = Some r /\ table w2 !! id = Some r.
Proof.
  intros Hs. destruct (exit_tick_keeps te cfg w Hs) as (w1 & E1 & [S1 _ _ I1]).
  destruct (resolution_tick_keeps te cfg w Hs) as (w2 & E2 & [S2 _ _ I2]).
  exists w1, w2. split_and!; try done. intros id r Hr Hi. split; [by apply I1|by apply I2].
Qed.

(** A one-legged arbitrage is never closed by its exit: when YES was filled and NO was
    not, the executor leaves an ExitReady row that still has the NO price and
    the quantity requested; the exit that reloads it sells the NO leg too,
    which was never bought, so that it ends ExitFailed for every outcome of its
    two orders: the position is not closed, its loss is not told to the breaker
    and its market stays blocked. *)
Theorem one_legged_entry_never_exits arb_en arb mode y n q (w w' : ArbAutoExecutor) x1 ry pl1 x2 rn pl2
    en yt nt :
  shared_ok (ae_shared w) -> (0 < dval (no_ask arb))%Q -> (0 < dval q)%Q ->
  io_db (en_io arb_en AtOneLegged) = true ->
  leg_run (en_yes arb_en) arb y q (yes_ask arb) (sh_executor (ae_shared w)) x1 ry pl1 ->
  is_success ry = true ->
  leg_run (en_no arb_en) arb n (er_filled_quantity ry) (no_ask arb) x1 x2 rn pl2 ->
  is_success rn = false ->
  run_handler (enter debug_reason arb_en arb mode y n q) w = Some (w', Ok tt) ->
  cache_get (arb_market_id arb) (sh_cache (ae_shared w')) = Some (yt, nt) ->
  (forall step, io_db (xe_io en step) = true) ->
  exists r, table (ae_shared w') !! en_position_id arb_en = Some r /\ r_state r = 2%Z /\
    exists w2, run_handler (execute_exit debug_reason show_service_error caused_by_404 quant_signals
                              show_exit_error en (row_to_position r)) (ae_shared w') = Some (w2, Ok tt) /\
      row_in (en_position_id arb_en) ExitFailed w2 /\
      sh_breaker w2 = sh_breaker (ae_shared w) /\ arb_market_id arb ∈ sh_dedup w2.
Proof.
  intros Hok Hna Hq Hio Hy Hys Hn Hns Hrun Hc Hdb.
  pose proof (wp_run_inv _ (fun (u : ArbAutoExecutor) r => entry_outcome arb_en arb y n q w u r) w w' (Ok tt)
    (enter_spec debug_reason arb_en arb mode y n q w (ok_retries _ Hok)) Hrun) as Hout.
  destruct Hout as [(Hbad & _)|(_ & x1' & ry' & pl1' & Hy' & Hout)]; [discriminate Hbad|].
  unfold leg_run in Hy, Hn, Hy'. rewrite Hy in Hy'. injection Hy' as <- <- <-. rewrite Hys in Hout.
  destruct Hout as (x2' & rn' & pl2' & Hn' & Hout). unfold leg_run in Hn'. rewrite Hn in Hn'.
  injection Hn' as <- <- <-. rewrite Hns in Hout.
  destruct Hout as [(r & Ht & [Eid Em Ey En Eq _] & Hr) Hd _ Hbr Hx].
  destruct (Hr Hio) as (Hst & Hhy & Hhn & Hxy & Hxn).
  assert (Hl : table (ae_shared w') !! en_position_id arb_en = Some r) by by rewrite Ht, lookup_insert_eq.
  exists r. split; [done|]. split; [done|].
  assert (Hok' : shared_ok (ae_shared w')) by (destruct Hok; split; [by rewrite Hbr|by rewrite Hx]).
  destruct (wp_run _ (fun w2 res => res = Ok tt /\ exit_failed en (r_id r) (ae_shared w') w2) (ae_shared w')
    (unbought_exit debug_reason show_service_error caused_by_404 show_exit_error quant_signals en
       (row_to_position r) (ae_shared w') yt nt Hok' ltac:(simpl; by rewrite Hst)
       ltac:(split; simpl; rewrite ?En, ?Hhn, ?Eq; simpl; rewrite ?dval_ZERO; done || lra)
       ltac:(simpl; by rewrite Em) (Hdb _))) as (w2 & res & E & -> & [[_ Hb2 Hd2] Hrow]).
  exists w2. rewrite Eid in Hrow. split; [done|]. split; [by apply Hrow|]. split; [congruence|].
  rewrite Hd2, Hd. unfold add_when. apply elem_of_union_l, elem_of_singleton. done.
Qed.
End Facts.

(** ** The theorems at concrete inputs *)

Module TradingSample.
#[local] Existing Instance Concrete.decimal.
#[local] Existing Instance Concrete.decimal_spec.
#[local] Existing Instance Concrete.decimal_exact.
#[local] Existing Instance Concrete.chrono.
#[local] Existing Instance Concrete.uuid.
#[local] Existing Instance ConcreteJson.json.
#[local] Existing Instance Example_execution.display.
Import ArbSample ExitSample.

Definition tick_env : TickEnv := {|
  te_list := fun _ => true; te_contexts := true; te_market := fun _ => Err "unused";
  te_of := fun _ _ => exit_env |}.
Definition exit_config : ExitHandlerConfig := {| default_exit_config with xc_enabled := true |}.

Definition sample_turn := task_turn no_reason no_service_error no_404 ∅ no_exit_error.

(** [quiet], computed. *)
Definition quiet_table (t : Table) : bool :=
  forallb (fun ir => negb (row_one_legged (snd ir))) (map_to_list t).
Fixpoint quietb (inputs : list task_input) (w : ArbAutoExecutor) : bool :=
  match inputs with
  | [] => true
  | i :: inputs => quiet_table (table (ae_shared w)) &&
      match sample_turn i w with Some w' => quietb inputs w' | None => true end
  end.
Lemma quiet_table_ok t : quiet_table t = true -> no_one_legged t.
Proof.
  intros H i r Hr. unfold quiet_table in H. rewrite forallb_forall in H.
  specialize (H (i, r)). simpl in H. apply negb_true_iff, H, list_elem_of_In, elem_of_map_to_list, Hr.
Qed.
Lemma quietb_ok inputs w :
  quietb inputs w = true -> quiet no_reason no_service_error no_404 ∅ no_exit_error inputs w.
Proof.
  revert w. induction inputs as [|i l IH]; intros w H; [done|]. cbn [quietb quiet] in *.
  apply andb_prop in H as [H1 H2]. split; [by apply quiet_table_ok|]. unfold sample_turn in H2.
  destruct (task_turn _ _ _ _ _ i w); [by apply IH|done].
Qed.

(** Two signals with an exit tick between them. *)
Definition inputs : list task_input :=
  [ArbTurn (ArbSignal env opportunity); ExitTick exit_config tick_env;
   ArbTurn (ArbSignal env opportunity)].

Lemma executor_sound : sound (ae_shared executor).
Proof.
  split; [exact shared_fine|]. intros j r Hj.
  change (@lookup Uuid PositionRow Table _ j ∅ = Some r) in Hj. rewrite lookup_empty in Hj. discriminate Hj.
Qed.


Lemma ticks_leave_idle_witness :
  exists w1, exit_tick no_reason no_service_error no_404 ∅ no_exit_error tick_env exit_config
    (ae_shared executor) = Some w1 /\ sound w1.
Proof.
  destruct (ticks_leave_idle no_reason no_service_error no_404 ∅ no_exit_error tick_env exit_config
    _ executor_sound) as (w1 & w2 & E & _ & S & _). exists w1. exact (conj E S).
Defined.

(** No book for the NO order. *)
Definition one_leg_env : ArbEnv := {| env with en_no :=
  {| (order_env 2%positive) with oe_replies :=
       fun _ => {| Example_execution.replies with rp_book := Err "no book" |} |} |}.

(** The run of a leg's order, as a triple. *)
Definition leg_runs (oe : OrderEnv) (token : string) (qty expected : dec) (x : OrderExecutor)
    : OrderExecutor * ExecutionReport * list PostResponse :=
  match execute_market_order (oe_now oe) (oe_replies oe) (oe_timed oe) (oe_latency_us oe)
    (leg_order opportunity oe token qty expected (default_slippage (ex_config x))) x with
  | Some (x', Ok r, placed) => (x', r, placed)
  | _ => (x, Example_execution.bought, [])
  end.
Lemma leg_runs_ok oe token qty expected x :
  (0 <= max_retries (ex_config x) < 2 ^ 32 - 1)%Z ->
  let '(x', r, placed) := leg_runs oe token qty expected x in
  leg_run oe opportunity token qty expected x x' r placed.
Proof.
  intros Hm. unfold leg_runs, leg_run.
  edestruct execute_market_order_some as (x' & r & placed & E); [exact Hm|]. by rewrite E.
Qed.

Definition yes_run := leg_runs (en_yes one_leg_env) "yes" (d 40 0) (d 50 2) (sh_executor shared).
Definition no_run := leg_runs (en_no one_leg_env) "no" (er_filled_quantity (snd (fst yes_run)))
  (d 50 2) (fst (fst yes_run)).
Definition one_leg_left : ArbAutoExecutor :=
  match run_handler (enter no_reason one_leg_env opportunity "paper" "yes" "no" (d 40 0)) executor with
  | Some (w, _) => w
  | None => executor
  end.

Lemma one_leg_enters :
  run_handler (enter no_reason one_leg_env opportunity "paper" "yes" "no" (d 40 0)) executor =
    Some (one_leg_left, Ok tt).
Proof.
  unfold one_leg_left.
  destruct (wp_run _ (fun u r => entry_outcome one_leg_env opportunity "yes" "no" (d 40 0) executor u r)
    executor (enter_spec no_reason one_leg_env opportunity "paper" "yes" "no" (d 40 0) executor
      (ok_retries _ shared_fine))) as (w' & r & E & H).
  rewrite E. do 2 f_equal. destruct H as [(_ & _ & [H|H])|[H _]]; [discriminate H| |exact H].
  exfalso. change (is_Some (@lookup Uuid PositionRow Table _ 7%positive ∅)) in H.
  rewrite lookup_empty in H. by destruct H.
Qed.

Lemma one_legged_entry_never_exits_witness :
  exists r, table (ae_shared one_leg_left) !! 7%positive = Some r /\ r_state r = 2%Z.
Proof.
  destruct yes_run as [[x1 ry] pl1] eqn:Ey. destruct no_run as [[x2 rn] pl2] eqn:En.
  pose proof (leg_runs_ok (en_yes one_leg_env) "yes" (d 40 0) (d 50 2) (sh_executor shared)
    (ok_retries _ shared_fine)) as Hy. fold yes_run in Hy. rewrite Ey in Hy.
  assert (Hm : (0 <= max_retries (ex_config (fst (fst yes_run))) < 2 ^ 32 - 1)%Z)
    by (vm_compute; split; congruence).
  pose proof (leg_runs_ok (en_no one_leg_env) "no" (er_filled_quantity (snd (fst yes_run))) (d 50 2)
    (fst (fst yes_run)) Hm) as Hn. fold no_run in Hn. rewrite En, Ey in Hn.
  destruct (one_legged_entry_never_exits no_reason no_service_error no_404 ∅ no_exit_error one_leg_env
    opportunity "paper" "yes" "no" (d 40 0) executor one_leg_left x1 ry pl1 x2 rn pl2 exit_env
    "yes" "no" shared_fine) as (r & E & Hs & _).
  - vm_compute. reflexivity.
  - vm_compute. reflexivity.
  - reflexivity.
  - exact Hy.
  - replace ry with (snd (fst yes_run)) by by rewrite Ey. vm_compute. reflexivity.
  - exact Hn.
  - replace rn with (snd (fst no_run)) by by rewrite En. vm_compute. reflexivity.
  - exact one_leg_enters.
  - vm_compute. reflexivity.
  - intros step. reflexivity.
  - exists r. exact (conj E Hs).
Defined.

(** Two ticks after a one-legged entry: the position has failed to exit, and
    the breaker has not been told. *)
Example one_leg_ticks :
  (w ← exit_tick no_reason no_service_error no_404 ∅ no_exit_error tick_env exit_config
         (ae_shared one_leg_left);
   w ← exit_tick no_reason no_service_error no_404 ∅ no_exit_error tick_env exit_config w;
   Some (r_state <$> table w !! 7%positive, consecutive_losses (cb_state (sh_breaker w))))
  = Some (Some 6%Z, 0%Z).
Proof. vm_compute. reflexivity. Qed.

(** A quant position and an arbitrage in the same market, then a signal: the
    close of the quant position unblocks the market, which gets a second
    arbitrage. *)
Definition open_arb : Position :=
  {| (position_new 2%positive (at_minute 0) "m" (d 48 2) (d 46 2) (d 50 0) HoldToResolution) with
     pos_state := Open; held_yes_qty := d 50 0; held_no_qty := d 50 0 |}.
Definition two_positions : ArbAutoExecutor :=
  {| executor with ae_shared := {| shared with
     sh_service := {| svc_table :=
       {[ 1%positive := insert_row pair SOURCE_RECOMMENDATION None;
          2%positive := insert_row open_arb SOURCE_ARBITRAGE None ]}; svc_events := [] |};
     sh_dedup := {[ "m" ]} |} |}.
Definition active_rows (t : Table) : list (Uuid * string) :=
  (fun ir => (fst ir, r_market_id (snd ir))) <$>
    List.filter (fun ir => row_active (snd ir)) (map_to_list t).

Example quant_close_unblocks :
  (w ← task_loop no_reason no_service_error no_404 ∅ no_exit_error
         [ExitTick exit_config tick_env; ArbTurn (ArbSignal env opportunity)] two_positions;
   Some (length (active_rows (table (ae_shared w))), snd <$> active_rows (table (ae_shared w))))
  = Some (2%nat, ["m"; "m"]).
Proof. vm_compute. reflexivity. Qed.
End TradingSample.
