(* ===== verification/QuantExecutor.v ===== *)
(** * The quantitative signal executor

    Models [QuantSignalExecutor] of
    [crates/api-server/src/quant_signal_executor.rs]: its configuration, the
    processing of a signal (the checks, the size, the single order and the
    position it leaves), the per-strategy breakers fed by the positions closed
    today, and the task with its start.  It shares [Trading.Shared] with the
    arbitrage executor and the exit handler but for the map of tokens, of which
    it has its own.  A signal is inserted in [quant_signals] by a spawned task,
    which may run before or after the statements that update its row: the
    pending inserts are part of the state ([qe_spawned]).  What comes from
    outside while one signal is processed is a [QuantEnv].  The shadow
    predictions, the JSON metadata, the log lines and the heartbeat are left
    out. *)

From stdpp Require Import sorting.
From S2P Require Import Prelude F64 FloatParse Platform Handler Market CircuitBreaker Position.
From S2P Require Import PositionRepo PositionService Rollouts TokenCache Executor Signal Trading.
From S2P Require Import StrategyRisk ArbExecutor.

Local Open Scope handler_scope.

(** The steps at which a signal's processing reads the clock or the database. *)
Inductive QuantStep : Type :=
| QGenerated | QFresh | QExpiry | QStrategy | QDedup | QBreaker | QCount | QExposure
| QCreate | QEntryFailed | QFill | QOpen | QStatus | QOutcome | QFailure | QPublish.

Section QuantExecutor.
Context `{DO : DecimalOps} `{CO : ChronoOps} `{UO : UuidOps} `{JO : !JsonOps} `{SH : !DisplayOps}.
Variable debug_reason : FailureReason -> string.
Variable show_u32 : Z -> string.

(** Configuration for the quant signal executor. *)
Record QuantSignalExecutorConfig : Type := {
  qc_enabled : bool;
  base_position_size_usd : dec;
  min_confidence : f64;
  qc_max_signal_age_secs : Z;
  qc_cache_refresh_secs : Z;
  max_quant_positions : Z;
  flow_allocation_pct : f64;
  cross_market_allocation_pct : f64;
  mean_reversion_allocation_pct : f64;
  resolution_allocation_pct : f64;
  qc_min_book_depth : dec;
  qc_max_total_exposure : dec;
  strategy_max_daily_loss_usd : dec;
  strategy_max_consecutive_losses : Z;
  strategy_halt_cooldown_secs : Z;
}.

(** [from_env]; [env] is [std::env::var(..).ok()]. *)
Definition quant_config_from_env (env : string -> option string) : QuantSignalExecutorConfig := {|
  qc_enabled := bool_decide (env "QUANT_EXECUTOR_ENABLED" = Some "true");
  base_position_size_usd := env_dec env "QUANT_BASE_POSITION_SIZE" (dec_new 30 0);
  min_confidence := default (f64_lit 65 100) (env "QUANT_MIN_CONFIDENCE" ≫= parse_f64);
  qc_max_signal_age_secs := default 120%Z (env "QUANT_MAX_SIGNAL_AGE_SECS" ≫= parse_i64);
  qc_cache_refresh_secs := default 300%Z (env "QUANT_CACHE_REFRESH_SECS" ≫= parse_u64);
  max_quant_positions := default 20%Z (env "QUANT_MAX_POSITIONS" ≫= parse_u64);
  flow_allocation_pct := default (f64_lit 40 100) (env "QUANT_FLOW_ALLOCATION_PCT" ≫= parse_f64);
  cross_market_allocation_pct :=
    default (f64_lit 30 100) (env "QUANT_CROSS_MARKET_ALLOCATION_PCT" ≫= parse_f64);
  mean_reversion_allocation_pct :=
    default (f64_lit 20 100) (env "QUANT_MEAN_REVERSION_ALLOCATION_PCT" ≫= parse_f64);
  resolution_allocation_pct :=
    default (f64_lit 10 100) (env "QUANT_RESOLUTION_ALLOCATION_PCT" ≫= parse_f64);
  qc_min_book_depth := env_dec env "QUANT_MIN_BOOK_DEPTH" (dec_new 50 0);
  qc_max_total_exposure := env_dec env "ARB_MAX_TOTAL_EXPOSURE" (dec_new 25000 0);
  strategy_max_daily_loss_usd := env_dec env "QUANT_STRATEGY_MAX_DAILY_LOSS" (dec_new 200 0);
  strategy_max_consecutive_losses :=
    default 5%Z (env "QUANT_STRATEGY_MAX_CONSECUTIVE_LOSSES" ≫= parse_u32);
  strategy_halt_cooldown_secs :=
    default 3600%Z (env "QUANT_STRATEGY_HALT_COOLDOWN_SECS" ≫= parse_u64);
|}.

(** The allocation weight of a kind. *)
Definition allocation_for (kind : QuantSignalKind) (cfg : QuantSignalExecutorConfig) : f64 :=
  match kind with
  | Flow => flow_allocation_pct cfg
  | CrossMarket => cross_market_allocation_pct cfg
  | MeanReversion => mean_reversion_allocation_pct cfg
  | ResolutionProximity => resolution_allocation_pct cfg
  end.

(** ** The table [quant_signals] *)

Record QuantRow : Type := {
  qg_id : Uuid;
  qg_kind : string;
  qg_condition_id : string;
  qg_direction : string;
  qg_confidence : f64;
  qg_size_usd : dec;
  qg_metadata : Metadata;
  qg_generated_at : datetime;
  qg_execution_status : string;
  qg_skip_reason : option string;
  qg_position_id : option Uuid;
}.

(** The row of a new signal; the columns the INSERT does not list have their
    defaults. *)
Definition quant_row (s : QuantSignal) : QuantRow := {|
  qg_id := qs_id s; qg_kind := kind_as_str (qs_kind s); qg_condition_id := qs_condition_id s;
  qg_direction := direction_as_str (qs_direction s); qg_confidence := qs_confidence s;
  qg_size_usd := qs_suggested_size_usd s; qg_metadata := qs_metadata s;
  qg_generated_at := qs_generated_at s;
  qg_execution_status := "pending"; qg_skip_reason := None; qg_position_id := None |}.

(** [ON CONFLICT (id, generated_at) DO NOTHING]. *)
Definition same_key (a b : QuantRow) : bool :=
  bool_decide (qg_id a = qg_id b) &&
  match dt_cmp (qg_generated_at a) (qg_generated_at b) with Eq => true | _ => false end.
Definition insert_signal (row : QuantRow) (t : list QuantRow) : list QuantRow :=
  if existsb (same_key row) t then t else t ++ [row].

(** [UPDATE quant_signals SET .. WHERE id = ..]. *)
Definition update_signals (id : Uuid) (f : QuantRow -> QuantRow) (t : list QuantRow) : list QuantRow :=
  (fun r => if bool_decide (qg_id r = id) then f r else r) <$> t.
Definition set_signal_status (status : string) (skip_reason : option string) (r : QuantRow) : QuantRow :=
  {| r with qg_execution_status := status; qg_skip_reason := skip_reason |}.
Definition link_signal (position_id : Uuid) (r : QuantRow) : QuantRow :=
  {| r with qg_execution_status := "executed"; qg_position_id := Some position_id |}.

(** ** The executor *)

Record QuantSignalExecutor : Type := {
  qe_config : QuantSignalExecutorConfig;
  qe_shared : Shared;
  qe_tokens : gmap string (string * string);
  strategy_states : gmap QuantSignalKind StrategyState;
  processed_strategy_outcomes : gset Uuid;
  processed_outcomes_date : naive_date;
  qe_signals : list QuantRow;
  qe_spawned : list QuantRow;
  qe_risk : gmap string RiskRow;
}.

Definition all_kinds : list QuantSignalKind := [Flow; CrossMarket; MeanReversion; ResolutionProximity].
Definition quant_executor_new (now : datetime) (config : QuantSignalExecutorConfig) (shared : Shared)
    (signals : list QuantRow) (risk : gmap string RiskRow) : QuantSignalExecutor := {|
  qe_config := config; qe_shared := shared; qe_tokens := ∅;
  strategy_states := list_to_map ((fun k => (k, strategy_new now)) <$> all_kinds);
  processed_strategy_outcomes := ∅; processed_outcomes_date := date_naive now;
  qe_signals := signals; qe_spawned := []; qe_risk := risk |}.

Record QuantEnv : Type := {
  qn_position_id : Uuid;
  qn_signal_id : Uuid;
  qn_clock : QuantStep -> datetime;
  qn_io : QuantStep -> Io;
  (** The pending inserts that run before the row of the signal is updated,
      each by its place, and whether it succeeds. *)
  qn_spawned : list (nat * bool);
  qn_market : result Market string;
  qn_upsert : nat -> bool;
  qn_book : string -> result OrderBook string;
  qn_schema_missing : bool;
  qn_rollouts : option (list ActiveRollout);
  qn_models : option (gmap Uuid (option ModelScore));
  qn_order : OrderEnv;
}.

(** A spawned insert runs. *)
Definition run_spawned (i : nat) (io : bool) (w : QuantSignalExecutor) : QuantSignalExecutor :=
  match qe_spawned w !! i with
  | None => w
  | Some row => {| w with qe_spawned := delete i (qe_spawned w);
                          qe_signals := if io then insert_signal row (qe_signals w) else qe_signals w |}
  end.

(** Its cache: its own map of tokens, and what the caches share. *)
Definition own_cache (w : QuantSignalExecutor) : OutcomeTokenCache :=
  {| (sh_cache (qe_shared w)) with tc_tokens := qe_tokens w |}.
Definition share_cache (c : OutcomeTokenCache) (s : Shared) : Shared :=
  set_cache {| c with tc_tokens := tc_tokens (sh_cache s) |} s.
Definition put_cache (c : OutcomeTokenCache) (w : QuantSignalExecutor) : QuantSignalExecutor :=
  {| w with qe_tokens := tc_tokens c; qe_shared := share_cache c (qe_shared w) |}.

(** *** Events *)

Definition expected_edge_from_signal (s : QuantSignal) : option dec :=
  value ← qs_metadata s "expected_edge_bps"; x ← as_f64 value; dec_from_f64_retain x.

Definition with_signal (s : QuantSignal) (e : NewTradeEvent) : NewTradeEvent :=
  {| e with ev_signal_id := Some (qs_id s); ev_direction := Some (direction_as_str (qs_direction s));
            ev_confidence := Some (qs_confidence s); ev_expected_edge := expected_edge_from_signal s |}.
Definition with_requested_size (size : dec) (e : NewTradeEvent) : NewTradeEvent :=
  {| e with ev_requested_size_usd := Some size |}.
Definition with_unrealized_pnl (pnl : dec) (e : NewTradeEvent) : NewTradeEvent :=
  {| e with ev_unrealized_pnl := Some pnl |}.

(** ** One signal *)

Abbreviation quanting := (handler QuantSignalExecutor (result unit ServiceError)).

Definition q_change (f : Shared -> Shared) : quanting unit :=
  modify (fun w => {| w with qe_shared := f (qe_shared w) |}).
Definition q_shared {A} (f : Shared -> Shared * A) : quanting A :=
  update (fun w => let '(s, a) := f (qe_shared w) in ({| w with qe_shared := s |}, a)).
Definition q_try_shared {A} (f : Shared -> option (Shared * A)) : quanting A :=
  try_update (fun w => '(s, a) ← f (qe_shared w); Some ({| w with qe_shared := s |}, a)).

Section Signal.
Variable en : QuantEnv.
Variable signal : QuantSignal.

Definition signal_event (mode type : string) : NewTradeEvent :=
  with_signal signal (trade_event_new (kind_as_str (qs_kind signal)) mode "quant"
                        (qs_condition_id signal) type).

Definition record_generated (mode : string) : quanting unit :=
  q_change (record_event (qn_io en QGenerated)
    (with_requested_size (qs_suggested_size_usd signal) (signal_event mode "signal_generated"))).
Definition record_signal_outcome_event (mode type : string) (reason : option string) : quanting unit :=
  q_change (record_event (qn_io en QOutcome)
    (with_requested_size (qs_suggested_size_usd signal) (with_reason reason (signal_event mode type)))).
Definition record_position_failure_event (mode : string) (p : Position) (reason : string)
    : quanting unit :=
  q_change (record_event (qn_io en QFailure)
    (with_unrealized_pnl (unrealized_pnl p) (with_reason (Some reason)
      (with_state (Some "pending") (Some "entry_failed")
        (with_position (pos_id p) (signal_event mode "position_failed")))))).

(** A statement on the row of the signal, after the inserts that have run. *)
Definition update_row_of_signal (f : QuantRow -> QuantRow) : quanting unit :=
  modify (fun w => foldl (fun w ib => run_spawned (fst ib) (snd ib) w) w (qn_spawned en)) ;;
  modify (fun w => if io_db (qn_io en QStatus)
                   then {| w with qe_signals := update_signals (qs_id signal) f (qe_signals w) |}
                   else w).
Definition update_signal_status (status : string) (skip_reason : option string) : quanting unit :=
  update_row_of_signal (set_signal_status status skip_reason).
Definition link_signal_to_position (position_id : Uuid) : quanting unit :=
  update_row_of_signal (link_signal position_id).

Definition publish_quant (outcome_id action : string) (confidence : f64) : quanting unit :=
  q_change (send_signal {|
    su_signal_id := qn_signal_id en; su_signal_type := ArbitrageSignal;
    su_market_id := qs_condition_id signal; su_outcome_id := outcome_id; su_action := action;
    su_confidence := confidence; su_timestamp := qn_clock en QPublish |}).
Definition publish_quant_failure : quanting unit :=
  publish_quant "" "quant_execution_failed" f64_zero.

(** A skip: the status of the row and the event, then the return. *)
Definition skip_as {A} (type mode reason : string) : quanting A :=
  update_signal_status "skipped" (Some reason) ;;
  record_signal_outcome_event mode type (Some reason) ;;
  return_ (Ok tt).
Definition quant_skip {A} : string -> string -> quanting A := skip_as "signal_skipped".

Definition execution_mode (cfg : QuantSignalExecutorConfig) (w : QuantSignalExecutor) : string :=
  if qc_enabled cfg && is_live_ready (sh_executor (qe_shared w)) then "live" else "paper".

(** The insert of the signal is spawned. *)
Definition spawn_persist : quanting unit :=
  modify (fun w => {| w with qe_spawned := qe_spawned w ++ [quant_row signal] |}).

(** Is the strategy halted, once its state is brought up to date? *)
Definition refresh_strategy_state (cfg : QuantSignalExecutorConfig) : quanting bool :=
  update (fun w =>
    match strategy_states w !! qs_kind signal with
    | None => (w, false)
    | Some st =>
        let st := refresh_strategy (qn_clock en QStrategy) (strategy_halt_cooldown_secs cfg) st in
        ({| w with strategy_states := <[qs_kind signal := st]> (strategy_states w) |}, ss_halted st)
    end).

(** The market has no position of the executor, and the breaker lets trade:
    steps 6 and 7. *)
Definition quant_guards (cfg : QuantSignalExecutorConfig) (mode : string)
    : quanting (QuantSignalExecutorConfig * string) :=
  let! w := get_state in
  match active_quant_executor_position_exists_for_market (io_db (qn_io en QDedup))
          (qs_condition_id signal) (table (qe_shared w)) with
  | Ok true => quant_skip mode "duplicate"
  | Err _ => quant_skip mode "dedup_check_failed"
  | Ok false =>
      let! can_trade := q_try_shared (breaker_can_trade (io_db (qn_io en QBreaker))
                                        (qn_clock en QBreaker)) in
      when (negb can_trade) (quant_skip mode "circuit_breaker") ;;
      ret (cfg, mode)
  end.

(** The checks before the market is looked up: steps 1 to 7. *)
Definition quant_checks : quanting (QuantSignalExecutorConfig * string) :=
  let! w := get_state in
  let cfg := qe_config w in
  let mode := execution_mode cfg w in
  spawn_persist ;;
  record_generated mode ;;
  (* 1. enabled *)
  when (negb (qc_enabled cfg))
    (record_signal_outcome_event mode "signal_skipped" (Some "executor_disabled") ;; return_ (Ok tt)) ;;
  (* 2. freshness *)
  when (qc_max_signal_age_secs cfg <? secs_since (qn_clock en QFresh) (qs_generated_at signal))%Z
    (quant_skip mode "too_stale") ;;
  (* 3. expiry *)
  when (is_expired (qn_clock en QExpiry) signal) (skip_as "signal_expired" mode "expired") ;;
  (* 4. the strategy's breaker *)
  let! halted := refresh_strategy_state cfg in
  when halted (quant_skip mode "strategy_halted") ;;
  (* 5. confidence *)
  when (negb (meets_confidence (min_confidence cfg) signal)) (quant_skip mode "below_confidence") ;;
  quant_guards cfg mode.

(** The tokens, from its cache or by hydrating the market. *)
Definition quant_tokens : quanting (option (string * string)) :=
  update (fun w =>
    match cache_get (qs_condition_id signal) (own_cache w) with
    | Some ids => (w, Some ids)
    | None =>
        let '(c, ids) := hydrate_market (qs_condition_id signal) (qn_market en) (qn_upsert en)
                           (own_cache w) in
        (put_cache c w, ids)
    end).

Definition target_token (ids : string * string) : string :=
  match qs_direction signal with BuyYes => fst ids | BuyNo => snd ids end.
Definition outcome_name : string :=
  match qs_direction signal with BuyYes => "Yes" | BuyNo => "No" end.

(** The token to buy and its best ask: steps 8 to 10. *)
Definition quant_market (cfg : QuantSignalExecutorConfig) (mode : string) : quanting (string * dec) :=
  let! ids := quant_tokens in
  match ids with
  | None => quant_skip mode "market_cache_empty"
  | Some ids =>
      let token := target_token ids in
      match qn_book en token with
      | Err _ => quant_skip mode "orderbook_error"
      | Ok book =>
          match best_ask book with
          | None => quant_skip mode "no_liquidity"
          | Some ask =>
              when (ask_depth book <? qc_min_book_depth cfg)%dec (quant_skip mode "insufficient_depth") ;;
              ret (token, ask)
          end
      end
  end.

(** The size by confidence and allocation. *)
Definition weighted_size (cfg : QuantSignalExecutorConfig) : dec :=
  (base_position_size_usd cfg * default (dec_new 65 2) (dec_from_f64 (qs_confidence signal))
     * default (dec_new 40 2) (dec_from_f64 (allocation_for (qs_kind signal) cfg)))%dec.

Definition quant_rollout (mode : string) : RolloutDecision :=
  evaluate id mode (qn_schema_missing en) (qn_rollouts en) (qn_models en).

(** The quantity to buy: step 11. *)
Definition quant_size (cfg : QuantSignalExecutorConfig) (mode : string) (ask : dec) : quanting dec :=
  match skip_reason (quant_rollout mode) with
  | Some reason => quant_skip mode reason
  | None =>
      let size := rollout_size (quant_rollout mode) (weighted_size cfg) in
      when (size <? dec_new 1 0)%dec (quant_skip mode "size_too_small") ;;
      if (ask >? ZERO)%dec then attempt (dec_div size ask) else quant_skip mode "zero_price"
  end.

(** The portfolio: step 12. *)
Definition quant_portfolio (cfg : QuantSignalExecutorConfig) (mode : string) : quanting unit :=
  let! w := get_state in
  match count_active_quant_executor_positions (io_db (qn_io en QCount)) (table (qe_shared w)) with
  | Err _ => quant_skip mode "position_count_failed"
  | Ok open_count =>
      when (max_quant_positions cfg <=? open_count)%Z (quant_skip mode "max_positions_reached") ;;
      match get_total_active_exposure (io_db (qn_io en QExposure)) (table (qe_shared w)) with
      | Err _ => quant_skip mode "exposure_check_failed"
      | Ok total =>
          when (total >=? qc_max_total_exposure cfg)%dec (quant_skip mode "exposure_limit")
      end
  end.

(** *** The trade *)

Definition quant_leg : Leg := match qs_direction signal with BuyYes => YES | BuyNo => NO end.

Definition quant_params (ask quantity : dec) : CreatePositionParams := {|
  cp_market_id := qs_condition_id signal;
  cp_yes_entry_price := match qs_direction signal with BuyYes => ask | BuyNo => ZERO end;
  cp_no_entry_price := match qs_direction signal with BuyYes => ZERO | BuyNo => ask end;
  cp_quantity := quantity; cp_exit_strategy := ExitOnCorrection;
  cp_source := SOURCE_RECOMMENDATION; cp_source_signal_id := Some (qs_id signal);
  cp_arb_opportunity := None |}.

Definition quant_context (mode : string) : EventContext := {|
  ctx_execution_mode := mode; ctx_strategy := kind_as_str (qs_kind signal);
  ctx_source_label := "quant" |}.

(** 13. The pending position; the error of the INSERT is returned. *)
Definition create_quant (ask quantity : dec) (ctx : EventContext) : quanting Position :=
  let! created := q_shared (fun w =>
    let '(s, r) := create_position (qn_io en QCreate) (qn_position_id en) (qn_clock en QCreate)
                     (quant_params ask quantity) ctx (sh_service w) in
    (set_service s w, r)) in
  propagate created.

(** A call of the service on the position whose failure is logged. *)
Definition q_serve {A} (f : Service -> Position * Service * result A ServiceError)
    : quanting Position :=
  let! (p, _) := q_shared (on_position f) in ret p.

(** The order failed: so did the entry. *)
Definition fail_quant {A} (mode reason : string) (failure : FailureReason) (ctx : EventContext)
    (p : Position) : quanting A :=
  let! p := q_serve (service_mark_entry_failed debug_reason (qn_io en QEntryFailed)
                       (qn_clock en QEntryFailed) failure ctx p) in
  update_signal_status "failed" (Some reason) ;;
  record_position_failure_event mode p reason ;;
  publish_quant_failure ;;
  return_ (Ok tt).

Definition quant_order (token : string) (ask quantity slippage : dec) : MarketOrder :=
  with_slippage slippage (with_expected_price ask
    (market_order_new (oe_id (qn_order en)) (oe_created (qn_order en)) (qs_condition_id signal)
       token Buy quantity)).

(** 14. The order. *)
Definition order_quant (mode token : string) (ask quantity : dec) (ctx : EventContext)
    (p : Position) : quanting ExecutionReport :=
  let! w := get_state in
  let slippage := default_slippage (ex_config (sh_executor (qe_shared w))) in
  let! result := q_try_shared (place_market_order (qn_order en)
                   (quant_order token ask quantity slippage)) in
  match result with
  | Err e =>
      fail_quant mode "execution_error" (ConnectivityError ("Quant order execution failed: " +:+ e)) ctx p
  | Ok report =>
      if negb (is_success report)
      then fail_quant mode "order_rejected" (OrderRejected "Quant order rejected by exchange") ctx p
      else ret report
  end.

(** 15. and 16.: the fill, the open position, the link and the signal. *)
Definition settle_quant (report : ExecutionReport) (ctx : EventContext) (p : Position)
    : quanting (result unit ServiceError) :=
  let! p := q_serve (record_entry_fill (qn_io en QFill) (qn_clock en QFill) quant_leg
                       (er_average_price report) (er_filled_quantity report) ctx p) in
  let! p := q_serve (service_mark_open (qn_io en QOpen) (qn_clock en QOpen) ctx p) in
  link_signal_to_position (pos_id p) ;;
  publish_quant outcome_name "quant_executed" (qs_confidence signal) ;;
  ret (Ok tt).

Definition trade_quant (mode token : string) (ask quantity : dec) : quanting (result unit ServiceError) :=
  let ctx := quant_context mode in
  let! p := create_quant ask quantity ctx in
  let! report := order_quant mode token ask quantity ctx p in
  settle_quant report ctx p.

Definition process_signal : quanting (result unit ServiceError) :=
  let! (cfg, mode) := quant_checks in
  let! (token, ask) := quant_market cfg mode in
  let! quantity := quant_size cfg mode ask in
  quant_portfolio cfg mode ;;
  trade_quant mode token ask quantity.
End Signal.

(** ** The outcomes of the strategies *)

Definition parse_quant_signal_kind (kind : string) : option QuantSignalKind :=
  if bool_decide (kind = "flow") then Some Flow
  else if bool_decide (kind = "cross_market") then Some CrossMarket
  else if bool_decide (kind = "mean_reversion") then Some MeanReversion
  else if bool_decide (kind = "resolution_proximity") then Some ResolutionProximity
  else None.

(** Record an outcome with the breaker of its strategy; no P&L is no outcome.
    [io] says whether the state is persisted. *)
Definition record_strategy_outcome (now : datetime) (io : bool) (kind : QuantSignalKind) (pnl : dec)
    (cfg : QuantSignalExecutorConfig) (w : QuantSignalExecutor) : QuantSignalExecutor :=
  if dec_is_zero pnl then w
  else match strategy_states w !! kind with
  | None => w
  | Some st =>
      let '(st, _) := record_outcome show_u32 now pnl (strategy_max_daily_loss_usd cfg)
                        (strategy_max_consecutive_losses cfg) st in
      {| w with strategy_states := <[kind := st]> (strategy_states w);
                qe_risk := persist_strategy io (kind_as_str kind) st (qe_risk w) |}
  end.

Record QuantOutcomeRow : Type := {
  qo_position_id : Uuid;
  qo_kind : string;
  qo_realized_pnl : dec;
  qo_exit_timestamp : datetime;
}.

(** [positions p JOIN quant_signals qs ON qs.position_id = p.id], for the quant
    positions closed since the midnight of [today] with a P&L. *)
Definition outcome_of (today : naive_date) (p : PositionRow) (s : QuantRow) : option QuantOutcomeRow :=
  pnl ← r_realized_pnl p;
  exit_timestamp ← r_exit_timestamp p;
  if bool_decide (qg_position_id s = Some (r_id p)) && bool_decide (r_source p = Some 3%Z)
     && (r_state p =? 4)%Z && negb (date_ltb (date_naive exit_timestamp) today)
  then Some {| qo_position_id := r_id p; qo_kind := qg_kind s; qo_realized_pnl := pnl;
               qo_exit_timestamp := exit_timestamp |}
  else None.
Definition by_exit_asc (a b : QuantOutcomeRow) : Prop :=
  dt_leb (qo_exit_timestamp a) (qo_exit_timestamp b) = true.
#[export] Instance by_exit_asc_dec : RelDecision by_exit_asc.
Proof. intros a b. unfold by_exit_asc. apply _. Defined.
Definition quant_outcomes (today : naive_date) (positions : Table) (signals : list QuantRow)
    : list QuantOutcomeRow :=
  merge_sort by_exit_asc
    (p ← select_rows (fun _ => true) positions; omap (outcome_of today p) signals).

(** What surrounds a synchronisation: the clock, the query and the writes. *)
Record SyncEnv : Type := {
  sy_now : datetime;
  sy_query : bool;
  sy_clock : Uuid -> datetime;
  sy_persist : Uuid -> bool;
}.

Definition sync_row (se : SyncEnv) (cfg : QuantSignalExecutorConfig) (w : QuantSignalExecutor)
    (row : QuantOutcomeRow) : QuantSignalExecutor :=
  let id := qo_position_id row in
  if bool_decide (id ∈ processed_strategy_outcomes w) then w
  else
    let w := {| w with processed_strategy_outcomes := {[ id ]} ∪ processed_strategy_outcomes w |} in
    match parse_quant_signal_kind (qo_kind row) with
    | Some kind => record_strategy_outcome (sy_clock se id) (sy_persist se id) kind
                     (qo_realized_pnl row) cfg w
    | None => w
    end.

(** The processed set is of one day. *)
Definition roll_processed (today : naive_date) (w : QuantSignalExecutor) : QuantSignalExecutor :=
  if date_eqb today (processed_outcomes_date w) then w
  else {| w with processed_strategy_outcomes := ∅; processed_outcomes_date := today |}.

(** Fold today's closed outcomes into the breakers of the strategies. *)
Definition sync_strategy_outcomes (se : SyncEnv) (w : QuantSignalExecutor) : QuantSignalExecutor :=
  let today := date_naive (sy_now se) in
  let w := roll_processed today w in
  if sy_query se
  then foldl (sync_row se (qe_config w)) w (quant_outcomes today (table (qe_shared w)) (qe_signals w))
  else w.

(** ** The task *)

(** The start: the outcomes of today, then the stored states. *)
Definition load_states (io : QuantSignalKind -> bool) (now : datetime) (w : QuantSignalExecutor)
    : QuantSignalExecutor :=
  {| w with strategy_states :=
       map_imap (fun k _ => Some (load_strategy (io k) now (kind_as_str k) (qe_risk w)))
         (strategy_states w) |}.
Definition quant_startup (se : SyncEnv) (io : QuantSignalKind -> bool) (now : datetime)
    (w : QuantSignalExecutor) : QuantSignalExecutor :=
  load_states io now (sync_strategy_outcomes se w).

(** What the loop receives. *)
Inductive quant_input : Type :=
| QuantSignalIn (en : QuantEnv) (signal : QuantSignal)
| QuantLagged (n : Z)
| QuantCacheTick (markets : result (list Market) string) (upsert : nat -> bool)
| QuantOutcomeTick (se : SyncEnv)
| QuantSpawned (i : nat) (io : bool)
| QuantHeartbeat
| QuantConfigured (config : QuantSignalExecutorConfig).

(** One turn of the loop; the error of a signal is logged. *)
Definition quant_turn (i : quant_input) (w : QuantSignalExecutor) : option QuantSignalExecutor :=
  match i with
  | QuantSignalIn en signal => '(w, _) ← run_handler (process_signal en signal) w; Some w
  | QuantLagged _ | QuantHeartbeat => Some w
  | QuantCacheTick markets upsert => Some (put_cache (fst (refresh markets upsert (own_cache w))) w)
  | QuantOutcomeTick se => Some (sync_strategy_outcomes se w)
  | QuantSpawned i io => Some (run_spawned i io w)
  | QuantConfigured config => Some {| w with qe_config := config |}
  end.
Definition quant_loop (inputs : list quant_input) (w : QuantSignalExecutor)
    : option QuantSignalExecutor :=
  foldl (fun o i => w ← o; quant_turn i w) (Some w) inputs.
End QuantExecutor.
