(* ===== verification/QuantExecutorFacts.v ===== *)
(** * Properties of the quantitative executor

    What it takes for a signal to be traded, what the trade leaves for each
    report of its order, the slots its positions occupy, and what its start
    makes of the breakers of the strategies. *)

From stdpp Require Import sorting.
From S2P Require Import Prelude F64 Platform Handler Market CircuitBreaker CircuitBreakerFacts.
From S2P Require Import Position PositionFacts PositionRepo PositionRepoFacts PositionService.
From S2P Require Import PositionServiceFacts Rollouts TokenCache Executor ExecutorFacts Signal Trading.
From S2P Require Import StrategyRisk StrategyRiskFacts ArbExecutor ArbExecutorFacts ArbEntryFacts.
From S2P Require Import QuantExecutor.

Section Facts.
Context `{DO : DecimalOps} `{CO : ChronoOps} `{UO : UuidOps} `{JO : !JsonOps} `{SH : !DisplayOps}.
Context {DS : DecimalSpec}.
Variable debug_reason : FailureReason -> string.
Variable show_u32 : Z -> string.
Implicit Types (w : QuantSignalExecutor) (en : QuantEnv) (s : QuantSignal) (p : Position).
Local Open Scope Q_scope.

(** ** The checks *)

(** What the checks before a trade leave alone. *)
Record q_untouched w w' : Prop := {
  qu_config : qe_config w' = qe_config w;
  qu_executor : sh_executor (qe_shared w') = sh_executor (qe_shared w);
  qu_table : table (qe_shared w') = table (qe_shared w);
  qu_dedup : sh_dedup (qe_shared w') = sh_dedup (qe_shared w);
  qu_signals : sh_signals (qe_shared w') = sh_signals (qe_shared w);
  qu_placed : sh_placed (qe_shared w') = sh_placed (qe_shared w);
  qu_breaker : cb_inv (sh_breaker (qe_shared w)) -> cb_inv (sh_breaker (qe_shared w'));
}.

Lemma q_untouched_refl w : q_untouched w w.
Proof. by split. Qed.
Lemma q_untouched_trans w1 w2 w3 : q_untouched w1 w2 -> q_untouched w2 w3 -> q_untouched w1 w3.
Proof. intros [] []. split; try congruence. auto. Qed.
Lemma q_untouched_ok w w' : q_untouched w w' -> shared_ok (qe_shared w) -> shared_ok (qe_shared w').
Proof. intros [] [Hb Hr]. split; [auto|]. by rewrite qu_executor0. Qed.

(** The same shared state and configuration. *)
Lemma q_untouched_shared w w' :
  qe_config w' = qe_config w -> qe_shared w' = qe_shared w -> q_untouched w w'.
Proof. intros Hc Hs. split; rewrite ?Hs; done. Qed.

Lemma q_untouched_event w io e :
  q_untouched w {| w with qe_shared := record_event io e (qe_shared w) |}.
Proof. split; simpl; try done. apply record_event_table. Qed.

Lemma run_spawned_shared i io w :
  qe_shared (run_spawned i io w) = qe_shared w /\ qe_config (run_spawned i io w) = qe_config w.
Proof. unfold run_spawned. by destruct (_ !! i). Qed.
Lemma run_all_shared l w :
  qe_shared (foldl (fun w ib => run_spawned (fst ib) (snd ib) w) w l) = qe_shared w /\
  qe_config (foldl (fun w ib => run_spawned (fst ib) (snd ib) w) w l) = qe_config w.
Proof.
  revert w. induction l as [|[i io] l IH]; intros w; simpl; [done|].
  destruct (run_spawned_shared i io w) as [<- <-]. apply IH.
Qed.

(** A statement on the row of the signal touches nothing else. *)
Lemma wp_update_row {B} en s f (k : unit -> handler _ _ B) Q w :
  (forall w', qe_shared w' = qe_shared w -> qe_config w' = qe_config w -> wp (k tt) Q w') ->
  wp (bind (update_row_of_signal en s f) k) Q w.
Proof.
  intros H. destruct (run_all_shared (qn_spawned en) w) as [Hs Hc].
  unfold update_row_of_signal. apply wp_bind, wp_bind, wp_modify, wp_modify.
  destruct (io_db _); by apply H.
Qed.

Abbreviation Q_post A := (QuantSignalExecutor -> flow (result unit ServiceError) A -> Prop).

Lemma wp_skip_as {A} en s type mode reason (Q : Q_post A) w :
  (forall w', q_untouched w w' -> Q w' (Return (Ok tt))) -> wp (skip_as en s type mode reason) Q w.
Proof.
  intros H. unfold skip_as, update_signal_status, record_signal_outcome_event, q_change.
  apply wp_update_row. intros w' Hs Hc. repeat wp_step. apply H.
  eapply q_untouched_trans; [by apply q_untouched_shared|apply q_untouched_event].
Qed.

(** A piece of the checks, from the state [w0]: it goes on with an [a] for
    which [ok a], the state satisfying [inv], or returns [Ok] when there is
    none; and touches nothing. *)
Definition screen {A} w0 (inv : QuantSignalExecutor -> Prop) (ok : A -> Prop) : Q_post A :=
  fun w' f => q_untouched w0 w' /\
    match f with
    | Go a => ok a /\ inv w'
    | Return r => r = Ok tt /\ forall a, ~ ok a
    end.

Lemma screen_skip {A} w0 inv (ok : A -> Prop) en s type mode reason w :
  q_untouched w0 w -> (forall a, ~ ok a) -> wp (skip_as en s type mode reason) (screen w0 inv ok) w.
Proof.
  intros Hu Hn. apply wp_skip_as. intros w' Hw. split; [by eapply q_untouched_trans|done].
Qed.
Lemma screen_gate {A} w0 inv (ok : A -> Prop) en s c type mode reason
    (k : unit -> handler _ (result unit ServiceError) A) w :
  q_untouched w0 w -> (c = true -> forall a, ~ ok a) ->
  (c = false -> wp (k tt) (screen w0 inv ok) w) ->
  wp (bind (when c (skip_as en s type mode reason)) k) (screen w0 inv ok) w.
Proof.
  intros Hu Ht Hf. apply wp_bind, wp_when; intros E; [|by apply Hf].
  apply wp_skip_as. intros w' Hw. split; [by eapply q_untouched_trans|]. split; [done|by apply Ht].
Qed.
Lemma screen_ret {A} w0 inv (ok : A -> Prop) a w :
  q_untouched w0 w -> ok a -> inv w -> wp (ret a) (screen w0 inv ok) w.
Proof. intros Hu Ha Hi. by apply wp_ret. Qed.

(** The checks that need no market data. *)
Record checks_cleared en s w : Prop := {
  ck_enabled : qc_enabled (qe_config w) = true;
  ck_fresh : (secs_since (qn_clock en QFresh) (qs_generated_at s)
              <= qc_max_signal_age_secs (qe_config w))%Z;
  ck_live : is_expired (qn_clock en QExpiry) s = false;
  ck_strategy : forall st, strategy_states w !! qs_kind s = Some st ->
    ss_halted (refresh_strategy (qn_clock en QStrategy) (strategy_halt_cooldown_secs (qe_config w)) st)
    = false;
  ck_confidence : meets_confidence (min_confidence (qe_config w)) s = true;
  ck_new : active_quant_executor_position_exists_for_market (io_db (qn_io en QDedup))
             (qs_condition_id s) (table (qe_shared w)) = Ok false;
  ck_breaker : exists b, can_trade (io_db (qn_io en QBreaker)) (qn_clock en QBreaker)
                 (sh_breaker (qe_shared w)) = Some (b, true);
}.

Abbreviation qmode w := (execution_mode (qe_config w) w).

Lemma quant_checks_spec en s w :
  shared_ok (qe_shared w) ->
  wp (quant_checks en s) (screen w (fun w' => own_cache w' = own_cache w)
    (fun cm => cm = (qe_config w, qmode w) /\ checks_cleared en s w)) w.
Proof.
  intros [Hb _]. unfold quant_checks, spawn_persist, record_generated, q_change.
  apply wp_bind, wp_get. cbv beta iota zeta. apply wp_bind, wp_modify. cbv beta iota.
  apply wp_bind, wp_modify. cbv beta iota.
  match goal with |- wp _ _ ?x => set (w1 := x) end.
  assert (U1 : q_untouched w w1) by (split; simpl; try done; apply record_event_table).
  assert (S1 : strategy_states w1 = strategy_states w) by done.
  assert (C1 : own_cache w1 = own_cache w) by done. 
  assert (B1 : sh_breaker (qe_shared w1) = sh_breaker (qe_shared w)) by done. clearbody w1.
  apply wp_bind, wp_when; intros E1.
  { unfold record_signal_outcome_event, q_change. repeat wp_step.
    split; [eapply q_untouched_trans; [exact U1|apply q_untouched_event]|]. split; [done|].
    intros a [_ []]. by rewrite ck_enabled0 in E1. }
  apply screen_gate; [done|intros E a [_ []]; apply Z.ltb_lt in E; lia|intros E2].
  apply screen_gate; [done|intros E a [_ []]; congruence|intros E3].
  apply wp_bind. unfold refresh_strategy_state. apply wp_update. rewrite S1.
  intros w2 halted Hst.
  assert (H2 : q_untouched w w2 /\ own_cache w2 = own_cache w /\
    sh_breaker (qe_shared w2) = sh_breaker (qe_shared w) /\
    (halted = false <-> forall st, strategy_states w !! qs_kind s = Some st ->
      ss_halted (refresh_strategy (qn_clock en QStrategy) (strategy_halt_cooldown_secs (qe_config w)) st)
      = false)).
  { destruct (strategy_states w !! qs_kind s) as [st|]; injection Hst as <- <-.
    - split_and!; try done; [eapply q_untouched_trans; [exact U1|by apply q_untouched_shared]|].
      split; [by intros ? ? [= <-]|]. intros H. by apply H.
    - split_and!; try done. }
  destruct H2 as (U2 & C2 & B2 & Hh). clear Hst U1 S1 C1 B1 w1. cbv beta iota.
  apply screen_gate; [done|intros -> a [_ []]; apply Hh in ck_strategy0; congruence|intros E4].
  apply screen_gate; [done|intros E a [_ []]; by rewrite ck_confidence0 in E|intros E5].
  unfold quant_guards. apply wp_bind, wp_get. cbv beta iota. rewrite (qu_table _ _ U2).
  destruct (active_quant_executor_position_exists_for_market _ _ _) as [[]|e] eqn:E6;
    [apply screen_skip; [done|]; intros a [_ []]; congruence| |
     apply screen_skip; [done|]; intros a [_ []]; congruence].
  destruct (can_trade_keeps (io_db (qn_io en QBreaker)) (qn_clock en QBreaker) _ Hb)
    as (b' & ok & Et & Hb'). apply wp_bind. eapply wp_try_update.
  { unfold breaker_can_trade. rewrite B2, Et. done. }
  cbv beta iota. match goal with |- wp _ _ ?x => set (w3 := x) end.
  assert (U3 : q_untouched w w3) by (destruct U2; split; simpl; auto).
  apply screen_gate; [done| |intros E7].
  { intros E a [_ []]. destruct ck_breaker0 as [b0 Eb]. rewrite Et in Eb. injection Eb as _ ->. done. }
  apply screen_ret; [done| |exact C2]. split; [done|]. apply negb_false_iff in E1, E5, E7. subst ok.
  constructor; try done; [by apply Z.ltb_ge in E2|by apply Hh|by exists b'].
Qed.

(** The tokens the signal's market has, or gets when it is hydrated. *)
Definition q_tokens_for en s w : option (string * string) :=
  match cache_get (qs_condition_id s) (own_cache w) with
  | Some ids => Some ids
  | None => snd (hydrate_market (qs_condition_id s) (qn_market en) (qn_upsert en) (own_cache w))
  end.

(** The token to buy, and its best ask in a book that is deep enough. *)
Record market_found en s w (token : string) (ask : dec) : Prop := {
  mf_tokens : exists ids, q_tokens_for en s w = Some ids /\ token = target_token s ids;
  mf_book : exists book, qn_book en token = Ok book /\ best_ask book = Some ask /\
    dval (qc_min_book_depth (qe_config w)) <= dval (ask_depth book);
}.

Lemma quant_market_spec en s mode w w1 :
  q_untouched w w1 -> own_cache w1 = own_cache w ->
  wp (quant_market en s (qe_config w) mode)
    (screen w (fun _ => True) (fun ta => market_found en s w (fst ta) (snd ta))) w1.
Proof.
  intros U C. unfold quant_market. apply wp_bind. unfold quant_tokens. apply wp_update.
  intros w2 ids Hw2.
  assert (H2 : q_untouched w w2 /\ ids = q_tokens_for en s w).
  { revert Hw2. unfold q_tokens_for. rewrite <- C.
    destruct (cache_get _ _); [intros [= <- <-]; done|].
    destruct (hydrate_market _ _ _ _) as [c ids']. intros [= <- <-]. split; [|done].
    destruct U. by split. }
  destruct H2 as [U2 ->]. clear Hw2 U C w1.
  destruct (q_tokens_for en s w) as [ids|] eqn:Et; cycle 1.
  { apply screen_skip; [done|]. intros [token ask] [(ids & E & _) _]. congruence. }
  assert (Hno : forall P : Prop, ~ P -> (forall ask book, qn_book en (target_token s ids) = Ok book ->
      best_ask book = Some ask -> dval (qc_min_book_depth (qe_config w)) <= dval (ask_depth book) -> P) ->
    forall a : string * dec, ~ market_found en s w (fst a) (snd a)).
  { intros P HP HQ [token ask] [(ids' & E & ->) (book & E1 & E2 & E3)]. simpl in *.
    rewrite Et in E. injection E as <-. by apply HP, (HQ ask book). }
  destruct (qn_book en (target_token s ids)) as [book|e] eqn:Eb; cycle 1.
  { apply screen_skip; [done|]. apply (Hno False); [tauto|]. intros ? ? [=]. }
  destruct (best_ask book) as [ask|] eqn:Ea; cycle 1.
  { apply screen_skip; [done|]. apply (Hno False); [tauto|]. intros ? ? [= <-]. congruence. }
  apply screen_gate; [done| |intros Ed].
  - intros Ed. apply (Hno False); [tauto|]. intros ? ? [= <-] _ Hd. dec_to_Q. lra.
  - apply screen_ret; [done| |done]. split; [by exists ids|]. exists book. dec_to_Q. by split_and!.
Qed.

(** The quantity that the size buys. *)
Record size_found en s w (ask q : dec) : Prop := {
  sf_rollout : skip_reason (quant_rollout en (qmode w)) = None;
  sf_size : 1 <= dval (rollout_size (quant_rollout en (qmode w)) (weighted_size s (qe_config w)));
  sf_ask : 0 < dval ask;
  sf_quantity : dec_div (rollout_size (quant_rollout en (qmode w)) (weighted_size s (qe_config w))) ask
    = Some q;
}.

Lemma quant_size_spec en s ask w w1 :
  q_untouched w w1 ->
  wp (quant_size en s (qe_config w) (qmode w) ask) (screen w (fun _ => True) (size_found en s w ask)) w1.
Proof.
  intros U. unfold quant_size. destruct (skip_reason _) as [reason|] eqn:Er.
  { apply screen_skip; [done|]. intros q []. congruence. }
  assert (H1 : dval (dec_new 1 0) == 1) by by rewrite dval_new.
  apply screen_gate; [done| |intros Es].
  { intros Es q []. dec_to_Q. lra. }
  destruct (ask >? ZERO)%dec eqn:Ea; cycle 1.
  { apply screen_skip; [done|]. intros q []. dec_to_Q. lra. }
  dec_to_Q.
  destruct (dec_div_pos_some (rollout_size (quant_rollout en (qmode w)) (weighted_size s (qe_config w))) ask)
    as [q Eq]; [done|].
  eapply wp_attempt; [exact Eq|]. split; [done|]. split; [|done]. split; try done. lra.
Qed.

(** A slot is free and the exposure is below its limit. *)
Record portfolio_cleared en w : Prop := {
  pc_slots : exists n, count_active_quant_executor_positions (io_db (qn_io en QCount))
    (table (qe_shared w)) = Ok n /\ (n < max_quant_positions (qe_config w))%Z;
  pc_exposure : exists total, get_total_active_exposure (io_db (qn_io en QExposure))
    (table (qe_shared w)) = Ok total /\ dval total < dval (qc_max_total_exposure (qe_config w));
}.

Lemma quant_portfolio_spec en s mode w w1 :
  q_untouched w w1 ->
  wp (quant_portfolio en s (qe_config w) mode)
    (screen w (fun _ => True) (fun _ => portfolio_cleared en w)) w1.
Proof.
  intros U. unfold quant_portfolio. apply wp_bind, wp_get. cbv beta iota. rewrite (qu_table _ _ U).
  destruct (count_active_quant_executor_positions _ _) as [n|e] eqn:En; cycle 1.
  { apply screen_skip; [done|]. intros _ [(n & E & _) _]. congruence. }
  apply screen_gate; [done| |intros Es].
  { intros Es _ [(n' & E & Hn) _]. apply Z.leb_le in Es. rewrite En in E. injection E as <-. lia. }
  destruct (get_total_active_exposure _ _) as [total|e] eqn:Ex; cycle 1.
  { apply screen_skip; [done|]. intros _ [_ (n' & E & Hn)]. congruence. }
  apply wp_when; intros Et.
  - apply screen_skip; [done|]. intros _ [_ (t & E & Ht)]. rewrite Ex in E. injection E as <-.
    dec_to_Q. lra.
  - split; [done|]. split; [|done]. apply Z.leb_gt in Es. dec_to_Q.
    split; [by exists n|by exists total].
Qed.

(** Every condition a signal has to meet to be traded. *)
Record quant_cleared en s w (token : string) (ask q : dec) : Prop := {
  qk_checks : checks_cleared en s w;
  qk_market : market_found en s w token ask;
  qk_size : size_found en s w ask q;
  qk_portfolio : portfolio_cleared en w;
}.

Lemma screened {A B} w0 inv (ok : A -> Prop) (m : handler _ (result unit ServiceError) A)
    (k : A -> handler _ (result unit ServiceError) B) (Q : Q_post B) w :
  wp m (screen w0 inv ok) w ->
  (forall w', q_untouched w0 w' -> (forall a, ~ ok a) -> Q w' (Return (Ok tt))) ->
  (forall a w', q_untouched w0 w' -> ok a -> inv w' -> wp (k a) Q w') ->
  wp (bind m k) Q w.
Proof.
  intros Hm Hr Hk. apply wp_bind. eapply wp_mono; [exact Hm|].
  intros w' [a|r] [Hu H]; [destruct H; by apply Hk|]. destruct H as [-> H]. by apply Hr.
Qed.

(** ** The trade *)

(** An update of a row that was just added. *)
Lemma persist_row io what e p r t (sv : Service) :
  svc_table sv = <[pos_id p := r]> t ->
  let '(p', sv', _) := persist_and_record io what e p sv in
  p' = p /\ exists r', svc_table sv' = <[pos_id p := r']> t /\
    (r' = r \/ r' = update_row p r) /\ (io_db io = true -> r' = update_row p r).
Proof.
  intros Ht. unfold persist_and_record, repo_update. destruct (io_db io); simpl.
  - split; [done|]. exists (update_row p r). split_and!; [|by right|done].
    transitivity (alter (update_row p) (pos_id p) (svc_table sv)).
    + unfold record_warn. by destruct (io_event io).
    + rewrite Ht. apply alter_insert_eq.
  - split; [done|]. exists r. by split_and!; [|left|].
Qed.

(** The columns of the entry, which no UPDATE sets. *)
Record q_entry en s (ask q : dec) (r : PositionRow) : Prop := {
  qy_id : r_id r = qn_position_id en;
  qy_market : r_market_id r = qs_condition_id s;
  qy_source : r_source r = Some SOURCE_RECOMMENDATION;
  qy_signal : r_source_signal_id r = Some (qs_id s);
  qy_strategy : r_exit_strategy r = 1%Z;
  qy_price : r_yes_entry_price r = match qs_direction s with BuyYes => ask | BuyNo => ZERO end /\
    r_no_entry_price r = match qs_direction s with BuyYes => ZERO | BuyNo => ask end;
  qy_quantity : r_quantity r = q;
}.
Lemma q_entry_update en s ask q p r : q_entry en s ask q r -> q_entry en s ask q (update_row p r).
Proof. intros []. by split. Qed.

(** The state while the position [p] is entered, from [w0] on: one row was
    added. *)
Record q_entering en s ask q w0 p w : Prop := {
  qt_id : pos_id p = qn_position_id en;
  qt_market : pos_market_id p = qs_condition_id s;
  qt_exits : yes_exit_price p = None /\ no_exit_price p = None;
  qt_table : exists r,
    table (qe_shared w) = <[qn_position_id en := r]> (table (qe_shared w0)) /\ q_entry en s ask q r;
  qt_breaker : sh_breaker (qe_shared w) = sh_breaker (qe_shared w0);
  qt_config : qe_config w = qe_config w0;
  qt_dedup : sh_dedup (qe_shared w) = sh_dedup (qe_shared w0);
  qt_executor : ex_config (sh_executor (qe_shared w)) = ex_config (sh_executor (qe_shared w0));
}.
Definition q_saved en p w : Prop := exists r,
  table (qe_shared w) !! qn_position_id en = Some r /\ row_of p r.

Lemma q_entering_same en s ask q w0 p w w' :
  q_entering en s ask q w0 p w -> qe_shared w' = qe_shared w -> qe_config w' = qe_config w ->
  q_entering en s ask q w0 p w'.
Proof. intros [] Hs Hc. split; rewrite ?Hs, ?Hc; done. Qed.

Lemma wp_q_serve {B} en s ask q w0 p w io what e p'
    (f : Service -> Position * Service * result unit ServiceError)
    (k : Position -> handler QuantSignalExecutor (result unit ServiceError) B) Q :
  q_entering en s ask q w0 p w ->
  f (sh_service (qe_shared w)) = persist_and_record io what e p' (sh_service (qe_shared w)) ->
  same_position p p' ->
  (forall w', q_entering en s ask q w0 p' w' -> (io_db io = true -> q_saved en p' w') ->
     sh_executor (qe_shared w') = sh_executor (qe_shared w) ->
     sh_placed (qe_shared w') = sh_placed (qe_shared w) -> wp (k p') Q w') ->
  wp (bind (q_serve f) k) Q w.
Proof.
  intros [] Hf (Hid & Hm & Hy & Hn) Hk. destruct qt_table0 as (r & Ht & Hr), qt_exits0 as [Hex1 Hex2].
  apply wp_bind. unfold q_serve, q_shared, on_position. apply wp_bind, wp_update. rewrite Hf.
  assert (Hrow : svc_table (sh_service (qe_shared w)) = <[pos_id p' := r]> (table (qe_shared w0)))
    by (rewrite Hid, qt_id0; exact Ht).
  pose proof (persist_row io what e p' r _ _ Hrow) as H.
  destruct (persist_and_record io what e p' _) as [[p2 sv'] res].
  destruct H as (-> & r' & Ht' & Hr' & Hs). rewrite Hid, qt_id0 in Ht'.
  intros w' [p2 res'] [= <- <- <-]. apply wp_ret. apply Hk; simpl; try done.
  - split; simpl; try done; try congruence; [split; congruence|].
    exists r'. split; [exact Ht'|]. destruct Hr' as [->| ->]; [done|by apply q_entry_update].
  - intros Hio. exists r'. split; [unfold table; simpl; by rewrite Ht', lookup_insert_eq|].
    rewrite (Hs Hio). apply row_of_update. rewrite (qy_market _ _ _ _ _ Hr). congruence.
Qed.

(** The order of the trade, from the executor [x]. *)
Definition q_order_run en s (token : string) (ask q : dec) (x x' : OrderExecutor)
    (r : ExecutionReport) (placed : list PostResponse) : Prop :=
  execute_market_order (oe_now (qn_order en)) (oe_replies (qn_order en)) (oe_timed (qn_order en))
    (oe_latency_us (qn_order en))
    (quant_order en s token ask q (default_slippage (ex_config x))) x = Some (x', Ok r, placed).

(** What a trade leaves: the row at [st] with the quantities held, if the
    statement that stores them succeeded. *)
Record q_ended en s ask q w0 w' (io : bool) (st : PositionState) (held : dec * dec)
    (placed : list PostResponse) : Prop := {
  qd_table : exists row,
    table (qe_shared w') = <[qn_position_id en := row]> (table (qe_shared w0)) /\
    q_entry en s ask q row /\
    (io = true -> r_state row = state_code st /\ r_held_yes_qty row = Some (fst held) /\
                  r_held_no_qty row = Some (snd held));
  qd_dedup : sh_dedup (qe_shared w') = sh_dedup (qe_shared w0);
  qd_placed : sh_placed (qe_shared w') = sh_placed (qe_shared w0) ++ placed;
  qd_breaker : sh_breaker (qe_shared w') = sh_breaker (qe_shared w0);
  qd_config : qe_config w' = qe_config w0;
  qd_executor : ex_config (sh_executor (qe_shared w')) = ex_config (sh_executor (qe_shared w0));
}.

Lemma q_entering_ended en s ask q w0 p w w' io placed :
  q_entering en s ask q w0 p w -> (io = true -> q_saved en p w) ->
  sh_placed (qe_shared w) = sh_placed (qe_shared w0) ++ placed ->
  qe_config w' = qe_config w -> table (qe_shared w') = table (qe_shared w) ->
  sh_breaker (qe_shared w') = sh_breaker (qe_shared w) ->
  sh_executor (qe_shared w') = sh_executor (qe_shared w) ->
  sh_placed (qe_shared w') = sh_placed (qe_shared w) ->
  sh_dedup (qe_shared w') = sh_dedup (qe_shared w) ->
  q_ended en s ask q w0 w' io (pos_state p) (held_yes_qty p, held_no_qty p) placed.
Proof.
  intros [] Hs Hp Hc Ht Hb Hx Hp' Hd. split; try congruence.
  destruct qt_table0 as (r & Et & Ee). exists r. split; [congruence|]. split; [done|]. intros Hio.
  destruct (Hs Hio) as (r' & El & []). rewrite Et, lookup_insert_eq in El. injection El as <-.
  by split_and!.
Qed.

(** The held quantities of a position that bought [x] of its leg. *)
Definition bought s (x : dec) : dec * dec :=
  match qs_direction s with
  | BuyYes => ((ZERO + x)%dec, ZERO)
  | BuyNo => (ZERO, (ZERO + x)%dec)
  end.

(** What [trade_quant] leaves, by the report of its order. *)
Definition trade_outcome en s (token : string) (ask q : dec) w w' (r : result unit ServiceError) : Prop :=
  (exists e, r = Err e /\ q_untouched w w' /\
     (io_db (qn_io en QCreate) = false \/ is_Some (table (qe_shared w) !! qn_position_id en))) \/
  (r = Ok tt /\ table (qe_shared w) !! qn_position_id en = None /\ exists x1 report placed,
     q_order_run en s token ask q (sh_executor (qe_shared w)) x1 report placed /\
     if is_success report
     then q_ended en s ask q w w' (io_db (qn_io en QOpen)) Open (bought s (er_filled_quantity report)) placed
     else q_ended en s ask q w w' (io_db (qn_io en QEntryFailed)) EntryFailed (ZERO, ZERO) placed).

(** The created position, or the error of the INSERT. *)
Lemma wp_create_quant {B} en s ask q ctx w
    (k : Position -> handler QuantSignalExecutor (result unit ServiceError) B) Q :
  (forall w' p, q_entering en s ask q w p w' -> pos_state p = Pending ->
     held_yes_qty p = ZERO -> held_no_qty p = ZERO ->
     sh_executor (qe_shared w') = sh_executor (qe_shared w) ->
     sh_placed (qe_shared w') = sh_placed (qe_shared w) ->
     table (qe_shared w) !! qn_position_id en = None -> wp (k p) Q w') ->
  (forall w' e, q_untouched w w' ->
     io_db (qn_io en QCreate) = false \/ is_Some (table (qe_shared w) !! qn_position_id en) ->
     Q w' (Return (Err e))) ->
  wp (bind (create_quant en s ask q ctx) k) Q w.
Proof.
  intros Hk He. apply wp_bind. unfold create_quant. apply wp_bind. unfold q_shared, create_position.
  apply wp_update. simpl. unfold insert_with_source, table in *. simpl.
  destruct (io_db (qn_io en QCreate)) eqn:Eio; simpl.
  - destruct (svc_table (sh_service (qe_shared w)) !! qn_position_id en) as [r|] eqn:El.
    + intros w' a [= <- <-]. apply wp_return, He; [by split|by right].
    + intros w' a [= <- <-]. apply wp_ret. apply Hk; try done.
      split; try done. simpl. eexists. split.
      * unfold table, record_warn. destruct (io_event _); reflexivity.
      * by split.
  - intros w' a [= <- <-]. apply wp_return, He; [by split|by left].
Qed.

Lemma wp_fail_quant {A} en s ask q mode reason failure ctx w0 p w placed (Q : Q_post A) :
  q_entering en s ask q w0 p w -> held_yes_qty p = ZERO -> held_no_qty p = ZERO ->
  sh_placed (qe_shared w) = sh_placed (qe_shared w0) ++ placed ->
  (forall w', q_ended en s ask q w0 w' (io_db (qn_io en QEntryFailed)) EntryFailed (ZERO, ZERO) placed ->
     Q w' (Return (Ok tt))) ->
  wp (fail_quant debug_reason en s mode reason failure ctx p) Q w.
Proof.
  intros He Hy Hn Hp HQ. unfold fail_quant.
  eapply (wp_q_serve en s ask q w0 p); [done|reflexivity|done|]. intros w1 H1 Hs Hx1 Hp1.
  unfold update_signal_status. apply wp_update_row. intros w2 Hs2 Hc2.
  unfold record_position_failure_event, publish_quant_failure, publish_quant, q_change. repeat wp_step.
  apply HQ. rewrite <- Hy at 1. rewrite <- Hn at 1.
  apply (q_entering_ended en s ask q w0 (mark_entry_failed (qn_clock en QEntryFailed) failure p) w1);
    [exact H1|exact Hs|congruence|..]; simpl; try congruence.
  transitivity (table (qe_shared w2)); [apply record_event_table|by rewrite Hs2].
Qed.

(** The trade never panics, and leaves what its report says. *)
Lemma trade_quant_spec en s mode token ask q w :
  (0 <= max_retries (ex_config (sh_executor (qe_shared w))) < 2 ^ 32 - 1)%Z ->
  wp (trade_quant debug_reason en s mode token ask q) (fun w' f =>
    trade_outcome en s token ask q w w' match f with Go r | Return r => r end) w.
Proof.
  intros Hm. unfold trade_quant. apply wp_create_quant; [|by left; eexists].
  intros w1 p He Hst Hy Hn Hx1 Hp1 Hnew. apply wp_bind. unfold order_quant. apply wp_bind, wp_get.
  cbv beta iota zeta.
  destruct (execute_market_order_some (oe_now (qn_order en)) (oe_replies (qn_order en))
    (oe_timed (qn_order en)) (oe_latency_us (qn_order en))
    (quant_order en s token ask q (default_slippage (ex_config (sh_executor (qe_shared w1)))))
    (sh_executor (qe_shared w1))) as (x1 & report & placed & E); [by rewrite (qt_executor _ _ _ _ _ _ _ He)|].
  apply wp_bind. eapply wp_try_update; [unfold place_market_order; by rewrite E|]. cbv beta iota.
  match goal with |- wp _ _ ?x => set (w2 := x) end.
  assert (He2 : q_entering en s ask q w p w2).
  { destruct He. split; try done. simpl. rewrite <- qt_executor0. by apply execute_keeps_config in E. }
  assert (Hp2 : sh_placed (qe_shared w2) = sh_placed (qe_shared w) ++ placed) by (simpl; by rewrite Hp1).
  rewrite Hx1 in E. destruct (is_success report) eqn:Es; simpl negb; cbv iota; cycle 1.
  { eapply wp_fail_quant; try done. intros w' Hend. right. split; [done|]. split; [done|].
    exists x1, report, placed. by rewrite Es. }
  apply wp_ret. unfold settle_quant.
  eapply (wp_q_serve en s ask q w p w2); [done|reflexivity|by unfold quant_leg; destruct (qs_direction s)|].
  match goal with |- context [q_entering _ _ _ _ _ ?x _] => set (p1 := x) end.
  assert (Hst1 : pos_state p1 = Pending) by (unfold p1, quant_leg; by destruct (qs_direction s)).
  assert (Hb1 : (held_yes_qty p1, held_no_qty p1) = bought s (er_filled_quantity report)).
  { unfold p1, quant_leg, bought. destruct (qs_direction s); simpl; by rewrite Hy, Hn. }
  clearbody p1. intros w3 He3 _ Hx3 Hp3.
  destruct (open_persists (qn_io en QOpen) (qn_clock en QOpen) (quant_context s mode) p1
    (sh_service (qe_shared w3)) Hst1) as [e open_e].
  eapply (wp_q_serve en s ask q w p1 w3); [done|apply open_e|done|]. intros w4 He4 Hs4 Hx4 Hp4.
  unfold link_signal_to_position. apply wp_update_row. intros w5 Hs5 Hc5.
  unfold publish_quant, q_change. repeat wp_step. right. split; [done|]. split; [done|].
  exists x1, report, placed. rewrite Es. split; [done|]. rewrite <- Hb1.
  apply (q_entering_ended en s ask q w (moved (qn_clock en QOpen) Open p1) w4 _ (io_db (qn_io en QOpen)));
    [exact He4|exact Hs4|congruence|..]; simpl; try congruence.
  change (table (qe_shared w5) = table (qe_shared w4)). by rewrite Hs5.
Qed.

(** What the processing of a signal does. *)
Definition quant_result en s w w' (r : result unit ServiceError) : Prop :=
  (r = Ok tt /\ q_untouched w w' /\ forall token ask q, ~ quant_cleared en s w token ask q) \/
  exists token ask q w1, quant_cleared en s w token ask q /\ q_untouched w w1 /\
    trade_outcome en s token ask q w1 w' r.

Lemma process_signal_spec en s w :
  shared_ok (qe_shared w) ->
  wp (process_signal debug_reason en s) (fun w' f =>
    quant_result en s w w' match f with Go r | Return r => r end) w.
Proof.
  intros Hok. unfold process_signal. eapply screened; [by apply quant_checks_spec| |].
  { intros w' U Hn. left. split_and!; [done..|]. intros token ask q []. by eapply (Hn (_, _)). }
  intros [cfg mode] w1 U1 [[= -> ->] Hc] C1. cbv beta iota.
  eapply screened; [by apply quant_market_spec| |].
  { intros w' U Hn. left. split_and!; [done..|]. intros token ask q []. by eapply (Hn (token, ask)). }
  intros [token ask] w2 U2 Hm _. cbv beta iota. simpl in Hm.
  assert (Hsame : forall token' ask', market_found en s w token' ask' -> token' = token /\ ask' = ask).
  { intros ? ? [(ids & E1 & ->) (b & E2 & E3 & _)].
    destruct Hm as [(ids' & E1' & ->) (b' & E2' & E3' & _)].
    rewrite E1 in E1'. injection E1' as ->. rewrite E2 in E2'. injection E2' as ->.
    rewrite E3 in E3'. by injection E3' as ->. }
  eapply screened; [by apply quant_size_spec| |].
  { intros w' U Hn. left. split_and!; [done..|]. intros token' ask' q [_ Hm' Hz _].
    destruct (Hsame _ _ Hm') as [-> ->]. by eapply Hn. }
  intros q w3 U3 Hz _. eapply screened; [by apply quant_portfolio_spec| |].
  { intros w' U Hn. left. split_and!; [done..|]. intros token' ask' q' []. by apply (Hn tt). }
  intros [] w4 U4 Hp _. eapply wp_mono; [apply trade_quant_spec, (q_untouched_ok _ _ U4 Hok)|].
  intros w' f Ho. right. exists token, ask, q, w4. by split_and!.
Qed.

(** *** The services and the table *)

Lemma trade_keeps_ok en s token ask q w w' r :
  shared_ok (qe_shared w) -> trade_outcome en s token ask q w w' r -> shared_ok (qe_shared w').
Proof.
  intros Hok [(_ & _ & U & _)|(_ & _ & x1 & report & placed & _ & H)]; [by eapply q_untouched_ok|].
  destruct Hok as [Hb Hm].
  by destruct (is_success report); destruct H as [_ _ _ Hb' _ Hx]; split; rewrite ?Hb', ?Hx.
Qed.
Lemma quant_keeps_ok en s w w' r :
  shared_ok (qe_shared w) -> quant_result en s w w' r -> shared_ok (qe_shared w').
Proof.
  intros Hok [(_ & U & _)|(token & ask & q & w1 & _ & U & H)]; [by eapply q_untouched_ok|].
  eapply trade_keeps_ok; [|exact H]. by eapply q_untouched_ok.
Qed.

(** The row a signal adds, if it adds one. *)
Lemma quant_row_added en s w w' r :
  quant_result en s w w' r -> table (qe_shared w') = table (qe_shared w) \/
  exists row, table (qe_shared w) !! qn_position_id en = None /\
    table (qe_shared w') = <[qn_position_id en := row]> (table (qe_shared w)) /\
    r_id row = qn_position_id en /\ r_market_id row = qs_condition_id s /\
    checks_cleared en s w /\ portfolio_cleared en w.
Proof.
  intros [(_ & U & _)|(token & ask & q & w1 & [Hc _ _ Hp] & U & H)]; [left; apply U|].
  destruct H as [(_ & _ & U' & _)|(_ & Hn & x1 & report & placed & _ & H)];
    [left; rewrite (qu_table _ _ U'); apply U|right]. rewrite (qu_table _ _ U) in *.
  destruct (is_success report); destruct H as [(row & Ht & [] & _) _ _ _ _ _];
    rewrite (qu_table _ _ U) in Ht; by exists row.
Qed.

(** ** The outcomes of the strategies *)

Lemma kind_as_str_inj k k' : kind_as_str k = kind_as_str k' -> k = k'.
Proof. by destruct k, k'. Qed.
(** Both readings of a kind are the same. *)
Lemma parse_kinds_agree kind : parse_quant_signal_kind kind = parse_quant_kind kind.
Proof.
  unfold parse_quant_signal_kind, parse_quant_kind. by repeat case_bool_decide; subst.
Qed.

(** The outcomes of a kind that count, each with the time it is recorded. *)
Definition counted (se : SyncEnv) (k : QuantSignalKind) (row : QuantOutcomeRow) : option (datetime * dec) :=
  if bool_decide (parse_quant_signal_kind (qo_kind row) = Some k) && negb (dec_is_zero (qo_realized_pnl row))
  then Some (sy_clock se (qo_position_id row), qo_realized_pnl row) else None.
Definition counted_outcomes se k (rows : list QuantOutcomeRow) : list (datetime * dec) :=
  omap (counted se k) rows.

Abbreviation limits_run cfg := (run_outcomes show_u32 (strategy_max_daily_loss_usd cfg)
  (strategy_max_consecutive_losses cfg)).

(** Every strategy has a state. *)
Definition all_states w : Prop := forall k, is_Some (strategy_states w !! k).

(** One row that was not processed before. *)
Lemma sync_row_spec se cfg w row k :
  all_states w -> qo_position_id row ∉ processed_strategy_outcomes w ->
  let w' := sync_row show_u32 se cfg w row in
  let l := option_list (counted se k row) in
  all_states w' /\
  processed_strategy_outcomes w' = {[ qo_position_id row ]} ∪ processed_strategy_outcomes w /\
  strategy_states w' !! k = limits_run cfg l <$> strategy_states w !! k /\
  ((forall id, sy_persist se id = true) ->
     qe_risk w' !! kind_as_str k =
       match l with
       | [] => qe_risk w !! kind_as_str k
       | _ => risk_row <$> strategy_states w' !! k
       end).
Proof.
  intros Ha Hn. unfold sync_row. rewrite bool_decide_eq_false_2 by done. cbv zeta.
  set (w1 := {| w with processed_strategy_outcomes := _ |}).
  assert (Hid : forall st : option StrategyState, st = limits_run cfg [] <$> st) by (by intros []).
  unfold counted. destruct (parse_quant_signal_kind (qo_kind row)) as [kind|]; cycle 1.
  { rewrite bool_decide_eq_false_2 by done. simpl. split_and!; (done || apply Hid). }
  unfold record_strategy_outcome. destruct (dec_is_zero (qo_realized_pnl row)) eqn:Ez.
  { rewrite andb_false_r. simpl. split_and!; (done || apply Hid). }
  destruct (Ha kind) as [st Est]. change (strategy_states w1) with (strategy_states w). rewrite Est.
  destruct (record_outcome _ _ _ _ _ st) as [st' halted] eqn:Er. rewrite andb_true_r. simpl.
  split; [|split; [done|]].
  { intros k'. destruct (decide (kind = k')) as [<-|Hk]; simpl;
      [rewrite lookup_insert_eq; by eexists|by rewrite lookup_insert_ne]. }
  destruct (decide (kind = k)) as [<-|Hk].
  - rewrite bool_decide_eq_true_2 by done. simpl. rewrite lookup_insert_eq, Est. simpl.
    rewrite Er. split; [done|]. intros Hp. unfold persist_strategy. rewrite Hp. apply lookup_insert_eq.
  - rewrite bool_decide_eq_false_2 by congruence. simpl. rewrite lookup_insert_ne by done.
    split; [apply Hid|]. intros Hp. unfold persist_strategy. rewrite Hp.
    apply lookup_insert_ne. intros E. by apply Hk, kind_as_str_inj.
Qed.

Lemma run_outcomes_app L N l l' st :
  run_outcomes show_u32 L N (l ++ l') st =
  run_outcomes show_u32 L N l' (run_outcomes show_u32 L N l st).
Proof. apply foldl_app. Qed.

Lemma sync_rows_spec se cfg rows w k :
  all_states w -> NoDup (qo_position_id <$> rows) ->
  (forall row, row ∈ rows -> qo_position_id row ∉ processed_strategy_outcomes w) ->
  let w' := foldl (sync_row show_u32 se cfg) w rows in
  let l := counted_outcomes se k rows in
  all_states w' /\
  strategy_states w' !! k = limits_run cfg l <$> strategy_states w !! k /\
  ((forall id, sy_persist se id = true) ->
     qe_risk w' !! kind_as_str k =
       match l with
       | [] => qe_risk w !! kind_as_str k
       | _ => risk_row <$> strategy_states w' !! k
       end).
Proof.
  revert w. induction rows as [|row rows IH]; intros w Ha Hd Hp; csimpl.
  { split_and!; [done| |done]. by destruct (strategy_states w !! k). }
  csimpl in Hd. apply NoDup_cons in Hd as [Hr Hd].
  destruct (sync_row_spec se cfg w row k Ha) as (A1 & P1 & S1 & R1); [apply Hp, list_elem_of_here|].
  set (w1 := sync_row show_u32 se cfg w row) in *.
  destruct (IH w1 A1 Hd) as (A2 & S2 & R2).
  { intros r' Hin. rewrite P1. apply not_elem_of_union. split; [|by apply Hp, list_elem_of_further].
    rewrite elem_of_singleton. intros E. apply Hr. rewrite <- E. by apply list_elem_of_fmap_2. }
  unfold counted_outcomes in *. csimpl.
  replace (match counted se k row with Some y => y :: omap (counted se k) rows | None => omap (counted se k) rows end)
    with (option_list (counted se k row) ++ omap (counted se k) rows) by by destruct (counted se k row).
  split_and!; [done| |].
  - rewrite S2, S1. destruct (strategy_states w !! k); [|done]. simpl. by rewrite run_outcomes_app.
  - intros Hio. specialize (R1 Hio). specialize (R2 Hio).
    destruct (omap (counted se k) rows) as [|o l] eqn:El; cycle 1.
    { rewrite R2. by destruct (option_list (counted se k row)). }
    rewrite app_nil_r, R2, R1. destruct (option_list (counted se k row)); [done|].
    rewrite S2. destruct (strategy_states w1 !! k); done.
Qed.

(** The counter of losses stays a [u32]. *)
Lemma run_outcomes_u32 L N l st :
  is_u32 (ss_consecutive_losses st) -> is_u32 (ss_consecutive_losses (run_outcomes show_u32 L N l st)).
Proof.
  revert st. induction l as [|o l IH]; intros st Hu; [done|]. simpl. apply IH.
  assert (H0 : is_u32 0) by (split; [reflexivity|reflexivity]).
  assert (H1 : is_u32 (ss_consecutive_losses (refresh_strategy (fst o) 0 st))).
  { unfold refresh_strategy. repeat case_match; done. }
  unfold record_outcome. repeat case_match; simpl; case_match; auto with machine.
Qed.

Lemma fresh_states now cfg sh signals risk k :
  strategy_states (quant_executor_new now cfg sh signals risk) !! k = Some (strategy_new now).
Proof. by destruct k. Qed.

(** ** Theorems *)


(** At its start the executor makes the breaker of each strategy from the
    outcomes of the day alone when there is one that counts, and from the
    stored state only when there is none: a halt that the cooldown had released
    is back, and its cooldown begins again. *)
Theorem startup_rebuilds_breakers now cfg sh signals risk se later k :
  let fresh := quant_executor_new now cfg sh signals risk in
  let rows := quant_outcomes (date_naive (sy_now se)) (table sh) signals in
  sy_query se = true -> (forall id, sy_persist se id = true) -> NoDup (qo_position_id <$> rows) ->
  strategy_states (quant_startup show_u32 se (fun _ => true) later fresh) !! k =
    Some match counted_outcomes se k rows with
         | [] => load_strategy true later (kind_as_str k) risk
         | l => limits_run cfg l (strategy_new now)
         end.
Proof.
  intros fresh rows Hq Hio Hd. unfold quant_startup, sync_strategy_outcomes. rewrite Hq.
  set (w0 := roll_processed (date_naive (sy_now se)) fresh).
  assert (H0 : processed_strategy_outcomes w0 = ∅ /\ qe_config w0 = cfg /\ qe_shared w0 = sh /\
    qe_signals w0 = signals /\ strategy_states w0 = strategy_states fresh /\ qe_risk w0 = risk).
  { unfold w0, roll_processed. by destruct (date_eqb _ _). }
  destruct H0 as (Hp & -> & -> & -> & Hs & Hr). fold rows.
  assert (Ha : all_states w0) by (intros k'; rewrite Hs; unfold fresh; rewrite fresh_states; by eexists).
  destruct (sync_rows_spec se cfg rows w0 k Ha Hd) as (_ & Hst & Hrisk).
  { intros row _. rewrite Hp. apply not_elem_of_empty. }
  specialize (Hrisk Hio). rewrite Hs in Hst. unfold fresh in Hst. rewrite fresh_states in Hst.
  simpl in Hst. unfold load_states. simpl. rewrite map_lookup_imap, Hst. simpl. f_equal.
  unfold load_strategy. rewrite Hrisk, Hr.
  destruct (counted_outcomes se k rows) as [|o l] eqn:El; [done|]. rewrite Hst. simpl.
  unfold state_of_row, risk_row. simpl. rewrite i32_u32_roundtrip.
  - match goal with |- {| ss_daily_pnl := ss_daily_pnl ?x |} = _ => by destruct x end.
  - change (is_u32 (ss_consecutive_losses (limits_run cfg (o :: l) (strategy_new now)))).
    apply run_outcomes_u32. by split.
Qed.
End Facts.

(** ** The theorems at concrete inputs *)

Module QuantSample.
#[local] Existing Instance Concrete.decimal.
#[local] Existing Instance Concrete.decimal_spec.
#[local] Existing Instance Concrete.decimal_exact.
#[local] Existing Instance Concrete.chrono.
#[local] Existing Instance Concrete.chrono_spec.
#[local] Existing Instance Concrete.uuid.
#[local] Existing Instance ConcreteJson.json.
#[local] Existing Instance Example_execution.display.
Import ArbSample.

Definition no_text (_ : Z) : string := "".
Definition quant_config : QuantSignalExecutorConfig :=
  {| (quant_config_from_env (fun _ => None)) with qc_enabled := true |}.
Definition quant_executor : QuantSignalExecutor :=
  {| (quant_executor_new (at_minute 0) quant_config shared [] ∅) with
     qe_tokens := {[ "m" := ("yes", "no") ]} |}.
(** Everything answers, and the insert of the signal runs first. *)
Definition quant_env : QuantEnv := {|
  qn_position_id := 7%positive; qn_signal_id := 8%positive; qn_clock := fun _ => at_minute 1;
  qn_io := fun _ => {| io_db := true; io_event := true |}; qn_spawned := [(O, true)];
  qn_market := Err "unused"; qn_upsert := fun _ => true;
  qn_book := fun _ => Ok Example_execution.book; qn_schema_missing := false; qn_rollouts := None;
  qn_models := None; qn_order := order_env 1%positive |}.
Definition signal : QuantSignal :=
  quant_signal_new 9%positive (at_minute 1) Flow "m" BuyYes (f64_lit 80 100) (d 30 0) (at_minute 10).


(** The sample signal is traded, the second is a duplicate. *)
Example sample_quant_trades :
  (w ← quant_loop no_reason no_text
         [QuantSignalIn quant_env signal;
          QuantSignalIn quant_env {| signal with qs_id := 10%positive |}] quant_executor;
   Some (omap (fun i => r_state <$> table (qe_shared w) !! i) [7%positive],
         (fun r => (qg_execution_status r, qg_skip_reason r, qg_position_id r)) <$> qe_signals w))
  = Some ([1%Z], [("executed", None, Some 7%positive); ("skipped", Some "duplicate", None)]).
Proof. vm_compute. reflexivity. Qed.

(** When the insert runs after the statement that links the row to its
    position, the row stays pending and is never linked. *)
Example late_insert_loses_link :
  (w ← quant_loop no_reason no_text
         [QuantSignalIn {| quant_env with qn_spawned := [] |} signal; QuantSpawned 0 true] quant_executor;
   Some (omap (fun i => r_state <$> table (qe_shared w) !! i) [7%positive],
         (fun r => (qg_execution_status r, qg_position_id r)) <$> qe_signals w))
  = Some ([1%Z], [("pending", None)]).
Proof. vm_compute. reflexivity. Qed.

(** Five losses of the flow strategy in the morning. *)
Definition loss (i : positive) (minute : Z) : PositionRow :=
  {| (insert_row (position_new i (at_minute 0) "m" (d 50 2) (d 0 0) (d 10 0) ExitOnCorrection)
        SOURCE_RECOMMENDATION (Some i)) with
     r_state := 4%Z; r_realized_pnl := Some (d (-1) 0); r_exit_timestamp := Some (at_minute minute) |}.
Definition five : list positive := [1; 2; 3; 4; 5]%positive.
Definition lost_shared : Shared := {| shared with sh_service := {|
  svc_table := list_to_map (map (fun i => (i, loss i (Zpos i))) five); svc_events := [] |} |}.
Definition lost_signals : list QuantRow :=
  map (fun i : positive => {| (quant_row {| signal with qs_id := i |}) with
                 qg_execution_status := "executed"; qg_position_id := Some i |}) five.
Definition sync_at (minute : Z) : SyncEnv := {|
  sy_now := at_minute minute; sy_query := true; sy_clock := fun _ => at_minute minute;
  sy_persist := fun _ => true |}.

(** The stored halt, released by the cooldown at noon: a start in the
    afternoon halts the strategy again. *)
Definition released : StrategyState := strategy_new (at_minute 0).
Lemma startup_rebuilds_breakers_witness :
  ss_halted <$> (strategy_states (quant_startup no_text (sync_at 800) (fun _ => true) (at_minute 800)
    (quant_executor_new (at_minute 800) quant_config lost_shared lost_signals
       {[ "flow" := risk_row released ]})) !! Flow) = Some true.
Proof.
  rewrite (startup_rebuilds_breakers no_text (at_minute 800) quant_config lost_shared lost_signals
    {[ "flow" := risk_row released ]} (sync_at 800) (at_minute 800) Flow).
  - vm_compute. reflexivity.
  - reflexivity.
  - reflexivity.
  - apply (bool_decide_unpack _). vm_compute. exact I.
Defined.
End QuantSample.
