(* ===== verification/SignalFeeds.v ===== *)
(** * What the signal generators read

    The queries of [crates/api-server/src/signals]: the hourly prices, the market
    metadata, the correlations, the flow features and the closed flow trades,
    each as a function from the tables to the columns of its rows.  Postgres
    computes: its arithmetic is the class [PgOps].  A column has the type the
    migrations give it, and [sqlx] decodes it: the class [SqlxOps].  Rows that an
    ORDER BY does not separate keep the order of the table. *)

From stdpp Require Import sorting.
From S2P Require Import Prelude F64 Platform Position PositionRepo Signal Trading QuantExecutor.

(** ** Postgres and [sqlx] *)

(** NUMERIC is [dec]; the operations the queries use on it, and its cast to
    DOUBLE PRECISION; the aggregates of DOUBLE PRECISION. *)
Class PgOps `{DO : DecimalOps} : Type := {
  pg_add : dec -> dec -> dec;
  pg_sub : dec -> dec -> dec;
  pg_div : dec -> dec -> dec;
  pg_to_float8 : dec -> f64;
  pg_sum : list f64 -> f64;
  pg_avg : list f64 -> f64;
  (** PERCENTILE_CONT(0.5); NULL without rows. *)
  pg_median : list f64 -> option f64;
}.

(** DOUBLE PRECISION puts NaN above all numbers. *)
Definition float8_leb (a b : f64) : bool :=
  if f64_is_nan b then true else if f64_is_nan a then false else f64_leb a b.

Section Columns.
Context `{DO : DecimalOps}.

(** A value of a column, by its type. *)
Inductive SqlValue : Type :=
| SqlNull
| SqlNumeric (n : dec)
| SqlFloat8 (x : f64).

(** Decoding a column as [f64]; [None] is the error [ColumnDecode]. *)
Class SqlxOps : Type := { decode_f64 : SqlValue -> option f64 }.
(** An [f64] is a FLOAT8 and nothing else. *)
Class SqlxSpec `{!SqlxOps} : Prop := {
  decode_f64_float8 : forall x, decode_f64 (SqlFloat8 x) = Some x;
  decode_f64_numeric : forall n, decode_f64 (SqlNumeric n) = None;
  decode_f64_null : decode_f64 SqlNull = None;
}.

(** As [Option<f64>]. *)
Definition decode_f64_option `{!SqlxOps} (v : SqlValue) : option (option f64) :=
  match v with SqlNull => Some None | _ => Some <$> decode_f64 v end.
End Columns.

Section Feeds.
Context `{DO : DecimalOps} `{CO : ChronoOps} `{UO : UuidOps} `{JO : !JsonOps} `{PG : !PgOps}.

(** ** [orderbook_hourly] *)

(** An hour of a market: [close] is a [yes_mid], [avg_volume] an average of
    [volume_24h], both NUMERIC. *)
Record HourlyRow : Type := {
  hr_market_id : string;
  hr_bucket : datetime;
  hr_close : dec;
  hr_avg_volume : dec;
}.

Definition newer (a b : HourlyRow) : Prop := dt_leb (hr_bucket b) (hr_bucket a) = true.
#[export] Instance newer_dec : RelDecision newer.
Proof. intros a b. unfold newer. apply _. Defined.

Definition hours_of (since : datetime) (m : string) (t : list HourlyRow) : list HourlyRow :=
  List.filter (fun r => bool_decide (hr_market_id r = m) && dt_leb since (hr_bucket r)) t.
(** ORDER BY bucket DESC. *)
Definition newest_first (t : list HourlyRow) : list HourlyRow := merge_sort newer t.
(** The markets of a table, each once. *)
Definition markets_of (t : list HourlyRow) : list string := remove_dups (hr_market_id <$> t).

Definition above_5_cents (r : HourlyRow) : bool := (hr_close r >? dec_new 5 2)%dec.

(** *** The mean reversion scan *)

Record MeanReversionColumns : Type := {
  mv_condition_id : string;
  mv_current_price : SqlValue;
  mv_previous_price : SqlValue;
  mv_price_change : SqlValue;
  mv_current_volume : SqlValue;
  mv_median_volume : SqlValue;
}.

(** A market with its last two hours, [current_prev] joined with [vol_median]. *)
Record PriceMove : Type := {
  mo_current : HourlyRow;
  mo_previous : HourlyRow;
  mo_change : dec;
  mo_median : option f64;
}.
Definition price_move (now : datetime) (t : list HourlyRow) (m : string) : option PriceMove :=
  match newest_first (hours_of (add_minutes now (-120)) m t) with
  | c :: p :: _ =>
      if above_5_cents p && above_5_cents c
      then Some {|
        mo_current := c; mo_previous := p;
        mo_change := if (hr_close p >? ZERO)%dec
                     then pg_div (pg_sub (hr_close c) (hr_close p)) (hr_close p) else ZERO;
        mo_median := pg_median ((fun r => pg_to_float8 (hr_avg_volume r)) <$>
                                  hours_of (add_minutes now (-1440)) m t) |}
      else None
  | _ => None
  end.
(** A large move on a volume that is not above the median. *)
Definition is_reversion (min_move_pct : f64) (mo : PriceMove) : bool :=
  let volume := hr_avg_volume (mo_current mo) in
  float8_leb min_move_pct (pg_to_float8 (dec_abs (mo_change mo))) &&
  float8_leb (pg_to_float8 volume)
    (default (pg_to_float8 (pg_add volume (dec_of_Z 1))) (mo_median mo)).
Definition larger_move (a b : PriceMove) : Prop :=
  (dec_abs (mo_change b) <=? dec_abs (mo_change a))%dec = true.
#[export] Instance larger_move_dec : RelDecision larger_move.
Proof. intros a b. unfold larger_move. apply _. Defined.
Definition move_columns (mo : PriceMove) : MeanReversionColumns :=
  let c := mo_current mo in {|
  mv_condition_id := hr_market_id c;
  mv_current_price := SqlNumeric (hr_close c);
  mv_previous_price := SqlNumeric (hr_close (mo_previous mo));
  mv_price_change := SqlNumeric (mo_change mo);
  mv_current_volume := SqlNumeric (hr_avg_volume c);
  mv_median_volume := SqlFloat8 (default (pg_to_float8 (hr_avg_volume c)) (mo_median mo)) |}.
Definition mean_reversion_query (now : datetime) (min_move_pct : f64) (t : list HourlyRow)
    : list MeanReversionColumns :=
  move_columns <$> take 20 (merge_sort larger_move
    (List.filter (is_reversion min_move_pct) (omap (price_move now t) (markets_of t)))).

(** *** The divergence scan *)

Record CorrelationRow : Type := {
  mc_condition_id_a : string;
  mc_condition_id_b : string;
  mc_correlation : f64;
  mc_sample_size : Z;
}.
Record DivergenceRow : Type := {
  lead_market : string;
  lag_market : string;
  correlation : f64;
  lead_change : f64;
  lag_change : f64;
  lag_current_price : f64;
}.

(** The change over four hours and the current price; [db_now] is the clock of
    the database. *)
Definition price_change_of (db_now : datetime) (t : list HourlyRow) (m : string) : option (dec * dec) :=
  let hours := newest_first (hours_of (add_minutes db_now (-240)) m t) in
  first_val ← last hours; last_val ← head hours;
  if above_5_cents first_val && above_5_cents last_val
  then Some (pg_div (pg_sub (hr_close last_val) (hr_close first_val)) (hr_close first_val),
             hr_close last_val)
  else None.
Definition divergence_of (db_now : datetime) (min_correlation min_lead_move max_lag_move : f64)
    (t : list HourlyRow) (mc : CorrelationRow) : option DivergenceRow :=
  '(change_a, price_a) ← price_change_of db_now t (mc_condition_id_a mc);
  '(change_b, price_b) ← price_change_of db_now t (mc_condition_id_b mc);
  let moved x := float8_leb min_lead_move (pg_to_float8 (dec_abs x)) in
  let still x := float8_leb (pg_to_float8 (dec_abs x)) max_lag_move in
  if float8_leb min_correlation (f64_abs (mc_correlation mc)) && (168 <=? mc_sample_size mc)%Z
     && ((moved change_a && still change_b) || (moved change_b && still change_a))
  then Some (if (dec_abs change_a >? dec_abs change_b)%dec
    then {| lead_market := mc_condition_id_a mc; lag_market := mc_condition_id_b mc;
            correlation := mc_correlation mc; lead_change := pg_to_float8 change_a;
            lag_change := pg_to_float8 change_b; lag_current_price := pg_to_float8 price_b |}
    else {| lead_market := mc_condition_id_b mc; lag_market := mc_condition_id_a mc;
            correlation := mc_correlation mc; lead_change := pg_to_float8 change_b;
            lag_change := pg_to_float8 change_a; lag_current_price := pg_to_float8 price_a |})
  else None.

(** ** [market_metadata] *)

Record MetadataRow : Type := {
  mm_condition_id : string;
  mm_question : string;
  mm_end_date : option datetime;
  mm_volume : option dec;
  mm_liquidity : option dec;
  mm_active : bool;
}.

(** *** The resolution scan *)

Record ResolutionColumns : Type := {
  rv_condition_id : string;
  rv_question : string;
  rv_end_date : datetime;
  rv_volume : option dec;
  rv_yes_price : SqlValue;
}.
Definition resolution_columns (db_now min_end max_end : datetime) (min_volume : dec)
    (min_price_deviation : f64) (t : list HourlyRow) (mm : MetadataRow) : option ResolutionColumns :=
  ob ← head (newest_first (hours_of (add_minutes db_now (-4320)) (mm_condition_id mm) t));
  end_date ← mm_end_date mm;
  volume ← mm_volume mm;
  if mm_active mm && dt_leb min_end end_date && dt_leb end_date max_end
     && (volume >=? min_volume)%dec
     && float8_leb min_price_deviation (pg_to_float8 (dec_abs (pg_sub (hr_close ob) (dec_new 5 1))))
  then Some {| rv_condition_id := mm_condition_id mm; rv_question := mm_question mm;
               rv_end_date := end_date; rv_volume := Some volume;
               rv_yes_price := SqlNumeric (hr_close ob) |}
  else None.
Definition ends_first (a b : ResolutionColumns) : Prop := dt_leb (rv_end_date a) (rv_end_date b) = true.
#[export] Instance ends_first_dec : RelDecision ends_first.
Proof. intros a b. unfold ends_first. apply _. Defined.
Definition resolution_query (db_now min_end max_end : datetime) (min_volume : dec)
    (min_price_deviation : f64) (metadata : list MetadataRow) (t : list HourlyRow)
    : list ResolutionColumns :=
  take 30 (merge_sort ends_first
    (omap (resolution_columns db_now min_end max_end min_volume min_price_deviation t) metadata)).

(** ** [market_flow_features] *)

Record FeatureRow : Type := {
  ff_condition_id : string;
  ff_window_end : datetime;
  ff_window_minutes : Z;
  ff_buy_volume : option dec;
  ff_sell_volume : option dec;
  ff_net_flow : option dec;
  ff_imbalance_ratio : option dec;
  ff_unique_buyers : option Z;
  ff_unique_sellers : option Z;
  ff_smart_money_flow : option dec;
  ff_trade_count : option Z;
}.
Record WalletTradeRow : Type := {
  wt_condition_id : option string;
  wt_wallet_address : string;
  wt_timestamp : datetime;
}.

(** *** The flow scan *)

(** The tables of the scan; of [bot_scores], the addresses. *)
Record FlowTables : Type := {
  ft_features : list FeatureRow;
  ft_trades : list WalletTradeRow;
  ft_scored_wallets : list string;
  ft_metadata : list MetadataRow;
  ft_hourly : list HourlyRow;
}.
Record FlowColumns : Type := {
  fv_condition_id : string;
  fv_imbalance_ratio : dec;
  fv_smart_money_flow : dec;
  fv_trade_count : Z;
  fv_unique_buyers : option Z;
  fv_unique_sellers : option Z;
  fv_buy_volume : option dec;
  fv_sell_volume : option dec;
  fv_net_flow : option dec;
  fv_liquidity : dec;
  fv_market_volume : dec;
  fv_yes_price : SqlValue;
  fv_bot_score_coverage : f64;
}.

Definition is_some_and {A} (p : A -> bool) (o : option A) : bool :=
  match o with Some a => p a | None => false end.
Definition qualifies (window_minutes : Z) (now : datetime) (min_imbalance min_smart_money_flow : dec)
    (min_trade_count : Z) (r : FeatureRow) : bool :=
  (ff_window_minutes r =? window_minutes)%Z && dt_leb (add_minutes now (-10)) (ff_window_end r) &&
  is_some_and (fun x => dec_abs x >=? min_imbalance)%dec (ff_imbalance_ratio r) &&
  is_some_and (fun x => dec_abs x >=? min_smart_money_flow)%dec (ff_smart_money_flow r) &&
  is_some_and (Z.leb min_trade_count) (ff_trade_count r).
Definition later_window (a b : FeatureRow) : Prop := dt_leb (ff_window_end b) (ff_window_end a) = true.
#[export] Instance later_window_dec : RelDecision later_window.
Proof. intros a b. unfold later_window. apply _. Defined.
(** DISTINCT ON (condition_id), the latest window of each. *)
Definition latest_features (t : list FeatureRow) : list FeatureRow :=
  omap (fun m => head (merge_sort later_window
                         (List.filter (fun r => bool_decide (ff_condition_id r = m)) t)))
    (remove_dups (ff_condition_id <$> t)).

(** The share of the trades of a window whose wallet has a score. *)
Definition bot_score_coverage (window_start now : datetime) (t : FlowTables) (m : string) : f64 :=
  let trades := List.filter (fun r =>
    bool_decide (wt_condition_id r = Some m) && dt_leb window_start (wt_timestamp r) &&
    dt_leb (wt_timestamp r) now) (ft_trades t) in
  let scored := count_if (fun r => bool_decide (wt_wallet_address r ∈ ft_scored_wallets t)) trades in
  match trades with
  | [] => f64_zero
  | _ => f64_div (f64_of_Z (Z.of_nat scored)) (f64_of_Z (Z.of_nat (length trades)))
  end.

Definition flow_columns (window_start now : datetime) (t : FlowTables) (r : FeatureRow)
    : option FlowColumns :=
  let mm := List.find (fun mm => bool_decide (mm_condition_id mm = ff_condition_id r)) (ft_metadata t) in
  imbalance ← ff_imbalance_ratio r; smart ← ff_smart_money_flow r; trades ← ff_trade_count r;
  if default true (mm_active <$> mm) then Some {|
    fv_condition_id := ff_condition_id r; fv_imbalance_ratio := imbalance;
    fv_smart_money_flow := smart; fv_trade_count := trades;
    fv_unique_buyers := ff_unique_buyers r; fv_unique_sellers := ff_unique_sellers r;
    fv_buy_volume := ff_buy_volume r; fv_sell_volume := ff_sell_volume r;
    fv_net_flow := ff_net_flow r;
    fv_liquidity := default ZERO (mm ≫= mm_liquidity);
    fv_market_volume := default ZERO (mm ≫= mm_volume);
    fv_yes_price :=
      match newest_first (List.filter (fun h => bool_decide (hr_market_id h = ff_condition_id r))
                            (ft_hourly t)) with
      | h :: _ => SqlNumeric (hr_close h) | [] => SqlNull
      end;
    fv_bot_score_coverage := bot_score_coverage window_start now t (ff_condition_id r) |}
  else None.
Definition more_smart_money (a b : FlowColumns) : Prop :=
  let smart x := dec_abs (fv_smart_money_flow x) in
  let imbalance x := dec_abs (fv_imbalance_ratio x) in
  (smart b <? smart a)%dec || ((smart b =? smart a)%dec && (imbalance b <=? imbalance a)%dec) = true.
#[export] Instance more_smart_money_dec : RelDecision more_smart_money.
Proof. intros a b. unfold more_smart_money. apply _. Defined.
Definition flow_query (window_minutes : Z) (now window_start : datetime)
    (min_imbalance min_smart_money_flow : dec) (min_trade_count : Z) (t : FlowTables)
    : list FlowColumns :=
  take 100 (merge_sort more_smart_money
    (omap (flow_columns window_start now t)
       (latest_features (List.filter
          (qualifies window_minutes now min_imbalance min_smart_money_flow min_trade_count)
          (ft_features t))))).

(** *** The closed flow trades *)

Record ClosedFlow : Type := {
  cf_direction : string;
  cf_size_usd : dec;
  cf_realized_pnl : option dec;
  cf_predicted_edge_bps : option f64;
}.
(** [quant_signals] joined with [positions], the executed flow signals whose
    position is closed. *)
Definition closed_flow_of (lookback_start : datetime) (positions : Table) (s : QuantRow)
    : option ClosedFlow :=
  id ← qg_position_id s; p ← positions !! id;
  if bool_decide (qg_kind s = "flow") && bool_decide (qg_execution_status s = "executed")
     && (r_state p =? 4)%Z && dt_leb lookback_start (qg_generated_at s)
  then Some {| cf_direction := qg_direction s; cf_size_usd := qg_size_usd s;
               cf_realized_pnl := r_realized_pnl p;
               cf_predicted_edge_bps := qg_metadata s "expected_edge_bps" ≫= as_f64 |}
  else None.
Definition closed_flow (lookback_start : datetime) (positions : Table) (signals : list QuantRow)
    : list ClosedFlow := omap (closed_flow_of lookback_start positions) signals.

Record FlowCalibrationRow : Type := {
  cr_direction : option string;
  cr_closed_trades : Z;
  cr_win_rate : option f64;
  cr_avg_realized_return_bps : option f64;
  cr_edge_capture_ratio : option f64;
}.
Definition return_bps (c : ClosedFlow) : option (option f64) :=
  if (cf_size_usd c >? ZERO)%dec
  then Some ((fun pnl => f64_mul (f64_div (pg_to_float8 pnl) (pg_to_float8 (cf_size_usd c)))
                            (f64_of_Z 10000)) <$> cf_realized_pnl c)
  else None.
(** One row of GROUP BY direction. *)
Definition calibration_row (direction : option string) (l : list ClosedFlow) : FlowCalibrationRow :=
  let won c := is_some_and (fun pnl => pnl >? ZERO)%dec (cf_realized_pnl c) in
  let n := Z.of_nat (length l) in
  let returns := omap (fun c => x ← return_bps c; x) l in
  let captured := omap (fun c => match return_bps c with Some x => x | None => Some f64_zero end) l in
  let predicted := pg_sum (f64_abs <$> omap cf_predicted_edge_bps l) in {|
  cr_direction := direction; cr_closed_trades := n;
  cr_win_rate := Some (pg_to_float8 (pg_div (dec_of_Z (Z.of_nat (count_if won l))) (dec_of_Z n)));
  cr_avg_realized_return_bps := match returns with [] => None | _ => Some (pg_avg returns) end;
  cr_edge_capture_ratio :=
    match omap cf_predicted_edge_bps l, captured with
    | [], _ | _, [] => None
    | _, _ => if f64_eqb predicted f64_zero then None else Some (f64_div (pg_sum captured) predicted)
    end |}.
(** By direction, and all of them. *)
Definition calibration_query (l : list ClosedFlow) : list FlowCalibrationRow :=
  match l with
  | [] => []
  | _ => ((fun dir => calibration_row (Some dir)
                        (List.filter (fun c => bool_decide (cf_direction c = dir)) l))
            <$> remove_dups (cf_direction <$> l)) ++ [calibration_row None l]
  end.
End Feeds.
