(* ===== verification/SignalGenerators.v ===== *)
(** * The generators of the quantitative signals

    Models [crates/api-server/src/signals]: the four tasks that scan the tables
    of [SignalFeeds] and send what they find to the quantitative executor.  A
    scan gives the signals it sends, in order, and its result; a send without
    receivers is ignored.  [Utc::now()] and [Uuid::new_v4()] answer as its
    [ScanEnv] says. *)

From stdpp Require Import sorting.
From Stdlib Require Import SpecFloat.
From S2P Require Import Prelude F64 FloatParse Platform Position PositionRepo Executor Signal Trading.
From S2P Require Import ArbExecutor QuantExecutor SignalFeeds.

(** ** Shared by the generators *)

(** [var(key).map(|v| v == "true").unwrap_or(d)]. *)
Definition env_true (env : string -> option string) (key : string) (d : bool) : bool :=
  default d ((fun v => bool_decide (v = "true")) <$> env key).
Definition parse_i32 : string -> option Z := parse_int (- 2 ^ 31) (2 ^ 31 - 1).

(** JSON values: a number that is not finite is null. *)
Definition json_null : JsonValue := {| as_str := None; as_i64 := None; as_f64 := None |}.
Definition json_f64 (x : f64) : JsonValue :=
  {| json_null with as_f64 := if f64_is_finite x then Some x else None |}.
Definition json_i64 (n : Z) : JsonValue :=
  {| as_str := None; as_i64 := Some n; as_f64 := Some (f64_of_Z n) |}.
Definition json_str (s : string) : JsonValue := {| json_null with as_str := Some s |}.
Definition json_option (o : option f64) : JsonValue := default json_null (json_f64 <$> o).
Definition json_object (l : list (string * JsonValue)) : Metadata := fun key =>
  snd <$> List.find (fun kv => bool_decide (fst kv = key)) l.

(** Why a scan fails. *)
Inductive ScanError : Type := QueryFailed | ColumnDecode.

Section Generators.
Context `{DO : DecimalOps} `{CO : ChronoOps} `{UO : UuidOps} `{JO : !JsonOps} `{PG : !PgOps}.
Context `{SX : !SqlxOps}.

(** The clock of a scan and of the database, whether the queries succeed, and
    the identifier and the time of each signal. *)
Record ScanEnv : Type := {
  sc_now : datetime;
  sc_db_now : datetime;
  sc_query : bool;
  sc_id : nat -> Uuid;
  sc_created : nat -> datetime;
}.
(** What a scan sends, and its result: how many, or an error. *)
Abbreviation scan := (list QuantSignal * result Z ScanError)%type.

Definition failed (e : ScanError) : scan := ([], Err e).
Definition sent (l : list QuantSignal) : scan := (l, Ok (Z.of_nat (length l))).
(** [fetch_all]: an error of one row is the error of all. *)
Definition fetch_all {A B} (io : bool) (decode : A -> option B) (rows : list A)
    : result (list B) ScanError :=
  if io then match mapM decode rows with Some l => Ok l | None => Err ColumnDecode end
  else Err QueryFailed.
Definition scanned {A} (rows : result (list A) ScanError) (emit : list A -> list QuantSignal) : scan :=
  match rows with Ok l => sent (emit l) | Err e => failed e end.

(** The loop of a task: an error is logged and the next scan comes. *)
Definition generator_loop {E} (scan_and_emit : E -> scan) (scans : list E) : list QuantSignal :=
  scans ≫= fun e => fst (scan_and_emit e).
Definition spawn {E} (enabled : bool) (scan_and_emit : E -> scan) (scans : list E) : list QuantSignal :=
  if enabled then generator_loop scan_and_emit scans else [].

Definition decimal_to_f64 (value : dec) : f64 := default f64_zero (dec_to_f64 value).

(** ** Mean reversion *)

Record MeanReversionSignalConfig : Type := {
  mr_enabled : bool;
  mr_interval_secs : Z;
  min_move_pct : f64;
  mr_base_position_size_usd : dec;
  mr_expiry_minutes : Z;
}.
Definition mean_reversion_config_from_env (env : string -> option string) : MeanReversionSignalConfig := {|
  mr_enabled := env_true env "MEAN_REVERSION_SIGNAL_ENABLED" true;
  mr_interval_secs := default 600%Z (env "MEAN_REVERSION_INTERVAL_SECS" ≫= parse_u64);
  min_move_pct := default (f64_lit 10 100) (env "MEAN_REV_MIN_MOVE_PCT" ≫= parse_f64);
  mr_base_position_size_usd := env_dec env "QUANT_BASE_POSITION_SIZE" (dec_new 30 0);
  mr_expiry_minutes := 20 |}.

Record MeanReversionRow : Type := {
  mw_condition_id : string;
  mw_current_price : f64;
  mw_previous_price : f64;
  mw_price_change : f64;
  mw_current_volume : f64;
  mw_median_volume : f64;
}.
Definition decode_mean_reversion (v : MeanReversionColumns) : option MeanReversionRow :=
  current ← decode_f64 (mv_current_price v);
  previous ← decode_f64 (mv_previous_price v);
  change ← decode_f64 (mv_price_change v);
  volume ← decode_f64 (mv_current_volume v);
  median ← decode_f64 (mv_median_volume v);
  Some {| mw_condition_id := mv_condition_id v; mw_current_price := current;
          mw_previous_price := previous; mw_price_change := change;
          mw_current_volume := volume; mw_median_volume := median |}.

(** The other way than the move. *)
Definition reversion_direction (row : MeanReversionRow) : SignalDirection :=
  if f64_ltb f64_zero (mw_price_change row) then BuyNo else BuyYes.
Definition reversion_confidence (row : MeanReversionRow) : f64 :=
  f64_min (f64_add (f64_lit 55 100) (f64_mul (f64_abs (mw_price_change row)) (f64_lit 15 10)))
    (f64_lit 80 100).
Definition reversion_metadata (row : MeanReversionRow) : Metadata := json_object [
  ("current_price", json_f64 (mw_current_price row));
  ("previous_price", json_f64 (mw_previous_price row));
  ("price_change", json_f64 (mw_price_change row));
  ("price_change_pct", json_f64 (f64_mul (f64_abs (mw_price_change row)) (f64_of_Z 100)));
  ("current_volume", json_f64 (mw_current_volume row));
  ("median_volume", json_f64 (mw_median_volume row));
  ("volume_ratio", json_f64 (if f64_ltb f64_zero (mw_median_volume row)
                             then f64_div (mw_current_volume row) (mw_median_volume row) else f64_one))].
Definition mean_reversion_signal (cfg : MeanReversionSignalConfig) (en : ScanEnv) (i : nat)
    (row : MeanReversionRow) : QuantSignal :=
  with_metadata (reversion_metadata row)
    (quant_signal_new (sc_id en i) (sc_created en i) MeanReversion (mw_condition_id row)
       (reversion_direction row) (reversion_confidence row) (mr_base_position_size_usd cfg)
       (add_minutes (sc_now en) (mr_expiry_minutes cfg))).

Definition scan_mean_reversion (cfg : MeanReversionSignalConfig) (input : ScanEnv * list HourlyRow) : scan :=
  let (en, hourly) := input in
  scanned (fetch_all (sc_query en) decode_mean_reversion
             (mean_reversion_query (sc_now en) (min_move_pct cfg) hourly))
    (imap (mean_reversion_signal cfg en)).
Definition spawn_mean_reversion_signal_generator (cfg : MeanReversionSignalConfig)
    : list (ScanEnv * list HourlyRow) -> list QuantSignal :=
  spawn (mr_enabled cfg) (scan_mean_reversion cfg).

(** ** Resolution proximity *)

Record ResolutionSignalConfig : Type := {
  rs_enabled : bool;
  rs_interval_secs : Z;
  min_days_remaining : Z;
  max_days_remaining : Z;
  min_price_deviation : f64;
  rs_min_volume : dec;
  rs_base_position_size_usd : dec;
  rs_expiry_minutes : Z;
}.
Definition resolution_config_from_env (env : string -> option string) : ResolutionSignalConfig := {|
  rs_enabled := env_true env "RESOLUTION_SIGNAL_ENABLED" true;
  rs_interval_secs := default 900%Z (env "RESOLUTION_SIGNAL_INTERVAL_SECS" ≫= parse_u64);
  min_days_remaining := 1; max_days_remaining := 7;
  min_price_deviation := f64_lit 15 100;
  rs_min_volume := env_dec env "RESOLUTION_MIN_VOLUME_USD" (dec_new 1000 0);
  rs_base_position_size_usd := env_dec env "QUANT_BASE_POSITION_SIZE" (dec_new 30 0);
  rs_expiry_minutes := 60 |}.

Record ResolutionRow : Type := {
  rw_condition_id : string;
  rw_question : string;
  rw_end_date : datetime;
  rw_volume : option dec;
  rw_yes_price : option f64;
}.
Definition decode_resolution (v : ResolutionColumns) : option ResolutionRow :=
  yes_price ← decode_f64_option (rv_yes_price v);
  Some {| rw_condition_id := rv_condition_id v; rw_question := rv_question v;
          rw_end_date := rv_end_date v; rw_volume := rv_volume v; rw_yes_price := yes_price |}.

Definition hours_remaining (now : datetime) (row : ResolutionRow) : f64 :=
  f64_of_Z (Z.max (hours_since (rw_end_date row) now) 1).
Definition days_remaining (now : datetime) (row : ResolutionRow) : f64 :=
  f64_div (hours_remaining now row) (f64_of_Z 24).
Definition resolution_direction (yes_price : f64) : SignalDirection :=
  if f64_ltb (f64_lit 1 2) yes_price then BuyYes else BuyNo.
Definition deviation (yes_price : f64) : f64 := f64_abs (f64_sub yes_price (f64_lit 1 2)).
Definition time_factor (now : datetime) (row : ResolutionRow) : f64 :=
  f64_clamp (f64_div f64_one (f64_sqrt (days_remaining now row))) f64_zero f64_one.
Definition volume_factor (row : ResolutionRow) : f64 :=
  match rw_volume row with
  | Some v => f64_clamp (f64_div (f64_sub (decimal_to_f64 v) (f64_of_Z 1000)) (f64_of_Z 49000))
                f64_zero f64_one
  | None => f64_zero
  end.
Definition resolution_confidence (now : datetime) (yes_price : f64) (row : ResolutionRow) : f64 :=
  f64_clamp (f64_add (f64_add
      (f64_mul (f64_mul (deviation yes_price) (f64_lit 15 10)) (f64_lit 1 2))
      (f64_mul (time_factor now row) (f64_lit 35 100)))
      (f64_mul (volume_factor row) (f64_lit 15 100))) f64_zero f64_one.
Definition resolution_metadata (now : datetime) (yes_price : f64) (row : ResolutionRow) : Metadata :=
  json_object [
    ("question", json_str (rw_question row)); ("yes_price", json_f64 yes_price);
    ("days_remaining", json_f64 (days_remaining now row));
    ("hours_remaining", json_f64 (hours_remaining now row));
    ("volume", json_option (decimal_to_f64 <$> rw_volume row));
    ("deviation", json_f64 (deviation yes_price)); ("time_factor", json_f64 (time_factor now row))].
Definition resolution_signal (cfg : ResolutionSignalConfig) (en : ScanEnv) (i : nat)
    (priced : f64 * ResolutionRow) : QuantSignal :=
  let (yes_price, row) := priced in
  with_metadata (resolution_metadata (sc_now en) yes_price row)
    (quant_signal_new (sc_id en i) (sc_created en i) ResolutionProximity (rw_condition_id row)
       (resolution_direction yes_price) (resolution_confidence (sc_now en) yes_price row)
       (rs_base_position_size_usd cfg) (add_minutes (sc_now en) (rs_expiry_minutes cfg))).
(** A row without a price is passed over. *)
Definition with_price (row : ResolutionRow) : option (f64 * ResolutionRow) :=
  yes_price ← rw_yes_price row; Some (yes_price, row).

Definition scan_resolution (cfg : ResolutionSignalConfig)
    (input : ScanEnv * (list MetadataRow * list HourlyRow)) : scan :=
  let '(en, (metadata, hourly)) := input in
  let min_end := add_minutes (sc_now en) (1440 * min_days_remaining cfg) in
  let max_end := add_minutes (sc_now en) (1440 * max_days_remaining cfg) in
  scanned (fetch_all (sc_query en) decode_resolution
             (resolution_query (sc_db_now en) min_end max_end (rs_min_volume cfg)
                (min_price_deviation cfg) metadata hourly))
    (fun rows => imap (resolution_signal cfg en) (omap with_price rows)).
Definition spawn_resolution_signal_generator (cfg : ResolutionSignalConfig)
    : list (ScanEnv * (list MetadataRow * list HourlyRow)) -> list QuantSignal :=
  spawn (rs_enabled cfg) (scan_resolution cfg).

(** ** Cross-market divergence *)

Record CrossMarketSignalConfig : Type := {
  cm_enabled : bool;
  cm_interval_secs : Z;
  min_correlation : f64;
  min_lead_move : f64;
  max_lag_move : f64;
  cm_base_position_size_usd : dec;
  cm_expiry_minutes : Z;
}.
Definition cross_market_config_from_env (env : string -> option string) : CrossMarketSignalConfig := {|
  cm_enabled := env_true env "CROSS_MARKET_SIGNAL_ENABLED" false;
  cm_interval_secs := default 900%Z (env "CROSS_MARKET_INTERVAL_SECS" ≫= parse_u64);
  min_correlation := default (f64_lit 70 100) (env "CROSS_MARKET_MIN_CORRELATION" ≫= parse_f64);
  min_lead_move := default (f64_lit 5 100) (env "CROSS_MARKET_MIN_LEAD_MOVE" ≫= parse_f64);
  max_lag_move := default (f64_lit 2 100) (env "CROSS_MARKET_MAX_LAG_MOVE" ≫= parse_f64);
  cm_base_position_size_usd := dec_new 30 0;
  cm_expiry_minutes := 60 |}.

Definition expected_lag_direction (row : DivergenceRow) : f64 :=
  if f64_ltb f64_zero (correlation row) then lead_change row else f64_opp (lead_change row).
Definition convergence_direction (row : DivergenceRow) : SignalDirection :=
  if f64_ltb f64_zero (expected_lag_direction row) then BuyYes else BuyNo.
Definition divergence (row : DivergenceRow) : f64 :=
  f64_max (f64_sub (f64_abs (lead_change row)) (f64_abs (lag_change row))) f64_zero.
Definition divergence_confidence (row : DivergenceRow) : f64 :=
  f64_clamp (f64_add (f64_mul (f64_abs (correlation row)) (f64_lit 1 2))
               (f64_mul (f64_mul (divergence row) (f64_of_Z 5)) (f64_lit 1 2)))
    f64_zero (f64_lit 90 100).
Definition divergence_metadata (row : DivergenceRow) : Metadata := json_object [
  ("lead_market", json_str (lead_market row)); ("lag_market", json_str (lag_market row));
  ("correlation", json_f64 (correlation row)); ("lead_change", json_f64 (lead_change row));
  ("lag_change", json_f64 (lag_change row));
  ("lag_current_price", json_f64 (lag_current_price row)); ("divergence", json_f64 (divergence row))].
Definition divergence_signal (cfg : CrossMarketSignalConfig) (en : ScanEnv) (i : nat)
    (row : DivergenceRow) : QuantSignal := {|
  qs_id := sc_id en i; qs_kind := CrossMarket; qs_condition_id := lag_market row;
  qs_direction := convergence_direction row; qs_confidence := divergence_confidence row;
  qs_suggested_size_usd := (cm_base_position_size_usd cfg *
    default (dec_new 5 1) (dec_from_f64 (divergence_confidence row)))%dec;
  qs_expiry := add_minutes (sc_now en) (cm_expiry_minutes cfg);
  qs_metadata := divergence_metadata row; qs_generated_at := sc_now en |}.
Definition is_confident (row : DivergenceRow) : bool :=
  negb (f64_ltb (divergence_confidence row) (f64_lit 50 100)).

(** Its query casts every number, so each row decodes. *)
Definition generate_signals (cfg : CrossMarketSignalConfig)
    (input : ScanEnv * (list CorrelationRow * list HourlyRow)) : scan :=
  let '(en, (correlations, hourly)) := input in
  scanned (fetch_all (sc_query en) Some
             (omap (divergence_of (sc_db_now en) (min_correlation cfg) (min_lead_move cfg)
                      (max_lag_move cfg) hourly) correlations))
    (fun rows => imap (divergence_signal cfg en) (List.filter is_confident rows)).
(** A [tokio] interval of zero panics, which ends the task before its first
    scan. *)
Definition spawn_cross_market_signal_generator (cfg : CrossMarketSignalConfig)
    : list (ScanEnv * (list CorrelationRow * list HourlyRow)) -> list QuantSignal :=
  spawn (cm_enabled cfg && negb (cm_interval_secs cfg =? 0)%Z) (generate_signals cfg).

(** ** Flow *)

Record FlowSignalConfig : Type := {
  fl_enabled : bool;
  fl_interval_secs : Z;
  min_imbalance : f64;
  min_smart_money_flow : dec;
  min_trade_count : Z;
  min_score : f64;
  min_expected_edge_bps : f64;
  min_smart_money_share : f64;
  min_bot_score_coverage : f64;
  require_yes_price : bool;
  max_signals_per_cycle : Z;
  window_minutes : Z;
  fl_base_position_size_usd : dec;
  fl_expiry_minutes : Z;
  calibration_lookback_days : Z;
  calibration_min_closed_trades : Z;
  require_calibration : bool;
}.
Definition flow_config_from_env (env : string -> option string) : FlowSignalConfig := {|
  fl_enabled := env_true env "FLOW_SIGNAL_ENABLED" true;
  fl_interval_secs := default 300%Z (env "FLOW_SIGNAL_INTERVAL_SECS" ≫= parse_u64);
  min_imbalance := default (f64_lit 25 100) (env "FLOW_MIN_IMBALANCE" ≫= parse_f64);
  min_smart_money_flow := env_dec env "FLOW_MIN_SMART_MONEY_USD" (dec_new 500 0);
  min_trade_count := default 5%Z (env "FLOW_MIN_TRADE_COUNT" ≫= parse_i32);
  min_score := default (f64_lit 58 100) (env "FLOW_MIN_SCORE" ≫= parse_f64);
  min_expected_edge_bps := default (f64_of_Z 35) (env "FLOW_MIN_EXPECTED_EDGE_BPS" ≫= parse_f64);
  min_smart_money_share := default (f64_lit 35 100) (env "FLOW_MIN_SMART_MONEY_SHARE" ≫= parse_f64);
  min_bot_score_coverage := default (f64_lit 50 100) (env "FLOW_MIN_BOT_SCORE_COVERAGE" ≫= parse_f64);
  require_yes_price := env_true env "FLOW_REQUIRE_YES_PRICE" true;
  max_signals_per_cycle := default 15%Z (env "FLOW_MAX_SIGNALS_PER_CYCLE" ≫= parse_i64);
  window_minutes := default 60%Z (env "FLOW_SIGNAL_WINDOW_MINUTES" ≫= parse_i32);
  fl_base_position_size_usd := env_dec env "QUANT_BASE_POSITION_SIZE" (dec_new 30 0);
  fl_expiry_minutes := 30;
  calibration_lookback_days := default 14%Z (env "FLOW_CALIBRATION_LOOKBACK_DAYS" ≫= parse_i64);
  calibration_min_closed_trades :=
    default 8%Z (env "FLOW_CALIBRATION_MIN_CLOSED_TRADES" ≫= parse_i64);
  require_calibration := env_true env "FLOW_REQUIRE_CALIBRATION" true |}.

(** *** Calibration *)

Record FlowCalibrationStats : Type := {
  closed_trades : Z;
  win_rate : f64;
  avg_realized_return_bps : f64;
  edge_capture_ratio : f64;
}.
Definition default_stats : FlowCalibrationStats := {|
  closed_trades := 0; win_rate := f64_zero; avg_realized_return_bps := f64_zero;
  edge_capture_ratio := f64_zero |}.
Definition usable (min_closed_trades : Z) (s : FlowCalibrationStats) : bool :=
  (min_closed_trades <=? closed_trades s)%Z && f64_is_finite (edge_capture_ratio s).

Record FlowCalibrationSnapshot : Type := {
  overall : option FlowCalibrationStats;
  buy_yes : option FlowCalibrationStats;
  buy_no : option FlowCalibrationStats;
}.
Definition keep_usable (min_closed_trades : Z) (o : option FlowCalibrationStats)
    : option FlowCalibrationStats :=
  s ← o; if usable min_closed_trades s then Some s else None.
Definition usable_for (direction : SignalDirection) (min_closed_trades : Z)
    (c : FlowCalibrationSnapshot) : option FlowCalibrationStats :=
  let directional := match direction with BuyYes => buy_yes c | BuyNo => buy_no c end in
  match keep_usable min_closed_trades directional with
  | Some s => Some s
  | None => keep_usable min_closed_trades (overall c)
  end.
Definition has_usable_data (min_closed_trades : Z) (c : FlowCalibrationSnapshot) : bool :=
  is_some_and (usable min_closed_trades) (overall c).

Definition stats_of (row : FlowCalibrationRow) : FlowCalibrationStats := {|
  closed_trades := cr_closed_trades row; win_rate := default f64_zero (cr_win_rate row);
  avg_realized_return_bps := default f64_zero (cr_avg_realized_return_bps row);
  edge_capture_ratio := default f64_zero (cr_edge_capture_ratio row) |}.
Definition load_row (snapshot : FlowCalibrationSnapshot) (row : FlowCalibrationRow)
    : FlowCalibrationSnapshot :=
  let about dir := bool_decide (cr_direction row = Some dir) in
  if about "buy_yes" then {| snapshot with buy_yes := Some (stats_of row) |}
  else if about "buy_no" then {| snapshot with buy_no := Some (stats_of row) |}
  else {| snapshot with overall := Some (stats_of row) |}.
Definition load_flow_calibration (io : bool) (lookback_start : datetime) (positions : Table)
    (signals : list QuantRow) : result FlowCalibrationSnapshot ScanError :=
  if io then Ok (foldl load_row {| overall := None; buy_yes := None; buy_no := None |}
                   (calibration_query (closed_flow lookback_start positions signals)))
  else Err QueryFailed.

Definition calibrate_expected_edge_bps (raw_expected_edge_bps : f64) (s : FlowCalibrationStats) : f64 :=
  let minus_one := f64_opp f64_one in
  let bound := f64_lit 15 10 in
  let win_rate_centered :=
    f64_clamp (f64_mul (f64_sub (win_rate s) (f64_lit 1 2)) (f64_of_Z 2)) minus_one f64_one in
  let realized_return_scale :=
    f64_clamp (f64_div (avg_realized_return_bps s) (f64_of_Z 100)) minus_one f64_one in
  let capture_scale := f64_clamp (edge_capture_ratio s) (f64_opp bound) bound in
  let scale := f64_add (f64_add (f64_mul capture_scale (f64_lit 60 100))
                          (f64_mul win_rate_centered (f64_lit 30 100)))
                 (f64_mul realized_return_scale (f64_lit 10 100)) in
  f64_mul raw_expected_edge_bps (f64_clamp scale (f64_opp bound) bound).

(** *** Scores *)

Record FlowFeatureRow : Type := {
  fw_condition_id : string;
  fw_imbalance_ratio : dec;
  fw_smart_money_flow : dec;
  fw_trade_count : Z;
  fw_unique_buyers : Z;
  fw_unique_sellers : Z;
  fw_buy_volume : dec;
  fw_sell_volume : dec;
  fw_net_flow : dec;
  fw_liquidity : dec;
  fw_market_volume : dec;
  fw_yes_price : option f64;
  fw_bot_score_coverage : f64;
}.
Definition decode_flow (v : FlowColumns) : option FlowFeatureRow :=
  buyers ← fv_unique_buyers v; sellers ← fv_unique_sellers v;
  buy_volume ← fv_buy_volume v; sell_volume ← fv_sell_volume v; net_flow ← fv_net_flow v;
  yes_price ← decode_f64_option (fv_yes_price v);
  Some {| fw_condition_id := fv_condition_id v; fw_imbalance_ratio := fv_imbalance_ratio v;
          fw_smart_money_flow := fv_smart_money_flow v; fw_trade_count := fv_trade_count v;
          fw_unique_buyers := buyers; fw_unique_sellers := sellers; fw_buy_volume := buy_volume;
          fw_sell_volume := sell_volume; fw_net_flow := net_flow; fw_liquidity := fv_liquidity v;
          fw_market_volume := fv_market_volume v; fw_yes_price := yes_price;
          fw_bot_score_coverage := fv_bot_score_coverage v |}.

Definition price_regime_score (yes_price : option f64) : f64 :=
  default (f64_lit 1 2) ((fun price =>
    f64_sub f64_one (f64_clamp (f64_div (f64_abs (f64_sub price (f64_lit 1 2))) (f64_lit 45 100))
                       f64_zero f64_one)) <$> yes_price).

(** The measures of a row, each in [0, 1] but the imbalance and the share. *)
Record FlowMeasures : Type := {
  imbalance_abs : f64;
  smart_money_share : f64;
  smart_money_intensity : f64;
  breadth_score : f64;
  trade_count_score : f64;
  liquidity_score : f64;
  volume_score : f64;
  price_score : f64;
}.
Definition unit_clamp (x : f64) : f64 := f64_clamp x f64_zero f64_one.
Definition flow_measures (row : FlowFeatureRow) : FlowMeasures :=
  let smart_money_abs := decimal_to_f64 (dec_abs (fw_smart_money_flow row)) in
  let total_flow_abs := f64_max (decimal_to_f64 (fw_buy_volume row + fw_sell_volume row)%dec) f64_one in
  let net_flow_abs := f64_max (decimal_to_f64 (dec_abs (fw_net_flow row))) f64_one in
  let participant_count :=
    Z.max (u32_as_i32 ((fw_unique_buyers row + fw_unique_sellers row) mod 2 ^ 32)) 0 in {|
  imbalance_abs := decimal_to_f64 (dec_abs (fw_imbalance_ratio row));
  smart_money_share := f64_clamp (f64_div smart_money_abs net_flow_abs) f64_zero (f64_lit 15 10);
  smart_money_intensity := unit_clamp (f64_div smart_money_abs total_flow_abs);
  breadth_score := unit_clamp (f64_div (f64_of_Z participant_count) (f64_of_Z 14));
  trade_count_score := unit_clamp (f64_div (f64_of_Z (fw_trade_count row)) (f64_of_Z 14));
  liquidity_score := unit_clamp (f64_div (decimal_to_f64 (fw_liquidity row)) (f64_of_Z 25000));
  volume_score := unit_clamp (f64_div (decimal_to_f64 (fw_market_volume row)) (f64_of_Z 50000));
  price_score := price_regime_score (fw_yes_price row) |}.

(** [x * w] summed from the left. *)
Definition weighted_sum (l : list (f64 * f64)) : f64 :=
  match (fun xw => f64_mul (fst xw) (snd xw)) <$> l with
  | [] => f64_zero
  | x :: xs => foldl f64_add x xs
  end.
Definition flow_score_components (m : FlowMeasures) : f64 * f64 :=
  let share := f64_min (smart_money_share m) f64_one in
  (f64_mul
     (weighted_sum [(imbalance_abs m, f64_lit 32 100); (share, f64_lit 26 100);
        (smart_money_intensity m, f64_lit 18 100); (breadth_score m, f64_lit 10 100);
        (trade_count_score m, f64_lit 7 100); (liquidity_score m, f64_lit 4 100);
        (volume_score m, f64_lit 3 100)])
     (f64_add (f64_lit 75 100) (f64_mul (f64_lit 25 100) (price_score m))),
   f64_sub
     (weighted_sum [(imbalance_abs m, f64_of_Z 55); (share, f64_of_Z 35);
        (smart_money_intensity m, f64_of_Z 20); (breadth_score m, f64_of_Z 12);
        (liquidity_score m, f64_of_Z 8)])
     (f64_mul (f64_sub f64_one (price_score m)) (f64_of_Z 18))).

(** *** The scan *)

Record ScoredRow : Type := {
  sr_expected_edge_bps : f64;
  sr_score : f64;
  sr_row : FlowFeatureRow;
  sr_measures : FlowMeasures;
}.
(** The row, if it passes every threshold. *)
Definition score_row (cfg : FlowSignalConfig) (row : FlowFeatureRow) : option ScoredRow :=
  let m := flow_measures row in
  let (score, edge) := flow_score_components m in
  if require_yes_price cfg && bool_decide (fw_yes_price row = None) then None
  else if f64_ltb (fw_bot_score_coverage row) (min_bot_score_coverage cfg) then None
  else if f64_ltb (smart_money_share m) (min_smart_money_share cfg) then None
  else if f64_ltb score (min_score cfg) || f64_ltb edge (min_expected_edge_bps cfg) then None
  else Some {| sr_expected_edge_bps := edge; sr_score := score; sr_row := row; sr_measures := m |}.

(** [b.partial_cmp(&a).unwrap_or(Equal)]. *)
Definition descending (a b : f64) : comparison := default Eq (SFcompare b a).
(** By edge, then by score. *)
Definition best_first (a b : ScoredRow) : Prop :=
  match descending (sr_expected_edge_bps a) (sr_expected_edge_bps b) with
  | Eq => descending (sr_score a) (sr_score b) <> Gt
  | c => c <> Gt
  end.
#[export] Instance best_first_dec : RelDecision best_first.
Proof. intros a b. unfold best_first. case_match; apply _. Defined.
(** [take(n as usize)] of an [i64]. *)
Definition take_usize {A} (n : Z) (l : list A) : list A :=
  let n := i64_as_u64 n in
  if (Z.of_nat (length l) <=? n)%Z then l else take (Z.to_nat n) l.
Definition flow_candidates (cfg : FlowSignalConfig) (rows : list FlowFeatureRow) : list ScoredRow :=
  take_usize (max_signals_per_cycle cfg) (merge_sort best_first (omap (score_row cfg) rows)).

Definition flow_direction (row : FlowFeatureRow) : SignalDirection :=
  if (fw_imbalance_ratio row >? ZERO)%dec then BuyYes else BuyNo.
(** The candidate with the statistics of its direction and its calibrated edge,
    if that is still large enough. *)
Definition calibrate (cfg : FlowSignalConfig) (c : FlowCalibrationSnapshot) (s : ScoredRow)
    : option (ScoredRow * FlowCalibrationStats * f64) :=
  stats ← match usable_for (flow_direction (sr_row s)) (calibration_min_closed_trades cfg) c with
          | Some stats => Some stats
          | None => if require_calibration cfg then None else Some default_stats
          end;
  let edge := if require_calibration cfg
              then calibrate_expected_edge_bps (sr_expected_edge_bps s) stats
              else sr_expected_edge_bps s in
  if f64_ltb edge (min_expected_edge_bps cfg) then None else Some (s, stats, edge).

Definition flow_metadata (cfg : FlowSignalConfig) (s : ScoredRow) (stats : FlowCalibrationStats)
    (calibrated : f64) : Metadata :=
  let row := sr_row s in let m := sr_measures s in json_object [
  ("imbalance_ratio", json_f64 (decimal_to_f64 (fw_imbalance_ratio row)));
  ("smart_money_flow", json_f64 (decimal_to_f64 (fw_smart_money_flow row)));
  ("trade_count", json_i64 (fw_trade_count row));
  ("unique_buyers", json_i64 (fw_unique_buyers row));
  ("unique_sellers", json_i64 (fw_unique_sellers row));
  ("buy_volume", json_f64 (decimal_to_f64 (fw_buy_volume row)));
  ("sell_volume", json_f64 (decimal_to_f64 (fw_sell_volume row)));
  ("net_flow", json_f64 (decimal_to_f64 (fw_net_flow row)));
  ("liquidity", json_f64 (decimal_to_f64 (fw_liquidity row)));
  ("market_volume", json_f64 (decimal_to_f64 (fw_market_volume row)));
  ("yes_price", json_option (fw_yes_price row));
  ("score", json_f64 (sr_score s));
  ("raw_expected_edge_bps", json_f64 (sr_expected_edge_bps s));
  ("expected_edge_bps", json_f64 calibrated);
  ("smart_money_share", json_f64 (smart_money_share m));
  ("smart_money_intensity", json_f64 (smart_money_intensity m));
  ("breadth_score", json_f64 (breadth_score m));
  ("liquidity_score", json_f64 (liquidity_score m));
  ("volume_score", json_f64 (volume_score m));
  ("price_regime_score", json_f64 (price_score m));
  ("bot_score_coverage", json_f64 (fw_bot_score_coverage row));
  ("calibration_closed_trades", json_i64 (closed_trades stats));
  ("calibration_win_rate", json_f64 (win_rate stats));
  ("calibration_avg_realized_return_bps", json_f64 (avg_realized_return_bps stats));
  ("calibration_edge_capture_ratio", json_f64 (edge_capture_ratio stats));
  ("window_minutes", json_i64 (window_minutes cfg))].
Definition flow_signal (cfg : FlowSignalConfig) (en : ScanEnv) (i : nat)
    (c : ScoredRow * FlowCalibrationStats * f64) : QuantSignal :=
  let '(s, stats, edge) := c in
  with_metadata (flow_metadata cfg s stats edge)
    (quant_signal_new (sc_id en i) (sc_created en i) Flow (fw_condition_id (sr_row s))
       (flow_direction (sr_row s)) (f64_clamp (sr_score s) f64_zero (f64_lit 95 100))
       (fl_base_position_size_usd cfg) (add_minutes (sc_now en) (fl_expiry_minutes cfg))).

(** What a scan reads: its tables, and the two of the executor. *)
Record FlowScan : Type := {
  fs_env : ScanEnv;
  fs_calibration_query : bool;
  fs_tables : FlowTables;
  fs_positions : Table;
  fs_signals : list QuantRow;
}.
Definition scan_flow (cfg : FlowSignalConfig) (f : FlowScan) : scan :=
  let en := fs_env f in
  let now := sc_now en in
  match load_flow_calibration (fs_calibration_query f)
          (add_minutes now (- (1440 * calibration_lookback_days cfg))) (fs_positions f) (fs_signals f) with
  | Err e => failed e
  | Ok calibration =>
      if require_calibration cfg
         && negb (has_usable_data (calibration_min_closed_trades cfg) calibration)
      then sent []
      else
        scanned (fetch_all (sc_query en) decode_flow
                   (flow_query (window_minutes cfg) now (add_minutes now (- window_minutes cfg))
                      (default (dec_new 25 2) (dec_from_f64 (min_imbalance cfg)))
                      (min_smart_money_flow cfg) (min_trade_count cfg) (fs_tables f)))
          (fun rows => imap (flow_signal cfg en)
                         (omap (calibrate cfg calibration) (flow_candidates cfg rows)))
  end.
Definition spawn_flow_signal_generator (cfg : FlowSignalConfig) : list FlowScan -> list QuantSignal :=
  spawn (fl_enabled cfg) (scan_flow cfg).

(** ** The flow generator beside the executor

    As [crates/api-server/src/lib.rs] spawns them: the executor and the flow
    signals sent so far.  The flow generator scans; the executor takes a turn,
    its flow signals being of those sent; the other tasks change the state they
    share with it. *)

Record Pipeline : Type := {
  pl_executor : QuantSignalExecutor;
  pl_flow : list QuantSignal;
}.
Definition sends (l : list QuantSignal) (p : Pipeline) : Pipeline := {| p with pl_flow := pl_flow p ++ l |}.
Definition with_executor (w : QuantSignalExecutor) (p : Pipeline) : Pipeline := {| p with pl_executor := w |}.
Definition with_shared (s : Shared) (w : QuantSignalExecutor) : QuantSignalExecutor :=
  {| w with qe_shared := s |}.

Section Pipeline.
Context `{SH : !DisplayOps}.
Variable debug_reason : FailureReason -> string.
Variable show_u32 : Z -> string.

Inductive flow_step (cfg : FlowSignalConfig) : Pipeline -> Pipeline -> Prop :=
| flow_scans f p :
    fs_positions f = table (qe_shared (pl_executor p)) -> fs_signals f = qe_signals (pl_executor p) ->
    flow_step cfg p (sends (fst (scan_flow cfg f)) p)
| executor_turns i p w :
    quant_turn debug_reason show_u32 i (pl_executor p) = Some w ->
    (forall en s, i = QuantSignalIn en s -> qs_kind s = Flow -> s ∈ pl_flow p) ->
    flow_step cfg p (with_executor w p)
| others_change s p :
    flow_step cfg p (with_executor (with_shared s (pl_executor p)) p).
End Pipeline.
End Generators.
