(* ===== verification/SignalGeneratorsFacts.v ===== *)
(** * Properties of the signal generators

    That the types of the columns stop three of the four generators; that flow
    signals never start, because their calibration needs trades that only they
    open; and what the scans send for the rows that do decode. *)

From stdpp Require Import sorting relations.
From Stdlib Require Import SpecFloat.
From S2P Require Import Prelude F64 Platform Handler Position PositionRepo Executor Signal Trading.
From S2P Require Import PositionRepoFacts PositionService TokenCache ExecutorFacts StrategyRisk ArbEntryFacts.
From S2P Require Import QuantExecutor QuantExecutorFacts SignalFeeds SignalGenerators.

Section Facts.
Context `{DO : DecimalOps} `{CO : ChronoOps} `{UO : UuidOps} `{JO : !JsonOps} `{SH : !DisplayOps}.
Context `{PG : !PgOps} `{SX : !SqlxOps}.

(** ** The types of the columns *)

Lemma fetch_all_ok {A B} io (decode : A -> option B) rows l :
  fetch_all io decode rows = Ok l -> Forall2 (fun r b => decode r = Some b) rows l.
Proof.
  unfold fetch_all. destruct io; [|done]. destruct (mapM decode rows) eqn:E; [|done].
  intros [= <-]. by apply mapM_Some.
Qed.
(** Nothing is sent when nothing is made of the rows that decode. *)
Lemma scanned_none {A B} io (decode : A -> option B) rows (emit : list B -> list QuantSignal) :
  (forall l, Forall2 (fun r b => decode r = Some b) rows l -> emit l = []) ->
  fst (scanned (fetch_all io decode rows) emit) = [].
Proof.
  intros H. destruct (fetch_all io decode rows) as [l|] eqn:E; [|done]. simpl.
  by apply H, (fetch_all_ok io).
Qed.
Lemma spawn_none {E} enabled (scan_and_emit : E -> list QuantSignal * result Z ScanError) scans :
  (forall e, fst (scan_and_emit e) = []) -> spawn enabled scan_and_emit scans = [].
Proof.
  intros H. unfold spawn, generator_loop. destruct enabled; [|done].
  induction scans as [|e scans IH]; [done|]. csimpl. by rewrite H, IH.
Qed.

Lemma elem_of_top {A} (R : relation A) `{!RelDecision R} n l x : x ∈ take n (merge_sort R l) -> x ∈ l.
Proof.
  intros (i & Hl & _)%elem_of_take. apply list_elem_of_lookup_2 in Hl.
  by rewrite (merge_sort_Permutation R) in Hl.
Qed.

Section Schema.
Context {SS : SqlxSpec}.

Lemma decode_move mo : decode_mean_reversion (move_columns mo) = None.
Proof. unfold decode_mean_reversion. cbn [mv_current_price move_columns]. rewrite decode_f64_numeric. done. Qed.

Lemma reversion_scan_silent cfg input : fst (scan_mean_reversion cfg input) = [].
Proof.
  destruct input as [en hourly]. apply scanned_none. intros l H.
  unfold mean_reversion_query in H. destruct (take _ _) as [|mo rest]; [by inversion H|].
  apply Forall2_cons_inv_l in H as (row & l' & E & _). by rewrite decode_move in E.
Qed.

Lemma resolution_decodes db lo hi vol dev metadata t v :
  v ∈ resolution_query db lo hi vol dev metadata t -> decode_resolution v = None.
Proof.
  intros (mm & _ & E)%elem_of_top%list_elem_of_omap. unfold resolution_columns in E.
  inv_bind. destruct (_ && _); [|done]. injection E as <-.
  unfold decode_resolution. simpl. by rewrite decode_f64_numeric.
Qed.
Lemma resolution_scan_silent cfg input : fst (scan_resolution cfg input) = [].
Proof.
  destruct input as [en [metadata hourly]]. apply scanned_none. intros l H.
  destruct (resolution_query _ _ _ _ _ _ _) as [|v rest] eqn:E; [by inversion H|].
  apply Forall2_cons_inv_l in H as (row & l' & D & _).
  erewrite resolution_decodes in D; [done|]. rewrite E. apply list_elem_of_here.
Qed.

(** A flow row that decodes has no price. *)
Lemma flow_row_unpriced minutes now start imb smart trades t v row :
  v ∈ flow_query minutes now start imb smart trades t -> decode_flow v = Some row ->
  fw_yes_price row = None.
Proof.
  intros (r & _ & E)%elem_of_top%list_elem_of_omap D. unfold flow_columns in E. inv_bind.
  destruct (default _ _); [|done]. injection E as <-. unfold decode_flow in D. simpl in D. inv_bind.
  destruct (newest_first _) as [|h hs]; simpl in *; [by simplify_eq|].
  by rewrite decode_f64_numeric in *.
Qed.
Lemma flow_scan_silent cfg f : require_yes_price cfg = true -> fst (scan_flow cfg f) = [].
Proof.
  intros Hp. unfold scan_flow. destruct (load_flow_calibration _ _ _ _) as [c|]; [|done].
  destruct (_ && _); [done|]. apply scanned_none. intros l H.
  assert (Hn : omap (score_row cfg) l = []).
  { apply elem_of_nil_inv. intros s (row & Hin & E)%list_elem_of_omap.
    apply list_elem_of_lookup_1 in Hin as [i Hi].
    destruct (Forall2_lookup_r _ _ _ _ _ H Hi) as (v & Hv & D).
    apply list_elem_of_lookup_2 in Hv. pose proof (flow_row_unpriced _ _ _ _ _ _ _ _ _ Hv D) as Ep.
    unfold score_row in E. destruct (flow_score_components _). rewrite Hp, Ep in E.
    by rewrite bool_decide_eq_true_2 in E. }
  unfold flow_candidates, take_usize. rewrite Hn. cbn. by destruct (_ <=? _)%Z; rewrite ?take_nil.
Qed.

(** C28. The prices of [orderbook_hourly] are NUMERIC, which an [f64] is not:
    whatever the tables hold, the mean reversion and the resolution generator
    send no signal in any sequence of scans, and neither does the flow
    generator as long as it requires a price.  Every market that qualifies
    makes its scan fail. *)
Theorem numeric_prices_silence :
  (forall cfg scans, spawn_mean_reversion_signal_generator cfg scans = []) /\
  (forall cfg scans, spawn_resolution_signal_generator cfg scans = []) /\
  (forall cfg scans, require_yes_price cfg = true -> spawn_flow_signal_generator cfg scans = []) /\
  (forall cfg en hourly, sc_query en = true ->
     snd (scan_mean_reversion cfg (en, hourly)) =
       match mean_reversion_query (sc_now en) (min_move_pct cfg) hourly with
       | [] => Ok 0%Z | _ :: _ => Err ColumnDecode
       end).
Proof.
  split_and!.
  - intros. apply spawn_none, reversion_scan_silent.
  - intros. apply spawn_none, resolution_scan_silent.
  - intros. apply spawn_none. intros. by apply flow_scan_silent.
  - intros cfg en hourly Hio. unfold scan_mean_reversion, fetch_all. rewrite Hio.
    unfold mean_reversion_query. destruct (take _ _) as [|mo rest]; [done|].
    rewrite fmap_cons. simpl. by rewrite decode_move.
Qed.
End Schema.

(** ** A start without calibration *)

Definition is_flow (r : QuantRow) : bool := bool_decide (qg_kind r = "flow").
(** The rows of flow signals, stored or about to be. *)
Definition flow_rows (w : QuantSignalExecutor) : nat :=
  count_if is_flow (qe_signals w) + count_if is_flow (qe_spawned w).

Lemma closed_flow_count since positions signals :
  (length (closed_flow since positions signals) <= count_if is_flow signals)%nat.
Proof.
  induction signals as [|s signals IH]; [done|]. unfold closed_flow in *. csimpl. rewrite count_if_cons.
  destruct (closed_flow_of since positions s) eqn:E; [|lia].
  unfold closed_flow_of in E. inv_bind. destruct (_ && _) eqn:Eb; [|done]. reflect_bools.
  unfold is_flow at 1. rewrite bool_decide_eq_true_2 by done. simpl. lia.
Qed.

Lemma calibration_counts l row :
  row ∈ calibration_query l -> (closed_trades (stats_of row) <= Z.of_nat (length l))%Z.
Proof.
  unfold calibration_query. destruct l as [|c l]; [by intros ?%elem_of_nil|]. revert row.
  generalize (c :: l). clear. intros l row [(dir & -> & _)%list_elem_of_fmap|E]%elem_of_app; simpl.
  - apply inj_le, List.filter_length_le.
  - apply list_elem_of_singleton in E as ->. done.
Qed.

Lemma loaded_overall rows c0 s :
  overall (foldl load_row c0 rows) = Some s ->
  overall c0 = Some s \/ exists row, row ∈ rows /\ s = stats_of row.
Proof.
  revert c0. induction rows as [|row rows IH]; intros c0 H; [by left|]. simpl in H.
  apply IH in H as [H|(row' & Hin & ->)]; [|right; exists row'; split; [by apply list_elem_of_further|done]].
  unfold load_row in H. repeat case_bool_decide; simpl in H; auto.
  injection H as <-. right. exists row. split; [apply list_elem_of_here|done].
Qed.

Lemma too_few_to_calibrate cfg f :
  require_calibration cfg = true ->
  (Z.of_nat (count_if is_flow (fs_signals f)) < calibration_min_closed_trades cfg)%Z ->
  fst (scan_flow cfg f) = [].
Proof.
  intros Hr Hn. unfold scan_flow, load_flow_calibration. destruct (fs_calibration_query f); [|done].
  rewrite Hr. set (c := foldl _ _ _). destruct (has_usable_data _ c) eqn:Hu; [|done].
  unfold has_usable_data in Hu. destruct (overall c) as [s|] eqn:Eo; [|done]. exfalso.
  apply loaded_overall in Eo as [?|(row & Hin & ->)]; [done|].
  apply calibration_counts in Hin. simpl in Hu. unfold usable in Hu. reflect_bools.
  pose proof (closed_flow_count (add_minutes (sc_now (fs_env f)) (- (1440 * calibration_lookback_days cfg)))
    (fs_positions f) (fs_signals f)). lia.
Qed.

(** *** The executor adds no flow row of its own *)

Lemma count_if_update (p : QuantRow -> bool) (g : QuantRow -> QuantRow) id t :
  (forall r, p (g r) = p r) -> count_if p (update_signals id g t) = count_if p t.
Proof.
  intros Hg. unfold update_signals. induction t as [|r t IH]; [done|].
  rewrite fmap_cons, !count_if_cons, IH. case_bool_decide; by rewrite ?Hg.
Qed.
Lemma count_if_delete {A} (p : A -> bool) l i (x : A) :
  l !! i = Some x -> count_if p l = ((if p x then 1 else 0) + count_if p (delete i l))%nat.
Proof.
  revert i. induction l as [|y l IH]; intros [|i] H; simplify_eq/=; rewrite count_if_cons; [done|].
  rewrite (IH _ H), count_if_cons. lia.
Qed.
Lemma run_spawned_flow_rows i io w : (flow_rows (run_spawned i io w) <= flow_rows w)%nat.
Proof.
  unfold run_spawned, flow_rows. destruct (qe_spawned w !! i) as [row|] eqn:E; [|done]. simpl.
  rewrite (count_if_delete is_flow _ _ _ E). unfold insert_signal.
  destruct io; [destruct (existsb _ _)|]; [lia| |lia].
  rewrite count_if_app, count_if_cons. change (count_if is_flow []) with O. lia.
Qed.

Section Executor.
Variable debug_reason : FailureReason -> string.
Variable show_u32 : Z -> string.
Variable n : nat.
Abbreviation few := (fun w => (flow_rows w <= n)%nat).

Lemma few_same w w' :
  qe_signals w' = qe_signals w -> qe_spawned w' = qe_spawned w -> few w -> few w'.
Proof. unfold flow_rows. by intros -> ->. Qed.

Lemma update_row_few en s g :
  (forall r, is_flow (g r) = is_flow r) -> stays few (update_row_of_signal en s g).
Proof.
  intros Hg. unfold update_row_of_signal. apply stays_bind; [|intros _]; apply stays_modify; intros w Hw.
  - revert w Hw. induction (qn_spawned en) as [|[i io] l IH]; intros w Hw; [done|]. simpl. apply IH.
    etrans; [apply run_spawned_flow_rows|done].
  - destruct (io_db _); [|done]. unfold flow_rows in *. simpl. by rewrite count_if_update.
Qed.

Lemma q_change_few g : stays few (q_change g).
Proof. unfold q_change. repeat stays_step. by eapply few_same. Qed.
Lemma q_shared_few {A} (g : Shared -> Shared * A) : stays few (q_shared g).
Proof. unfold q_shared. repeat stays_step. destruct (g _). by eapply few_same. Qed.
Lemma q_try_shared_few {A} (g : Shared -> option (Shared * A)) : stays few (q_try_shared g).
Proof.
  unfold q_try_shared. apply stays_try_update. intros w w' a Hw H.
  destruct (g (qe_shared w)) as [[sh b]|]; [|done]. injection H as <- <-. by eapply few_same.
Qed.
Lemma skip_few {A} en s type mode reason : stays few (skip_as (A := A) en s type mode reason).
Proof.
  unfold skip_as, update_signal_status, record_signal_outcome_event.
  repeat stays_step; [by apply update_row_few|apply q_change_few].
Qed.

Ltac few_step := first
  [ apply q_change_few | apply q_shared_few | apply q_try_shared_few | apply skip_few
  | by apply update_row_few | stays_step ].

Lemma checks_few en s : qs_kind s <> Flow -> stays few (quant_checks en s).
Proof.
  intros Hk. unfold quant_checks, spawn_persist, record_generated, record_signal_outcome_event,
    refresh_strategy_state, quant_skip, quant_guards. repeat few_step.
  - unfold flow_rows in *. simpl. rewrite count_if_app, count_if_cons. change (count_if is_flow []) with O.
    assert (E : is_flow (quant_row s) = false)
      by (apply bool_decide_eq_false_2; simpl; by destruct (qs_kind s)).
    rewrite E. lia.
  - destruct (strategy_states _ !! _); [|done]. by eapply few_same.
Qed.
Lemma tokens_few en s : stays few (quant_tokens en s).
Proof.
  unfold quant_tokens. apply stays_update. intros w Hw. destruct (cache_get _ _); [done|].
  destruct (hydrate_market _ _ _ _). by eapply few_same.
Qed.
Lemma market_few en s cfg mode : stays few (quant_market en s cfg mode).
Proof. unfold quant_market, quant_skip. repeat first [apply tokens_few|few_step]. Qed.
Lemma size_few en s cfg mode ask : stays few (quant_size en s cfg mode ask).
Proof. unfold quant_size, quant_skip. repeat few_step. Qed.
Lemma portfolio_few en s cfg mode : stays few (quant_portfolio en s cfg mode).
Proof. unfold quant_portfolio, quant_skip. repeat few_step. Qed.
Lemma trade_few en s mode token ask q : stays few (trade_quant debug_reason en s mode token ask q).
Proof.
  unfold trade_quant, create_quant, order_quant, settle_quant, fail_quant, q_serve, update_signal_status,
    link_signal_to_position, record_position_failure_event, publish_quant_failure, publish_quant.
  repeat few_step.
Qed.
Lemma signal_few en s : qs_kind s <> Flow -> stays few (process_signal debug_reason en s).
Proof.
  intros Hk. unfold process_signal.
  repeat first [by apply checks_few | apply market_few | apply size_few | apply portfolio_few
               | apply trade_few | few_step].
Qed.

Lemma outcomes_few se w : few w -> few (sync_strategy_outcomes show_u32 se w).
Proof.
  intros Hw. unfold sync_strategy_outcomes.
  assert (H0 : few (roll_processed (date_naive (sy_now se)) w)).
  { unfold roll_processed. destruct (date_eqb _ _); [done|]. by eapply few_same. }
  destruct (sy_query se); [|done]. revert H0. generalize (roll_processed (date_naive (sy_now se)) w).
  intros w0. generalize (qe_config w0), (quant_outcomes (date_naive (sy_now se)) (table (qe_shared w0)) (qe_signals w0)).
  intros cfg rows. revert w0. induction rows as [|row rows IH]; intros w0 H0; [done|]. simpl. apply IH.
  unfold sync_row, record_strategy_outcome. repeat case_match; try done; by eapply few_same.
Qed.

Lemma turn_few i w w' :
  (forall en s, i = QuantSignalIn en s -> qs_kind s <> Flow) ->
  quant_turn debug_reason show_u32 i w = Some w' -> few w -> few w'.
Proof.
  intros Hi H Hw. destruct i; simpl in H; simplify_eq; try done.
  - unfold run_handler in H. destruct (process_signal _ _ _ _) as [[w1 f]|] eqn:E; [|done].
    injection H as <-. exact (signal_few _ _ (Hi _ _ eq_refl) _ _ _ Hw E).
  - by apply outcomes_few.
  - by etrans; [apply run_spawned_flow_rows|].
Qed.
End Executor.

(** C29. Flow signals never start.  From any state with fewer rows of flow
    signals than the trades that calibration asks for, none at the first start,
    no scan of the flow generator sends a signal, however its scans, the turns
    of the executor and whatever the other tasks do interleave: the trades it
    waits for are opened only by its own signals. *)
Theorem flow_never_starts debug_reason show_u32 cfg p p' :
  require_calibration cfg = true -> pl_flow p = [] ->
  (Z.of_nat (flow_rows (pl_executor p)) < calibration_min_closed_trades cfg)%Z ->
  rtc (flow_step debug_reason show_u32 cfg) p p' ->
  pl_flow p' = [] /\ (flow_rows (pl_executor p') <= flow_rows (pl_executor p))%nat.
Proof.
  intros Hr He Hn Hs. revert p' Hs. apply rtc_ind_r; [by split|]. intros p1 p2 _ Hs [He1 Hn1].
  destruct Hs as [f p1 _ Ef|i p1 w E Hf|sh p1]; simpl; [| |by split].
  - rewrite He1, too_few_to_calibrate; [by split|done|]. rewrite Ef. unfold flow_rows in *. lia.
  - split; [done|]. eapply (turn_few debug_reason show_u32 _ i); [|exact E|exact Hn1].
    intros en s Ei Hk. specialize (Hf en s Ei Hk). rewrite He1 in Hf. by apply elem_of_nil in Hf.
Qed.

(** ** The selection of flow rows *)

(** The edge and the score are numbers. *)
Definition numbers (s : ScoredRow) : Prop :=
  f64_is_nan (sr_expected_edge_bps s) = false /\ f64_is_nan (sr_score s) = false.

#[export] Instance numbers_dec s : Decision (numbers s).
Proof. unfold numbers. apply _. Defined.

Lemma descending_swap a b : descending b a = CompOpp (descending a b).
Proof.
  unfold descending. destruct (SFcompare b a) as [c|] eqn:E.
  - by rewrite (SFcompare_swap _ _ _ E).
  - destruct (SFcompare a b) as [c|] eqn:E'; [|done]. by rewrite (SFcompare_swap _ _ _ E') in E.
Qed.
#[export] Instance best_first_total : Total best_first.
Proof.
  intros a b. unfold best_first. rewrite (descending_swap (sr_expected_edge_bps a) (sr_expected_edge_bps b)).
  destruct (descending (sr_expected_edge_bps a) _); simpl; [|by left|by right].
  rewrite (descending_swap (sr_score a) (sr_score b)). destruct (descending (sr_score a) _); simpl; auto.
Qed.

(** On numbers: a larger edge, or the same and no smaller score. *)
Definition at_least (a b : ScoredRow) : Prop :=
  f64_ltb (sr_expected_edge_bps a) (sr_expected_edge_bps b) = false /\
  (f64_ltb (sr_expected_edge_bps b) (sr_expected_edge_bps a) = true \/
   f64_ltb (sr_score a) (sr_score b) = false).
Lemma best_first_iff a b : numbers a -> numbers b -> (best_first a b <-> at_least a b).
Proof.
  intros [Ha Ha'] [Hb Hb']. unfold at_least, best_first, descending, f64_ltb, SFltb.
  destruct (SFcompare_total _ _ Hb Ha) as [c E], (SFcompare_total _ _ Hb' Ha') as [c' E'].
  rewrite E, E', (SFcompare_swap _ _ _ E), (SFcompare_swap _ _ _ E').
  destruct c, c'; simpl; intuition congruence.
Qed.
Lemma at_least_sorted l : Forall numbers l -> Sorted best_first l -> Sorted at_least l.
Proof.
  induction 2 as [|a l Hs IH Hd]; [constructor|]. apply Forall_cons in H as [Ha Hl].
  constructor; [by apply IH|]. destruct Hd as [|b l Hab]; constructor.
  apply Forall_cons in Hl as [Hb _]. by apply best_first_iff.
Qed.
Lemma f64_lt_le_trans x y z : f64_is_nan x = false -> f64_is_nan y = false -> f64_is_nan z = false ->
  f64_ltb x y = true -> f64_ltb z y = false -> f64_ltb x z = true.
Proof.
  intros Hx Hy Hz Hxy Hzy. destruct (f64_ltb x z) eqn:E; [done|].
  by rewrite (f64_nlt_trans x z y) in Hxy.
Qed.
Lemma f64_le_lt_trans x y z : f64_is_nan x = false -> f64_is_nan y = false -> f64_is_nan z = false ->
  f64_ltb y x = false -> f64_ltb y z = true -> f64_ltb x z = true.
Proof.
  intros Hx Hy Hz Hyx Hyz. destruct (f64_ltb x z) eqn:E; [done|].
  by rewrite (f64_nlt_trans y x z) in Hyz.
Qed.
Lemma at_least_trans a b c : numbers a -> numbers b -> numbers c ->
  at_least a b -> at_least b c -> at_least a c.
Proof.
  intros Ha Hb Hc. unfold at_least. destruct Ha, Hb, Hc. intros [G1 G2] [G3 G4].
  split; [by eapply (f64_nlt_trans _ (sr_expected_edge_bps b))|].
  destruct G2 as [G2|G2]; [left; by eapply (f64_le_lt_trans _ (sr_expected_edge_bps b))|].
  destruct G4 as [G4|G4]; [left; by eapply (f64_lt_le_trans _ (sr_expected_edge_bps b))|].
  right. by eapply (f64_nlt_trans _ (sr_score b)).
Qed.

Lemma take_usize_take {A} n (l : list A) : take_usize n l = take (Z.to_nat (i64_as_u64 n)) l.
Proof.
  unfold take_usize. destruct (Z.leb_spec (Z.of_nat (length l)) (i64_as_u64 n)); [|done].
  rewrite take_ge; [done|]. lia.
Qed.

(** A row that passes every threshold of the configuration. *)
Record passes (cfg : FlowSignalConfig) (s : ScoredRow) : Prop := {
  ps_price : require_yes_price cfg = true -> is_Some (fw_yes_price (sr_row s));
  ps_coverage : f64_ltb (fw_bot_score_coverage (sr_row s)) (min_bot_score_coverage cfg) = false;
  ps_share : f64_ltb (smart_money_share (sr_measures s)) (min_smart_money_share cfg) = false;
  ps_score : f64_ltb (sr_score s) (min_score cfg) = false;
  ps_edge : f64_ltb (sr_expected_edge_bps s) (min_expected_edge_bps cfg) = false;
  ps_measures : sr_measures s = flow_measures (sr_row s);
  ps_components : (sr_score s, sr_expected_edge_bps s) = flow_score_components (sr_measures s);
}.
Lemma score_row_passes cfg row s :
  score_row cfg row = Some s <-> sr_row s = row /\ passes cfg s.
Proof.
  unfold score_row. destruct (flow_score_components (flow_measures row)) as [score edge] eqn:Ec. split.
  - destruct (require_yes_price cfg && _) eqn:E1; [done|].
    destruct (f64_ltb _ _) eqn:E2; [done|]. destruct (f64_ltb _ _) eqn:E3 in |- *; [done|].
    destruct (_ || _) eqn:E4; [done|]. intros [= <-]. reflect_bools. simpl. split; [done|].
    split; simpl; try done. intros Hr. rewrite Hr in E1. cbn in E1. apply bool_decide_eq_false in E1. by apply not_eq_None_Some in E1.
  - intros [<- [Hp H1 H2 H3 H4 Hm Hc]]. rewrite Hm, Ec in Hc. injection Hc as H5 H6.
    rewrite <- Hm, H1, H2, <- H5, <- H6, H3, H4. simpl.
    destruct (require_yes_price cfg) eqn:Er; [|by destruct s; simpl in *; subst].
    rewrite bool_decide_eq_false_2; [by destruct s; simpl in *; subst|].
    by apply not_eq_None_Some, Hp.
Qed.

(** C30. What a flow scan selects: of the rows that pass every threshold, as many
    as the limit of a cycle lets through (a negative limit lets all through), in
    the order of their expected edge, then of their score; and none of those
    left out would come before one of them. *)
Theorem flow_selection cfg rows :
  Forall numbers (omap (score_row cfg) rows) ->
  exists rest, omap (score_row cfg) rows ≡ₚ flow_candidates cfg rows ++ rest /\
    Z.of_nat (length (flow_candidates cfg rows)) =
      Z.min (Z.of_nat (length (omap (score_row cfg) rows))) (i64_as_u64 (max_signals_per_cycle cfg)) /\
    StronglySorted at_least (flow_candidates cfg rows) /\
    (forall a, a ∈ flow_candidates cfg rows -> sr_row a ∈ rows /\ passes cfg a) /\
    (forall a b, a ∈ flow_candidates cfg rows -> b ∈ rest -> at_least a b) /\
    (forall s, sr_row s ∈ rows -> passes cfg s -> s ∈ flow_candidates cfg rows \/ s ∈ rest).
Proof.
  intros Hn. unfold flow_candidates. rewrite take_usize_take.
  set (l := omap (score_row cfg) rows) in *. set (n := Z.to_nat _).
  exists (drop n (merge_sort best_first l)).
  assert (Hp : l ≡ₚ take n (merge_sort best_first l) ++ drop n (merge_sort best_first l))
    by by rewrite take_drop, merge_sort_Permutation.
  assert (Hs : StronglySorted at_least (take n (merge_sort best_first l) ++ drop n (merge_sort best_first l))).
  { rewrite take_drop. assert (Hm : Forall numbers (merge_sort best_first l))
      by by rewrite (merge_sort_Permutation best_first).
    apply (strongly_sorted_on numbers); [apply at_least_trans|done|].
    apply at_least_sorted; [done|]. apply (Sorted_merge_sort best_first). }
  split_and!; [done| | | | |].
  - rewrite length_take, (Permutation_length (merge_sort_Permutation best_first l)).
    pose proof (Z.mod_pos_bound (max_signals_per_cycle cfg) (2 ^ 64)). unfold n, i64_as_u64 in *. lia.
  - by apply StronglySorted_app_1_l in Hs.
  - intros a Ha%elem_of_top. apply list_elem_of_omap in Ha as (row & Hin & E).
    by apply score_row_passes in E as [<- ?].
  - intros a b. by apply StronglySorted_app_1_elem_of.
  - intros s Hin Hs'. apply elem_of_app. rewrite <- Hp. apply list_elem_of_omap.
    exists (sr_row s). split; [done|]. by apply score_row_passes.
Qed.

(** ** The signals *)

Lemma fst_scanned {A} (rows : result (list A) ScanError) emit s :
  s ∈ fst (scanned rows emit) -> exists l, rows = Ok l /\ s ∈ emit l.
Proof. destruct rows as [l|e]; simpl; [by exists l|]. by intros ?%elem_of_nil. Qed.
Lemma elem_of_imap {A B} (f : nat -> A -> B) l b : b ∈ imap f l -> exists i a, a ∈ l /\ b = f i a.
Proof.
  intros [i Hi]%list_elem_of_lookup_1. rewrite list_lookup_imap in Hi.
  destruct (l !! i) as [a|] eqn:E; [|done]. injection Hi as <-. exists i, a. split; [|done].
  by eapply list_elem_of_lookup_2.
Qed.

(** A confidence between two bounds, if it is a number. *)
Definition between (lo hi x : f64) : Prop :=
  f64_is_nan x = false -> f64_leb lo x = true /\ f64_leb x hi = true.
Lemma clamp_confidence x lo hi :
  f64_is_nan lo = false -> f64_is_nan hi = false ->
  f64_leb lo lo = true -> f64_leb hi hi = true -> f64_leb lo hi = true -> between lo hi (f64_clamp x lo hi).
Proof.
  intros Hl Hh Hll Hhh Hlh Hn. apply f64_clamp_bounds; try done.
  destruct (f64_is_nan x) eqn:E; [|done]. destruct x; try discriminate. by destruct hi.
Qed.

(** What the executor reads as the expected edge is the calibrated edge. *)
Lemma edge_of_flow_signal cfg en i sr stats edge :
  expected_edge_from_signal (flow_signal cfg en i (sr, stats, edge)) =
    if f64_is_finite edge then dec_from_f64_retain edge else None.
Proof.
  unfold expected_edge_from_signal.
  change (qs_metadata _) with (flow_metadata cfg sr stats edge).
  assert (E : flow_metadata cfg sr stats edge "expected_edge_bps" = Some (json_f64 edge)) by reflexivity.
  rewrite E. simpl. by destruct (f64_is_finite edge).
Qed.

Lemma keep_usable_some n o st : keep_usable n o = Some st -> usable n st = true.
Proof. unfold keep_usable. destruct o as [st'|]; [|done]. simpl. destruct (usable n st') eqn:E; [|done]. by intros [= <-]. Qed.
Lemma usable_for_some d n c st : usable_for d n c = Some st -> usable n st = true.
Proof.
  unfold usable_for. destruct (keep_usable n _) as [st'|] eqn:E; intros H; [|by apply keep_usable_some in H].
  injection H as <-. by apply keep_usable_some in E.
Qed.

(** The statistics a signal is calibrated with. *)
Lemma calibrate_some cfg c sr sr' stats edge :
  calibrate cfg c sr = Some (sr', stats, edge) ->
  sr' = sr /\ f64_ltb edge (min_expected_edge_bps cfg) = false /\
  if require_calibration cfg
  then usable (calibration_min_closed_trades cfg) stats = true /\
       edge = calibrate_expected_edge_bps (sr_expected_edge_bps sr) stats
  else edge = sr_expected_edge_bps sr.
Proof.
  unfold calibrate. intros H. inv_bind. destruct (f64_ltb _ _) eqn:El; [done|]. injection H as <- <- <-.
  split; [done|]. split; [done|]. destruct (require_calibration cfg); [|done]. split; [|done].
  destruct (usable_for _ _ c) as [st|] eqn:Eu; [|done]. injection E as <-. by eapply usable_for_some.
Qed.

(** What the executor may rely on in a flow signal: it is of a row of the
    query that passes every threshold, bets the way of the imbalance with the
    size of the configuration, and its confidence is the score, at most 0.95;
    its expected edge reaches the minimum, and, where calibration is required,
    is the edge calibrated with statistics of enough closed trades. *)
Theorem flow_signals_carry_edge cfg f s :
  s ∈ fst (scan_flow cfg f) ->
  exists sr stats edge, passes cfg sr /\
    qs_kind s = Flow /\ qs_condition_id s = fw_condition_id (sr_row sr) /\
    qs_direction s = (if (fw_imbalance_ratio (sr_row sr) >? ZERO)%dec then BuyYes else BuyNo) /\
    qs_suggested_size_usd s = fl_base_position_size_usd cfg /\
    qs_expiry s = add_minutes (sc_now (fs_env f)) (fl_expiry_minutes cfg) /\
    (f64_is_nan (sr_score sr) = false -> qs_confidence s = f64_clamp (sr_score sr) f64_zero (f64_lit 95 100)) /\
    between f64_zero (f64_lit 95 100) (qs_confidence s) /\
    expected_edge_from_signal s = (if f64_is_finite edge then dec_from_f64_retain edge else None) /\
    f64_ltb edge (min_expected_edge_bps cfg) = false /\
    (require_calibration cfg = true ->
       (calibration_min_closed_trades cfg <= closed_trades stats)%Z /\
       edge = calibrate_expected_edge_bps (sr_expected_edge_bps sr) stats).
Proof.
  unfold scan_flow. destruct (load_flow_calibration _ _ _ _) as [c|]; [|by intros ?%elem_of_nil].
  destruct (_ && _); [by intros ?%elem_of_nil|].
  intros (rows & _ & (i & [[sr stats] edge] & Hin & ->)%elem_of_imap)%fst_scanned.
  apply list_elem_of_omap in Hin as (sr' & Hin & E).
  unfold flow_candidates in Hin. rewrite take_usize_take in Hin.
  apply elem_of_top, list_elem_of_omap in Hin as (row & _ & Hs). apply score_row_passes in Hs as [_ Hp].
  apply calibrate_some in E as (-> & Hm & Hr). exists sr', stats, edge.
  rewrite edge_of_flow_signal. simpl.
  assert (Hc : f64_is_nan (sr_score sr') = false ->
    f64_clamp (f64_clamp (sr_score sr') f64_zero (f64_lit 95 100)) f64_zero f64_one =
    f64_clamp (sr_score sr') f64_zero (f64_lit 95 100)) by (intros; by apply f64_clamp_again).
  split_and!; try done.
  - intros Hn. destruct (f64_is_nan (sr_score sr')) eqn:E.
    + destruct (sr_score sr'); discriminate.
    + rewrite Hc in * by done. by apply clamp_confidence.
  - intros Hreq. rewrite Hreq in Hr. destruct Hr as [Hu ->]. unfold usable in Hu. reflect_bools. done.
Qed.

(** ** Divergence *)

Lemma f64_opp_positive x : f64_ltb f64_zero (f64_opp x) = f64_ltb x f64_zero.
Proof. by destruct x as [[]|[]| |[]]. Qed.

Section Pairs.
Context {DS : DecimalSpec}.

(** A row is of a correlated pair, its lead the market that moved more. *)
Lemma divergence_row db r0 m0 l0 hourly mc row :
  divergence_of db r0 m0 l0 hourly mc = Some row ->
  correlation row = mc_correlation mc /\
  (168 <= mc_sample_size mc)%Z /\ float8_leb r0 (f64_abs (mc_correlation mc)) = true /\
  (lead_market row = mc_condition_id_a mc /\ lag_market row = mc_condition_id_b mc \/
   lead_market row = mc_condition_id_b mc /\ lag_market row = mc_condition_id_a mc) /\
  exists change change',
    fst <$> price_change_of db hourly (lead_market row) = Some change /\
    fst <$> price_change_of db hourly (lag_market row) = Some change' /\
    (dec_abs change' <=? dec_abs change)%dec = true /\ lead_change row = pg_to_float8 change.
Proof.
  unfold divergence_of.
  destruct (price_change_of _ _ (mc_condition_id_a mc)) as [[a pa]|] eqn:Ea; [|done].
  destruct (price_change_of _ _ (mc_condition_id_b mc)) as [[b pb]|] eqn:Eb; [|done]. simpl. intros E.
  destruct (_ && _) eqn:Eq in E; [|done]. injection E as <-. reflect_bools.
  destruct (dec_abs b <? dec_abs a)%dec eqn:El; simpl; rewrite Ea, Eb; split_and!; auto.
  - exists a, b. split_and!; try done. rewrite dec_ltb_lt in El. rewrite dec_leb_le. lra.
  - exists b, a. split_and!; try done. rewrite dec_ltb_ge in El. by rewrite dec_leb_le.
Qed.

(** The way the lag market is expected to go. *)
Lemma convergence_up row :
  convergence_direction row = BuyYes <->
  if f64_ltb f64_zero (correlation row) then f64_ltb f64_zero (lead_change row) = true
  else f64_ltb (lead_change row) f64_zero = true.
Proof.
  unfold convergence_direction, expected_lag_direction.
  destruct (f64_ltb f64_zero (correlation row)); rewrite ?f64_opp_positive; by case_match.
Qed.
Lemma confident_between row : is_confident row = true ->
  between (f64_lit 50 100) (f64_lit 90 100) (divergence_confidence row).
Proof.
  unfold is_confident. intros Hc Hn. reflect_bools. split; [by apply f64_ltb_ge|].
  by apply (clamp_confidence _ f64_zero (f64_lit 90 100)).
Qed.

(** C31. A cross-market signal is for one market of a pair that the table holds
    as correlated enough over enough samples, the one that moved less; it bets
    that this market follows the other, up or down by the sign of the
    correlation; its confidence is between 0.50 and 0.90. *)
Theorem divergence_follows_lead cfg en correlations hourly s :
  s ∈ fst (generate_signals cfg (en, (correlations, hourly))) ->
  exists mc row change change', mc ∈ correlations /\
    (168 <= mc_sample_size mc)%Z /\ float8_leb (min_correlation cfg) (f64_abs (mc_correlation mc)) = true /\
    (lead_market row = mc_condition_id_a mc /\ lag_market row = mc_condition_id_b mc \/
     lead_market row = mc_condition_id_b mc /\ lag_market row = mc_condition_id_a mc) /\
    fst <$> price_change_of (sc_db_now en) hourly (lead_market row) = Some change /\
    fst <$> price_change_of (sc_db_now en) hourly (lag_market row) = Some change' /\
    (dec_abs change' <=? dec_abs change)%dec = true /\
    qs_kind s = CrossMarket /\ qs_condition_id s = lag_market row /\
    (qs_direction s = BuyYes <->
       if f64_ltb f64_zero (mc_correlation mc)
       then f64_ltb f64_zero (pg_to_float8 change) = true
       else f64_ltb (pg_to_float8 change) f64_zero = true) /\
    between (f64_lit 50 100) (f64_lit 90 100) (qs_confidence s).
Proof.
  unfold generate_signals. intros (rows & Hf & (i & row & Hin & ->)%elem_of_imap)%fst_scanned.
  apply list_elem_of_In, List.filter_In in Hin as [Hin Hc]. apply list_elem_of_In in Hin.
  apply fetch_all_ok in Hf. apply list_elem_of_lookup_1 in Hin as [j Hj].
  destruct (Forall2_lookup_r _ _ _ _ _ Hf Hj) as (v & Hv & [= ->]).
  apply list_elem_of_lookup_2, list_elem_of_omap in Hv as (mc & Hmc & E).
  apply divergence_row in E as (Er & Hsize & Hcorr & Hpair & a & b & Ha & Hb & Hab & Hl).
  exists mc, row, a, b. split_and!; try done.
  - simpl. rewrite <- Er, <- Hl. apply convergence_up.
  - by apply confident_between.
Qed.
End Pairs.
End Facts.

(** ** The theorems at concrete inputs *)

Module GeneratorSample.
#[local] Existing Instance Concrete.decimal.
#[local] Existing Instance Concrete.decimal_spec.
#[local] Existing Instance Concrete.chrono.
#[local] Existing Instance Concrete.uuid.
#[local] Existing Instance ConcreteJson.json.
#[local] Existing Instance Example_execution.display.
Import Concrete ArbSample QuantSample.

(** Exact quotients for the NUMERIC of Postgres, and [sqlx] as it decodes. *)
Definition float_sum (l : list f64) : f64 := foldl f64_add f64_zero l.
#[local] Instance pg : PgOps := {|
  pg_add a b := (a + b)%dec; pg_sub a b := (a - b)%dec; pg_div a b := default ZERO (dec_div a b);
  pg_to_float8 a := default f64_zero (dec_to_f64 a); pg_sum := float_sum;
  pg_avg l := f64_div (float_sum l) (f64_of_Z (Z.of_nat (length l))); pg_median := head |}.
#[local] Instance sqlx : SqlxOps := {|
  decode_f64 v := match v with SqlFloat8 x => Some x | _ => None end |}.
#[local] Instance sqlx_spec : SqlxSpec.
Proof. by split. Qed.

Definition no_env (_ : string) : option string := None.
Definition scan_env : ScanEnv := {|
  sc_now := at_minute 600; sc_db_now := at_minute 600; sc_query := true;
  sc_id := fun i => Pos.of_succ_nat i; sc_created := fun _ => at_minute 600 |}.
Definition hour (m : string) (at_ : Z) (cents : Z) : HourlyRow := {|
  hr_market_id := m; hr_bucket := at_minute at_; hr_close := d cents 2; hr_avg_volume := d 1000 0 |}.

(** A rise of a quarter within the hour. *)
Definition rise : list HourlyRow := [hour "m" 540 40; hour "m" 600 50].
Definition mean_reversion_config := mean_reversion_config_from_env no_env.

Lemma numeric_prices_silence_witness :
  length (mean_reversion_query (at_minute 600) (min_move_pct mean_reversion_config) rise) = 1%nat /\
  snd (scan_mean_reversion mean_reversion_config (scan_env, rise)) = Err ColumnDecode /\
  spawn_mean_reversion_signal_generator mean_reversion_config [(scan_env, rise)] = [].
Proof.
  destruct numeric_prices_silence as (H1 & _ & _ & H4). split; [vm_compute; reflexivity|].
  split; [|apply H1]. rewrite (H4 mean_reversion_config scan_env rise eq_refl). vm_compute. reflexivity.
Defined.

(** If the columns did decode, the rise would be a bet on NO at 0.80. *)
Example rise_would_be_sold :
  let s := mean_reversion_signal mean_reversion_config scan_env 0 {|
    mw_condition_id := "m"; mw_current_price := f64_lit 50 100; mw_previous_price := f64_lit 40 100;
    mw_price_change := f64_lit 25 100; mw_current_volume := f64_of_Z 1000;
    mw_median_volume := f64_of_Z 1000 |} in
  (qs_direction s, qs_confidence s, meets_confidence (min_confidence quant_config) s) =
  (BuyNo, f64_lit 80 100, true).
Proof. vm_compute. reflexivity. Qed.

(** A market with a strong flow. *)
Definition feature (m : string) (smart : Z) : FeatureRow := {|
  ff_condition_id := m; ff_window_end := at_minute 598; ff_window_minutes := 60;
  ff_buy_volume := Some (d 9000 0); ff_sell_volume := Some (d 1000 0); ff_net_flow := Some (d 8000 0);
  ff_imbalance_ratio := Some (d 80 2); ff_unique_buyers := Some 20%Z; ff_unique_sellers := Some 10%Z;
  ff_smart_money_flow := Some (d smart 0); ff_trade_count := Some 40%Z |}.
Definition trade (m wallet : string) : WalletTradeRow :=
  {| wt_condition_id := Some m; wt_wallet_address := wallet; wt_timestamp := at_minute 590 |}.
Definition metadata (m : string) : MetadataRow := {|
  mm_condition_id := m; mm_question := "?"; mm_end_date := None; mm_volume := Some (d 50000 0);
  mm_liquidity := Some (d 25000 0); mm_active := true |}.
Definition flow_tables : FlowTables := {|
  ft_features := [feature "m" 7000; feature "k" 7900]; ft_trades := [trade "m" "w"; trade "k" "w"];
  ft_scored_wallets := ["w"]; ft_metadata := [metadata "m"; metadata "k"]; ft_hourly := [] |}.
Definition flow_scan (w : QuantSignalExecutor) : FlowScan := {|
  fs_env := scan_env; fs_calibration_query := true; fs_tables := flow_tables;
  fs_positions := table (qe_shared w); fs_signals := qe_signals w |}.

Definition flow_config : FlowSignalConfig := flow_config_from_env no_env.
(** Neither a price nor calibration. *)
Definition lax_config : FlowSignalConfig := flow_config_from_env (fun key =>
  if bool_decide (key = "FLOW_REQUIRE_YES_PRICE") || bool_decide (key = "FLOW_REQUIRE_CALIBRATION")
  then Some "false" else if bool_decide (key = "FLOW_MAX_SIGNALS_PER_CYCLE") then Some "1" else None).

Definition at_start : Pipeline := {| pl_executor := quant_executor; pl_flow := [] |}.
Lemma flow_never_starts_witness :
  exists p, flow_step no_reason no_text flow_config at_start p /\ pl_flow p = [].
Proof.
  assert (H : flow_step no_reason no_text flow_config at_start
                (sends (fst (scan_flow flow_config (flow_scan quant_executor))) at_start))
    by by apply flow_scans.
  eexists. split; [exact H|].
  refine (proj1 (flow_never_starts no_reason no_text flow_config at_start _ _ _ _ (rtc_once _ _ H))).
  - reflexivity.
  - reflexivity.
  - vm_compute. reflexivity.
Defined.

(** Without both requirements the market with more smart money is signalled. *)
Example lax_flow_signals :
  (fun s => (qs_condition_id s, qs_direction s)) <$> fst (scan_flow lax_config (flow_scan quant_executor))
  = [("k", BuyYes)].
Proof. vm_compute. reflexivity. Qed.

Definition flow_rows_read : list FlowFeatureRow :=
  omap decode_flow (flow_query 60 (at_minute 600) (at_minute 540) (d 25 2) (d 500 0) 5 flow_tables).
Lemma flow_selection_witness :
  length (omap (score_row lax_config) flow_rows_read) = 2%nat /\
  length (flow_candidates lax_config flow_rows_read) = 1%nat /\
  exists rest, omap (score_row lax_config) flow_rows_read ≡ₚ flow_candidates lax_config flow_rows_read ++ rest.
Proof.
  split; [vm_compute; reflexivity|]. split; [vm_compute; reflexivity|].
  destruct (flow_selection lax_config flow_rows_read) as (rest & H & _); [|by exists rest].
  apply (bool_decide_unpack _). vm_compute. exact I.
Defined.

Lemma flow_signals_carry_edge_witness :
  exists s, s ∈ fst (scan_flow lax_config (flow_scan quant_executor)) /\ qs_kind s = Flow.
Proof.
  destruct (fst (scan_flow lax_config (flow_scan quant_executor))) as [|s l] eqn:E.
  { apply (f_equal length) in E. vm_compute in E. discriminate E. }
  exists s. split; [apply list_elem_of_here|].
  destruct (flow_signals_carry_edge lax_config (flow_scan quant_executor) s) as (sr & st & edge & _ & Hk & _);
    [rewrite E; apply list_elem_of_here|exact Hk].
Defined.

(** A pair whose first market rose by a tenth while the other stood still. *)
Definition pair_hours : list HourlyRow :=
  [hour "a" 420 50; hour "a" 600 55; hour "b" 420 40; hour "b" 600 40].
Definition pair_row : CorrelationRow := {|
  mc_condition_id_a := "a"; mc_condition_id_b := "b"; mc_correlation := f64_lit (-90) 100;
  mc_sample_size := 200 |}.
Definition cross_config : CrossMarketSignalConfig := cross_market_config_from_env no_env.
Definition cross_input := (scan_env, ([pair_row], pair_hours)).
Example pair_signals :
  (fun s => (qs_condition_id s, qs_direction s)) <$> fst (generate_signals cross_config cross_input)
  = [("b", BuyNo)].
Proof. vm_compute. reflexivity. Qed.
Lemma divergence_follows_lead_witness :
  exists s, s ∈ fst (generate_signals cross_config cross_input) /\
    between (f64_lit 50 100) (f64_lit 90 100) (qs_confidence s).
Proof.
  destruct (fst (generate_signals cross_config cross_input)) as [|s l] eqn:E.
  { apply (f_equal length) in E. vm_compute in E. discriminate E. }
  exists s. split; [apply list_elem_of_here|].
  destruct (divergence_follows_lead cross_config scan_env [pair_row] pair_hours s)
    as (mc & row & a & b & _ & _ & _ & _ & _ & _ & _ & _ & _ & _ & H);
    [unfold cross_input in E; rewrite E; apply list_elem_of_here|exact H].
Defined.
End GeneratorSample.
