(* ===== verification/System.v ===== *)
(** * The three trading tasks

    The arbitrage executor, the exit handler and the quantitative executor
    over one [Trading.Shared], in any order of their turns: the start, one
    turn and a run of the whole, and the slots of the quantitative positions
    over every run.  The exit handler reads the signals the quantitative
    executor stores. *)

From S2P Require Import Prelude F64 Platform Handler Market CircuitBreaker CircuitBreakerFacts.
From S2P Require Import Position PositionFacts PositionRepo PositionRepoFacts PositionService.
From S2P Require Import PositionServiceFacts Rollouts TokenCache Executor ExecutorFacts Signal Trading.
From S2P Require Import StrategyRisk StrategyRiskFacts ArbExecutor ArbExecutorFacts ArbEntryFacts.
From S2P Require Import ExitHandler ExitHandlerFacts TradingFacts QuantExecutor QuantExecutorFacts.

Section System.
Context `{DO : DecimalOps} `{CO : ChronoOps} `{UO : UuidOps} `{JO : !JsonOps} `{SH : !DisplayOps}.
Variable debug_reason : FailureReason -> string.
Variable show_service_error : ServiceError -> string.
Variable caused_by_404 : string -> bool.
Variable show_exit_error : ExitError -> string.
Variable show_u32 : Z -> string.

(** The shared state is that of [sys_arb]; [sys_quant] has the rest of the
    quantitative executor. *)
Record System : Type := {
  sys_arb : ArbAutoExecutor;
  sys_quant : QuantSignalExecutor;
}.
Definition sys_shared (s : System) : Shared := ae_shared (sys_arb s).

(** What the exit handler reads of [quant_signals]. *)
Definition signals_view (t : list QuantRow) : gmap Uuid QuantSignalRow :=
  list_to_map ((fun r => (qg_id r, {| qr_kind := qg_kind r; qr_direction := qg_direction r;
                                      qr_metadata := qg_metadata r |})) <$> t).

Definition quant_with (sh : Shared) (q : QuantSignalExecutor) : QuantSignalExecutor :=
  {| q with qe_shared := sh |}.
Definition arb_with (sh : Shared) (a : ArbAutoExecutor) : ArbAutoExecutor :=
  {| a with ae_shared := sh |}.

Inductive system_input : Type :=
| SysTask (i : task_input)
| SysQuant (i : quant_input).

Definition system_turn (i : system_input) (s : System) : option System :=
  match i with
  | SysTask i =>
      a ← task_turn debug_reason show_service_error caused_by_404
            (signals_view (qe_signals (sys_quant s))) show_exit_error i (sys_arb s);
      Some {| sys_arb := a; sys_quant := sys_quant s |}
  | SysQuant i =>
      q ← quant_turn debug_reason show_u32 i (quant_with (sys_shared s) (sys_quant s));
      Some {| sys_arb := arb_with (qe_shared q) (sys_arb s); sys_quant := q |}
  end.
Definition system_loop (inputs : list system_input) (s : System) : option System :=
  foldl (fun o i => s ← o; system_turn i s) (Some s) inputs.
End System.

Section Facts.
Context `{DO : DecimalOps} `{CO : ChronoOps} `{UO : UuidOps} `{JO : !JsonOps} `{SH : !DisplayOps}.
Context {DS : DecimalSpec} {EX : DecimalExact}.
Variable debug_reason : FailureReason -> string.
Variable show_service_error : ServiceError -> string.
Variable caused_by_404 : string -> bool.
Variable show_exit_error : ExitError -> string.
Variable show_u32 : Z -> string.
Implicit Types (s : System) (t : Table) (P : PositionRow -> bool).

Abbreviation turn := (system_turn debug_reason show_service_error caused_by_404 show_exit_error show_u32).
Abbreviation loop := (system_loop debug_reason show_service_error caused_by_404 show_exit_error show_u32).

(** ** Counting rows *)

Lemma filter_permutation {A} (f : A -> bool) l k :
  l ≡ₚ k -> List.filter f l ≡ₚ List.filter f k.
Proof.
  induction 1; simpl; [done| | |by etransitivity].
  - destruct (f x); [by constructor|done].
  - destruct (f x), (f y); by constructor || done.
Qed.

(** The rows that satisfy [P], by key. *)
Definition keys P t : gset Uuid := dom (filter (fun ir => P (snd ir) = true) t).

Lemma elem_of_keys P t i : i ∈ keys P t <-> exists r, t !! i = Some r /\ P r = true.
Proof.
  unfold keys. rewrite elem_of_dom. split.
  - intros [r Hr]. apply map_lookup_filter_Some in Hr. by exists r.
  - intros (r & Hr & HP). exists r. by apply map_lookup_filter_Some.
Qed.

Lemma count_rows_keys P t : count_rows P t = Z.of_nat (size (keys P t)).
Proof.
  unfold keys. rewrite size_dom. unfold count_rows. f_equal.
  induction t as [|i r t Hi IH] using map_ind; [done|].
  unfold select_rows in *.
  rewrite (Permutation_length (filter_permutation P ((map_to_list (<[i:=r]> t)).*2) (r :: (map_to_list t).*2)
    ltac:(by rewrite map_to_list_insert))). simpl.
  destruct (P r) eqn:E; simpl.
  - rewrite map_filter_insert_True by done. rewrite map_size_insert_None, IH; [done|].
    apply map_lookup_filter_None. by left.
  - rewrite map_filter_insert_not'; [done|by simpl; rewrite E|by intros y; rewrite Hi].
Qed.

(** No row of [t'] satisfies [P] that did not in [t], in the same market. *)
Definition shrinks P t t' : Prop := forall j r', t' !! j = Some r' -> P r' = true ->
  exists r, t !! j = Some r /\ P r = true /\ r_market_id r' = r_market_id r.

(** The positions of [P]: one per market and at most [M]. *)
Record slots P (M : Z) t : Prop := {
  sl_unique : unique_by P t;
  sl_count : (count_rows P t <= M)%Z;
}.

Lemma slots_shrink P M t t' : shrinks P t t' -> slots P M t -> slots P M t'.
Proof.
  intros Hs [Hu Hc]. split.
  - intros i j r r' Hi Hj Hr Hr' Hm.
    destruct (Hs i r Hi Hr) as (r0 & E0 & P0 & M0). destruct (Hs j r' Hj Hr') as (r1 & E1 & P1 & M1).
    eapply Hu; [exact E0|exact E1|done..|congruence].
  - etransitivity; [|exact Hc]. rewrite !count_rows_keys. apply Nat2Z.inj_le, subseteq_size.
    intros i (r & Hi & Hr)%elem_of_keys. destruct (Hs i r Hi Hr) as (r0 & ? & ? & _).
    apply elem_of_keys. by exists r0.
Qed.

Lemma slots_insert P M t id row :
  slots P M t -> (count_rows P t < M)%Z ->
  (forall j r, t !! j = Some r -> P r = true -> r_market_id r <> r_market_id row) ->
  slots P M (<[id := row]> t).
Proof.
  intros [Hu Hc] Hlt Hm. split.
  - intros i j r r' Hi Hj Hr Hr' He.
    destruct (decide (i = id)) as [->|Hi'], (decide (j = id)) as [->|Hj'];
      rewrite ?lookup_insert_eq, ?lookup_insert_ne in Hi by done;
      rewrite ?lookup_insert_eq, ?lookup_insert_ne in Hj by done; [done| | |by eapply Hu].
    + injection Hi as <-. by apply Hm in Hj.
    + injection Hj as <-. by apply Hm in Hi.
  - rewrite count_rows_keys in *.
    assert (Hk : keys P (<[id := row]> t) ⊆ {[ id ]} ∪ keys P t).
    { intros i (r & Hi & Hr)%elem_of_keys. destruct (decide (i = id)) as [->|Hne];
        [by apply elem_of_union_l, elem_of_singleton|].
      rewrite lookup_insert_ne in Hi by done. apply elem_of_union_r, elem_of_keys. by exists r. }
    apply subseteq_size in Hk. pose proof (size_union_alt ({[ id ]} : gset Uuid) (keys P t)) as Hs.
    rewrite size_singleton in Hs.
    pose proof (subseteq_size (keys P t ∖ {[ id ]}) (keys P t) ltac:(set_solver)). lia.
Qed.

Lemma shrinks_refl P t : shrinks P t t.
Proof. intros j r. by exists r. Qed.
Lemma shrinks_trans P t1 t2 t3 : shrinks P t1 t2 -> shrinks P t2 t3 -> shrinks P t1 t3.
Proof.
  intros H1 H2 j r3 H3 P3. destruct (H2 j r3 H3 P3) as (r2 & E2 & P2 & M2).
  destruct (H1 j r2 E2 P2) as (r1 & E1 & P1 & M1). exists r1. split_and!; [done|done|congruence].
Qed.

(** ** The quantitative executor *)

Lemma sync_row_keeps se cfg q row :
  qe_shared (sync_row show_u32 se cfg q row) = qe_shared q /\
  qe_config (sync_row show_u32 se cfg q row) = qe_config q.
Proof.
  unfold sync_row, record_strategy_outcome. case_bool_decide; [done|].
  destruct (parse_quant_signal_kind _); [|done]. destruct (dec_is_zero _); [done|].
  destruct (_ !! _); [|done]. by destruct (record_outcome _ _ _ _ _ _).
Qed.
Lemma sync_keeps se q :
  qe_shared (sync_strategy_outcomes show_u32 se q) = qe_shared q /\
  qe_config (sync_strategy_outcomes show_u32 se q) = qe_config q.
Proof.
  assert (H : forall cfg rows q, qe_shared (foldl (sync_row show_u32 se cfg) q rows) = qe_shared q /\
    qe_config (foldl (sync_row show_u32 se cfg) q rows) = qe_config q).
  { intros cfg rows. induction rows as [|row rows IH]; intros q'; simpl; [done|].
    destruct (IH (sync_row show_u32 se cfg q' row)) as [-> ->]. apply sync_row_keeps. }
  unfold sync_strategy_outcomes. destruct (sy_query se); [|by unfold roll_processed; case_match].
  match goal with |- context [foldl _ ?x ?rows] => destruct (H (qe_config x) rows x) as [-> ->] end.
  by unfold roll_processed; case_match.
Qed.

(** No active quant position is in the market. *)
Lemma exists_false market t :
  active_quant_executor_position_exists_for_market true market t = Ok false ->
  forall j r, t !! j = Some r -> row_quant r = true -> r_market_id r <> market.
Proof.
  intros [= E] j r Hj Hr Hm. apply Z.ltb_ge in E. rewrite count_rows_keys in E.
  assert (Hin : j ∈ keys (fun r => bool_decide (r_market_id r = market) && row_quant r) t).
  { apply elem_of_keys. exists r. by rewrite bool_decide_eq_true_2, Hr. }
  assert (keys (fun r => bool_decide (r_market_id r = market) && row_quant r) t = ∅) as Hz.
  { apply leibniz_equiv, size_empty_inv. lia. }
  rewrite Hz in Hin. by apply elem_of_empty in Hin.
Qed.

Definition quant_limit (M : Z) (i : quant_input) : Prop :=
  match i with QuantConfigured cfg => (max_quant_positions cfg <= M)%Z | _ => True end.

Lemma signal_slots M en sg q q' r :
  (max_quant_positions (qe_config q) <= M)%Z -> quant_result en sg q q' r ->
  slots row_quant M (table (qe_shared q)) -> slots row_quant M (table (qe_shared q')).
Proof.
  intros Hm H Hs. destruct (quant_row_added _ _ _ _ _ H) as [->|(row & _ & -> & _ & Hmk & Hc & Hp)]; [done|].
  destruct Hp as [(n & En & Hn) _]. unfold count_active_quant_executor_positions, query in En.
  destruct (io_db (qn_io en QCount)); [injection En as <-|done].
  apply slots_insert; [done|lia|]. rewrite Hmk.
  pose proof (ck_new _ _ _ Hc) as Hnew. destruct (io_db (qn_io en QDedup)); [by apply exists_false|done].
Qed.

Lemma quant_keyed en sg q q' r :
  quant_result en sg q q' r -> keyed (table (qe_shared q)) -> keyed (table (qe_shared q')).
Proof.
  intros H Hk. destruct (quant_row_added _ _ _ _ _ H) as [->|(row & _ & -> & Hi & _)]; [done|].
  intros j r' Hj. rewrite lookup_insert in Hj. case_decide; [by simplify_eq|by apply Hk].
Qed.

Lemma quant_config_kept en sg q q' r : quant_result en sg q q' r -> qe_config q' = qe_config q.
Proof.
  intros [(_ & U & _)|(token & ask & qty & q1 & _ & U & H)]; [apply U|]. rewrite <- (qu_config _ _ U).
  destruct H as [(_ & _ & U' & _)|(_ & _ & x1 & report & placed & _ & H)]; [apply U'|].
  by destruct (is_success report); destruct H.
Qed.

Lemma quant_turn_keeps M i q :
  sound (qe_shared q) -> exists q', quant_turn debug_reason show_u32 i q = Some q' /\
    sound (qe_shared q') /\
    (quant_limit M i -> (max_quant_positions (qe_config q) <= M)%Z ->
       (max_quant_positions (qe_config q') <= M)%Z /\
       (slots row_quant M (table (qe_shared q)) -> slots row_quant M (table (qe_shared q')))).
Proof.
  intros [Hok Hk]. destruct i as [en sg|n|markets upsert|se|i io| |cfg]; simpl.
  - destruct (wp_run _ (fun q' r => quant_result en sg q q' r) q
      (process_signal_spec debug_reason en sg q Hok)) as (q' & r & -> & H).
    exists q'. split; [done|]. split; [split; [by eapply quant_keeps_ok|by eapply quant_keyed]|].
    intros _ Hm. split; [by rewrite (quant_config_kept _ _ _ _ _ H)|by eapply signal_slots].
  - by exists q.
  - eexists. split; [done|]. split; [by destruct Hok|done].
  - exists (sync_strategy_outcomes show_u32 se q). destruct (sync_keeps se q) as [-> ->].
    split; [done|by split].
  - exists (run_spawned i io q). destruct (run_spawned_shared i io q) as [-> ->].
    split; [done|by split].
  - by exists q.
  - eexists. split; [done|]. by split.
Qed.

(** ** The other tasks *)

(** The columns of the quant executor's positions. *)
Definition quant_columns (r : PositionRow) : bool :=
  bool_decide (r_source r = Some SOURCE_RECOMMENDATION) &&
  bool_decide (is_Some (r_source_signal_id r)) && (r_exit_strategy r =? 1)%Z.

(** No failed entry of the quant executor is one-legged: it has one leg. *)
Definition single_legged t : Prop := forall i r,
  t !! i = Some r -> quant_columns r = true -> row_one_legged r = false.

Lemma row_quant_columns r : row_quant r = quant_columns r && (row_slot r || row_recovery r).
Proof. done. Qed.
Lemma same_entry_columns r r' : same_entry r r' -> quant_columns r' = quant_columns r.
Proof.
  intros (_ & _ & E1 & _ & _ & _ & E2 & E3). unfold quant_columns. by rewrite E1, E2, E3.
Qed.

Lemma evolves_shrinks w w' :
  single_legged (table w) -> evolves w w' -> shrinks row_quant (table w) (table w').
Proof.
  intros Hl He j r' Hj Hr'. destruct (He j r' Hj) as (r & Er & Hs & Hh). exists r. split; [done|].
  rewrite row_quant_columns in *. apply andb_prop in Hr' as [Hc Ho].
  rewrite (same_entry_columns _ _ Hs) in Hc. split; [|by destruct Hs as (_ & -> & _)].
  rewrite Hc. simpl. unfold holds in Hh. rewrite Ho in Hh. specialize (Hh eq_refl).
  rewrite (Hl j r Er Hc), orb_false_r in Hh. done.
Qed.

Lemma arb_signal_shrinks en arb (w w' : ArbAutoExecutor) r :
  signal_result en arb w w' r -> shrinks row_quant (table (ae_shared w)) (table (ae_shared w')).
Proof.
  intros [(_ & U & _)|(y & n & q & w1 & _ & U & He)];
    [rewrite (un_table _ _ U); apply shrinks_refl|]. rewrite <- (un_table _ _ U).
  apply entry_row in He as [->|(row & -> & _ & Hs)]; [apply shrinks_refl|].
  intros j r' Hj Hr'. destruct (decide (j = en_position_id en)) as [->|Hne].
  - rewrite lookup_insert_eq in Hj. injection Hj as <-. rewrite row_quant_columns in Hr'.
    unfold quant_columns in Hr'. rewrite Hs in Hr'. discriminate Hr'.
  - rewrite lookup_insert_ne in Hj by done. by exists r'.
Qed.

Lemma task_turn_shrinks signals i (w w' : ArbAutoExecutor) :
  sound (ae_shared w) -> single_legged (table (ae_shared w)) ->
  task_turn debug_reason show_service_error caused_by_404 signals show_exit_error i w = Some w' ->
  shrinks row_quant (table (ae_shared w)) (table (ae_shared w')).
Proof.
  intros Hs Hl. destruct i as [[en arb|now n|now markets upsert| |cfg]|cfg te|cfg te]; simpl; unfold on_tick.
  - destruct (wp_run _ (fun w' r => signal_result en arb w w' r) w
      (process_spec debug_reason en arb w (so_ok _ Hs))) as (w1 & r & -> & H).
    simpl. intros [= <-]. by eapply arb_signal_shrinks.
  - intros [= <-]. apply shrinks_refl.
  - unfold refresh_cache. destruct (refresh _ _ _) as [c r]. intros [= <-]. apply shrinks_refl.
  - intros [= <-]. apply shrinks_refl.
  - intros [= <-]. apply shrinks_refl.
  - destruct (exit_tick_keeps debug_reason show_service_error caused_by_404 signals show_exit_error
      te cfg _ Hs) as (sh & -> & K). simpl. intros [= <-]. by apply evolves_shrinks, K.
  - destruct (resolution_tick_keeps te cfg _ Hs) as (sh & -> & K). simpl. intros [= <-].
    by apply evolves_shrinks, K.
Qed.

(** ** The system *)

Definition system_limit (M : Z) (i : system_input) : Prop :=
  match i with SysQuant i => quant_limit M i | SysTask _ => True end.

(** Before each turn, the failed entries of the quant executor are
    single-legged. *)
Fixpoint sys_quiet (inputs : list system_input) s : Prop :=
  match inputs with
  | [] => True
  | i :: inputs => single_legged (table (sys_shared s)) /\
      match turn i s with Some s' => sys_quiet inputs s' | None => True end
  end.

Record bounded (M : Z) s : Prop := {
  bo_limit : (max_quant_positions (qe_config (sys_quant s)) <= M)%Z;
  bo_slots : slots row_quant M (table (sys_shared s));
}.

Lemma system_turn_keeps M i s :
  sound (sys_shared s) -> exists s', turn i s = Some s' /\ sound (sys_shared s') /\
    (system_limit M i -> single_legged (table (sys_shared s)) -> bounded M s -> bounded M s').
Proof.
  intros Hs. destruct i as [i|i]; simpl.
  - destruct (task_turn_keeps debug_reason show_service_error caused_by_404
      (signals_view (qe_signals (sys_quant s))) show_exit_error i (sys_arb s) Hs) as (a & Ea & Sa & _).
    rewrite Ea. eexists. split; [done|]. split; [exact Sa|]. intros _ Hl [Hm Hb].
    split; [exact Hm|]. eapply slots_shrink; [|exact Hb]. by eapply task_turn_shrinks.
  - destruct (quant_turn_keeps M i (quant_with (sys_shared s) (sys_quant s)) Hs) as (q & Eq & Sq & Hq).
    rewrite Eq. eexists. split; [done|]. split; [exact Sq|]. intros Hi _ [Hm Hb].
    destruct (Hq Hi Hm) as [Hm' Hs']. split; [exact Hm'|by apply Hs'].
Qed.

Lemma system_loop_keeps M inputs s :
  sound (sys_shared s) -> exists s', loop inputs s = Some s' /\ sound (sys_shared s') /\
    (Forall (system_limit M) inputs -> sys_quiet inputs s -> bounded M s -> bounded M s').
Proof.
  unfold system_loop. revert s. induction inputs as [|i l IH]; intros s Hs; [by exists s|].
  destruct (system_turn_keeps M i s Hs) as (s1 & E & S1 & B1).
  destruct (IH s1 S1) as (s' & E' & S' & B'). exists s'. simpl. rewrite E. split; [done|].
  split; [done|]. intros [Hi Hl]%Forall_cons_1 Hq Hb. 
  destruct Hq as [Hq1 Hq2]. auto.
Qed.

End Facts.

(** ** The theorem at a concrete input *)

Module SystemSample.
#[local] Existing Instance Concrete.decimal.
#[local] Existing Instance Concrete.decimal_spec.
#[local] Existing Instance Concrete.decimal_exact.
#[local] Existing Instance Concrete.chrono.
#[local] Existing Instance Concrete.uuid.
#[local] Existing Instance ConcreteJson.json.
#[local] Existing Instance Example_execution.display.
Import ArbSample ExitSample TradingSample QuantSample.

Definition system : System := {| sys_arb := executor; sys_quant := quant_executor |}.
Definition system_step := system_turn no_reason no_service_error no_404 no_exit_error no_text.

(** [sys_quiet], computed. *)
Definition single_legged_table (t : Table) : bool :=
  forallb (fun ir => negb (quant_columns (snd ir) && row_one_legged (snd ir))) (map_to_list t).
Fixpoint sys_quietb (inputs : list system_input) (s : System) : bool :=
  match inputs with
  | [] => true
  | i :: inputs => single_legged_table (table (sys_shared s)) &&
      match system_step i s with Some s' => sys_quietb inputs s' | None => true end
  end.
Lemma single_legged_table_ok t : single_legged_table t = true -> single_legged t.
Proof.
  intros H i r Hr Hc. unfold single_legged_table in H. rewrite forallb_forall in H.
  specialize (H (i, r)). simpl in H. rewrite Hc in H. apply negb_true_iff, H, list_elem_of_In.
  by apply elem_of_map_to_list.
Qed.
Lemma sys_quietb_ok inputs s :
  sys_quietb inputs s = true -> sys_quiet no_reason no_service_error no_404 no_exit_error no_text inputs s.
Proof.
  revert s. induction inputs as [|i l IH]; intros s H; [done|]. cbn [sys_quietb sys_quiet] in *.
  apply andb_prop in H as [H1 H2]. split; [by apply single_legged_table_ok|]. unfold system_step in H2.
  destruct (system_turn _ _ _ _ _ i s); [by apply IH|done].
Qed.

(** A quantitative signal and an arbitrage in the same market, then a tick of
    the exit handler. *)
Definition sample_run : list system_input :=
  [SysQuant (QuantSignalIn {| quant_env with qn_position_id := 11%positive |} signal);
   SysTask (ArbTurn (ArbSignal env opportunity)); SysTask (ExitTick exit_config tick_env);
   SysQuant (QuantSignalIn {| quant_env with qn_position_id := 12%positive |}
               {| signal with qs_id := 13%positive |})].


(** The arbitrage does not see the quantitative position of its market. *)
Example two_in_one_market :
  (s ← system_loop no_reason no_service_error no_404 no_exit_error no_text (take 2 sample_run) system;
   Some ((fun ir => (fst ir, r_source (snd ir), r_market_id (snd ir))) <$>
     List.filter (fun ir => row_active (snd ir)) (map_to_list (table (sys_shared s)))))
  = Some [(11%positive, Some 3%Z, "m"); (7%positive, Some 1%Z, "m")].
Proof. vm_compute. reflexivity. Qed.
End SystemSample.
