(* ===== verification/DynamicConfig.v ===== *)
(** * The runtime configuration of the executors

    Models the table [dynamic_config] with its history
    (migrations/029_dynamic_tuning.sql), the bounds of its keys, and the
    subscriber that applies published updates to the arbitrage and the
    quantitative executor, of [crates/api-server/src/dynamic_tuner.rs].  A
    column DECIMAL(p, s) stores what the class [NumericOps] says the database
    makes of a number; the CHECK constraints of the table are [row_allowed].
    The JSON of a metrics snapshot is the class [MetricsJson]. *)

From stdpp Require Import sorting.
From S2P Require Import Prelude F64 FloatParse Platform Handler Market CircuitBreaker Position.
From S2P Require Import PositionRepo Executor Signal Trading StrategyRisk ArbExecutor QuantExecutor.

Local Open Scope handler_scope.

(** ** Keys *)

Definition KEY_ARB_MIN_PROFIT_THRESHOLD : string := "ARB_MIN_PROFIT_THRESHOLD".
Definition KEY_ARB_MONITOR_MAX_MARKETS : string := "ARB_MONITOR_MAX_MARKETS".
Definition KEY_ARB_MONITOR_EXPLORATION_SLOTS : string := "ARB_MONITOR_EXPLORATION_SLOTS".
Definition KEY_ARB_MONITOR_AGGRESSIVENESS_LEVEL : string := "ARB_MONITOR_AGGRESSIVENESS_LEVEL".
Definition KEY_ARB_POSITION_SIZE : string := "ARB_POSITION_SIZE".
Definition KEY_ARB_MIN_NET_PROFIT : string := "ARB_MIN_NET_PROFIT".
Definition KEY_ARB_MIN_BOOK_DEPTH : string := "ARB_MIN_BOOK_DEPTH".
Definition KEY_ARB_MAX_SIGNAL_AGE_SECS : string := "ARB_MAX_SIGNAL_AGE_SECS".
Definition KEY_QUANT_BASE_POSITION_SIZE : string := "QUANT_BASE_POSITION_SIZE".

(** ** Metrics *)

Record ArbRuntimeStats : Type := {
  st_updates_per_minute : f64;
  stalls_last_minute : f64;
  resets_last_minute : f64;
  monitored_markets : f64;
}.
Definition default_runtime_stats : ArbRuntimeStats := {|
  st_updates_per_minute := f64_zero; stalls_last_minute := f64_zero;
  resets_last_minute := f64_zero; monitored_markets := f64_zero |}.

Record TuningMetrics : Type := {
  slippage_skip_rate : f64;
  below_min_skip_rate : f64;
  successful_fill_rate : f64;
  attempts_last_window : f64;
  fills_last_window : f64;
  top_skip_reason : option string;
  realized_slippage_p90 : f64;
  depth_proxy : f64;
  volatility_proxy : f64;
  ws_stall_rate : f64;
  ws_reset_rate : f64;
  updates_per_minute : f64;
  recent_pnl : f64;
  recent_drawdown : f64;
  cb_tripped : bool;
  tm_current_regime : string;
  quant_pnl_7d : f64;
}.
Definition default_metrics : TuningMetrics := {|
  slippage_skip_rate := f64_zero; below_min_skip_rate := f64_zero;
  successful_fill_rate := f64_zero; attempts_last_window := f64_zero;
  fills_last_window := f64_zero; top_skip_reason := None; realized_slippage_p90 := f64_zero;
  depth_proxy := f64_zero; volatility_proxy := f64_zero; ws_stall_rate := f64_zero;
  ws_reset_rate := f64_zero; updates_per_minute := f64_zero; recent_pnl := f64_zero;
  recent_drawdown := f64_zero; cb_tripped := false; tm_current_regime := ""; quant_pnl_7d := f64_zero |}.

(** [serde_json::to_value(metrics)] and [serde_json::from_value(v).ok()]. *)
Class MetricsJson : Type := {
  json : Type;
  metrics_to_json : TuningMetrics -> json;
  metrics_of_json : json -> option TuningMetrics;
}.

(** What a column DECIMAL(p, s) stores of a number, [None] if it overflows. *)
Class NumericOps `{DO : DecimalOps} : Type := {
  numeric : Z -> Z -> dec -> option dec;
}.
(** The database rounds to [s] digits: what is stored is stored again as it is. *)
Class NumericSpec `{NO : NumericOps} : Prop := {
  numeric_idem : forall p s d d', numeric p s d = Some d' -> numeric p s d' = Some d';
}.

Section DynamicConfig.
Context `{DO : DecimalOps} `{CO : ChronoOps} `{MJ : MetricsJson} `{NO : !NumericOps}.

(** ** The tables *)

Record DynamicConfigRow : Type := {
  dc_key : string;
  dc_current_value : dec;
  dc_default_value : dec;
  dc_min_value : dec;
  dc_max_value : dec;
  dc_max_step_pct : dec;
  dc_enabled : bool;
  dc_last_good_value : dec;
  dc_pending_eval : bool;
  dc_pending_baseline : option json;
  dc_last_applied_at : option datetime;
  dc_last_reason : option string;
  dc_updated_by : string;
}.

Record HistoryRow : Type := {
  hr_config_key : option string;
  hr_old_value : option dec;
  hr_new_value : option dec;
  hr_action : string;
  hr_reason : string;
  hr_metrics_snapshot : option json;
  hr_outcome_metrics : option json;
}.

(** The row of [dynamic_tuner_state]. *)
Record TunerStateRow : Type := {
  ts_last_run_at : datetime;
  ts_last_run_status : string;
  ts_last_run_reason : string;
  ts_last_metrics : option json;
}.

(** DECIMAL(20, 10), and DECIMAL(10, 6) of the step. *)
Definition value_column : dec -> option dec := numeric 20 10.
Definition step_column : dec -> option dec := numeric 10 6.
Definition nullable_column (v : option dec) : option (option dec) :=
  match v with None => Some None | Some v => v ← value_column v; Some (Some v) end.

(** The CHECK constraints. *)
Definition within (v lo hi : dec) : bool := (lo <=? v)%dec && (v <=? hi)%dec.
Definition row_allowed (r : DynamicConfigRow) : bool :=
  (dc_min_value r <=? dc_max_value r)%dec
  && within (dc_current_value r) (dc_min_value r) (dc_max_value r)
  && within (dc_last_good_value r) (dc_min_value r) (dc_max_value r).

Abbreviation ConfigTable := (gmap string DynamicConfigRow).

(** A statement on the row of a key; [None] if the database rejects it. *)
Definition store_row (key : string) (r : option DynamicConfigRow) (t : ConfigTable)
    : option ConfigTable :=
  r ← r; if row_allowed r then Some (<[key := r]> t) else None.
Definition update_config (key : string) (f : DynamicConfigRow -> option DynamicConfigRow)
    (t : ConfigTable) : option ConfigTable :=
  match t !! key with None => Some t | Some r => store_row key (f r) t end.
(** [INSERT .. ON CONFLICT (key) DO UPDATE]. *)
Definition upsert_config (key : string) (fresh : option DynamicConfigRow)
    (f : DynamicConfigRow -> option DynamicConfigRow) (t : ConfigTable) : option ConfigTable :=
  match t !! key with None => store_row key fresh t | Some r => store_row key (f r) t end.

(** [ORDER BY key]. *)
Definition by_key (a b : DynamicConfigRow) : Prop := String.leb (dc_key a) (dc_key b) = true.
#[local] Instance by_key_dec : RelDecision by_key.
Proof. intros a b. unfold by_key. apply _. Defined.
Definition rows_by_key (t : ConfigTable) : list DynamicConfigRow :=
  merge_sort by_key (map_to_list t).*2.

(** ** Messages *)

(** The [metrics] of a message are read by nobody. *)
Record DynamicConfigUpdate : Type := {
  du_key : string;
  du_value : dec;
  du_reason : string;
  du_source : string;
  du_timestamp : datetime;
}.

(** ** Bounds *)

Definition fallback_bounds_for_key (key : string) : option (dec * dec) :=
  if bool_decide (key = KEY_ARB_MIN_PROFIT_THRESHOLD) then Some (dec_new 2 3, dec_new 5 3)
  else if bool_decide (key = KEY_ARB_MONITOR_MAX_MARKETS) then Some (dec_new 25 0, dec_new 1500 0)
  else if bool_decide (key = KEY_ARB_MONITOR_EXPLORATION_SLOTS) then Some (dec_new 1 0, dec_new 500 0)
  else if bool_decide (key = KEY_ARB_MONITOR_AGGRESSIVENESS_LEVEL) then Some (ZERO, dec_new 2 0)
  else if bool_decide (key = KEY_ARB_POSITION_SIZE) then Some (dec_new 5 0, dec_new 25 0)
  else if bool_decide (key = KEY_ARB_MIN_NET_PROFIT) then Some (dec_new 5 4, dec_new 5 2)
  else if bool_decide (key = KEY_ARB_MIN_BOOK_DEPTH) then Some (dec_new 10 0, dec_new 200 0)
  else if bool_decide (key = KEY_ARB_MAX_SIGNAL_AGE_SECS) then Some (dec_new 5 0, dec_new 300 0)
  else if bool_decide (key = KEY_QUANT_BASE_POSITION_SIZE) then Some (dec_new 10 0, dec_new 200 0)
  else None.

Definition dynamic_keys : list string :=
  [KEY_ARB_MIN_PROFIT_THRESHOLD; KEY_ARB_MONITOR_MAX_MARKETS; KEY_ARB_MONITOR_EXPLORATION_SLOTS;
   KEY_ARB_MONITOR_AGGRESSIVENESS_LEVEL; KEY_ARB_POSITION_SIZE; KEY_ARB_MIN_NET_PROFIT;
   KEY_ARB_MIN_BOOK_DEPTH; KEY_ARB_MAX_SIGNAL_AGE_SECS; KEY_QUANT_BASE_POSITION_SIZE].

Abbreviation Bounds := (gmap string (dec * dec)).
Definition fallback_dynamic_bounds : Bounds :=
  list_to_map (omap (fun key => (fun b => (key, b)) <$> fallback_bounds_for_key key) dynamic_keys).

Definition enabled_rows (t : ConfigTable) : ConfigTable := filter (fun kr => dc_enabled (snd kr) = true) t.

(** [io]: the query succeeds. *)
Definition load_dynamic_bounds (io : bool) (t : ConfigTable) : Bounds :=
  if io then
    let bounds := (fun r => (dc_min_value r, dc_max_value r)) <$> enabled_rows t in
    if bool_decide (bounds = ∅) then fallback_dynamic_bounds else bounds
  else fallback_dynamic_bounds.

Definition bounds_for (key : string) (bounds : Bounds) : option (dec * dec) :=
  match bounds !! key with Some b => Some b | None => fallback_bounds_for_key key end.
Definition clamp_dynamic_value (key : string) (value : dec) (bounds : Bounds) : option dec :=
  '(lo, hi) ← bounds_for key bounds; Some (dec_min (dec_max value lo) hi).

(** ** The subscriber *)

Definition DEFAULT_SOURCES : string :=
  "dynamic_tuner,dynamic_tuner_rollback,dynamic_tuner_sync,workspace_manual".
Definition load_allowed_update_sources (env : string -> option string) : list string :=
  List.filter (fun s => negb (bool_decide (s = "")))
    (string_trim <$> string_split "," (default DEFAULT_SOURCES (env "DYNAMIC_CONFIG_ALLOWED_SOURCES"))).
Definition source_allowed (source : string) (allowed : list string) : bool :=
  if bool_decide (source = "") then false else existsb (fun e => bool_decide (e = source)) allowed.

(** The configurations the executors read; one may be absent. *)
Record RuntimeConfigs : Type := {
  rc_arb : option ArbExecutorConfig;
  rc_quant : option QuantSignalExecutorConfig;
}.

(** The knob of a key, turned to a value. *)
Definition turn_arb (key : string) (value : dec) (c : ArbExecutorConfig) : ArbExecutorConfig :=
  if bool_decide (key = KEY_ARB_POSITION_SIZE) then {| c with ac_position_size := value |}
  else if bool_decide (key = KEY_ARB_MIN_NET_PROFIT) then {| c with min_net_profit := value |}
  else if bool_decide (key = KEY_ARB_MIN_BOOK_DEPTH) then {| c with ac_min_book_depth := value |}
  else if bool_decide (key = KEY_ARB_MAX_SIGNAL_AGE_SECS) then
    match dec_to_i64 value with
    | Some secs => {| c with max_signal_age_secs := secs |}
    | None => c
    end
  else c.
Definition turn_quant (key : string) (value : dec) (c : QuantSignalExecutorConfig)
    : QuantSignalExecutorConfig :=
  if bool_decide (key = KEY_QUANT_BASE_POSITION_SIZE) then {| c with base_position_size_usd := value |}
  else c.

(** One message; [None] is a payload that cannot be read. *)
Definition apply_update (allowed : list string) (bounds : Bounds) (rc : RuntimeConfigs)
    (msg : option DynamicConfigUpdate) : RuntimeConfigs :=
  match msg with
  | None => rc
  | Some u =>
      if negb (source_allowed (du_source u) allowed) then rc
      else match clamp_dynamic_value (du_key u) (du_value u) bounds with
           | None => rc
           | Some v => {| rc_arb := turn_arb (du_key u) v <$> rc_arb rc;
                          rc_quant := turn_quant (du_key u) v <$> rc_quant rc |}
           end
  end.

(** The rows of the table as of the start; [io]: the query succeeds. *)
Definition snapshot_values (bounds : Bounds) (t : ConfigTable) : list (string * dec) :=
  omap (fun r => v ← clamp_dynamic_value (dc_key r) (dc_current_value r) bounds; Some (dc_key r, v))
    (map_to_list (enabled_rows t)).*2.
Definition apply_startup_snapshot_to_arb_executor (io : bool) (bounds : Bounds) (t : ConfigTable)
    (c : ArbExecutorConfig) : ArbExecutorConfig :=
  if io then foldl (fun c kv => turn_arb (fst kv) (snd kv) c) c (snapshot_values bounds t) else c.
Definition apply_startup_snapshot_to_quant_executor (io : bool) (bounds : Bounds) (t : ConfigTable)
    (c : QuantSignalExecutorConfig) : QuantSignalExecutorConfig :=
  if io then foldl (fun c kv => turn_quant (fst kv) (snd kv) c) c (snapshot_values bounds t) else c.

(** A run of the subscriber: its start, reading the table, and the messages
    until the stream ends. *)
Record SubscriberEnv : Type := {
  se_env : string -> option string;
  se_bounds : bool;
  se_arb : bool;
  se_quant : bool;
  se_connected : bool;
}.
Definition run_dynamic_config_subscriber (en : SubscriberEnv) (t : ConfigTable)
    (msgs : list (option DynamicConfigUpdate)) (rc : RuntimeConfigs) : RuntimeConfigs :=
  let allowed := load_allowed_update_sources (se_env en) in
  let bounds := load_dynamic_bounds (se_bounds en) t in
  if negb (se_connected en) then rc
  else foldl (apply_update allowed bounds)
         {| rc_arb := apply_startup_snapshot_to_arb_executor (se_arb en) bounds t <$> rc_arb rc;
            rc_quant := apply_startup_snapshot_to_quant_executor (se_quant en) bounds t <$> rc_quant rc |}
         msgs.
(** It is started again when it ends. *)
Definition dynamic_config_subscriber
    (runs : list (SubscriberEnv * ConfigTable * list (option DynamicConfigUpdate)))
    (rc : RuntimeConfigs) : RuntimeConfigs :=
  foldl (fun rc '(en, t, msgs) => run_dynamic_config_subscriber en t msgs rc) rc runs.
End DynamicConfig.
Abbreviation ConfigTable := (gmap string DynamicConfigRow).

(** ** Concrete instances *)

Module ConcreteConfig.
#[local] Existing Instance Concrete.decimal.

(** Rounded to [s] digits, half away from zero. *)
Definition q_round (q : Q) : Z :=
  let n := Qfloor (Qabs q + (1 # 2)) in if Qle_bool 0 q then n else (- n)%Z.
Definition q_numeric (p s : Z) (q : Q) : option Q :=
  let n := q_round (q * inject_Z (Z.pos (Z.to_pos (10 ^ s)))) in
  if (Z.abs n <? 10 ^ p)%Z then Some (Qred (n # Z.to_pos (10 ^ s))) else None.
Definition numeric_ops : @NumericOps Concrete.decimal := {| numeric := q_numeric |}.

Lemma q_round_Z q n : (q == inject_Z n)%Q -> q_round q = n.
Proof.
  intros E. unfold q_round.
  assert (Ea : (Qabs q == inject_Z (Z.abs n))%Q) by (rewrite E; destruct n; reflexivity).
  assert (Ef : Qfloor (Qabs q + (1 # 2)) = Z.abs n).
  { rewrite Ea. unfold Qfloor, Qplus, inject_Z. simpl. change (Z.pos (1 * 2)) with 2%Z.
    symmetry. apply Z.div_unique with 1%Z; lia. }
  rewrite Ef. destruct (Qle_bool 0 q) eqn:Eq.
  - apply Qle_bool_iff in Eq. rewrite E in Eq. change 0%Q with (inject_Z 0) in Eq.
    rewrite <- Zle_Qle in Eq. lia.
  - apply not_true_iff_false in Eq. rewrite Qle_bool_iff, E in Eq. change 0%Q with (inject_Z 0) in Eq.
    rewrite <- Zle_Qle in Eq. lia.
Qed.

Lemma numeric_spec : @NumericSpec Concrete.decimal numeric_ops.
Proof.
  split. intros p s q q' H. cbn [numeric numeric_ops] in *. unfold q_numeric in *.
  set (D := Z.to_pos (10 ^ s)) in *. destruct (_ <? _)%Z eqn:E in H; [|done]. injection H as <-.
  set (n := q_round (q * inject_Z (Z.pos D))) in *.
  assert (En : q_round (Qred (n # D) * inject_Z (Z.pos D)) = n).
  { apply q_round_Z. rewrite Qred_correct. unfold Qeq, Qmult, inject_Z. simpl. lia. }
  by rewrite En, E.
Qed.

(** Metrics are their own JSON. *)
Definition metrics_json : MetricsJson :=
  {| json := TuningMetrics; metrics_to_json := id; metrics_of_json := Some |}.
End ConcreteConfig.
