(* ===== verification/DynamicConfigFacts.v ===== *)
(** * Properties of the runtime configuration

    What the subscriber can make of the executors' configurations, whatever is
    published. *)

From S2P Require Import Prelude F64 Platform Market Executor ArbExecutor QuantExecutor DynamicConfig.

Section Facts.
Context `{DO : DecimalOps} `{CO : ChronoOps} `{MJ : MetricsJson} `{NO : !NumericOps}.
Context {DS : DecimalSpec}.
Implicit Types (t : ConfigTable) (c : ArbExecutorConfig) (q : QuantSignalExecutorConfig) (v : dec).
Local Open Scope Q_scope.

Definition ordered (b : dec * dec) : Prop := dval (fst b) <= dval (snd b).

Lemma within_le v lo hi : within v lo hi = true <-> dval lo <= dval v /\ dval v <= dval hi.
Proof. unfold within. rewrite andb_true_iff, !dec_leb_le. done. Qed.

Lemma row_allowed_spec r : row_allowed r = true <->
  dval (dc_min_value r) <= dval (dc_max_value r) /\
  within (dc_current_value r) (dc_min_value r) (dc_max_value r) = true /\
  within (dc_last_good_value r) (dc_min_value r) (dc_max_value r) = true.
Proof. unfold row_allowed. rewrite !andb_true_iff, dec_leb_le. tauto. Qed.

(** The bounds of the code are ordered. *)
Lemma fallback_ordered key b : fallback_bounds_for_key key = Some b -> ordered b.
Proof.
  unfold fallback_bounds_for_key, ordered.
  repeat match goal with |- context [bool_decide ?P] => destruct (bool_decide P) end;
    intros [= <-]; simpl; rewrite ?dval_ZERO, !dval_new by done; unfold Qle; simpl; lia.
Qed.

Lemma clamp_between v lo hi :
  dval lo <= dval hi -> dval lo <= dval (dec_min (dec_max v lo) hi) <= dval hi.
Proof. intros Hb. rewrite dval_min, dval_max. q_cases; lra. Qed.

Definition table_allowed t : Prop := forall key r, t !! key = Some r -> row_allowed r = true.

Lemma fallback_bounds_lookup key b :
  fallback_dynamic_bounds !! key = Some b -> fallback_bounds_for_key key = Some b.
Proof.
  unfold fallback_dynamic_bounds. intros H. apply elem_of_list_to_map_2 in H.
  apply list_elem_of_omap in H as (k & _ & E).
  destruct (fallback_bounds_for_key k) eqn:Ek; [|done]. simpl in E. by injection E as -> ->.
Qed.

Lemma loaded_bounds_ordered io t key b :
  table_allowed t -> load_dynamic_bounds io t !! key = Some b -> ordered b.
Proof.
  intros Ht. unfold load_dynamic_bounds.
  assert (Hf : fallback_dynamic_bounds !! key = Some b -> ordered b)
    by (intros Hk; by eapply fallback_ordered, fallback_bounds_lookup).
  destruct io; [|done]. case_bool_decide; [done|]. rewrite lookup_fmap.
  unfold enabled_rows. destruct (filter _ t !! key) as [r|] eqn:E; [|done]. intros [= <-].
  apply map_lookup_filter_Some in E as [E _]. apply Ht, row_allowed_spec in E as (Hb & _). exact Hb.
Qed.

Lemma bounds_for_ordered io t key b :
  table_allowed t -> bounds_for key (load_dynamic_bounds io t) = Some b -> ordered b.
Proof.
  intros Ht. unfold bounds_for. destruct (_ !! key) as [b'|] eqn:E.
  - intros [= <-]. by eapply loaded_bounds_ordered.
  - apply fallback_ordered.
Qed.

(** [v] lies within bounds that [P] has for [key]. *)
Definition bounded_by (P : string -> dec * dec -> Prop) (key : string) v : Prop :=
  exists b, P key b /\ dval (fst b) <= dval v <= dval (snd b).

Lemma clamp_bounded io t key v v' :
  table_allowed t ->
  clamp_dynamic_value key v (load_dynamic_bounds io t) = Some v' ->
  bounded_by (fun key b => bounds_for key (load_dynamic_bounds io t) = Some b) key v'.
Proof.
  intros Ht. unfold clamp_dynamic_value. destruct (bounds_for key _) as [[lo hi]|] eqn:E; [|done].
  intros [= <-]. exists (lo, hi). split; [done|]. apply clamp_between.
  by apply (bounds_for_ordered io t key (lo, hi)).
Qed.

(** What the knobs may become: each as it was, or within bounds of its key. *)
Record arb_within (P : string -> dec * dec -> Prop) c c' : Prop := {
  aw_position_size : ac_position_size c' = ac_position_size c \/
    bounded_by P KEY_ARB_POSITION_SIZE (ac_position_size c');
  aw_min_net_profit : min_net_profit c' = min_net_profit c \/
    bounded_by P KEY_ARB_MIN_NET_PROFIT (min_net_profit c');
  aw_min_book_depth : ac_min_book_depth c' = ac_min_book_depth c \/
    bounded_by P KEY_ARB_MIN_BOOK_DEPTH (ac_min_book_depth c');
  aw_max_signal_age : max_signal_age_secs c' = max_signal_age_secs c \/
    exists lo hi, P KEY_ARB_MAX_SIGNAL_AGE_SECS (lo, hi) /\
      (Qtrunc (dval lo) <= max_signal_age_secs c' <= Qtrunc (dval hi))%Z;
  aw_rest : exists size profit depth age,
    c' = {| c with ac_position_size := size; min_net_profit := profit;
                   ac_min_book_depth := depth; max_signal_age_secs := age |};
}.
Record quant_within (P : string -> dec * dec -> Prop) q q' : Prop := {
  qw_size : base_position_size_usd q' = base_position_size_usd q \/
    bounded_by P KEY_QUANT_BASE_POSITION_SIZE (base_position_size_usd q');
  qw_rest : exists size, q' = {| q with base_position_size_usd := size |};
}.

Lemma bounded_mono (P P' : string -> dec * dec -> Prop) key v :
  (forall k b, P k b -> P' k b) -> bounded_by P key v -> bounded_by P' key v.
Proof. intros HP (b & Hb & H). exists b. split; [by apply HP|done]. Qed.

Lemma arb_within_refl P c : arb_within P c c.
Proof. split; [by left..|]. destruct c. by do 4 eexists. Qed.
Lemma arb_within_trans P c1 c2 c3 : arb_within P c1 c2 -> arb_within P c2 c3 -> arb_within P c1 c3.
Proof.
  intros [A1 A2 A3 A4 (? & ? & ? & ? & ->)] [B1 B2 B3 B4 (? & ? & ? & ? & ->)]. simpl in *.
  split; simpl; [destruct B1 as [->|]; auto|destruct B2 as [->|]; auto|destruct B3 as [->|]; auto|
    destruct B4 as [->|]; auto|]. by do 4 eexists.
Qed.
Lemma arb_within_mono (P P' : string -> dec * dec -> Prop) c c' :
  (forall k b, P k b -> P' k b) -> arb_within P c c' -> arb_within P' c c'.
Proof.
  intros HP [A1 A2 A3 A4 A5]. split; [| | | |done].
  - destruct A1; [by left|right; by eapply bounded_mono].
  - destruct A2; [by left|right; by eapply bounded_mono].
  - destruct A3; [by left|right; by eapply bounded_mono].
  - destruct A4 as [|(lo & hi & H & ?)]; [by left|right]. exists lo, hi. split; [by apply HP|done].
Qed.
Lemma quant_within_refl P q : quant_within P q q.
Proof. split; [by left|]. destruct q. by eexists. Qed.
Lemma quant_within_trans P q1 q2 q3 : quant_within P q1 q2 -> quant_within P q2 q3 -> quant_within P q1 q3.
Proof.
  intros [A1 (? & ->)] [B1 (? & ->)]. simpl in *.
  split; simpl; [destruct B1 as [->|]; auto|]. by eexists.
Qed.
Lemma quant_within_mono (P P' : string -> dec * dec -> Prop) q q' :
  (forall k b, P k b -> P' k b) -> quant_within P q q' -> quant_within P' q q'.
Proof. intros HP [[A1|A1] A2]; split; try done; [by left|right; by eapply bounded_mono]. Qed.

Lemma turn_arb_within P key v c : bounded_by P key v -> arb_within P c (turn_arb key v c).
Proof.
  intros Hv. unfold turn_arb.
  do 3 (case_bool_decide; [subst; split; simpl; eauto; destruct c; by do 4 eexists|]).
  case_bool_decide; [subst|apply arb_within_refl].
  destruct (dec_to_i64 v) as [secs|] eqn:E; [|apply arb_within_refl].
  split; simpl; [by left|by left|by left| |destruct c; by do 4 eexists].
  right. destruct Hv as ([lo hi] & HP & Hlo & Hhi). exists lo, hi. split; [done|].
  rewrite dec_to_i64_trunc in E. cbv zeta in E. destruct (_ && _); [|done]. injection E as <-.
  split; by apply Qtrunc_le.
Qed.
Lemma turn_quant_within P key v q : bounded_by P key v -> quant_within P q (turn_quant key v q).
Proof.
  intros Hv. unfold turn_quant. case_bool_decide; [subst|apply quant_within_refl].
  split; simpl; [by right|]. destruct q. by eexists.
Qed.

Definition configs_within P (rc rc' : RuntimeConfigs) : Prop :=
  option_Forall2 (arb_within P) (rc_arb rc) (rc_arb rc') /\
  option_Forall2 (quant_within P) (rc_quant rc) (rc_quant rc').

Lemma option_within {A} (R : A -> A -> Prop) (f : A -> A) o :
  (forall a, R a (f a)) -> option_Forall2 R o (f <$> o).
Proof. intros H. destruct o; simpl; by constructor. Qed.

Lemma configs_within_refl P rc : configs_within P rc rc.
Proof.
  split; [destruct (rc_arb rc)|destruct (rc_quant rc)]; constructor;
    [apply arb_within_refl|apply quant_within_refl].
Qed.
Lemma configs_within_trans P r1 r2 r3 :
  configs_within P r1 r2 -> configs_within P r2 r3 -> configs_within P r1 r3.
Proof.
  intros [A1 A2] [B1 B2]. split.
  - inversion A1 as [? ? H1 E1 E2|E1 E2]; rewrite <- E2 in B1; inversion B1; constructor.
    by eapply arb_within_trans.
  - inversion A2 as [? ? H1 E1 E2|E1 E2]; rewrite <- E2 in B2; inversion B2; constructor.
    by eapply quant_within_trans.
Qed.
Lemma configs_within_mono (P P' : string -> dec * dec -> Prop) r r' :
  (forall k b, P k b -> P' k b) -> configs_within P r r' -> configs_within P' r r'.
Proof.
  intros HP [A1 A2]. split.
  - destruct A1; constructor. by eapply arb_within_mono.
  - destruct A2; constructor. by eapply quant_within_mono.
Qed.

Lemma apply_update_within allowed io t rc msg :
  table_allowed t ->
  configs_within (fun key b => bounds_for key (load_dynamic_bounds io t) = Some b) rc
    (apply_update allowed (load_dynamic_bounds io t) rc msg).
Proof.
  intros Ht. unfold apply_update. destruct msg as [u|]; [|apply configs_within_refl].
  destruct (negb _); [apply configs_within_refl|].
  destruct (clamp_dynamic_value _ _ _) as [v|] eqn:E; [|apply configs_within_refl].
  apply clamp_bounded in E; [|done].
  split; apply option_within; intros; [by apply turn_arb_within|by apply turn_quant_within].
Qed.

Lemma snapshot_bounded io t key v :
  table_allowed t -> (key, v) ∈ snapshot_values (load_dynamic_bounds io t) t ->
  bounded_by (fun key b => bounds_for key (load_dynamic_bounds io t) = Some b) key v.
Proof.
  intros Ht (r & _ & E)%list_elem_of_omap.
  destruct (clamp_dynamic_value _ _ _) as [v'|] eqn:Ev; [|done]. injection E as <- <-.
  by apply clamp_bounded in Ev.
Qed.

Lemma fold_within {C} (R : C -> C -> Prop) (f : C -> string * dec -> C) l x :
  (forall x, R x x) -> (forall x y z, R x y -> R y z -> R x z) ->
  (forall kv x, kv ∈ l -> R x (f x kv)) -> R x (foldl f x l).
Proof.
  intros Hr Ht. revert x. induction l as [|kv l IH]; intros x H; simpl; [apply Hr|].
  eapply Ht; [apply H, list_elem_of_here|]. apply IH. intros. by apply H, list_elem_of_further.
Qed.

Lemma run_within en t msgs rc :
  table_allowed t ->
  configs_within (fun key b => bounds_for key (load_dynamic_bounds (se_bounds en) t) = Some b) rc
    (run_dynamic_config_subscriber en t msgs rc).
Proof.
  intros Ht. unfold run_dynamic_config_subscriber. destruct (negb _); [apply configs_within_refl|].
  set (P := fun key b => bounds_for key (load_dynamic_bounds (se_bounds en) t) = Some b).
  match goal with |- configs_within _ _ (foldl _ ?x _) => set (rc0 := x) end.
  assert (H0 : configs_within P rc rc0).
  { split; apply option_within; intros a; cbv beta.
    - unfold apply_startup_snapshot_to_arb_executor. destruct (se_arb en); [|apply arb_within_refl].
      apply (fold_within (arb_within P)); [apply arb_within_refl|apply arb_within_trans|].
      intros [k v] c H. by apply turn_arb_within, snapshot_bounded.
    - unfold apply_startup_snapshot_to_quant_executor.
      destruct (se_quant en); [|apply quant_within_refl].
      apply (fold_within (quant_within P)); [apply quant_within_refl|apply quant_within_trans|].
      intros [k v] q H. by apply turn_quant_within, snapshot_bounded. }
  clearbody rc0. revert rc0 H0. induction msgs as [|m msgs IH]; intros rc0 H0; [done|].
  simpl. apply IH. eapply configs_within_trans; [done|]. by apply apply_update_within.
Qed.

(** A message that counts: it can be read and comes from an allowed source. *)
Definition authorised (allowed : list string) (msg : option DynamicConfigUpdate) : bool :=
  match msg with Some u => source_allowed (du_source u) allowed | None => false end.

Lemma unauthorised_ignored allowed bounds msgs rc :
  foldl (apply_update allowed bounds) rc msgs =
  foldl (apply_update allowed bounds) rc (List.filter (authorised allowed) msgs).
Proof.
  revert rc. induction msgs as [|m msgs IH]; intros rc; simpl; [done|].
  destruct (authorised allowed m) eqn:E; simpl; [apply IH|].
  rewrite IH. f_equal. unfold apply_update. destruct m as [u|]; [|done]. simpl in E. by rewrite E.
Qed.

(** ** Theorem *)

(** The bounds of a key in some run of the subscriber. *)
Definition run_bounds (runs : list (SubscriberEnv * ConfigTable * list (option DynamicConfigUpdate)))
    (key : string) (b : dec * dec) : Prop :=
  exists en t msgs, (en, t, msgs) ∈ runs /\
    bounds_for key (load_dynamic_bounds (se_bounds en) t) = Some b.

(** C20. Whatever is published, over any number of restarts the subscriber
    leaves each of the five live knobs as it was or within the bounds its key
    had at a start (the age of a signal between their integer parts), changes
    nothing else, and ignores what it cannot read or what comes from a source
    that is not allowed. *)
Theorem subscriber_within_bounds runs rc :
  Forall (fun run => table_allowed (snd (fst run))) runs ->
  configs_within (run_bounds runs) rc (dynamic_config_subscriber runs rc) /\
  (forall en t msgs rc', run_dynamic_config_subscriber en t msgs rc' =
     run_dynamic_config_subscriber en t
       (List.filter (authorised (load_allowed_update_sources (se_env en))) msgs) rc').
Proof.
  intros Hr. split; cycle 1.
  { intros en t msgs rc'. unfold run_dynamic_config_subscriber. cbv zeta.
    destruct (negb _); [done|]. apply unauthorised_ignored. }
  unfold dynamic_config_subscriber. induction runs as [|[[en t] msgs] runs IH] using rev_ind.
  { apply configs_within_refl. }
  rewrite foldl_snoc. apply Forall_app in Hr as [Hr Hl]. apply Forall_cons_1 in Hl as [Ht _].
  eapply configs_within_trans.
  - eapply configs_within_mono; [|by apply IH]. intros k b (en' & t' & ms' & Hin & H).
    exists en', t', ms'. split; [|done]. apply elem_of_app. by left.
  - eapply configs_within_mono; [|by apply run_within]. intros k b H.
    exists en, t, msgs. split; [|done]. apply elem_of_app. right. apply list_elem_of_here.
Qed.
End Facts.

(** ** The theorem at concrete inputs *)

Module SubscriberSample.
#[local] Existing Instance Concrete.decimal.
#[local] Existing Instance Concrete.decimal_spec.
#[local] Existing Instance Concrete.chrono.
#[local] Existing Instance ConcreteConfig.numeric_ops.
#[local] Existing Instance ConcreteConfig.metrics_json.
Abbreviation d := Concrete.d.

(** The table is empty, so the bounds are those of the code. *)
Definition subscriber : SubscriberEnv := {|
  se_env := fun _ => None; se_bounds := true; se_arb := true; se_quant := true; se_connected := true |}.
Definition update (source key : string) (v : dec) : option DynamicConfigUpdate :=
  Some {| du_key := key; du_value := v; du_reason := ""; du_source := source;
          du_timestamp := Concrete.at_minute 0 |}.
Definition messages : list (option DynamicConfigUpdate) :=
  [update "workspace_manual" KEY_ARB_POSITION_SIZE (d 1000 0); None;
   update "intruder" KEY_ARB_MIN_NET_PROFIT (d 5 2);
   update "dynamic_tuner" KEY_ARB_MAX_SIGNAL_AGE_SECS (d 455 1)].
Definition configs : RuntimeConfigs := {|
  rc_arb := Some default_arb_config; rc_quant := Some (quant_config_from_env (fun _ => None)) |}.

(** The size is clamped, the intruder ignored, the age truncated. *)
Example sample_messages :
  (fun c => (ac_position_size c, min_net_profit c, max_signal_age_secs c)) <$>
    rc_arb (dynamic_config_subscriber [(subscriber, ∅, messages)] configs) =
  Some ((25 # 1)%Q, (1 # 1000)%Q, 45%Z).
Proof. vm_compute. reflexivity. Qed.

Lemma subscriber_within_bounds_witness :
  configs_within (run_bounds [(subscriber, ∅, messages)]) configs
    (dynamic_config_subscriber [(subscriber, ∅, messages)] configs).
Proof.
  apply (subscriber_within_bounds [(subscriber, ∅, messages)] configs).
  constructor; [intros key r E; discriminate E|constructor].
Defined.
End SubscriberSample.
