(* ===== verification/DynamicTuner.v ===== *)
(** * The dynamic tuner

    Models [DynamicTuner] of [crates/api-server/src/dynamic_tuner.rs]: its
    configuration, the seeding of the table, the metrics of a cycle, the
    regime with its hysteresis, the targets, the evaluation of pending changes,
    the cycle and the task.  What comes from outside while a cycle runs is a
    [TuneEnv]: the clock, which statement fails, whether Redis connects, the
    positions, the state of the breaker and the answers of the queries on tables
    that are not modelled.  The reasons of the history are built from the
    program's text with [show_f64] for its float formats. *)

From stdpp Require Import sorting pretty.
From S2P Require Import Prelude F64 FloatParse Platform Handler Market CircuitBreaker Position.
From S2P Require Import PositionRepo Executor Signal Trading StrategyRisk ArbExecutor QuantExecutor.
From S2P Require Import DynamicConfig.

Local Open Scope handler_scope.

(** ** Regimes *)

Inductive MarketRegime : Type :=
| BullVolatile | BullCalm | BearVolatile | BearCalm | Ranging | Uncertain.
#[export] Instance MarketRegime_eq_dec : EqDecision MarketRegime.
Proof. solve_decision. Defined.

(** [format!("{:?}", regime)]. *)
Definition regime_name (r : MarketRegime) : string :=
  match r with
  | BullVolatile => "BullVolatile" | BullCalm => "BullCalm" | BearVolatile => "BearVolatile"
  | BearCalm => "BearCalm" | Ranging => "Ranging" | Uncertain => "Uncertain"
  end.

(** The locals of the task: the stable regime, the candidate and how often it
    was observed. *)
Record RegimeState : Type := {
  stable_regime : MarketRegime;
  candidate_regime : option MarketRegime;
  candidate_count : Z;
}.

(** [resolve_regime]; [intervals] is [regime_hysteresis_intervals]. *)
Definition resolve_regime (intervals : Z) (observed : MarketRegime) (s : RegimeState) : RegimeState :=
  if bool_decide (observed = stable_regime s)
  then {| stable_regime := stable_regime s; candidate_regime := None; candidate_count := 0 |}
  else
    let count := if bool_decide (candidate_regime s = Some observed)
                 then u64_add (candidate_count s) 1 else 1%Z in
    if (intervals <=? count)%Z
    then {| stable_regime := observed; candidate_regime := None; candidate_count := 0 |}
    else {| stable_regime := stable_regime s; candidate_regime := Some observed;
            candidate_count := count |}.

(** ** Arithmetic *)

Definition EPSILON : f64 := f64_lit 1 1000000.

Definition ratio (numerator denominator : f64) : f64 :=
  if f64_leb denominator f64_zero then f64_zero
  else f64_clamp (f64_div numerator denominator) f64_zero f64_one.

Definition apply_step_limit (current target max_step_pct reference : f64) : f64 :=
  let pct := if f64_leb max_step_pct f64_zero then f64_lit 12 100 else max_step_pct in
  let base := if f64_ltb EPSILON (f64_abs current) then f64_abs current
              else f64_max (f64_abs reference) f64_one in
  let max_delta := f64_max (f64_mul base pct) (f64_lit 1 10000) in
  let delta := f64_sub target current in
  if f64_leb (f64_abs delta) max_delta then target
  else f64_add current (f64_mul (f64_signum delta) max_delta).

(** ** Configuration *)

Record DynamicTunerConfig : Type := {
  dt_enabled : bool;
  dt_interval_secs : Z;
  apply_changes : bool;
  regime_hysteresis_intervals : Z;
  max_drawdown_freeze : f64;
  evaluation_delay_minutes : Z;
  fill_rate_degrade_delta : f64;
  pnl_degrade_delta : f64;
  bootstrap_enabled : bool;
  bootstrap_max_attempts : Z;
  no_trade_window_minutes : Z;
  no_trade_min_attempts : Z;
  dt_redis_url : string;
}.
Definition default_tuner_config : DynamicTunerConfig := {|
  dt_enabled := true; dt_interval_secs := 300; apply_changes := true;
  regime_hysteresis_intervals := 2; max_drawdown_freeze := f64_lit 20 100;
  evaluation_delay_minutes := 10; fill_rate_degrade_delta := f64_lit 8 100;
  pnl_degrade_delta := f64_of_Z 75; bootstrap_enabled := true; bootstrap_max_attempts := 100;
  no_trade_window_minutes := 120; no_trade_min_attempts := 20;
  dt_redis_url := "redis://127.0.0.1:6379" |}.

Definition env_flag (env : string -> option string) (key : string) (d : bool) : bool :=
  match env key with None => d | Some v => bool_decide (v = "true") || bool_decide (v = "1") end.
Definition tuner_config_from_env (env : string -> option string) : DynamicTunerConfig := {|
  dt_enabled := env_flag env "DYNAMIC_TUNER_ENABLED" true;
  dt_interval_secs := default 300%Z (env "DYNAMIC_TUNER_INTERVAL_SECS" ≫= parse_u64);
  apply_changes := env_flag env "DYNAMIC_TUNER_APPLY" true;
  regime_hysteresis_intervals := default 2%Z (env "DYNAMIC_TUNER_REGIME_STREAK" ≫= parse_u64);
  max_drawdown_freeze := default (f64_lit 20 100) (env "DYNAMIC_TUNER_FREEZE_DRAWDOWN" ≫= parse_f64);
  evaluation_delay_minutes := default 10%Z (env "DYNAMIC_TUNER_EVAL_DELAY_MINUTES" ≫= parse_i64);
  fill_rate_degrade_delta :=
    default (f64_lit 8 100) (env "DYNAMIC_TUNER_FILL_DEGRADE_DELTA" ≫= parse_f64);
  pnl_degrade_delta := default (f64_of_Z 75) (env "DYNAMIC_TUNER_PNL_DEGRADE_DELTA" ≫= parse_f64);
  bootstrap_enabled := env_flag env "DYNAMIC_TUNER_BOOTSTRAP_ENABLED" true;
  bootstrap_max_attempts := default 100%Z (env "DYNAMIC_TUNER_BOOTSTRAP_MAX_ATTEMPTS" ≫= parse_i64);
  no_trade_window_minutes := default 120%Z (env "DYNAMIC_TUNER_NO_TRADE_WINDOW_MINUTES" ≫= parse_i64);
  no_trade_min_attempts := default 20%Z (env "DYNAMIC_TUNER_NO_TRADE_MIN_ATTEMPTS" ≫= parse_i64);
  dt_redis_url := default "redis://127.0.0.1:6379"
    (match env "DYNAMIC_TUNER_REDIS_URL" with Some v => Some v | None => env "REDIS_URL" end);
|}.

(** The statements and calls of a cycle that may fail, by what they do. *)
Inductive TuneStep : Type :=
| TConnect | TLoad | TSeed (key : string) | TReload | TAttempts | TPnl | TQuantPnl | TEvaluate
| TEvalUpdate (key : string) | TEvalHistory (key : string) | TEvalConnect (key : string)
| TEvalPublish (key : string) | TRefresh | TFrozen | TUpdate (key : string) | THistory (key : string)
| TPublish (key : string) | TRevert (key : string) | TRevertHistory (key : string)
| TRecommend (key : string) | TWatchdog | TState | TSync (key : string).

Section DynamicTuner.
Context `{DO : DecimalOps} `{CO : ChronoOps} `{UO : UuidOps} `{MJ : MetricsJson} `{NO : !NumericOps}.
Context `{SH : !DisplayOps}.
Variable show_f64 : nat -> f64 -> string.

Definition decimal_to_f64 (value : dec) : f64 := default f64_zero (dec_to_f64 value).

(** ** Seeds *)

Record ConfigSeed : Type := {
  sd_key : string;
  sd_default_value : dec;
  sd_min_value : dec;
  sd_max_value : dec;
  sd_max_step_pct : dec;
}.
Definition clamp_to_bounds (value lo hi : dec) : dec := dec_min (dec_max value lo) hi.
Definition env_aggressiveness_level (env : string -> option string) : dec :=
  let level := string_lower (default "balanced" (env "ARB_MONITOR_AGGRESSIVENESS")) in
  if bool_decide (level = "stable") || bool_decide (level = "conservative") then ZERO
  else if bool_decide (level = "discovery") || bool_decide (level = "aggressive") then dec_new 2 0
  else dec_new 1 0.

Definition seed (key : string) (v lo hi step : dec) : ConfigSeed :=
  {| sd_key := key; sd_default_value := v; sd_min_value := lo; sd_max_value := hi;
     sd_max_step_pct := step |}.
Definition config_seeds (env : string -> option string) : list ConfigSeed :=
  [seed KEY_ARB_MIN_PROFIT_THRESHOLD (env_dec env "ARB_MIN_PROFIT_THRESHOLD" (dec_new 5 3))
     (dec_new 2 3) (dec_new 5 3) (dec_new 12 2);
   seed KEY_ARB_MONITOR_MAX_MARKETS (env_dec env "ARB_MONITOR_MAX_MARKETS" (dec_new 300 0))
     (dec_new 25 0) (dec_new 1500 0) (dec_new 15 2);
   seed KEY_ARB_MONITOR_EXPLORATION_SLOTS (env_dec env "ARB_MONITOR_EXPLORATION_SLOTS" (dec_new 5 0))
     (dec_new 1 0) (dec_new 500 0) (dec_new 25 2);
   seed KEY_ARB_MONITOR_AGGRESSIVENESS_LEVEL (env_aggressiveness_level env)
     ZERO (dec_new 2 0) (dec_new 100 2);
   seed KEY_ARB_POSITION_SIZE (env_dec env "ARB_POSITION_SIZE" (dec_new 10 0))
     (dec_new 5 0) (dec_new 25 0) (dec_new 20 2);
   seed KEY_ARB_MIN_NET_PROFIT (env_dec env "ARB_MIN_NET_PROFIT" (dec_new 1 3))
     (dec_new 5 4) (dec_new 5 2) (dec_new 15 2);
   seed KEY_ARB_MIN_BOOK_DEPTH (env_dec env "ARB_MIN_BOOK_DEPTH" (dec_new 25 0))
     (dec_new 10 0) (dec_new 200 0) (dec_new 20 2);
   seed KEY_ARB_MAX_SIGNAL_AGE_SECS (env_dec env "ARB_MAX_SIGNAL_AGE_SECS" (dec_new 30 0))
     (dec_new 5 0) (dec_new 300 0) (dec_new 25 2);
   seed KEY_QUANT_BASE_POSITION_SIZE (env_dec env "QUANT_BASE_POSITION_SIZE" (dec_new 30 0))
     (dec_new 10 0) (dec_new 200 0) (dec_new 15 2)].

(** The statement of a seed, of the value [v]: the columns of the row it would
    insert ([EXCLUDED]), and what it makes of a row that is there. *)
Definition seeded_row (s : ConfigSeed) (v : dec) : option DynamicConfigRow :=
  v ← value_column v; lo ← value_column (sd_min_value s); hi ← value_column (sd_max_value s);
  step ← step_column (sd_max_step_pct s);
  Some {| dc_key := sd_key s; dc_current_value := v; dc_default_value := v; dc_min_value := lo;
          dc_max_value := hi; dc_max_step_pct := step; dc_enabled := true; dc_last_good_value := v;
          dc_pending_eval := false; dc_pending_baseline := None; dc_last_applied_at := None;
          dc_last_reason := Some "initial seed"; dc_updated_by := "bootstrap" |}.
Definition reseed_row (ex : DynamicConfigRow) (r : DynamicConfigRow) : DynamicConfigRow :=
  let keep v := if bool_decide (dc_updated_by r = "bootstrap") then dc_default_value ex
                else dec_min (dec_max v (dc_min_value ex)) (dc_max_value ex) in
  {| r with dc_min_value := dc_min_value ex; dc_max_value := dc_max_value ex;
            dc_max_step_pct := dc_max_step_pct ex; dc_default_value := dc_default_value ex;
            dc_current_value := keep (dc_current_value r);
            dc_last_good_value := keep (dc_last_good_value r) |}.
Definition seed_statement (s : ConfigSeed) (t : ConfigTable) : option ConfigTable :=
  let v := clamp_to_bounds (sd_default_value s) (sd_min_value s) (sd_max_value s) in
  ex ← seeded_row s v;
  upsert_config (sd_key s) (Some ex) (fun r => Some (reseed_row ex r)) t.

(** ** The world of the tuner *)

Record TunerWorld : Type := {
  tw_config : ConfigTable;
  tw_history : list HistoryRow;
  tw_state : option TunerStateRow;
  (** What the channel of updates has carried. *)
  tw_published : list DynamicConfigUpdate;
  (** The cached connection is there. *)
  tw_redis : bool;
  tw_regime : RegimeState;
}.

Record TuneEnv : Type := {
  te_clock : TuneStep -> datetime;
  (** What a step that fails says, and what the database says of a statement
      that a constraint rejects. *)
  te_fails : TuneStep -> option string;
  te_rejected : string;
  te_connects : TuneStep -> bool;
  te_positions : gmap Uuid PositionRow;
  te_volatility : option f64;
  te_opportunities : option (f64 * f64);
  te_top_skip : option string;
  te_breaker : CircuitBreakerState;
  te_stats : option ArbRuntimeStats;
  te_regime : MarketRegime;
  (** The order of a [HashMap]'s entries. *)
  te_order : list (string * f64) -> list (string * f64);
}.

(** Anything that fails makes the caller fail: [?]. *)
Abbreviation tuning := (handler TunerWorld (result unit string)).

Section Cycle.
Variable config : DynamicTunerConfig.
Variable environment : string -> option string.
Variable en : TuneEnv.

(** A statement. *)
Definition exec (step : TuneStep) (f : TunerWorld -> option TunerWorld) : tuning unit :=
  let! w := get_state in
  match te_fails en step, f w with
  | Some e, _ => return_ (Err e)
  | None, None => return_ (Err (te_rejected en))
  | None, Some w => modify (fun _ => w)
  end.
Definition exec_config (step : TuneStep) (f : ConfigTable -> option ConfigTable) : tuning unit :=
  exec step (fun w => t ← f (tw_config w); Some {| w with tw_config := t |}).

Definition record_history (step : TuneStep) (key : option string) (old new : option dec)
    (action reason : string) (snapshot outcome : option TuningMetrics) : tuning unit :=
  exec step (fun w =>
    old ← nullable_column old; new ← nullable_column new;
    Some {| w with tw_history := tw_history w ++
      [{| hr_config_key := key; hr_old_value := old; hr_new_value := new; hr_action := action;
          hr_reason := reason; hr_metrics_snapshot := metrics_to_json <$> snapshot;
          hr_outcome_metrics := metrics_to_json <$> outcome |}] |}).

(** A failure is logged. *)
Definition persist_runtime_state (status reason : string) (metrics : option TuningMetrics)
    : tuning unit :=
  modify (fun w => match te_fails en TState with
    | Some _ => w
    | None => {| w with tw_state := Some {| ts_last_run_at := te_clock en TState;
                   ts_last_run_status := status; ts_last_run_reason := reason;
                   ts_last_metrics := metrics_to_json <$> metrics |} |}
    end).

Definition load_rows (step : TuneStep) : tuning (list DynamicConfigRow) :=
  let! w := get_state in
  match te_fails en step with
  | Some e => return_ (Err e)
  | None => ret (rows_by_key (tw_config w))
  end.

(** [redis_connection_manager]: is there a connection? *)
Definition redis_connection (step : TuneStep) : tuning bool :=
  update (fun w => if tw_redis w then (w, true)
                   else ({| w with tw_redis := te_connects en step |}, te_connects en step)).

Definition publish_update (step : TuneStep) (connected : bool) (u : DynamicConfigUpdate)
    : tuning (result unit string) :=
  if negb connected then ret (Err "No Redis connection for dynamic config publish")
  else match te_fails en step with
       | Some e => ret (Err ("Failed publishing dynamic config update for " +:+ du_key u +:+ ": " +:+ e))
       | None => modify (fun w => {| w with tw_published := tw_published w ++ [u] |}) ;; ret (Ok tt)
       end.

Definition message (step : TuneStep) (key : string) (v : dec) (reason source : string)
    : DynamicConfigUpdate :=
  {| du_key := key; du_value := v; du_reason := reason; du_source := source;
     du_timestamp := te_clock en step |}.

Definition seed_defaults : tuning unit :=
  for_each (fun s => exec_config (TSeed (sd_key s)) (seed_statement s)) (config_seeds environment).

(** The rows as of the start, published to the subscribers. *)
Definition publish_current_snapshot : tuning unit :=
  let! connected := redis_connection TConnect in
  let! rows := load_rows TLoad in
  for_each (fun r =>
    let! sent := publish_update (TSync (dc_key r)) connected
      (message (TSync (dc_key r)) (dc_key r) (dc_current_value r) "startup sync" "dynamic_tuner_sync") in
    propagate sent) (List.filter dc_enabled rows).

(** ** Metrics *)

(** [COUNT( * )] as a float, and a sum of realized P&L. *)
Definition count_float (p : PositionRow -> bool) : f64 :=
  f64_of_Z (count_rows p (te_positions en)).
Definition sum_realized (p : PositionRow -> bool) : dec :=
  dec_sum (omap r_realized_pnl (select_rows p (te_positions en))).

(** [t >= since], false of NULL. *)
Definition since (t : option datetime) (now : datetime) (minutes : Z) : bool :=
  match t with None => false | Some t => dt_leb (add_minutes now (- minutes)) t end.
Definition source_in (sources : list Z) (r : PositionRow) : bool :=
  match r_source r with None => false | Some s => bool_decide (s ∈ sources) end.

Definition attempt_row (now : datetime) (r : PositionRow) : bool :=
  (r_exit_strategy r =? 0)%Z && since (Some (r_entry_timestamp r)) now (no_trade_window_minutes config).
Definition fill_row (now : datetime) (r : PositionRow) : bool :=
  attempt_row now r && bool_decide (r_state r ∈ [1; 2; 3; 4; 6; 7]%Z).

Definition attempts_and_fills : f64 * f64 :=
  match te_fails en TAttempts with
  | Some _ => (f64_zero, f64_zero)
  | None => (count_float (attempt_row (te_clock en TAttempts)),
             count_float (fill_row (te_clock en TAttempts)))
  end.

(** [None]: a panic. *)
Definition breaker_drawdown (s : CircuitBreakerState) : option dec :=
  if (peak_value s >? ZERO)%dec
  then dd ← dec_div (peak_value s - current_value s)%dec (peak_value s); Some (dec_max dd ZERO)
  else Some ZERO.

Definition saturate (n : f64) : f64 :=
  if f64_ltb f64_zero n then f64_div n (f64_add n f64_one) else f64_zero.

Definition fetch_runtime_stats (connected : bool) : ArbRuntimeStats :=
  if connected then default default_runtime_stats (te_stats en) else default_runtime_stats.

Definition collect_metrics (connected : bool) : tuning TuningMetrics :=
  let '(attempts, fills) := attempts_and_fills in
  match te_fails en TPnl with
  | Some e => return_ (Err e)
  | None =>
      let pnl := sum_realized (fun r => since (r_exit_timestamp r) (te_clock en TPnl) 360
                                        && source_in [1; 2; 3]%Z r) in
      let '(depth, events) := default (f64_zero, f64_zero) (te_opportunities en) in
      let! drawdown := attempt (breaker_drawdown (te_breaker en)) in
      let stats := fetch_runtime_stats connected in
      let quant := match te_fails en TQuantPnl with
        | Some _ => ZERO
        | None => sum_realized (fun r => since (r_exit_timestamp r) (te_clock en TQuantPnl) 10080
                                         && source_in [3]%Z r)
        end in
      ret {| slippage_skip_rate := f64_zero; below_min_skip_rate := f64_zero;
             successful_fill_rate := ratio fills attempts;
             attempts_last_window := attempts; fills_last_window := fills;
             top_skip_reason := te_top_skip en; realized_slippage_p90 := f64_zero;
             depth_proxy := depth; volatility_proxy := default f64_zero (te_volatility en);
             ws_stall_rate := saturate (stalls_last_minute stats);
             ws_reset_rate := saturate (resets_last_minute stats);
             updates_per_minute := if f64_ltb f64_zero (st_updates_per_minute stats)
                                   then st_updates_per_minute stats else events;
             recent_pnl := decimal_to_f64 pnl; recent_drawdown := decimal_to_f64 drawdown;
             cb_tripped := tripped (te_breaker en); tm_current_regime := "Uncertain";
             quant_pnl_7d := decimal_to_f64 quant |}
  end.

(** ** The evaluation of pending changes *)

Definition roll_back (reason : string) (v : dec) (r : DynamicConfigRow) : option DynamicConfigRow :=
  v ← value_column v;
  Some {| r with dc_current_value := v; dc_pending_eval := false; dc_pending_baseline := None;
                 dc_last_reason := Some reason; dc_updated_by := "dynamic_tuner" |}.
Definition accept (r : DynamicConfigRow) : option DynamicConfigRow :=
  Some {| r with dc_pending_eval := false; dc_pending_baseline := None;
                 dc_last_good_value := dc_current_value r; dc_updated_by := "dynamic_tuner" |}.

Definition baseline_of (r : DynamicConfigRow) : TuningMetrics :=
  default default_metrics (dc_pending_baseline r ≫= metrics_of_json).
Definition fill_degraded (metrics baseline : TuningMetrics) : bool :=
  f64_ltb (f64_add (successful_fill_rate metrics) (fill_rate_degrade_delta config))
    (successful_fill_rate baseline).
Definition pnl_degraded (metrics baseline : TuningMetrics) : bool :=
  f64_ltb (recent_pnl metrics) (f64_sub (recent_pnl baseline) (pnl_degrade_delta config)).

Definition show_bool (b : bool) : string := if b then "true" else "false".
Definition rollback_reason (metrics baseline : TuningMetrics) : string :=
  "rollback: fill_degraded=" +:+ show_bool (fill_degraded metrics baseline)
  +:+ " pnl_degraded=" +:+ show_bool (pnl_degraded metrics baseline)
  +:+ " baseline_fill=" +:+ show_f64 3 (successful_fill_rate baseline)
  +:+ " current_fill=" +:+ show_f64 3 (successful_fill_rate metrics)
  +:+ " baseline_pnl=" +:+ show_f64 2 (recent_pnl baseline)
  +:+ " current_pnl=" +:+ show_f64 2 (recent_pnl metrics).

(** The change has been in place long enough. *)
Definition evaluation_due (now : datetime) (r : DynamicConfigRow) : bool :=
  dc_pending_eval r &&
  match dc_last_applied_at r with
  | None => false
  | Some applied => (evaluation_delay_minutes config <=? Z.quot (secs_since now applied) 60)%Z
  end.

Definition evaluate_row (metrics : TuningMetrics) (r : DynamicConfigRow) : tuning unit :=
  let key := dc_key r in
  let baseline := baseline_of r in
  if fill_degraded metrics baseline || pnl_degraded metrics baseline then
    let reason := rollback_reason metrics baseline in
    exec_config (TEvalUpdate key) (update_config key (roll_back reason (dc_last_good_value r))) ;;
    record_history (TEvalHistory key) (Some key) (Some (dc_current_value r))
      (Some (dc_last_good_value r)) "rollback" reason (Some metrics) (Some metrics) ;;
    let! connected := redis_connection (TEvalConnect key) in
    publish_update (TEvalPublish key) connected
      (message (TEvalPublish key) key (dc_last_good_value r) reason "dynamic_tuner_rollback") ;;
    ret tt
  else
    exec_config (TEvalUpdate key) (update_config key accept) ;;
    record_history (TEvalHistory key) (Some key) (Some (dc_current_value r))
      (Some (dc_current_value r)) "evaluation" "post-change evaluation passed" (Some metrics) (Some metrics).

Definition evaluate_pending (now : datetime) (rows : list DynamicConfigRow) (metrics : TuningMetrics)
    : tuning unit :=
  when (apply_changes config)
    (for_each (evaluate_row metrics) (List.filter (evaluation_due now) rows)).

(** ** Targets *)

Definition regime_safety_margin (r : MarketRegime) : f64 :=
  match r with
  | BullCalm => f64_lit 10 10000 | BullVolatile => f64_lit 18 10000 | BearCalm => f64_lit 22 10000
  | BearVolatile => f64_lit 30 10000 | Ranging => f64_lit 18 10000 | Uncertain => f64_lit 25 10000
  end.

Definition no_trade_watchdog (metrics : TuningMetrics) : bool :=
  f64_leb (f64_of_Z (no_trade_min_attempts config)) (attempts_last_window metrics)
  && f64_leb (fills_last_window metrics) EPSILON.
Definition top_skip (metrics : TuningMetrics) : string := default "none" (top_skip_reason metrics).

(** [None]: hold. *)
Definition profit_target (metrics : TuningMetrics) (regime : MarketRegime) : option f64 :=
  if f64_leb f64_one (attempts_last_window metrics) || f64_leb f64_one (fills_last_window metrics) then
    let slippage := f64_max (f64_mul (realized_slippage_p90 metrics) (f64_of_Z 2)) (f64_lit 15 10000) in
    let depth := f64_mul (f64_max (f64_sub (f64_lit 10 10000) (depth_proxy metrics)) f64_zero) (f64_lit 3 10) in
    let vol := f64_mul (volatility_proxy metrics) (f64_lit 1 100) in
    let desired := f64_add (f64_add (f64_add slippage (regime_safety_margin regime)) depth) vol in
    Some (if no_trade_watchdog metrics && negb (bool_decide (top_skip metrics = "slippage"))
             && negb (bool_decide (top_skip metrics = "insufficient_depth"))
          then f64_mul desired (f64_lit 9 10) else desired)
  else None.

Definition depth_target (rows : ConfigTable) (metrics : TuningMetrics) : option f64 :=
  if no_trade_watchdog metrics && bool_decide (top_skip metrics = "insufficient_depth")
  then r ← rows !! KEY_ARB_MIN_BOOK_DEPTH;
       Some (f64_mul (decimal_to_f64 (dc_current_value r)) (f64_lit 95 100))
  else None.

Definition value_or (rows : ConfigTable) (key : string) (column : DynamicConfigRow -> dec) (d : f64)
    : f64 := default d ((fun r => decimal_to_f64 (column r)) <$> rows !! key).

Definition markets_target (rows : ConfigTable) (metrics : TuningMetrics) : f64 :=
  let current := value_or rows KEY_ARB_MONITOR_MAX_MARKETS dc_current_value (f64_of_Z 300) in
  let default_cap := value_or rows KEY_ARB_MONITOR_MAX_MARKETS dc_default_value (f64_of_Z 300) in
  let updates := updates_per_minute metrics in
  let health_penalty := f64_min (f64_add (f64_mul (ws_stall_rate metrics) (f64_lit 9 10))
                                   (f64_mul (ws_reset_rate metrics) (f64_lit 6 10))) f64_one in
  let bonus := if f64_ltb (f64_of_Z 500) updates then f64_lit 10 100 else f64_zero in
  let penalty := if f64_ltb EPSILON updates && f64_ltb updates (f64_of_Z 120)
                 then f64_lit 10 100 else f64_zero in
  let factor := f64_clamp (f64_add (f64_sub (f64_sub f64_one health_penalty) penalty) bonus)
                  (f64_lit 70 100) (f64_lit 120 100) in
  let healthy := f64_leb (f64_of_Z 1000) updates && f64_ltb health_penalty (f64_lit 10 100) in
  if healthy && f64_ltb (f64_add current EPSILON) default_cap then default_cap
  else f64_round (f64_mul current factor).

Definition quant_size_target (rows : ConfigTable) (metrics : TuningMetrics) : f64 :=
  let current := value_or rows KEY_QUANT_BASE_POSITION_SIZE dc_current_value (f64_of_Z 30) in
  if f64_ltb f64_zero (quant_pnl_7d metrics) then f64_mul current (f64_lit 105 100)
  else if f64_ltb (quant_pnl_7d metrics) (f64_of_Z (-50)) then f64_mul current (f64_lit 90 100)
  else current.

Definition insert_some (key : string) (v : option f64) (m : gmap string f64) : gmap string f64 :=
  match v with None => m | Some v => <[key := v]> m end.
Definition compute_targets (rows : ConfigTable) (metrics : TuningMetrics) (regime : MarketRegime)
    : gmap string f64 :=
  <[KEY_QUANT_BASE_POSITION_SIZE := quant_size_target rows metrics]>
  (<[KEY_ARB_MONITOR_MAX_MARKETS := markets_target rows metrics]>
  (insert_some KEY_ARB_MIN_BOOK_DEPTH (depth_target rows metrics)
  (insert_some KEY_ARB_MIN_PROFIT_THRESHOLD (profit_target metrics regime) ∅))).

(** ** A change *)

Definition applied_row (now : datetime) (v : dec) (reason : string) (metrics : TuningMetrics)
    (r : DynamicConfigRow) : option DynamicConfigRow :=
  v ← value_column v;
  Some {| r with dc_current_value := v; dc_pending_eval := true;
                 dc_pending_baseline := Some (metrics_to_json metrics);
                 dc_last_applied_at := Some now; dc_last_reason := Some reason;
                 dc_updated_by := "dynamic_tuner" |}.
Definition apply_change (r : DynamicConfigRow) (v : dec) (reason : string) (metrics : TuningMetrics)
    : tuning unit :=
  let key := dc_key r in
  exec_config (TUpdate key)
    (update_config key (applied_row (te_clock en (TUpdate key)) v reason metrics)) ;;
  record_history (THistory key) (Some key) (Some (dc_current_value r)) (Some v) "applied" reason
    (Some metrics) None.

Definition reverted_row (v : dec) (reason : string) (r : DynamicConfigRow) : option DynamicConfigRow :=
  v ← value_column v;
  Some {| r with dc_current_value := v; dc_pending_eval := false; dc_pending_baseline := None;
                 dc_last_applied_at := None; dc_last_reason := Some reason;
                 dc_updated_by := "dynamic_tuner" |}.
Definition rollback_unpublished_change (r : DynamicConfigRow) (attempted : dec)
    (reason publish_error : string) : tuning unit :=
  let key := dc_key r in
  let revert_reason := "reverted unapplied change after publish failure: " +:+ publish_error
                       +:+ "; original_reason=" +:+ reason in
  exec_config (TRevert key) (update_config key (reverted_row (dc_current_value r) revert_reason)) ;;
  record_history (TRevertHistory key) (Some key) (Some attempted) (Some (dc_current_value r)) "skipped"
    "reverted dynamic update because publish to subscribers failed" None None.

(** The value a target asks for, within the step and the bounds of its row;
    [None]: nothing to do. *)
Definition bounded_target (r : DynamicConfigRow) (target : f64) : f64 :=
  f64_min (f64_max (apply_step_limit (decimal_to_f64 (dc_current_value r)) target
                      (decimal_to_f64 (dc_max_step_pct r)) (decimal_to_f64 (dc_default_value r)))
             (decimal_to_f64 (dc_min_value r)))
    (decimal_to_f64 (dc_max_value r)).
Definition planned_value (r : DynamicConfigRow) (target : f64) : option dec :=
  let bounded := bounded_target r target in
  if f64_ltb (f64_abs (f64_sub bounded (decimal_to_f64 (dc_current_value r)))) EPSILON then None
  else dec_from_f64_retain bounded.

Definition bootstrap_active (metrics : TuningMetrics) : bool :=
  bootstrap_enabled config &&
  f64_ltb (attempts_last_window metrics) (f64_of_Z (bootstrap_max_attempts config)).
Definition tune_reason (metrics : TuningMetrics) : string :=
  "auto tune: regime=" +:+ tm_current_regime metrics
  +:+ " fill_rate=" +:+ show_f64 3 (successful_fill_rate metrics)
  +:+ " slip_p90=" +:+ show_f64 4 (realized_slippage_p90 metrics)
  +:+ " pnl=" +:+ show_f64 2 (recent_pnl metrics)
  +:+ " drawdown=" +:+ show_f64 3 (recent_drawdown metrics)
  +:+ " attempts=" +:+ show_f64 0 (attempts_last_window metrics)
  +:+ " fills=" +:+ show_f64 0 (fills_last_window metrics)
  +:+ " top_skip=" +:+ top_skip metrics
  +:+ " bootstrap=" +:+ show_bool (bootstrap_active metrics)
  +:+ " watchdog=" +:+ show_bool (no_trade_watchdog metrics).

(** One target; the numbers of applied and of recommended changes. *)
Definition tune_key (connected : bool) (rows : ConfigTable) (metrics : TuningMetrics)
    (kt : string * f64) (counts : N * N) : tuning (N * N) :=
  let '(key, target) := kt in
  let '(applied, recommended) := counts in
  match rows !! key with
  | None => ret counts
  | Some r =>
      if negb (dc_enabled r) || dc_pending_eval r then ret counts
      else match planned_value r target with
      | None => ret counts
      | Some v =>
          let reason := tune_reason metrics in
          if apply_changes config then
            apply_change r v reason metrics ;;
            let! sent := publish_update (TPublish key) connected
                           (message (TPublish key) key v reason "dynamic_tuner") in
            match sent with
            | Err e => rollback_unpublished_change r v reason e ;; ret counts
            | Ok _ => ret (applied + 1, recommended)%N
            end
          else
            record_history (TRecommend key) (Some key) (Some (dc_current_value r)) (Some v)
              "recommended" reason (Some metrics) None ;;
            ret (applied, recommended + 1)%N
      end
  end.

(** ** The cycle *)

Definition freeze_reason : string := "risk guard active: circuit breaker/drawdown".
Definition is_frozen (metrics : TuningMetrics) : bool :=
  cb_tripped metrics || f64_leb (max_drawdown_freeze config) (recent_drawdown metrics).

Definition observe_regime : tuning MarketRegime :=
  update (fun w =>
    let s := resolve_regime (regime_hysteresis_intervals config) (te_regime en) (tw_regime w) in
    ({| w with tw_regime := s |}, stable_regime s)).

(** Load, or seed and load. *)
Definition initial_rows : tuning (list DynamicConfigRow) :=
  let! rows := load_rows TLoad in
  match rows with
  | [] => seed_defaults ;; load_rows TReload
  | _ => ret rows
  end.

(** The changes of a cycle, from the rows as evaluated. *)
Definition tune_rows (connected : bool) (rows : ConfigTable) (metrics : TuningMetrics)
    (regime : MarketRegime) : tuning (result unit string) :=
  let! (applied, recommended) :=
    fold_each (tune_key connected rows metrics)
      (te_order en (map_to_list (compute_targets rows metrics regime))) (0, 0)%N in
  when (no_trade_watchdog metrics && (applied =? 0)%N && (recommended =? 0)%N)
    (record_history TWatchdog None None None "watchdog"
       ("no-trade watchdog active but no bounded changes available (top_skip=" +:+ top_skip metrics +:+ ")")
       (Some metrics) None) ;;
  persist_runtime_state "ok"
    (if apply_changes config then "cycle complete: applied=" +:+ pretty applied
     else "cycle complete: shadow_recommended=" +:+ pretty recommended) (Some metrics) ;;
  ret (Ok tt).

Definition by_key_map (rows : list DynamicConfigRow) : ConfigTable :=
  foldl (fun m r => <[dc_key r := r]> m) ∅ rows.

Definition run_cycle : tuning (result unit string) :=
  let! connected := redis_connection TConnect in
  let! rows := initial_rows in
  let! metrics := collect_metrics connected in
  let! regime := observe_regime in
  let metrics := {| metrics with tm_current_regime := regime_name regime |} in
  evaluate_pending (te_clock en TEvaluate) rows metrics ;;
  let! rows := load_rows TRefresh in
  if is_frozen metrics then
    record_history TFrozen None None None "frozen" freeze_reason (Some metrics) None ;;
    persist_runtime_state "frozen" freeze_reason (Some metrics) ;;
    ret (Ok tt)
  else tune_rows connected (by_key_map rows) metrics regime.

(** ** The task *)

(** One tick; its error goes into the state of the tuner. *)
Definition tuner_tick : handler TunerWorld unit unit :=
  let! r := call run_cycle in
  match r with
  | Ok _ => ret tt
  | Err e => call (persist_runtime_state "error" ("cycle failed: " +:+ e) None ;; ret (Ok tt)) ;; ret tt
  end.

(** Before the first tick; is the tuner on? *)
Definition tuner_begin : handler TunerWorld unit bool :=
  if negb (dt_enabled config) then
    call (persist_runtime_state "disabled" "dynamic tuner disabled" None ;; ret (Ok tt)) ;; ret false
  else
    call (seed_defaults ;; ret (Ok tt)) ;;
    call (publish_current_snapshot ;; ret (Ok tt)) ;;
    modify (fun w => {| w with tw_regime := {| stable_regime := te_regime en;
                          candidate_regime := None; candidate_count := 0 |} |}) ;;
    call (persist_runtime_state "started" "dynamic tuner started" None ;; ret (Ok tt)) ;; ret true.
End Cycle.

(** The task: its start and its ticks; [None] is a panic. *)
Definition tuner_task (config : DynamicTunerConfig) (environment : string -> option string)
    (start : TuneEnv) (ticks : list TuneEnv) (w : TunerWorld) : option TunerWorld :=
  match tuner_begin config environment start w with
  | None => None
  | Some (w, Go true) =>
      foldl (fun o en => w ← o; '(w, _) ← tuner_tick config environment en w; Some w) (Some w) ticks
  | Some (w, _) => Some w
  end.
End DynamicTuner.
