(* ===== verification/DynamicTunerFacts.v ===== *)
(** * Properties of the dynamic tuner

    The regime with its hysteresis; what the evaluation and the targets may
    make of a row of the table, whatever fails, and of what the subscribers
    were told. *)

From stdpp Require Import sorting pretty.
From S2P Require Import Prelude F64 FloatParse Platform Handler Market CircuitBreaker Position.
From S2P Require Import PositionRepo Executor Signal Trading StrategyRisk ArbExecutor QuantExecutor.
From S2P Require Import DynamicConfig DynamicTuner.

Local Open Scope handler_scope.

(** ** Regimes *)

Section Regime.
Implicit Types (o r : MarketRegime) (s : RegimeState) (l : list MarketRegime).

(** The state after a list of observations. *)
Definition observations (intervals : Z) l s : RegimeState :=
  foldl (fun s o => resolve_regime intervals o s) s l.
Definition regime_start r : RegimeState :=
  {| stable_regime := r; candidate_regime := None; candidate_count := 0 |}.
(** How many observations of [o] a list ends with. *)
Definition run_length o l : nat := trailing (fun o' => bool_decide (o' = o)) l.

Lemma run_length_snoc o o' l :
  run_length o (l ++ [o']) = if bool_decide (o' = o) then S (run_length o l) else O.
Proof. apply (trailing_snoc (fun x => bool_decide (x = o))). Qed.

(** The count of the candidate is the length of its run. *)
Definition counts l s : Prop := forall o, o <> stable_regime s ->
  Z.of_nat (run_length o l) = if bool_decide (candidate_regime s = Some o) then candidate_count s else 0%Z.

Lemma resolve_counts intervals l o s :
  (Z.of_nat (length l) + 1 < 2 ^ 64)%Z -> counts l s ->
  counts (l ++ [o]) (resolve_regime intervals o s) /\
  stable_regime (resolve_regime intervals o s) =
    if (intervals <=? Z.of_nat (run_length o (l ++ [o])))%Z then o else stable_regime s.
Proof.
  intros Hl Hc. unfold resolve_regime. case_bool_decide as Eo.
  { subst o. simpl. split; [|by destruct (intervals <=? _)%Z].
    intros o' Ho'. simpl in Ho'. rewrite run_length_snoc, !bool_decide_false by congruence. done. }
  assert (Hr : run_length o (l ++ [o]) = S (run_length o l))
    by by rewrite run_length_snoc, bool_decide_true.
  assert (En : (if bool_decide (candidate_regime s = Some o) then u64_add (candidate_count s) 1 else 1%Z)
               = Z.of_nat (run_length o (l ++ [o]))).
  { rewrite Hr. specialize (Hc o Eo). pose proof (trailing_length (fun o' => bool_decide (o' = o)) l) as Ht.
    change (run_length o l <= length l)%nat in Ht.
    destruct (bool_decide _); [|lia]. rewrite <- Hc. unfold u64_add. rewrite Z.mod_small; lia. }
  rewrite En. destruct (intervals <=? _)%Z; simpl; (split; [|done]); intros o' Ho'; simpl in *.
  - rewrite run_length_snoc. rewrite bool_decide_false; [done|congruence].
  - destruct (decide (o' = o)) as [->|Hne].
    + by rewrite bool_decide_true.
    + rewrite run_length_snoc. rewrite !bool_decide_false; [done|congruence|congruence].
Qed.

(** The stable regime follows the observations with hysteresis: from any
    start and after any history, it becomes what was observed last exactly when
    the history ends with at least the configured number of observations of
    it, and stays as it was otherwise. *)
Theorem regime_hysteresis_exact intervals l o start :
  (Z.of_nat (length l) + 1 < 2 ^ 64)%Z ->
  stable_regime (observations intervals (l ++ [o]) (regime_start start)) =
    if (intervals <=? Z.of_nat (run_length o (l ++ [o])))%Z then o
    else stable_regime (observations intervals l (regime_start start)).
Proof.
  intros Hl. unfold observations. rewrite foldl_snoc. apply resolve_counts; [done|].
  assert (Hl' : (Z.of_nat (length l) < 2 ^ 64)%Z) by lia. clear Hl.
  induction l as [|x l IH] using rev_ind; [done|]. rewrite length_app in Hl'. simpl in Hl'.
  rewrite foldl_snoc. apply resolve_counts; [lia|]. apply IH. lia.
Qed.
End Regime.

Section Facts.
Context `{DO : DecimalOps} `{CO : ChronoOps} `{UO : UuidOps} `{MJ : MetricsJson} `{NO : !NumericOps}.
Context `{SH : !DisplayOps} {DS : DecimalSpec} {NS : NumericSpec}.
Variable show_f64 : nat -> f64 -> string.
Implicit Types (w : TunerWorld) (en : TuneEnv) (t : ConfigTable) (r : DynamicConfigRow).

(** ** Rows *)

(** A row is within its bounds, its values are as the database stores them, and
    unless a change is pending its value is the last good one. *)
Record row_ok (key : string) r : Prop := {
  ro_key : dc_key r = key;
  ro_allowed : row_allowed r = true;
  ro_current : value_column (dc_current_value r) = Some (dc_current_value r);
  ro_good : value_column (dc_last_good_value r) = Some (dc_last_good_value r);
  ro_settled : dc_pending_eval r = false -> dc_current_value r = dc_last_good_value r;
}.
Definition config_ok t : Prop := forall key r, t !! key = Some r -> row_ok key r.

(** What the evaluation may make of a row. *)
Definition evaluated r r' : Prop :=
  r' = r \/
  (dc_pending_eval r = true /\ row_allowed r' = true /\
   (accept r = Some r' \/ exists reason, roll_back reason (dc_last_good_value r) r = Some r')).

Lemma evaluated_ok key r r' : row_ok key r -> evaluated r r' -> row_ok key r'.
Proof.
  intros [Hk Ha Hc Hg Hs] [->|(Hp & Ha' & [E|(reason & E)])]; [by split| |].
  - injection E as <-. by split.
  - unfold roll_back in E. rewrite Hg in E. injection E as <-. by split.
Qed.

(** What the tuning may make of one: the planned value of a target is applied,
    and perhaps reverted. *)
Definition tuned_keys : list string :=
  [KEY_ARB_MIN_PROFIT_THRESHOLD; KEY_ARB_MIN_BOOK_DEPTH; KEY_ARB_MONITOR_MAX_MARKETS;
   KEY_QUANT_BASE_POSITION_SIZE].
Definition tuned r r' : Prop :=
  r' = r \/
  (dc_enabled r = true /\ dc_pending_eval r = false /\ dc_key r ∈ tuned_keys /\ row_allowed r' = true /\
   exists target v now reason metrics a,
     planned_value r target = Some v /\ applied_row now v reason metrics r = Some a /\
     (r' = a \/ exists why, reverted_row (dc_current_value r) why a = Some r')).

Lemma tuned_ok key r r' : row_ok key r -> tuned r r' -> row_ok key r'.
Proof.
  intros [Hk Ha Hc Hg Hs] [->|(He & Hp & _ & Ha' & (target & v & now & reason & ms & a & _ & Eap & E))];
    [by split|].
  unfold applied_row in Eap. destruct (value_column v) as [v'|] eqn:Ev; [|done]. injection Eap as <-.
  apply numeric_idem in Ev. destruct E as [->|(why & E)]; [by split|].
  unfold reverted_row in E. rewrite Hc in E. injection E as <-. split; try done. intros _. by apply Hs.
Qed.

(** Every row of a table goes as [R] allows. *)
Definition moves (R : DynamicConfigRow -> DynamicConfigRow -> Prop) t t' : Prop :=
  forall key, option_Forall2 R (t !! key) (t' !! key).

Lemma moves_refl (R : DynamicConfigRow -> DynamicConfigRow -> Prop) t : (forall r, R r r) -> moves R t t.
Proof. intros HR key. destruct (t !! key); by constructor. Qed.
Lemma moves_lookup R t t' key r' :
  moves R t t' -> t' !! key = Some r' -> exists r, t !! key = Some r /\ R r r'.
Proof. intros H E. specialize (H key). rewrite E in H. inversion H as [r ? HR Er|]; subst. by exists r. Qed.
Lemma moves_ok R t t' :
  (forall key r r', row_ok key r -> R r r' -> row_ok key r') ->
  moves R t t' -> config_ok t -> config_ok t'.
Proof.
  intros HR Hm Ht key r' E. destruct (moves_lookup _ _ _ _ _ Hm E) as (r & Er & H).
  eapply HR; [by apply Ht|done].
Qed.
Lemma moves_insert (R : DynamicConfigRow -> DynamicConfigRow -> Prop) t t' key r r' :
  moves R t t' -> t !! key = Some r -> R r r' -> moves R t (<[key := r']> t').
Proof.
  intros Hm E HR k. destruct (decide (k = key)) as [->|Hne].
  - rewrite lookup_insert_eq, E. by constructor.
  - by rewrite lookup_insert_ne.
Qed.

(** ** Loaded rows *)

Lemma rows_by_key_perm t : rows_by_key t ≡ₚ (map_to_list t).*2.
Proof. apply merge_sort_Permutation. Qed.

Lemma elem_of_rows t r : config_ok t -> r ∈ rows_by_key t -> t !! dc_key r = Some r.
Proof.
  intros Ht Hin. rewrite rows_by_key_perm in Hin. apply list_elem_of_fmap in Hin as ([k r'] & -> & Hin).
  apply elem_of_map_to_list in Hin. simpl. by rewrite (ro_key _ _ (Ht _ _ Hin)).
Qed.
Lemma rows_elem_of t key r : t !! key = Some r -> r ∈ rows_by_key t.
Proof.
  intros E. rewrite rows_by_key_perm. apply list_elem_of_fmap. exists (key, r).
  split; [done|]. by apply elem_of_map_to_list.
Qed.
Lemma rows_nodup t : config_ok t -> NoDup (dc_key <$> rows_by_key t).
Proof.
  intros Ht. rewrite rows_by_key_perm.
  assert (E : dc_key <$> (map_to_list t).*2 = (map_to_list t).*1).
  { rewrite <- list_fmap_compose. apply list_fmap_ext. intros i [k r] Hi. simpl.
    apply list_elem_of_lookup_2, elem_of_map_to_list in Hi. by apply ro_key, Ht. }
  rewrite E. apply NoDup_fst_map_to_list.
Qed.

Lemma rows_nil t : rows_by_key t = [] <-> t = ∅.
Proof.
  split; [|by intros ->]. intros E. apply map_empty. intros key.
  destruct (t !! key) as [r|] eqn:Er; [|done]. apply rows_elem_of in Er. rewrite E in Er.
  by apply elem_of_nil in Er.
Qed.

Lemma by_key_map_lookup l key r :
  NoDup (dc_key <$> l) -> by_key_map l !! key = Some r <-> r ∈ l /\ dc_key r = key.
Proof.
  unfold by_key_map. induction l as [|x l IH] using rev_ind; intros Hn.
  { simpl. rewrite lookup_empty. split; [done|]. intros [H _]. by apply elem_of_nil in H. }
  rewrite foldl_snoc. rewrite fmap_app in Hn. apply NoDup_app in Hn as (Hn & Hx & _).
  rewrite elem_of_app, list_elem_of_singleton. destruct (decide (key = dc_key x)) as [->|Hne].
  - rewrite lookup_insert_eq. split; [intros [= ->]; split; [by right|done]|].
    intros [[Hin| ->] Ek]; [|done]. exfalso. apply (Hx (dc_key x)); [|simpl; apply list_elem_of_here].
    rewrite <- Ek. by apply list_elem_of_fmap_2.
  - rewrite lookup_insert_ne, IH by done. intuition congruence.
Qed.
Lemma by_key_rows t : config_ok t -> by_key_map (rows_by_key t) = t.
Proof.
  intros Ht. apply map_eq. intros key. apply option_eq. intros r.
  rewrite by_key_map_lookup by by apply rows_nodup. split.
  - intros [Hin <-]. by apply elem_of_rows.
  - intros E. split; [by eapply rows_elem_of|]. by apply ro_key, Ht.
Qed.

(** ** What was published *)

(** The last value announced for a key. *)
Definition last_value (key : string) (l : list DynamicConfigUpdate) : option dec :=
  foldl (fun o u => if bool_decide (du_key u = key) then Some (du_value u) else o) None l.

Lemma last_value_snoc key l u :
  last_value key (l ++ [u]) = if bool_decide (du_key u = key) then Some (du_value u) else last_value key l.
Proof. unfold last_value. by rewrite foldl_snoc. Qed.

(** The last value announced for the row is, as the database stores it, the
    value of the row. *)
Definition announced (l : list DynamicConfigUpdate) r : Prop :=
  exists v, last_value (dc_key r) l = Some v /\ value_column v = Some (dc_current_value r).
(** So it is for every enabled row. *)
Definition synced w : Prop := forall key r,
  tw_config w !! key = Some r -> dc_enabled r = true -> announced (tw_published w) r.

Lemma synced_same w w' :
  tw_config w' = tw_config w -> tw_published w' = tw_published w -> synced w -> synced w'.
Proof. intros Ec Ep H key r. rewrite Ec, Ep. apply H. Qed.

Lemma synced_insert w w' key r' :
  config_ok (tw_config w') -> tw_config w' = <[key := r']> (tw_config w) ->
  (tw_published w' = tw_published w \/
   exists u, du_key u = key /\ tw_published w' = tw_published w ++ [u]) ->
  (dc_enabled r' = true -> announced (tw_published w') r') ->
  synced w -> synced w'.
Proof.
  intros Hok Ec Ep Hr Hs k r E He. pose proof (ro_key _ _ (Hok _ _ E)) as Ek.
  rewrite Ec in E. destruct (decide (k = key)) as [->|Hne].
  - rewrite lookup_insert_eq in E. injection E as <-. by apply Hr.
  - rewrite lookup_insert_ne in E by done. destruct (Hs k r E He) as (v & Hl & Hv).
    exists v. split; [|done]. destruct Ep as [->|(u & Hu & ->)]; [done|].
    rewrite last_value_snoc, bool_decide_false; [done|congruence].
Qed.

(** Only announcements of tuned changes may fail. *)
Definition quiet en : Prop :=
  forall step, (forall key, step <> TPublish key) -> te_fails en step = None.

(** ** What a piece of a cycle does *)

(** From [w] to [w'] the rows go as [R] allows, the connection stays, and if
    only announcements of changes fail then the subscribers stay in step. *)
Record went (R : DynamicConfigRow -> DynamicConfigRow -> Prop) en w w' : Prop := {
  we_moves : moves R (tw_config w) (tw_config w');
  we_redis : tw_redis w = true -> tw_redis w' = true;
  we_synced : quiet en -> tw_redis w = true -> synced w -> synced w';
}.
(** The same, only the row [r] changing. *)
Record row_turn (R : DynamicConfigRow -> DynamicConfigRow -> Prop) en r w w' : Prop := {
  rt_row : exists r', R r r' /\ tw_config w' = <[dc_key r := r']> (tw_config w);
  rt_redis : tw_redis w = true -> tw_redis w' = true;
  rt_synced : quiet en -> tw_redis w = true -> synced w -> synced w';
}.

Lemma went_same (R : DynamicConfigRow -> DynamicConfigRow -> Prop) en w w' :
  (forall r, R r r) -> tw_config w' = tw_config w -> tw_published w' = tw_published w ->
  (tw_redis w = true -> tw_redis w' = true) -> went R en w w'.
Proof.
  intros HR Ec Ep Er. split; [|done|].
  - rewrite Ec. by apply moves_refl.
  - intros _ _. by apply synced_same.
Qed.
Lemma went_trans (R1 R2 R : DynamicConfigRow -> DynamicConfigRow -> Prop) en w1 w2 w3 :
  (forall a b c, R1 a b -> R2 b c -> R a c) ->
  went R1 en w1 w2 -> went R2 en w2 w3 -> went R en w1 w3.
Proof.
  intros HR [M1 D1 S1] [M2 D2 S2]. split; [|auto|auto].
  intros key. specialize (M1 key). specialize (M2 key).
  inversion M1 as [? ? H1 E1 E2|E1 E2]; rewrite <- E2 in M2; inversion M2; constructor. by eapply HR.
Qed.
Lemma row_turn_same (R : DynamicConfigRow -> DynamicConfigRow -> Prop) en r w w' :
  R r r -> tw_config w !! dc_key r = Some r -> tw_config w' = tw_config w ->
  tw_published w' = tw_published w -> (tw_redis w = true -> tw_redis w' = true) -> row_turn R en r w w'.
Proof.
  intros HR El Ec Ep Er. split; [|done|].
  - exists r. split; [done|]. by rewrite Ec, insert_id.
  - intros _ _. by apply synced_same.
Qed.
Lemma row_turn_went R en r w0 w w' :
  tw_config w0 !! dc_key r = Some r -> went R en w0 w -> row_turn R en r w w' -> went R en w0 w'.
Proof.
  intros E [M1 D1 S1] [(r' & HR & Ec) D2 S2]. split; [|auto|auto].
  rewrite Ec. by eapply moves_insert.
Qed.

(** ** Statements *)

Abbreviation T_post A := (TunerWorld -> flow (result unit string) A -> Prop).

Lemma wp_exec en step f (Q : T_post unit) w :
  (forall e, te_fails en step = Some e -> Q w (Return (Err e))) ->
  (te_fails en step = None -> f w = None -> Q w (Return (Err (te_rejected en)))) ->
  (forall w', te_fails en step = None -> f w = Some w' -> Q w' (Go tt)) ->
  wp (exec en step f) Q w.
Proof.
  intros H1 H2 H3. unfold exec. apply wp_bind, wp_get. cbv beta iota.
  destruct (te_fails en step) as [e|]; [apply wp_return; auto|].
  destruct (f w) as [w'|]; [apply wp_modify|apply wp_return]; auto.
Qed.

(** A statement on the row of a key that is there. *)
Lemma update_config_row key f t r :
  t !! key = Some r ->
  update_config key f t = None /\ (forall r', f r = Some r' -> row_allowed r' = false) \/
  exists r', f r = Some r' /\ row_allowed r' = true /\ update_config key f t = Some (<[key := r']> t).
Proof.
  intros E. unfold update_config, store_row. rewrite E. destruct (f r) as [r'|]; simpl.
  - destruct (row_allowed r') eqn:Ea; [right; by exists r'|left; split; [done|]]. by intros ? [= <-].
  - left. by split.
Qed.

Lemma wp_exec_row en step key f r (Q : T_post unit) w :
  tw_config w !! key = Some r ->
  (forall e, (te_fails en step = None -> forall r', f r = Some r' -> row_allowed r' = false) ->
     Q w (Return (Err e))) ->
  (forall r', te_fails en step = None -> f r = Some r' -> row_allowed r' = true ->
     Q {| w with tw_config := <[key := r']> (tw_config w) |} (Go tt)) ->
  wp (exec_config en step (update_config key f)) Q w.
Proof.
  intros E H1 H2. unfold exec_config.
  destruct (update_config_row key f (tw_config w) r E) as [[Eu Hn]|(r' & Ef & Ea & Eu)].
  - apply wp_exec.
    + intros e Ee. apply H1. congruence.
    + intros _ _. apply H1. by intros _.
    + intros w' _. by rewrite Eu.
  - apply wp_exec.
    + intros e Ee. apply H1. congruence.
    + intros _. by rewrite Eu.
    + intros w' Hf. rewrite Eu. intros [= <-]. by apply H2.
Qed.

(** Writing history touches only the history. *)
Lemma wp_history en step key old new action reason snap out (Q : T_post unit) w :
  (forall e, (te_fails en step = None -> nullable_column old = None \/ nullable_column new = None) ->
     Q w (Return (Err e))) ->
  (forall h, Q {| w with tw_history := h |} (Go tt)) ->
  wp (record_history en step key old new action reason snap out) Q w.
Proof.
  intros H1 H2. unfold record_history. apply wp_exec.
  - intros e E. apply H1. congruence.
  - intros E Hf. apply H1. intros _. destruct (nullable_column old); [|by left].
    destruct (nullable_column new); [done|by right].
  - intros w' E Hf. destruct (nullable_column old); [|done]. destruct (nullable_column new); [|done].
    injection Hf as <-. apply H2.
Qed.

Lemma nullable_grid v : value_column v = Some v -> nullable_column (Some v) <> None.
Proof. intros E. simpl. by rewrite E. Qed.

(** ** The evaluation *)

Lemma evaluate_row_turn config en metrics r w :
  row_ok (dc_key r) r -> tw_config w !! dc_key r = Some r -> config_ok (tw_config w) ->
  dc_pending_eval r = true ->
  wp (evaluate_row show_f64 config en metrics r) (fun w' f => row_turn evaluated en r w w' /\
    match f with Go _ => True | Return x => exists e, x = Err e end) w.
Proof.
  intros Hr El Hok Hp. unfold evaluate_row. destruct (fill_degraded _ _ _ || pnl_degraded _ _ _).
  - apply wp_bind. eapply wp_exec_row; [exact El| |].
    { intros e _. split; [|by eexists]. by apply row_turn_same; [left|..]. }
    intros r' Hf Eb Ea. cbv beta iota. apply wp_bind.
    assert (Hev : evaluated r r') by (right; split_and!; try done; right; by eexists).
    assert (Hok' : config_ok (<[dc_key r := r']> (tw_config w))).
    { intros k x Ex. destruct (decide (k = dc_key r)) as [->|Hne].
      - rewrite lookup_insert_eq in Ex. injection Ex as <-. by eapply evaluated_ok.
      - rewrite lookup_insert_ne in Ex by done. by apply Hok. }
    assert (Eg : dc_current_value r' = dc_last_good_value r /\ dc_key r' = dc_key r).
    { unfold roll_back in Eb. rewrite (ro_good _ _ Hr) in Eb. by injection Eb as <-. }
    destruct Eg as [Eg Ek].
    apply wp_history.
    { intros e Hn. split; [|by eexists]. split; [by exists r'|done|]. intros Hq. exfalso.
      destruct (Hn (Hq (TEvalHistory (dc_key r)) ltac:(done))) as [H|H]; revert H; apply nullable_grid;
        [apply (ro_current _ _ Hr)|apply (ro_good _ _ Hr)]. }
    intros h. cbv beta iota. apply wp_bind. unfold redis_connection. apply wp_update.
    intros w1 c Hc. cbv beta iota. apply wp_bind. unfold publish_update.
    assert (Hw1 : tw_config w1 = <[dc_key r := r']> (tw_config w) /\ tw_published w1 = tw_published w /\
                  (tw_redis w = true -> c = true /\ tw_redis w1 = true)).
    { simpl in Hc. destruct (tw_redis w) eqn:Et; injection Hc as <- <-; simpl; split_and!; done. }
    clear Hc. destruct Hw1 as (Ec & Ep & Hc). destruct (negb c) eqn:Enc.
    { repeat wp_step. split; [|done]. split; [by exists r'|by intros ?; apply Hc|].
      intros _ Hd. destruct (Hc Hd) as [-> _]. done. }
    destruct (te_fails en (TEvalPublish _)) as [e|] eqn:Ef.
    { repeat wp_step. split; [|done]. split; [by exists r'|by intros ?; apply Hc|].
      intros Hq. by rewrite (Hq (TEvalPublish (dc_key r))) in Ef. }
    repeat wp_step. split; [|done]. split; [by exists r'|by intros ?; apply Hc|].
    intros Hq Hd. eapply (synced_insert _ _ (dc_key r) r'); simpl; [by rewrite Ec|done| |].
    + right. eexists. split; [|by rewrite Ep]. done.
    + intros _. eexists. split.
      * rewrite last_value_snoc. simpl. by rewrite bool_decide_true.
      * rewrite Eg. apply (ro_good _ _ Hr).
  - apply wp_bind. eapply wp_exec_row; [exact El| |].
    { intros e _. split; [|by eexists]. by apply row_turn_same; [left|..]. }
    intros r' Hf Eb Ea. cbv beta iota.
    assert (Hrt : forall h, row_turn evaluated en r w
      {| w with tw_config := <[dc_key r := r']> (tw_config w); tw_history := h |}).
    { intros h. split; [exists r'; split; [right; split_and!; auto|done]|done|].
      intros _ _ Hs. injection Eb as <-. eapply synced_insert; [|done|by left| |done]; simpl.
      - intros k x Ex. destruct (decide (k = dc_key r)) as [->|Hne].
        + rewrite lookup_insert_eq in Ex. injection Ex as <-. eapply evaluated_ok; [done|].
          right. split_and!; try done. by left.
        + rewrite lookup_insert_ne in Ex by done. by apply Hok.
      - intros He. by apply (Hs (dc_key r) r). }
    apply wp_history; [|by intros h; split].
    intros e _. split; [|by eexists]. apply (Hrt (tw_history w)).
Qed.

Lemma row_turn_ok (R : DynamicConfigRow -> DynamicConfigRow -> Prop) key r r' t :
  (forall key r r', row_ok key r -> R r r' -> row_ok key r') ->
  config_ok t -> t !! key = Some r -> R r r' -> config_ok (<[key := r']> t).
Proof.
  intros HR Ht E H k x Ex. destruct (decide (k = key)) as [->|Hne].
  - rewrite lookup_insert_eq in Ex. injection Ex as <-. eapply HR; [by apply Ht|done].
  - rewrite lookup_insert_ne in Ex by done. by apply Ht.
Qed.

(** How a piece that may fail ends. *)
Definition errs {A} (f : flow (result unit string) A) : Prop :=
  match f with Go _ => True | Return x => exists e, x = Err e end.

(** A loop over rows that are as they were. *)
Definition as_they_were w0 (rows : list DynamicConfigRow) w : Prop :=
  NoDup (dc_key <$> rows) /\
  Forall (fun r => tw_config w0 !! dc_key r = Some r /\ tw_config w !! dc_key r = Some r) rows.

Lemma as_they_were_step (R : DynamicConfigRow -> DynamicConfigRow -> Prop) en w0 r rows w w' :
  as_they_were w0 (r :: rows) w -> row_turn R en r w w' -> as_they_were w0 rows w'.
Proof.
  intros [Hn Hf] [(r' & _ & Ec) _ _]. rewrite fmap_cons in Hn. apply NoDup_cons in Hn as [Hx Hn].
  apply Forall_cons in Hf as [_ Hf]. split; [done|]. rewrite Forall_forall in *. intros y Hy.
  destruct (Hf y Hy) as [H1 H2]. split; [done|]. rewrite Ec, lookup_insert_ne; [done|].
  intros Ek. apply Hx. rewrite Ek. by apply list_elem_of_fmap_2.
Qed.

Lemma evaluate_pending_went config en now rows metrics w :
  config_ok (tw_config w) -> as_they_were w rows w ->
  wp (evaluate_pending show_f64 config en now rows metrics)
    (fun w' f => went evaluated en w w' /\ errs f) w.
Proof.
  intros Hok [Hn Hf]. unfold evaluate_pending.
  assert (Hrefl : went evaluated en w w) by (apply went_same; [by left|done..]).
  apply wp_when; intros _; [|by split].
  eapply (wp_for_each_rest (fun rest w' => went evaluated en w w' /\ as_they_were w rest w' /\
    Forall (fun r => dc_pending_eval r = true) rest)).
  - split; [done|]. split; [split|].
    + by apply filtered_nodup.
    + rewrite Forall_forall in *. intros r Hr. rewrite list_elem_of_In in Hr.
      apply List.filter_In in Hr as [Hr _]. rewrite <- list_elem_of_In in Hr. by apply Hf.
    + rewrite Forall_forall. intros r Hr. rewrite list_elem_of_In in Hr.
      apply List.filter_In in Hr as [_ Hd]. unfold evaluation_due in Hd. by apply andb_prop in Hd as [? _].
  - intros r rest w' (Hw & Has & Hp). pose proof Has as [_ Hr]. apply Forall_cons in Hr as [[H0 H1] _].
    apply Forall_cons in Hp as [Hp Hps]. pose proof (moves_ok _ _ _ evaluated_ok (we_moves _ _ _ _ Hw) Hok) as Hok'.
    eapply wp_mono; [apply evaluate_row_turn; [|done..]; by apply Hok'|].
    intros w2 f [Ht He]. assert (Hw2 : went evaluated en w w2) by (by eapply row_turn_went).
    destruct f; [|done]. split; [done|]. split; [by eapply as_they_were_step|done].
  - intros w' (Hw & _). by split.
Qed.

(** ** The targets *)

(** A change that is tried: the row, its value, and the row as applied. *)
Record trying r (target : f64) (v : dec) a w : Prop := {
  ty_ok : config_ok (tw_config w);
  ty_row : tw_config w !! dc_key r = Some r;
  ty_enabled : dc_enabled r = true;
  ty_settled : dc_pending_eval r = false;
  ty_key : dc_key r ∈ tuned_keys;
  ty_planned : planned_value r target = Some v;
  ty_applied : exists now reason metrics, applied_row now v reason metrics r = Some a;
  ty_allowed : row_allowed a = true;
}.

Section Trying.
Context {r : DynamicConfigRow} {target : f64} {v : dec} {a : DynamicConfigRow} {w : TunerWorld}.
Hypothesis T : trying r target v a w.

Lemma trying_row : row_ok (dc_key r) r.
Proof. apply (ty_ok _ _ _ _ _ T), (ty_row _ _ _ _ _ T). Qed.
Lemma trying_applied : dc_key a = dc_key r /\ dc_enabled a = true /\ value_column v = Some (dc_current_value a).
Proof.
  destruct T as [_ _ He _ _ _ (now & reason & ms & E) _]. unfold applied_row in E.
  destruct (value_column v); [|done]. injection E as <-. done.
Qed.
Lemma trying_tuned r' : row_allowed r' = true ->
  (r' = a \/ exists why, reverted_row (dc_current_value r) why a = Some r') -> tuned r r'.
Proof.
  intros Ha' H. destruct T as [_ _ He Hp Hk Hv (now & reason & ms & E) _].
  right. split_and!; try done. by exists target, v, now, reason, ms, a.
Qed.
Lemma trying_turn : forall en w',
  tw_config w' = <[dc_key r := a]> (tw_config w) -> (tw_redis w = true -> tw_redis w' = true) ->
  (quiet en -> tw_redis w = true -> synced w -> synced w') -> row_turn tuned en r w w'.
Proof.
  intros en w' Ec Er Hs. split; [|done|done]. exists a. split; [|done].
  apply trying_tuned; [apply (ty_allowed _ _ _ _ _ T)|by left].
Qed.
(** Reverting is never rejected. *)
Lemma revert_allowed why b :
  reverted_row (dc_current_value r) why a = Some b ->
  row_allowed b = true /\ dc_enabled b = true /\ dc_key b = dc_key r /\ dc_current_value b = dc_current_value r.
Proof.
  unfold reverted_row. rewrite (ro_current _ _ trying_row). intros [= <-].
  pose proof (ro_allowed _ _ trying_row) as Hal. destruct T as [_ _ He _ _ _ (now & reason & ms & E) _]. unfold applied_row in E.
  destruct (value_column v); [|done]. injection E as <-. by split_and!.
Qed.

Lemma revert_turn {A} en reason e (c : A) w1 :
  tw_config w1 = <[dc_key r := a]> (tw_config w) -> tw_published w1 = tw_published w ->
  tw_redis w1 = tw_redis w ->
  wp (let! _ := rollback_unpublished_change en r v reason e in ret c)
    (fun w' f => row_turn tuned en r w w' /\ errs f) w1.
Proof.
  intros Ec1 Ep1 Ed1. unfold rollback_unpublished_change. apply wp_bind, wp_bind. eapply wp_exec_row.
  { rewrite Ec1. apply lookup_insert_eq. }
  { intros e' Hn. split; [|by eexists]. apply trying_turn; [done|congruence|].
    intros Hq. exfalso. specialize (Hn (Hq (TRevert (dc_key r)) ltac:(done))).
    destruct (reverted_row (dc_current_value r) _ a) as [b|] eqn:Eb.
    - destruct (revert_allowed _ _ Eb) as [Ha _]. by rewrite (Hn b eq_refl) in Ha.
    - unfold reverted_row in Eb. by rewrite (ro_current _ _ trying_row) in Eb. }
  intros b _ Eb _. cbv beta iota. destruct (revert_allowed _ _ Eb) as (Hba & Hbe & Hbk & Hbc).
  assert (Hb : tuned r b) by (apply trying_tuned; [done|right; by eexists]).
  assert (Htb : forall h, row_turn tuned en r w
    {| w1 with tw_config := <[dc_key r := b]> (tw_config w1); tw_history := h |}).
  { intros h. split; simpl; [exists b; split; [done|]; by rewrite Ec1, insert_insert_eq|by rewrite Ed1|].
    intros _ _ Hsy. eapply (synced_insert w _ (dc_key r) b); [| |by left|intros _|done]; simpl.
    - rewrite Ec1, insert_insert_eq.
      eapply (row_turn_ok tuned); [apply tuned_ok|apply (ty_ok _ _ _ _ _ T)|apply (ty_row _ _ _ _ _ T)|done].
    - by rewrite Ec1, insert_insert_eq.
    - rewrite Ep1. unfold announced. rewrite Hbk, Hbc.
      apply (Hsy (dc_key r) r); [apply (ty_row _ _ _ _ _ T)|apply (ty_enabled _ _ _ _ _ T)]. }
  apply wp_history.
  - intros e' _. split; [|by eexists]. apply (Htb (tw_history w1)).
  - intros h. apply wp_ret. by split.
Qed.
End Trying.

Lemma tune_key_turn config en connected rows metrics key target counts r w :
  rows !! key = Some r -> tw_config w !! key = Some r -> config_ok (tw_config w) -> key ∈ tuned_keys ->
  wp (tune_key show_f64 config en connected rows metrics (key, target) counts)
    (fun w' f => row_turn tuned en r w w' /\ errs f) w.
Proof.
  intros Er El Hok Hkey. pose proof (Hok _ _ El) as [Ek _ Hc _ _]. subst key.
  assert (Hsame : forall w', tw_config w' = tw_config w -> tw_published w' = tw_published w ->
    (tw_redis w = true -> tw_redis w' = true) -> row_turn tuned en r w w')
    by (intros; apply row_turn_same; [by left|done..]).
  unfold tune_key. destruct counts as [applied recommended]. rewrite Er.
  destruct (negb (dc_enabled r) || dc_pending_eval r) eqn:Eg; [apply wp_ret; split; [by apply Hsame|done]|].
  apply orb_false_iff in Eg as [Een Epe]. apply negb_false_iff in Een.
  destruct (planned_value r target) as [v|] eqn:Epl; [|apply wp_ret; split; [by apply Hsame|done]].
  destruct (apply_changes config); cycle 1.
  { apply wp_bind, wp_history; [intros e _|intros h; apply wp_ret]; (split; [|done || by eexists]); by apply Hsame. }
  unfold apply_change. apply wp_bind, wp_bind. eapply wp_exec_row; [exact El| |].
  { intros e _. split; [by apply Hsame|by eexists]. }
  intros a _ Eap Eaa. cbv beta iota.
  assert (T : trying r target v a w) by (split; try done; by do 3 eexists).
  destruct (trying_applied T) as (Eka & _ & Ev).
  apply wp_history.
  { intros e Hn. split; [|by eexists]. apply (trying_turn T); [done|done|]. intros Hq. exfalso.
    destruct (Hn (Hq (THistory (dc_key r)) ltac:(done))) as [H|H]; revert H.
    - by apply nullable_grid.
    - simpl. by rewrite Ev. }
  intros h. cbv beta iota. apply wp_bind. unfold publish_update.
  destruct (negb connected); [apply wp_ret; cbv beta iota; by apply (revert_turn T)|].
  destruct (te_fails en (TPublish (dc_key r))); [apply wp_ret; cbv beta iota; by apply (revert_turn T)|].
  repeat wp_step. split; [|done]. apply (trying_turn T); [done|done|].
  intros _ _ Hsy. eapply (synced_insert w _ (dc_key r) a); simpl; [|done| |intros _|done].
  - eapply (row_turn_ok tuned); [apply tuned_ok|done|exact El|]. apply (trying_tuned T); [done|by left].
  - right. eexists. split; [|reflexivity]. reflexivity.
  - exists v. by rewrite last_value_snoc, Eka, bool_decide_true.
Qed.

(** A [HashMap] is iterated in some order. *)
Definition orders en : Prop := forall l, te_order en l ≡ₚ l.

Lemma targets_tuned config t metrics regime key x :
  compute_targets config t metrics regime !! key = Some x -> key ∈ tuned_keys.
Proof.
  unfold compute_targets, insert_some, tuned_keys. intros H.
  repeat match type of H with
  | <[?k := _]> _ !! _ = _ => destruct (decide (key = k)) as [->|?];
      [set_solver|rewrite lookup_insert_ne in H by done]
  | match ?o with _ => _ end !! _ = _ => destruct o
  | ∅ !! _ = _ => by rewrite lookup_empty in H
  end.
Qed.

Lemma tune_rows_went config en connected metrics regime w :
  config_ok (tw_config w) -> orders en ->
  wp (tune_rows show_f64 config en connected (tw_config w) metrics regime)
    (fun w' f => went tuned en w w' /\
       match f with Go x => x = Ok tt | Return x => exists e, x = Err e end) w.
Proof.
  intros Hok Ho. unfold tune_rows.
  assert (Hrefl : went tuned en w w) by (apply went_same; [by left|done..]).
  set (targets := map_to_list (compute_targets config (tw_config w) metrics regime)).
  assert (Hkeys : forall kt, kt ∈ te_order en targets -> fst kt ∈ tuned_keys).
  { intros [k x] H. rewrite (Ho targets) in H. apply elem_of_map_to_list in H. by eapply targets_tuned. }
  assert (Hn : NoDup (te_order en targets).*1) by (rewrite (Ho targets); apply NoDup_fst_map_to_list).
  apply wp_bind. eapply (wp_fold_each (fun l _ w' => went tuned en w w' /\ NoDup l.*1 /\
    forall kt, kt ∈ l -> fst kt ∈ tuned_keys /\ tw_config w' !! fst kt = tw_config w !! fst kt)).
  - split; [done|]. split; [done|]. intros kt H. split; [by apply Hkeys|done].
  - intros [key target] l counts w1 (Hw & Hnl & Hl). rewrite fmap_cons in Hnl.
    apply NoDup_cons in Hnl as [Hx Hnl].
    destruct (Hl (key, target)) as [Hk El]; [apply list_elem_of_here|]. simpl in Hk, El.
    pose proof (moves_ok _ _ _ tuned_ok (we_moves _ _ _ _ Hw) Hok) as Hok1.
    destruct (tw_config w !! key) as [r|] eqn:Er; cycle 1.
    { unfold tune_key. destruct counts. rewrite Er. apply wp_ret. split; [done|]. split; [done|].
      intros kt H. by apply Hl, list_elem_of_further. }
    eapply wp_mono; [by eapply tune_key_turn|]. intros w2 f [Ht He].
    pose proof (ro_key _ _ (Hok _ _ Er)) as Ek.
    assert (Hw2 : went tuned en w w2) by (eapply row_turn_went; [by rewrite Ek|done|done]).
    destruct f; [|done]. split; [done|]. split; [done|]. intros kt H.
    destruct (Hl kt) as [H1 H2]; [by apply list_elem_of_further|]. split; [done|].
    destruct Ht as [(r' & _ & Ec) _ _]. rewrite Ec, lookup_insert_ne; [done|].
    intros E. apply Hx. simpl. rewrite <- Ek, E. by apply (list_elem_of_fmap_2 fst).
  - intros [applied recommended] w1 (Hw & _ & _). cbv beta iota.
    assert (Hend : forall w2, tw_config w2 = tw_config w1 -> tw_published w2 = tw_published w1 ->
      tw_redis w2 = tw_redis w1 -> went tuned en w w2).
    { intros w2 Ec Ep Ed. destruct Hw as [M D S]. split; [by rewrite Ec|by rewrite Ed|].
      intros Hq Hd Hs. eapply synced_same; [exact Ec|exact Ep|]. by apply S. }
    apply wp_bind, wp_when; intros _.
    + apply wp_history; [intros e _; split; [by apply Hend|by eexists]|]. intros h.
      unfold persist_runtime_state. repeat wp_step. split; [|done]. destruct (te_fails en TState); by apply Hend.
    + unfold persist_runtime_state. repeat wp_step. split; [|done]. destruct (te_fails en TState); by apply Hend.
Qed.
End Facts.
