(* ===== verification/ManualTuning.v ===== *)
(** * Tuning by hand

    Models the two endpoints of [crates/api-server/src/handlers/workspaces.rs]
    that write [dynamic_config]: [update_opportunity_selection_settings] and
    [update_arb_executor_config], from the checks of the caller to the answer.
    They work on the tables and the channel of [DynamicTuner.TunerWorld].  What
    comes from outside is a [ManualEnv]. *)

From stdpp Require Import pretty.
From S2P Require Import Prelude F64 Platform Handler Market CircuitBreaker Position PositionRepo.
From S2P Require Import Executor Signal Trading StrategyRisk ArbExecutor QuantExecutor.
From S2P Require Import DynamicConfig DynamicTuner.

Local Open Scope handler_scope.

(** The errors of the API, those of its libraries by their text. *)
Inductive ApiError : Type :=
| NotFound (m : string) | BadRequest (m : string) | Unauthorized (m : string)
| Forbidden (m : string) | Conflict (m : string) | Gone (m : string) | Validation (m : string)
| RateLimited | ServiceUnavailable (m : string) | Internal (m : string) | Database (m : string)
| Serialization (m : string) | JsonRejection (m : string).

(** [UserRole] of [crates/auth/src/jwt.rs]. *)
Inductive UserRole : Type := Viewer | Trader | PlatformAdmin.
#[export] Instance UserRole_eq_dec : EqDecision UserRole.
Proof. solve_decision. Defined.

Record UpdateOpportunitySelectionRequest : Type := {
  rq_aggressiveness : option string;
  rq_exploration_slots : option Z;
  rq_max_markets_cap : option Z;
}.
Record UpdateArbExecutorConfigRequest : Type := {
  rq_position_size : option f64;
  rq_min_net_profit : option f64;
  rq_min_book_depth : option f64;
  rq_max_signal_age_secs : option Z;
}.
Record OpportunitySelectionStatusResponse : Type := {
  rs_aggressiveness : string;
  rs_aggressiveness_level : f64;
  rs_exploration_slots : Z;
  rs_max_markets_cap : Z;
  rs_recommendation : string;
}.
Record ArbExecutorConfigResponse : Type := {
  rs_position_size : option f64;
  rs_min_net_profit : option f64;
  rs_min_book_depth : option f64;
  rs_max_signal_age_secs : option Z;
}.

Inductive ManualStep : Type :=
| MRole | MOld (key : string) | MWrite (key : string) | MHistory (key : string)
| MPublish (key : string) | MRead.

(** [x.round() as i64]. *)
Definition f64_as_i64 (x : f64) : Z :=
  match x with
  | SpecFloat.S754_infinity s => if s then (- 2 ^ 63)%Z else (2 ^ 63 - 1)%Z
  | _ => Z.max (- 2 ^ 63) (Z.min (2 ^ 63 - 1) (f64_trunc x))
  end.

Section ManualTuning.
Context `{DO : DecimalOps} `{CO : ChronoOps} `{UO : UuidOps} `{MJ : MetricsJson} `{NO : !NumericOps}.
Context `{SH : !DisplayOps}.
(** [d.to_string().parse::<i64>().ok()]. *)
Variable dec_parse_i64 : dec -> option Z.

Record ManualEnv : Type := {
  (** The claims: the subject is an identifier, and the role. *)
  me_subject_valid : bool;
  me_claims_role : UserRole;
  me_workspace_valid : bool;
  (** The caller's row in [workspace_members]. *)
  me_membership : option string;
  me_env : string -> option string;
  me_clock : string -> datetime;
  me_fails : ManualStep -> option string;
  me_rejected : string;
  (** What connecting to Redis says when it fails. *)
  me_connection_error : option string;
}.

Abbreviation World := TunerWorld.
Abbreviation answering A := (handler World (result A ApiError)).

(** A change to make: key, value and reason. *)
Definition Change : Type := string * dec * string.

Section Request.
Variable en : ManualEnv.

(** The identifiers are valid, and the caller's role in the workspace. *)
Definition caller_role {A} : answering A string :=
  when (negb (me_subject_valid en)) (return_ (Err (Internal "Invalid user ID"))) ;;
  when (negb (me_workspace_valid en)) (return_ (Err (BadRequest "Invalid workspace ID format"))) ;;
  match me_fails en MRole with
  | Some e => return_ (Err (Database e))
  | None => match me_membership en with
            | None => return_ (Err (Forbidden "Not a member of this workspace"))
            | Some role => ret role
            end
  end.

(** A statement on the tables. *)
Definition manual_exec {A} (step : ManualStep) (f : World -> option World) : answering A unit :=
  let! w := get_state in
  match me_fails en step, f w with
  | Some e, _ => return_ (Err (Database e))
  | None, None => return_ (Err (Database (me_rejected en)))
  | None, Some w => modify (fun _ => w)
  end.

(** The row a manual change inserts; [EXCLUDED] of its statement. *)
Definition manual_row (key : string) (v lo hi step : dec) (reason : string) : option DynamicConfigRow :=
  v ← value_column v; lo ← value_column lo; hi ← value_column hi; step ← step_column step;
  Some {| dc_key := key; dc_current_value := v; dc_default_value := v; dc_min_value := lo;
          dc_max_value := hi; dc_max_step_pct := step; dc_enabled := true; dc_last_good_value := v;
          dc_pending_eval := false; dc_pending_baseline := None; dc_last_applied_at := None;
          dc_last_reason := Some reason; dc_updated_by := "workspace_manual" |}.
(** What it makes of a row that is there, with or without new bounds. *)
Definition overwrite (with_bounds : bool) (ex r : DynamicConfigRow) : DynamicConfigRow :=
  let r := if with_bounds
           then {| r with dc_min_value := dc_min_value ex; dc_max_value := dc_max_value ex;
                          dc_max_step_pct := dc_max_step_pct ex |}
           else r in
  {| r with dc_current_value := dc_current_value ex; dc_last_good_value := dc_last_good_value ex;
            dc_pending_eval := false; dc_pending_baseline := None; dc_last_applied_at := None;
            dc_updated_by := "workspace_manual"; dc_last_reason := dc_last_reason ex |}.

Definition write_change {A} (with_bounds clamped : bool) (bounds : string -> option (dec * dec * dec))
    (c : Change) : answering A unit :=
  let '(key, value, reason) := c in
  let! w := get_state in
  let old := dc_current_value <$> tw_config w !! key in
  match me_fails en (MOld key), bounds key with
  | Some e, _ => return_ (Err (Database e))
  | None, None => return_ (Err (Internal ("Unsupported dynamic config key: " +:+ key)))
  | None, Some (lo, hi, step) =>
      let value := if clamped then dec_min (dec_max value lo) hi else value in
      manual_exec (MWrite key) (fun w =>
        ex ← manual_row key value lo hi step reason;
        t ← upsert_config key (Some ex) (fun r => Some (overwrite with_bounds ex r)) (tw_config w);
        Some {| w with tw_config := t |}) ;;
      manual_exec (MHistory key) (fun w =>
        old ← nullable_column old; new ← value_column value;
        Some {| w with tw_history := tw_history w ++
          [{| hr_config_key := Some key; hr_old_value := old; hr_new_value := Some new;
              hr_action := "manual_update"; hr_reason := reason; hr_metrics_snapshot := None;
              hr_outcome_metrics := None |}] |})
  end.

(** The publishing stops at the first failure, which is returned. *)
Definition publish_change {A} (c : Change) : answering A unit :=
  let '(key, value, reason) := c in
  match me_fails en (MPublish key) with
  | Some e => return_ (Err (Internal
      ("Failed publishing dynamic config updates to runtime subscribers: " +:+ e)))
  | None => modify (fun w => {| w with tw_published := tw_published w ++
      [{| du_key := key; du_value := value; du_reason := reason; du_source := "workspace_manual";
          du_timestamp := me_clock en key |}] |})
  end.
Definition publish_manual_dynamic_updates {A} (changes : list Change) : answering A unit :=
  match me_connection_error en with
  | Some e => return_ (Err (Internal
      ("Failed publishing dynamic config updates to runtime subscribers: " +:+ e)))
  | None => for_each publish_change changes
  end.

(** The fresh rows. *)
Definition read_back {A} : answering A ConfigTable :=
  let! w := get_state in
  match me_fails en MRead with
  | Some e => return_ (Err (Database e))
  | None => ret (tw_config w)
  end.

(** ** The arbitrage executor's thresholds *)

Definition arb_executor_dynamic_bounds (key : string) : option (dec * dec * dec) :=
  if bool_decide (key = KEY_ARB_POSITION_SIZE) then Some (dec_new 5 0, dec_new 25 0, dec_new 20 2)
  else if bool_decide (key = KEY_ARB_MIN_NET_PROFIT) then Some (dec_new 5 4, dec_new 5 2, dec_new 15 2)
  else if bool_decide (key = KEY_ARB_MIN_BOOK_DEPTH) then Some (dec_new 10 0, dec_new 200 0, dec_new 20 2)
  else if bool_decide (key = KEY_ARB_MAX_SIGNAL_AGE_SECS)
  then Some (dec_new 5 0, dec_new 300 0, dec_new 25 2)
  else None.

(** A requested value, clamped to the bounds of its key. *)
Definition clamped_change {A} (key field : string) (v : dec) : answering A Change :=
  match arb_executor_dynamic_bounds key with
  | None => attempt None
  | Some (lo, hi, _) =>
      let v := dec_min (dec_max v lo) hi in
      ret (key, v, "manual workspace update: " +:+ field +:+ "=" +:+ show_dec v)
  end.
Definition float_change {A} (key field : string) (v : option f64) : answering A (list Change) :=
  match v with
  | None => ret []
  | Some v =>
      match dec_from_f64_retain v with
      | None => return_ (Err (BadRequest ("Invalid " +:+ field)))
      | Some v => let! c := clamped_change key field v in ret [c]
      end
  end.

Definition arb_changes {A} (req : UpdateArbExecutorConfigRequest) : answering A (list Change) :=
  let! size := float_change KEY_ARB_POSITION_SIZE "position_size" (rq_position_size req) in
  let! profit := float_change KEY_ARB_MIN_NET_PROFIT "min_net_profit" (rq_min_net_profit req) in
  let! depth := float_change KEY_ARB_MIN_BOOK_DEPTH "min_book_depth" (rq_min_book_depth req) in
  let! age := match rq_max_signal_age_secs req with
              | None => ret []
              | Some v => let! c := clamped_change KEY_ARB_MAX_SIGNAL_AGE_SECS "max_signal_age_secs"
                                      (dec_new v 0) in ret [c]
              end in
  ret (size ++ profit ++ depth ++ age).

Definition arb_answer (rows : ConfigTable) : ArbExecutorConfigResponse :=
  let find_f64 key := (fun r => decimal_to_f64 (dc_current_value r)) <$> rows !! key in {|
  rs_position_size := find_f64 KEY_ARB_POSITION_SIZE;
  rs_min_net_profit := find_f64 KEY_ARB_MIN_NET_PROFIT;
  rs_min_book_depth := find_f64 KEY_ARB_MIN_BOOK_DEPTH;
  rs_max_signal_age_secs :=
    r ← rows !! KEY_ARB_MAX_SIGNAL_AGE_SECS; dec_parse_i64 (dc_current_value r) |}.

Definition update_arb_executor_config (req : UpdateArbExecutorConfigRequest)
    : answering ArbExecutorConfigResponse (result ArbExecutorConfigResponse ApiError) :=
  let! role := caller_role in
  when (negb (bool_decide (role = "owner")) && negb (bool_decide (role = "admin")))
    (return_ (Err (Forbidden "Only workspace owners/admins can update arb executor config"))) ;;
  match rq_position_size req, rq_min_net_profit req, rq_min_book_depth req, rq_max_signal_age_secs req with
  | None, None, None, None => return_ (Err (BadRequest "Provide at least one field to update"))
  | _, _, _, _ =>
      let! changes := arb_changes req in
      for_each (write_change false false arb_executor_dynamic_bounds) changes ;;
      publish_manual_dynamic_updates changes ;;
      let! rows := read_back in
      ret (Ok (arb_answer rows))
  end.

(** ** The selection of opportunities *)

Definition aggressiveness_to_level (value : string) : option f64 :=
  let v := string_lower (string_trim value) in
  if bool_decide (v = "stable") || bool_decide (v = "conservative") then Some f64_zero
  else if bool_decide (v = "balanced") then Some f64_one
  else if bool_decide (v = "discovery") || bool_decide (v = "aggressive") then Some (f64_of_Z 2)
  else None.
Definition aggressiveness_label (level : f64) : string :=
  if f64_leb level (f64_lit 5 10) then "stable"
  else if f64_leb (f64_lit 15 10) level then "discovery" else "balanced".
Definition env_level (env : string -> option string) : f64 :=
  let level := string_lower (default "balanced" (env "ARB_MONITOR_AGGRESSIVENESS")) in
  if bool_decide (level = "stable") || bool_decide (level = "conservative") then f64_zero
  else if bool_decide (level = "discovery") || bool_decide (level = "aggressive") then f64_of_Z 2
  else f64_one.
Definition env_f64 (env : string -> option string) (key : string) (d : f64) : f64 :=
  default d (env key ≫= FloatParse.parse_f64).

Definition opportunity_dynamic_bounds (key : string) : option (dec * dec * dec) :=
  if bool_decide (key = KEY_ARB_MONITOR_MAX_MARKETS)
  then Some (dec_new 25 0, dec_new 1500 0, dec_new 15 2)
  else if bool_decide (key = KEY_ARB_MONITOR_EXPLORATION_SLOTS)
  then Some (dec_new 1 0, dec_new 500 0, dec_new 25 2)
  else if bool_decide (key = KEY_ARB_MONITOR_AGGRESSIVENESS_LEVEL)
  then Some (ZERO, dec_new 2 0, dec_new 100 2)
  else None.

Definition range_change {A} (key field : string) (lo hi : Z) (v : option Z)
    : answering A (list Change) :=
  match v with
  | None => ret []
  | Some v =>
      if (lo <=? v)%Z && (v <=? hi)%Z
      then ret [(key, dec_new v 0, "manual workspace update: " +:+ field +:+ "=" +:+ pretty v)]
      else return_ (Err (BadRequest (field +:+ " must be between " +:+ pretty lo +:+ " and " +:+ pretty hi)))
  end.

Definition selection_changes {A} (req : UpdateOpportunitySelectionRequest)
    : answering A (list Change) :=
  let! level := match rq_aggressiveness req with
    | None => ret []
    | Some a =>
        match aggressiveness_to_level a with
        | None => return_ (Err (BadRequest "Aggressiveness must be stable, balanced, or discovery"))
        | Some level => ret [(KEY_ARB_MONITOR_AGGRESSIVENESS_LEVEL,
                              default (dec_new 1 0) (dec_from_f64_retain level),
                              "manual workspace update: aggressiveness=" +:+ a)]
        end
    end in
  let! slots := range_change KEY_ARB_MONITOR_EXPLORATION_SLOTS "exploration_slots" 1 500
                  (rq_exploration_slots req) in
  let! cap := range_change KEY_ARB_MONITOR_MAX_MARKETS "max_markets_cap" 25 1500
                (rq_max_markets_cap req) in
  ret (level ++ slots ++ cap).

Definition selection_answer (rows : ConfigTable) : OpportunitySelectionStatusResponse :=
  let find key d := default d ((fun r => decimal_to_f64 (dc_current_value r)) <$> rows !! key) in
  let level := find KEY_ARB_MONITOR_AGGRESSIVENESS_LEVEL (env_level (me_env en)) in
  let label := aggressiveness_label level in {|
  rs_aggressiveness := label;
  rs_aggressiveness_level := level;
  rs_exploration_slots := f64_as_i64 (f64_round (find KEY_ARB_MONITOR_EXPLORATION_SLOTS
    (env_f64 (me_env en) KEY_ARB_MONITOR_EXPLORATION_SLOTS (f64_of_Z 5))));
  rs_max_markets_cap := f64_as_i64 (f64_round (find KEY_ARB_MONITOR_MAX_MARKETS
    (env_f64 (me_env en) KEY_ARB_MONITOR_MAX_MARKETS (f64_of_Z 300))));
  rs_recommendation :=
    if bool_decide (label = "stable") then "Lower discovery, more stable execution."
    else if bool_decide (label = "discovery") then "Higher discovery, more rotation and churn."
    else "Balanced discovery and stability." |}.

Definition update_opportunity_selection_settings (req : UpdateOpportunitySelectionRequest)
    : answering OpportunitySelectionStatusResponse (result OpportunitySelectionStatusResponse ApiError) :=
  let! role := caller_role in
  when (negb (bool_decide (role = "owner")))
    (return_ (Err (Forbidden "Only workspace owner can update opportunity selection settings"))) ;;
  when (negb (bool_decide (me_claims_role en = PlatformAdmin)) && negb (bool_decide (role = "owner")))
    (return_ (Err (Forbidden
       "Only platform admins or workspace owners can update global opportunity selection settings"))) ;;
  match rq_aggressiveness req, rq_exploration_slots req, rq_max_markets_cap req with
  | None, None, None => return_ (Err (BadRequest "Provide at least one field to update"))
  | _, _, _ =>
      let! changes := selection_changes req in
      for_each (write_change true true opportunity_dynamic_bounds) changes ;;
      publish_manual_dynamic_updates changes ;;
      let! rows := read_back in
      ret (Ok (selection_answer rows))
  end.
End Request.

(** ** The tuner and the endpoints together *)

Variable show_f64 : nat -> f64 -> string.
Variable config : DynamicTunerConfig.
Variable environment : string -> option string.

(** A start of the tuner, one of its ticks, or a request. *)
Inductive tuning_input : Type :=
| TunerStarts (en : TuneEnv)
| TunerTicks (en : TuneEnv)
| ArbRequest (en : ManualEnv) (req : UpdateArbExecutorConfigRequest)
| SelectionRequest (en : ManualEnv) (req : UpdateOpportunitySelectionRequest).

Definition tuning_turn (i : tuning_input) (w : World) : option World :=
  match i with
  | TunerStarts en => fst <$> tuner_begin config environment en w
  | TunerTicks en => fst <$> tuner_tick show_f64 config environment en w
  | ArbRequest en req => fst <$> run_handler (update_arb_executor_config en req) w
  | SelectionRequest en req => fst <$> run_handler (update_opportunity_selection_settings en req) w
  end.
Definition tuning_loop (inputs : list tuning_input) (w : World) : option World :=
  foldl (fun o i => w ← o; tuning_turn i w) (Some w) inputs.
End ManualTuning.
