(* ===== verification/TuningFacts.v ===== *)
(** * Properties of tuning

    What a tick of the tuner may change; that the table stays settled over any
    run of the tuner and the endpoints; and when what the subscribers were told
    is what the table says. *)

From stdpp Require Import sorting pretty.
From S2P Require Import Prelude F64 FloatParse Platform Handler Market CircuitBreaker Position.
From S2P Require Import PositionRepo Executor ExecutorFacts Signal Trading StrategyRisk ArbExecutor.
From S2P Require Import QuantExecutor DynamicConfig DynamicConfigFacts DynamicTuner ManualTuning.
From S2P Require Import DynamicTunerFacts.

Local Open Scope handler_scope.

Section Facts.
Context `{DO : DecimalOps} `{CO : ChronoOps} `{UO : UuidOps} `{MJ : MetricsJson} `{NO : !NumericOps}.
Context `{SH : !DisplayOps} {DS : DecimalSpec} {NS : NumericSpec}.
Variable dec_parse_i64 : dec -> option Z.
Variable show_f64 : nat -> f64 -> string.
Implicit Types (w : TunerWorld) (en : TuneEnv) (t : ConfigTable) (r : DynamicConfigRow).
Abbreviation T_post A := (TunerWorld -> flow (result unit string) A -> Prop).

(** ** The cycle *)

Lemma wp_load_rows en step (Q : T_post (list DynamicConfigRow)) w :
  (forall e, te_fails en step = Some e -> Q w (Return (Err e))) ->
  Q w (Go (rows_by_key (tw_config w))) -> wp (load_rows en step) Q w.
Proof.
  intros H1 H2. unfold load_rows. apply wp_bind, wp_get. cbv beta iota.
  destruct (te_fails en step); [apply wp_return; auto|by apply wp_ret].
Qed.

Lemma breaker_drawdown_returns s : is_Some (breaker_drawdown s).
Proof.
  unfold breaker_drawdown. destruct (_ >? _)%dec eqn:E; [|by eexists]. dec_to_Q.
  destruct (dec_div_pos_some (peak_value s - current_value s)%dec (peak_value s) E) as [q Eq].
  rewrite Eq. simpl. by eexists.
Qed.

Lemma wp_collect_metrics config en connected (Q : T_post TuningMetrics) w :
  (forall e, te_fails en TPnl = Some e -> Q w (Return (Err e))) ->
  (forall m, cb_tripped m = tripped (te_breaker en) -> Q w (Go m)) ->
  wp (collect_metrics config en connected) Q w.
Proof.
  intros H1 H2. unfold collect_metrics. destruct (attempts_and_fills config en) as [a f].
  destruct (te_fails en TPnl); [apply wp_return; auto|].
  destruct (default _ (te_opportunities en)) as [dp ev].
  destruct (breaker_drawdown_returns (te_breaker en)) as [dd Ed].
  apply wp_bind. eapply wp_attempt; [exact Ed|]. apply wp_ret. by apply H2.
Qed.

(** Seeding keeps the table settled and takes no row away. *)
Lemma seeded_grid s v ex : seeded_row s v = Some ex ->
  dc_key ex = sd_key s /\ dc_pending_eval ex = false /\ dc_current_value ex = dc_default_value ex /\
  dc_last_good_value ex = dc_default_value ex /\
  Forall (fun x => value_column x = Some x) [dc_default_value ex; dc_min_value ex; dc_max_value ex].
Proof.
  unfold seeded_row. destruct (value_column v) as [v'|] eqn:E1; [|done].
  destruct (value_column (sd_min_value s)) as [lo|] eqn:E2; [|done].
  destruct (value_column (sd_max_value s)) as [hi|] eqn:E3; [|done].
  destruct (step_column _) as [st|]; [|done]. intros [= <-]. simpl. split_and!; try done.
  repeat constructor; by eapply numeric_idem.
Qed.

Lemma seed_statement_ok s t t' :
  config_ok t -> seed_statement s t = Some t' ->
  config_ok t' /\ (forall key, is_Some (t !! key) -> is_Some (t' !! key)).
Proof.
  intros Ht. unfold seed_statement. destruct (seeded_row _ _) as [ex|] eqn:Ex; [|done].
  apply seeded_grid in Ex as (Ek & Ep & Ec & El & Hg).
  apply Forall_cons in Hg as [Hd Hg]. apply Forall_cons in Hg as [Hlo Hg]. apply Forall_cons in Hg as [Hhi _].
  simpl. unfold upsert_config, store_row.
  assert (Hins : forall r, row_ok (sd_key s) r -> config_ok (<[sd_key s := r]> t) /\
    (forall key, is_Some (t !! key) -> is_Some (<[sd_key s := r]> t !! key))).
  { intros r Hr. split.
    - intros k x Hx. destruct (decide (k = sd_key s)) as [->|Hne];
        [rewrite lookup_insert_eq in Hx; by injection Hx as <-|].
      rewrite lookup_insert_ne in Hx by done. by apply Ht.
    - intros k Hk. destruct (decide (k = sd_key s)) as [->|Hne];
        [rewrite lookup_insert_eq; by eexists|by rewrite lookup_insert_ne]. }
  destruct (t !! sd_key s) as [r|] eqn:Er; simpl; destruct (row_allowed _) eqn:Ea; try done;
    intros [= <-]; apply Hins.
  - pose proof (Ht _ _ Er) as [Hk _ Hc Hl Hs].
    assert (Hclamp : forall v, value_column v = Some v ->
      value_column (dec_min (dec_max v (dc_min_value ex)) (dc_max_value ex)) =
        Some (dec_min (dec_max v (dc_min_value ex)) (dc_max_value ex))).
    { intros v Hv. unfold dec_min, dec_max. repeat case_match; done. }
    split; [done|done| | |]; simpl; (case_bool_decide; [done|]); [by apply Hclamp..|].
    intros Hp. by rewrite Hs.
  - split; [done|done|by rewrite Ec|by rewrite El|]. intros _. by rewrite Ec, El.
Qed.

(** What keeps rows, the channel and the connection, and the table settled. *)
Record seeded w w' : Prop := {
  se_ok : config_ok (tw_config w) -> config_ok (tw_config w');
  se_rows : forall key, is_Some (tw_config w !! key) -> is_Some (tw_config w' !! key);
  se_published : tw_published w' = tw_published w;
  se_redis : tw_redis w' = tw_redis w;
}.
Lemma seed_defaults_seeded environment en w :
  wp (seed_defaults environment en) (fun w' f => (config_ok (tw_config w) -> seeded w w') /\ errs f) w.
Proof.
  unfold seed_defaults.
  apply (wp_for_each (fun w' => config_ok (tw_config w) -> seeded w w')); [by split| |by split].
  intros s w1 _ H. unfold exec_config. apply wp_exec.
  - intros e _. split; [done|by eexists].
  - intros _ _. split; [done|by eexists].
  - intros w2 _ E Hok. destruct (H Hok) as [H1 H2 H3 H4].
    destruct (seed_statement s (tw_config w1)) as [t|] eqn:Et; [|done]. injection E as <-.
    destruct (seed_statement_ok s _ _ (H1 Hok) Et) as [Hok2 Hin2].
    split; simpl; auto.
Qed.

Lemma initial_rows_spec environment en w :
  config_ok (tw_config w) ->
  wp (initial_rows environment en) (fun w' f => config_ok (tw_config w') /\
    (tw_config w <> ∅ -> w' = w) /\ tw_redis w' = tw_redis w /\
    match f with
    | Go rows => rows = rows_by_key (tw_config w')
    | Return x => exists e, x = Err e
    end) w.
Proof.
  intros Hok. unfold initial_rows. apply wp_bind, wp_load_rows; [intros e _; split_and!; [done..|by eexists]|].
  cbv beta iota. destruct (rows_by_key (tw_config w)) as [|x l] eqn:E; cycle 1.
  { apply wp_ret. split_and!; done. }
  pose proof (proj1 (rows_nil _) E) as Enil.
  apply wp_bind. eapply wp_mono; [apply seed_defaults_seeded|]. intros w1 f [Hs He].
  destruct (Hs Hok) as [Hok1 _ _ Hd]. specialize (Hok1 Hok).
  destruct f; [|by split_and!]. apply wp_load_rows; [|by split_and!].
  intros e _. split_and!; [done..|by eexists].
Qed.

(** What a cycle may make of a row. *)
Definition cycled r r' : Prop := exists m, evaluated r m /\ tuned m r'.
Lemma cycled_refl r : cycled r r.
Proof. exists r. by split; left. Qed.
Lemma evaluated_cycled r r' : evaluated r r' -> cycled r r'.
Proof. intros H. exists r'. split; [done|by left]. Qed.

(** What a cycle does from a settled table with rows. *)
Record cycle_turn en w w' : Prop := {
  ct_went : went cycled en w w';
  ct_frozen : tripped (te_breaker en) = true -> moves evaluated (tw_config w) (tw_config w');
}.
Lemma cycle_turn_same en w w' :
  tw_config w' = tw_config w -> tw_published w' = tw_published w ->
  (tw_redis w = true -> tw_redis w' = true) -> cycle_turn en w w'.
Proof.
  intros Ec Ep Er. split; [apply went_same; [apply cycled_refl|done..]|]. intros _. rewrite Ec.
  apply moves_refl. by left.
Qed.
Lemma cycle_turn_after en w w1 w' :
  tw_config w1 = tw_config w -> tw_published w1 = tw_published w ->
  (tw_redis w = true -> tw_redis w1 = true) -> cycle_turn en w1 w' -> cycle_turn en w w'.
Proof.
  intros Ec Ep Er [[M D S] F]. rewrite Ec in M, F. split; [split; [done|auto|]|done].
  intros Hq Hd Hs. apply S; [done|auto|]. by eapply synced_same.
Qed.
(** The announcements, the history and the state of the tuner do not matter. *)
Lemma cycle_turn_before en w w1 w' :
  tw_config w' = tw_config w1 -> tw_published w' = tw_published w1 -> tw_redis w' = tw_redis w1 ->
  cycle_turn en w w1 -> cycle_turn en w w'.
Proof.
  intros Ec Ep Er [[M D S] F]. rewrite <- Ec in M, F. split; [split; [done|by rewrite Er|]|done].
  intros Hq Hd Hs. eapply synced_same; [exact Ec|exact Ep|]. by apply S.
Qed.
Lemma evaluated_turn en w w' : went evaluated en w w' -> cycle_turn en w w'.
Proof.
  intros [M D S]. split; [split; [|done|done]|done]. intros key. specialize (M key).
  destruct M; constructor. by apply evaluated_cycled.
Qed.

(** The cycle after its metrics: evaluation, then the freeze or the targets. *)
Lemma decide_spec config en connected metrics regime rows w :
  config_ok (tw_config w) -> orders en -> rows = rows_by_key (tw_config w) ->
  cb_tripped metrics = tripped (te_breaker en) ->
  wp (evaluate_pending show_f64 config en (te_clock en TEvaluate) rows metrics ;;
      let! rows := load_rows en TRefresh in
      if is_frozen config metrics then
        record_history en TFrozen None None None "frozen" freeze_reason (Some metrics) None ;;
        persist_runtime_state en "frozen" freeze_reason (Some metrics) ;;
        ret (Ok tt)
      else tune_rows show_f64 config en connected (by_key_map rows) metrics regime)
    (fun w' _ => cycle_turn en w w') w.
Proof.
  intros Hok Ho -> Hcb. apply wp_bind. eapply wp_mono.
  { apply evaluate_pending_went; [done|]. split; [by apply rows_nodup|].
    rewrite Forall_forall. intros r Hr. by split; apply elem_of_rows. }
  intros w1 f [Hw _]. destruct f; [|by apply evaluated_turn].
  pose proof (moves_ok _ _ _ evaluated_ok (we_moves _ _ _ _ Hw) Hok) as Hok1.
  apply wp_bind, wp_load_rows; [intros; by apply evaluated_turn|]. cbv beta iota.
  destruct (is_frozen config metrics) eqn:Ef.
  - apply wp_bind, wp_history; [intros; by apply evaluated_turn|]. intros h. cbv beta iota.
    unfold persist_runtime_state. repeat wp_step.
    eapply cycle_turn_before; [| | |by apply evaluated_turn]; by destruct (te_fails en TState).
  - rewrite by_key_rows by done. eapply wp_mono; [by apply tune_rows_went|]. intros w2 f [Hw2 _].
    split.
    + eapply went_trans; [|exact Hw|exact Hw2]. intros r m r' H1 H2. by exists m.
    + unfold is_frozen in Ef. apply orb_false_iff in Ef as [Ef _]. congruence.
Qed.

Lemma run_cycle_spec config environment en w :
  config_ok (tw_config w) -> orders en ->
  wp (run_cycle show_f64 config environment en) (fun w' _ => config_ok (tw_config w') /\
    (tw_config w <> ∅ -> cycle_turn en w w')) w.
Proof.
  intros Hok Ho. unfold run_cycle. apply wp_bind. unfold redis_connection. apply wp_update.
  intros w1 connected Hc. cbv beta iota.
  assert (E1 : tw_config w1 = tw_config w /\ tw_published w1 = tw_published w /\
    (tw_redis w = true -> tw_redis w1 = true)).
  { destruct (tw_redis w) eqn:Ed; injection Hc as <- _; split_and!; done. }
  clear Hc. destruct E1 as (Ec & Ep & Er).
  apply wp_bind. eapply wp_mono; [apply initial_rows_spec; by rewrite Ec|]. rewrite Ec.
  intros w2 f (Hok2 & Hw2 & Hd2 & Hf).
  assert (Hsame : tw_config w <> ∅ -> cycle_turn en w w2).
  { intros Hne. rewrite Hw2 by done. by apply cycle_turn_same. }
  destruct f as [rows|r]; [|done]. cbv beta iota. apply wp_bind.
  apply wp_collect_metrics; [intros; by split|]. intros metrics Hcb. cbv beta iota.
  apply wp_bind. unfold observe_regime. apply wp_update. intros w3 regime Hr. cbv beta iota zeta.
  assert (E3 : tw_config w3 = tw_config w2 /\ tw_published w3 = tw_published w2 /\ tw_redis w3 = tw_redis w2)
    by (by injection Hr as <- _).
  clear Hr. destruct E3 as (Ec3 & Ep3 & Ed3).
  eapply wp_mono; [apply decide_spec; [by rewrite Ec3|done|by rewrite Ec3|exact Hcb]|].
  intros w4 f Ht. split.
  - eapply moves_ok; [|apply (we_moves _ _ _ _ (ct_went _ _ _ Ht))|by rewrite Ec3].
    intros key r r' Hr (m & H1 & H2). eapply tuned_ok; [|exact H2]. by eapply evaluated_ok.
  - intros Hne. apply Hw2 in Hne as ->. eapply cycle_turn_after; [| | |exact Ht]; [congruence|congruence|].
    rewrite Ed3. done.
Qed.

(** *** The whole tick *)

Lemma tuner_tick_spec config environment en w :
  config_ok (tw_config w) -> orders en ->
  exists w', fst <$> tuner_tick show_f64 config environment en w = Some w' /\
    config_ok (tw_config w') /\ (tw_config w <> ∅ -> cycle_turn en w w').
Proof.
  intros Hok Ho.
  assert (H : wp (tuner_tick show_f64 config environment en) (fun w' _ => config_ok (tw_config w') /\
    (tw_config w <> ∅ -> cycle_turn en w w')) w).
  { unfold tuner_tick. apply wp_bind, wp_call. eapply wp_mono; [by apply run_cycle_spec|].
    intros w1 f H1. cbv beta iota. destruct (match f with Go r | Return r => r end); [by apply wp_ret|].
    apply wp_bind, wp_call, wp_bind. unfold persist_runtime_state. repeat wp_step.
    destruct (te_fails en TState); [done|]. destruct H1 as [H1 H2]. split; [done|]. intros Hne.
    apply (cycle_turn_before en w w1); [done..|]. by apply H2. }
  unfold wp in H. destruct (tuner_tick _ _ _ _ _) as [[w' f]|]; [|done]. by exists w'.
Qed.

(** A tick of the tuner is total and moves a value only where it may: every
    row stays, with its bounds; its value and its last good value change only
    by the evaluation of a pending change, which rolls it back or accepts it, or
    by applying the planned value of one of the four tuned keys to an enabled
    row without a pending change, or reverting that; and when the breaker is
    tripped nothing is applied at all. *)
Theorem tick_moves config environment en w :
  config_ok (tw_config w) -> orders en -> tw_config w <> ∅ ->
  exists w', fst <$> tuner_tick show_f64 config environment en w = Some w' /\
    moves cycled (tw_config w) (tw_config w') /\
    (tripped (te_breaker en) = true -> moves evaluated (tw_config w) (tw_config w')).
Proof.
  intros Hok Ho Hne. destruct (tuner_tick_spec config environment en w Hok Ho) as (w' & E & _ & H).
  exists w'. destruct (H Hne) as [[M _ _] F]. by split_and!.
Qed.

(** ** The start *)

(** Everything answers. *)
Definition served en : Prop := (forall step, te_fails en step = None) /\ te_connects en TConnect = true.

Lemma announced_snoc t l u r :
  (forall r, r = u -> value_column (dc_current_value r) = Some (dc_current_value r)) ->
  t !! dc_key u = Some u -> t !! dc_key r = Some r ->
  forall m : DynamicConfigUpdate, du_key m = dc_key u -> du_value m = dc_current_value u ->
  r = u \/ announced l r -> announced (l ++ [m]) r.
Proof.
  intros Hu Eu Er m Ek Ev H. unfold announced. rewrite last_value_snoc, Ek.
  destruct (decide (dc_key u = dc_key r)) as [E|E].
  - rewrite bool_decide_true by done. rewrite E in Eu. assert (r = u) as -> by congruence.
    exists (dc_current_value u). rewrite Ev. split; [done|by apply Hu].
  - rewrite bool_decide_false by done. by destruct H as [->|H].
Qed.

Lemma snapshot_announces en w :
  config_ok (tw_config w) ->
  wp (publish_current_snapshot en) (fun w' _ => tw_config w' = tw_config w /\
    (served en -> synced w' /\ tw_redis w' = true)) w.
Proof.
  intros Hok. unfold publish_current_snapshot. apply wp_bind. unfold redis_connection. apply wp_update.
  intros w1 c Hc. cbv beta iota.
  assert (E1 : tw_config w1 = tw_config w /\ (served en -> c = true /\ tw_redis w1 = true)).
  { destruct (tw_redis w) eqn:Ed; injection Hc as <- <-; (split; [done|]); intros [_ H]; by split. }
  clear Hc. destruct E1 as [Ec Hc].
  apply wp_bind, wp_load_rows.
  { intros e He. split; [done|]. intros [Hs _]. by rewrite Hs in He. }
  cbv beta iota. set (I := fun rest w' => tw_config w' = tw_config w /\
    Forall (fun r => tw_config w !! dc_key r = Some r) rest /\
    (served en -> tw_redis w' = true /\ forall key r, tw_config w !! key = Some r -> dc_enabled r = true ->
      r ∈ rest \/ announced (tw_published w') r)).
  apply (wp_for_each_rest I).
  - unfold I. rewrite Ec. split_and!; [done| |].
    + rewrite Forall_forall. intros r Hr. rewrite list_elem_of_In in Hr. apply List.filter_In in Hr as [Hr _].
      rewrite <- list_elem_of_In in Hr. by apply elem_of_rows.
    + intros Hs. destruct (Hc Hs) as [_ Hd]. split; [done|]. intros key r Er He. left.
      rewrite list_elem_of_In. apply List.filter_In. split; [|done].
      rewrite <- list_elem_of_In. by eapply rows_elem_of.
  - intros r rest w2 (E2 & Hf & Hs). apply Forall_cons in Hf as [Hr Hf].
    apply wp_bind. unfold publish_update. destruct (negb c) eqn:En.
    { apply wp_ret. cbv beta iota. split; [done|]. intros Hse. destruct (Hc Hse) as [-> _]. done. }
    destruct (te_fails en (TSync (dc_key r))) as [e|] eqn:Ef.
    { apply wp_ret. cbv beta iota. split; [done|]. intros [Hse _]. by rewrite Hse in Ef. }
    repeat wp_step. unfold I. simpl. split_and!; [done|done|]. intros Hse. destruct (Hs Hse) as [Hd Ha].
    split; [done|]. intros key x Ex Hx.
    pose proof (ro_key _ _ (Hok _ _ Ex)) as Ekx.
    assert (Hann : x = r \/ announced (tw_published w2) x -> announced (tw_published w2 ++
      [message en (TSync (dc_key r)) (dc_key r) (dc_current_value r) "startup sync" "dynamic_tuner_sync"]) x).
    { eapply (announced_snoc (tw_config w)); [|exact Hr|by rewrite Ekx|done|done].
      intros y ->. apply (ro_current _ _ (Hok _ _ Hr)). }
    destruct (Ha key x Ex Hx) as [Hin|Hin]; [|right; by apply Hann; right].
    apply elem_of_cons in Hin as [->|Hin]; [right; by apply Hann; left|by left].
  - intros w2 (E2 & _ & Hs). split; [done|]. intros Hse. destruct (Hs Hse) as [Hd Ha]. split; [|done].
    intros key r Er He. rewrite E2 in Er. destruct (Ha key r Er He) as [Hin|]; [|done]. by apply elem_of_nil in Hin.
Qed.

Lemma tuner_begin_spec config environment en w :
  config_ok (tw_config w) ->
  wp (tuner_begin config environment en) (fun w' f => config_ok (tw_config w') /\
    (tw_config w <> ∅ -> tw_config w' <> ∅) /\
    (dt_enabled config = true -> f = Go true /\ (served en -> synced w' /\ tw_redis w' = true))) w.
Proof.
  intros Hok. unfold tuner_begin. destruct (dt_enabled config) eqn:Een; simpl negb; cbv iota; cycle 1.
  { apply wp_bind, wp_call, wp_bind. unfold persist_runtime_state. repeat wp_step.
    destruct (te_fails en TState); by split_and!. }
  apply wp_bind, wp_call, wp_bind. eapply wp_mono; [apply seed_defaults_seeded|].
  intros w1 f [Hs _]. destruct (Hs Hok) as [Hok1 Hin _ _]. specialize (Hok1 Hok).
  assert (Hne : tw_config w <> ∅ -> tw_config w1 <> ∅).
  { intros (key & r & Er)%map_choose E. destruct (Hin key) as [x Ex]; [by eexists|].
    by rewrite E, lookup_empty in Ex. }
  clear Hs Hin.
  assert (Hrest : wp (let! _ := call (publish_current_snapshot en ;; ret (Ok tt)) in
      modify (fun w => {| w with tw_regime := {| stable_regime := te_regime en;
                          candidate_regime := None; candidate_count := 0 |} |}) ;;
      call (persist_runtime_state en "started" "dynamic tuner started" None ;; ret (Ok tt)) ;; ret true)
    (fun w' f => config_ok (tw_config w') /\ (tw_config w <> ∅ -> tw_config w' <> ∅) /\
      (true = true -> f = @Go unit bool true /\ (served en -> synced w' /\ tw_redis w' = true))) w1).
  { apply wp_bind, wp_call, wp_bind. eapply wp_mono; [by apply snapshot_announces|].
    intros w2 g (E2 & H2). 
    assert (Hend : wp (modify (fun w => {| w with tw_regime := {| stable_regime := te_regime en;
                          candidate_regime := None; candidate_count := 0 |} |}) ;;
        call (persist_runtime_state en "started" "dynamic tuner started" None ;; ret (Ok tt)) ;; ret true)
      (fun w' f => config_ok (tw_config w') /\ (tw_config w <> ∅ -> tw_config w' <> ∅) /\
        (true = true -> f = @Go unit bool true /\ (served en -> synced w' /\ tw_redis w' = true))) w2).
    { apply wp_bind, wp_modify. cbv beta iota. apply wp_bind, wp_call, wp_bind.
      unfold persist_runtime_state. repeat wp_step.
      destruct (te_fails en TState); simpl; (split; [by rewrite E2|]); (split; [by rewrite E2|]);
        intros _; (split; [done|]); exact H2. }
    destruct g; [apply wp_ret|]; exact Hend. }
  destruct f; [apply wp_ret|]; exact Hrest.
Qed.

(** ** The endpoints *)

(** A piece that returns and keeps the table settled. *)
Definition safe {R A} (m : handler TunerWorld R A) : Prop := forall w,
  config_ok (tw_config w) -> wp m (fun w' _ => config_ok (tw_config w')) w.

Lemma safe_bind {R A B} (m : handler TunerWorld R A) (k : A -> handler TunerWorld R B) :
  safe m -> (forall a, safe (k a)) -> safe (bind m k).
Proof.
  intros Hm Hk w Hw. apply wp_bind. eapply wp_mono; [by apply Hm|]. intros w' [a|r] H; [by apply Hk|done].
Qed.
Lemma safe_ret {R A} (a : A) : safe (ret a : handler TunerWorld R A).
Proof. by intros w Hw. Qed.
Lemma safe_return {R A} (r : R) : safe (return_ r : handler TunerWorld R A).
Proof. by intros w Hw. Qed.
Lemma safe_when {R} c (m : handler TunerWorld R unit) : safe m -> safe (when c m).
Proof. destruct c; [done|intros _; apply safe_ret]. Qed.
Lemma safe_for_each {R A} (f : A -> handler TunerWorld R unit) l :
  (forall a, safe (f a)) -> safe (for_each f l).
Proof. intros H. induction l; simpl; [apply safe_ret|by apply safe_bind]. Qed.
Lemma safe_modify {R} f : (forall w, tw_config (f w) = tw_config w) ->
  safe (modify f : handler TunerWorld R unit).
Proof. intros H w Hw. apply wp_modify. by rewrite H. Qed.
Lemma safe_get {R A} (k : TunerWorld -> handler TunerWorld R A) :
  (forall w, safe (k w)) -> safe (bind get_state k).
Proof. intros H w Hw. by apply wp_bind, wp_get, H. Qed.

Lemma safe_manual_exec {A} (en : ManualEnv) step f :
  (forall w w', f w = Some w' -> config_ok (tw_config w) -> config_ok (tw_config w')) ->
  safe (manual_exec en step f : handler TunerWorld (result A ApiError) unit).
Proof.
  intros H w Hw. unfold manual_exec. apply wp_bind, wp_get. cbv beta iota.
  destruct (me_fails en step); [by apply wp_return|]. destruct (f w) eqn:E; [|by apply wp_return].
  apply wp_modify. by eapply H.
Qed.

Lemma manual_row_grid key v lo hi step reason ex :
  manual_row key v lo hi step reason = Some ex ->
  value_column (dc_current_value ex) = Some (dc_current_value ex) /\
  dc_last_good_value ex = dc_current_value ex.
Proof.
  unfold manual_row. destruct (value_column v) as [v'|] eqn:E1; [|done].
  destruct (value_column lo); [|done]. destruct (value_column hi); [|done].
  destruct (step_column step); [|done]. intros [= <-]. apply numeric_idem in E1. by split.
Qed.
Lemma manual_row_ok key v lo hi step reason ex :
  manual_row key v lo hi step reason = Some ex -> row_allowed ex = true -> row_ok key ex.
Proof.
  intros E Ha. pose proof (manual_row_grid _ _ _ _ _ _ _ E) as [Hv Hl]. revert E.
  unfold manual_row. destruct (value_column v); [|done].
  destruct (value_column lo); [|done]. destruct (value_column hi); [|done].
  destruct (step_column step); [|done]. intros [= <-]. by split.
Qed.
Lemma overwrite_ok key wb ex r :
  value_column (dc_current_value ex) = Some (dc_current_value ex) ->
  dc_last_good_value ex = dc_current_value ex -> dc_key r = key ->
  row_allowed (overwrite wb ex r) = true -> row_ok key (overwrite wb ex r).
Proof. intros Hv Hl Hk Ha. split; destruct wb; simpl in *; rewrite ?Hl; done. Qed.

Lemma safe_write_change {A} (en : ManualEnv) wb cl bounds c :
  safe (write_change en wb cl bounds c : handler TunerWorld (result A ApiError) unit).
Proof.
  unfold write_change. destruct c as [[key value] reason]. apply safe_get. intros w0.
  destruct (me_fails en (MOld key)); [apply safe_return|].
  destruct (bounds key) as [[[lo hi] step]|]; [|apply safe_return].
  apply safe_bind; [|intros _]; apply safe_manual_exec; intros w w' E Hw.
  - destruct (manual_row _ _ _ _ _ _) as [ex|] eqn:Eex; [|done]. simpl in E.
    unfold upsert_config, store_row in E.
    assert (Hx : value_column (dc_current_value ex) = Some (dc_current_value ex) /\
                 dc_last_good_value ex = dc_current_value ex).
    { by eapply manual_row_grid. }
    assert (Hins : forall r, row_ok key r -> config_ok (<[key := r]> (tw_config w))).
    { intros r Hr k x Ek. destruct (decide (k = key)) as [->|Hne].
      - rewrite lookup_insert_eq in Ek. by injection Ek as <-.
      - rewrite lookup_insert_ne in Ek by done. by apply Hw. }
    destruct (tw_config w !! key) as [r|] eqn:Er; simpl in E; destruct (row_allowed _) eqn:Ea; try done;
      injection E as <-; apply Hins.
    + destruct Hx. apply overwrite_ok; [done|done|by apply (ro_key _ _ (Hw _ _ Er))|done].
    + by eapply manual_row_ok.
  - destruct (nullable_column _); [|done]. destruct (value_column _); [|done]. by injection E as <-.
Qed.

Lemma safe_publish {A} (en : ManualEnv) changes :
  safe (publish_manual_dynamic_updates en changes : handler TunerWorld (result A ApiError) unit).
Proof.
  unfold publish_manual_dynamic_updates. destruct (me_connection_error en); [apply safe_return|].
  apply safe_for_each. intros [[key value] reason]. unfold publish_change.
  destruct (me_fails en (MPublish key)); [apply safe_return|by apply safe_modify].
Qed.
Lemma safe_read_back {A} (en : ManualEnv) :
  safe (read_back en : handler TunerWorld (result A ApiError) ConfigTable).
Proof. apply safe_get. intros w. destruct (me_fails en MRead); [apply safe_return|apply safe_ret]. Qed.
Lemma safe_caller_role {A} (en : ManualEnv) :
  safe (caller_role en : handler TunerWorld (result A ApiError) string).
Proof.
  unfold caller_role. apply safe_bind; [apply safe_when, safe_return|intros _].
  apply safe_bind; [apply safe_when, safe_return|intros _].
  destruct (me_fails en MRole); [apply safe_return|].
  destruct (me_membership en); [apply safe_ret|apply safe_return].
Qed.

(** The keys of the requests have bounds: nothing panics. *)
Lemma safe_clamped_change {A} key field v :
  is_Some (arb_executor_dynamic_bounds key) ->
  safe (clamped_change key field v : handler TunerWorld (result A ApiError) Change).
Proof. intros [[[lo hi] step] E]. unfold clamped_change. rewrite E. apply safe_ret. Qed.
Lemma safe_arb_changes {A} req :
  safe (arb_changes req : handler TunerWorld (result A ApiError) (list Change)).
Proof.
  assert (Hf : forall key field v, is_Some (arb_executor_dynamic_bounds key) ->
    safe (float_change key field v : handler TunerWorld (result A ApiError) (list Change))).
  { intros key field v Hk. unfold float_change. destruct v as [v|]; [|apply safe_ret].
    destruct (dec_from_f64_retain v); [|apply safe_return].
    apply safe_bind; [by apply safe_clamped_change|intros; apply safe_ret]. }
  unfold arb_changes. do 3 (apply safe_bind; [apply Hf; by eexists|intros ?]).
  apply safe_bind; [|intros; apply safe_ret]. destruct (rq_max_signal_age_secs req); [|apply safe_ret].
  apply safe_bind; [apply safe_clamped_change; by eexists|intros; apply safe_ret].
Qed.
Lemma safe_selection_changes {A} req :
  safe (selection_changes req : handler TunerWorld (result A ApiError) (list Change)).
Proof.
  assert (Hr : forall key field lo hi v,
    safe (range_change key field lo hi v : handler TunerWorld (result A ApiError) (list Change))).
  { intros. unfold range_change. destruct v; [|apply safe_ret]. destruct (_ && _); [apply safe_ret|apply safe_return]. }
  unfold selection_changes. apply safe_bind; [|intros ?].
  - destruct (rq_aggressiveness req); [|apply safe_ret].
    destruct (aggressiveness_to_level _); [apply safe_ret|apply safe_return].
  - apply safe_bind; [apply Hr|intros ?]. apply safe_bind; [apply Hr|intros ?]. apply safe_ret.
Qed.

Lemma safe_arb_request (en : ManualEnv) req : safe (update_arb_executor_config dec_parse_i64 en req).
Proof.
  unfold update_arb_executor_config. apply safe_bind; [apply safe_caller_role|intros role].
  apply safe_bind; [apply safe_when, safe_return|intros _].
  assert (H : safe (let! changes := arb_changes req in
      for_each (write_change en false false arb_executor_dynamic_bounds) changes ;;
      publish_manual_dynamic_updates en changes ;;
      let! rows := read_back en in
      ret (Ok (arb_answer dec_parse_i64 rows)) :
      handler TunerWorld (result ArbExecutorConfigResponse ApiError) (result ArbExecutorConfigResponse ApiError))).
  { apply safe_bind; [apply safe_arb_changes|intros cs].
    apply safe_bind; [apply safe_for_each; intros; apply safe_write_change|intros _].
    apply safe_bind; [apply safe_publish|intros _].
    apply safe_bind; [apply safe_read_back|intros; apply safe_ret]. }
  repeat (case_match; try exact H). apply safe_return.
Qed.
Lemma safe_selection_request (en : ManualEnv) req : safe (update_opportunity_selection_settings en req).
Proof.
  unfold update_opportunity_selection_settings. apply safe_bind; [apply safe_caller_role|intros role].
  do 2 (apply safe_bind; [apply safe_when, safe_return|intros _]).
  assert (H : safe (let! changes := selection_changes req in
      for_each (write_change en true true opportunity_dynamic_bounds) changes ;;
      publish_manual_dynamic_updates en changes ;;
      let! rows := read_back en in
      ret (Ok (selection_answer en rows)) :
      handler TunerWorld (result OpportunitySelectionStatusResponse ApiError) (result OpportunitySelectionStatusResponse ApiError))).
  { apply safe_bind; [apply safe_selection_changes|intros cs].
    apply safe_bind; [apply safe_for_each; intros; apply safe_write_change|intros _].
    apply safe_bind; [apply safe_publish|intros _].
    apply safe_bind; [apply safe_read_back|intros; apply safe_ret]. }
  repeat (case_match; try exact H). apply safe_return.
Qed.

(** ** Theorems *)

Lemma moves_nonempty R t t' : moves R t t' -> t <> ∅ -> t' <> ∅.
Proof.
  intros Hm (key & r & Er)%map_choose E. specialize (Hm key). rewrite Er, E, lookup_empty in Hm. inversion Hm.
Qed.


End Facts.

(** ** The theorems at concrete inputs *)

Module TuningSample.
#[local] Existing Instance Concrete.decimal.
#[local] Existing Instance Concrete.decimal_spec.
#[local] Existing Instance Concrete.chrono.
#[local] Existing Instance Concrete.uuid.
#[local] Existing Instance Example_execution.display.
#[local] Existing Instance ConcreteConfig.numeric_ops.
#[local] Existing Instance ConcreteConfig.numeric_spec.
#[local] Existing Instance ConcreteConfig.metrics_json.
Abbreviation d := Concrete.d.
Abbreviation at_minute := Concrete.at_minute.

Definition no_format (_ : nat) (_ : f64) : string := "".
Definition no_env (_ : string) : option string := None.
Definition calm_breaker : CircuitBreakerState := {|
  tripped := false; trip_reason := None; tripped_at := None; resume_at := None; daily_pnl := d 0 0;
  peak_value := d 1000 0; current_value := d 1000 0; consecutive_losses := 0; trips_today := 0;
  recovery_state := None; last_reset_date := date_naive (at_minute 0); portfolio_value_seeded := true |}.
(** Everything answers at a minute; the stream carries 600 updates a minute. *)
Definition env_at (minute : Z) : TuneEnv := {|
  te_clock := fun _ => at_minute minute; te_fails := fun _ => None; te_rejected := "rejected";
  te_connects := fun _ => true; te_positions := ∅; te_volatility := None; te_opportunities := None;
  te_top_skip := None; te_breaker := calm_breaker;
  te_stats := Some {| st_updates_per_minute := f64_of_Z 600; stalls_last_minute := f64_zero;
                      resets_last_minute := f64_zero; monitored_markets := f64_zero |};
  te_regime := Uncertain; te_order := id |}.
(** A step fails. *)
Definition failing (step : TuneStep -> bool) (en : TuneEnv) : TuneEnv :=
  {| en with te_fails := fun s => if step s then Some "down" else te_fails en s |}.
Definition announcement (s : TuneStep) : bool := match s with TPublish _ => true | _ => false end.
Definition announced_rollback (s : TuneStep) : bool := match s with TEvalPublish _ => true | _ => false end.

Definition empty_world : TunerWorld := {|
  tw_config := ∅; tw_history := []; tw_state := None; tw_published := []; tw_redis := false;
  tw_regime := regime_start Uncertain |}.
Definition started : TunerWorld :=
  match tuner_begin default_tuner_config no_env (env_at 0) empty_world with
  | Some (w, _) => w | None => empty_world end.

Lemma empty_ok : config_ok (tw_config empty_world).
Proof. intros key r H. discriminate H. Qed.
Lemma started_ok : config_ok (tw_config started).
Proof.
  pose proof (tuner_begin_spec default_tuner_config no_env (env_at 0) empty_world empty_ok) as H.
  unfold wp in H. unfold started. destruct (tuner_begin _ _ _ _) as [[w f]|]; [|done]. apply H.
Qed.
Lemma started_rows : tw_config started <> ∅.
Proof.
  intros E. assert (H : bool_decide (is_Some (tw_config started !! KEY_ARB_POSITION_SIZE)) = true)
    by (vm_compute; reflexivity).
  rewrite E in H. vm_compute in H. discriminate.
Qed.

(** A value of the table, what was last announced of it, and is it pending? *)
Definition view (key : string) (o : option TunerWorld) : option (Q * bool * option Q) :=
  match o with
  | None => None
  | Some w => match tw_config w !! key with
              | None => None
              | Some r => Some (dc_current_value r : Q, dc_pending_eval r, last_value key (tw_published w))
              end
  end.

(** The start seeds the table and announces it; a healthy stream then raises
    the cap of markets by ten percent, and again once that is accepted. *)
Example markets_raised :
  (view KEY_ARB_MONITOR_MAX_MARKETS (tuner_task no_format default_tuner_config no_env (env_at 0)
     [env_at 5; env_at 10] empty_world),
   view KEY_ARB_MONITOR_MAX_MARKETS (tuner_task no_format default_tuner_config no_env (env_at 0)
     [env_at 5; env_at 15] empty_world))
  = (Some ((330 # 1)%Q, true, Some (330 # 1)%Q), Some ((363 # 1)%Q, true, Some (363 # 1)%Q)).
Proof. vm_compute. reflexivity. Qed.

(** A change whose announcement fails is taken back. *)
Example unannounced_reverted :
  view KEY_ARB_MONITOR_MAX_MARKETS (tuner_task no_format default_tuner_config no_env (env_at 0)
    [failing announcement (env_at 5)] empty_world)
  = Some ((300 # 1)%Q, false, Some (300 # 1)%Q).
Proof. vm_compute. reflexivity. Qed.

(** A tick with a loss of 100 dollars: positions that were closed at minute 20. *)
Definition lossy (en : TuneEnv) : TuneEnv :=
  {| en with te_positions := {[ 1%positive :=
       {| r_id := 1%positive; r_market_id := "m"; r_yes_entry_price := d 0 0; r_no_entry_price := d 0 0;
          r_quantity := d 1 0; r_entry_timestamp := at_minute 1; r_exit_strategy := 0; r_state := 4;
          r_unrealized_pnl := d 0 0; r_realized_pnl := Some (d (-100) 0);
          r_exit_timestamp := Some (at_minute 10); r_yes_exit_price := None; r_no_exit_price := None;
          r_failure_reason := None; r_retry_count := None; r_last_updated := None; r_updated_at := None;
          r_fee_model := None; r_resolution_payout := None; r_yes_entry_fee_shares := None;
          r_no_entry_fee_shares := None; r_held_yes_qty := None; r_held_no_qty := None;
          r_exited_yes_qty := None; r_exited_no_qty := None; r_resolution_winner := None;
          r_is_open := false; r_opened_at := None; r_source := Some 1%Z; r_source_signal_id := None;
          r_entry_price := None |} ]} |}.

(** The loss rolls the pending change back, and the same cycle applies it
    again. *)
Example rolled_back_and_reapplied :
  (w ← tuner_task no_format default_tuner_config no_env (env_at 0) [env_at 5; lossy (env_at 15)] empty_world;
   Some (omap (fun h => if bool_decide (hr_config_key h = Some KEY_ARB_MONITOR_MAX_MARKETS)
                         then Some (hr_action h, hr_new_value h) else None) (tw_history w))) =
  Some [("applied", Some (330 # 1)%Q); ("rollback", Some (300 # 1)%Q); ("applied", Some (330 # 1)%Q)].
Proof. vm_compute. reflexivity. Qed.

(** If the announcement of the rollback fails the table is rolled back all the
    same: the subscribers keep 330, the table says 300, and the later cycles
    announce nothing. *)
Definition quiet_stream (en : TuneEnv) : TuneEnv := {| en with te_stats := None |}.
Example unannounced_rollback_stays :
  view KEY_ARB_MONITOR_MAX_MARKETS (tuner_task no_format default_tuner_config no_env (env_at 0)
    [env_at 5; failing announced_rollback (lossy (quiet_stream (env_at 15))); quiet_stream (env_at 20);
     quiet_stream (env_at 40)] empty_world) =
  Some ((300 # 1)%Q, false, Some (330 # 1)%Q).
Proof. vm_compute. reflexivity. Qed.

(** If the history of a change cannot be written the cycle ends before the
    announcement, with the change in the table: the subscribers keep 300. *)
Definition history (s : TuneStep) : bool := match s with THistory _ => true | _ => false end.
Example unrecorded_change_stays :
  view KEY_ARB_MONITOR_MAX_MARKETS (tuner_task no_format default_tuner_config no_env (env_at 0)
    [failing history (env_at 5); env_at 15] empty_world) =
  Some ((363 # 1)%Q, true, Some (363 # 1)%Q) /\
  view KEY_ARB_MONITOR_MAX_MARKETS (tuner_task no_format default_tuner_config no_env (env_at 0)
    [failing history (env_at 5); quiet_stream (env_at 15); quiet_stream (env_at 30)] empty_world) =
  Some ((330 # 1)%Q, false, Some (300 # 1)%Q).
Proof. split; vm_compute; reflexivity. Qed.

(** A request whose announcement fails leaves the table changed. *)
Definition owner : ManualEnv := {|
  me_subject_valid := true; me_claims_role := Trader; me_workspace_valid := true;
  me_membership := Some "owner"; me_env := no_env; me_clock := fun _ => at_minute 3;
  me_fails := fun _ => None; me_rejected := "rejected"; me_connection_error := None |}.
Definition raise_size : UpdateArbExecutorConfigRequest := {|
  rq_position_size := Some (f64_of_Z 100); rq_min_net_profit := None; rq_min_book_depth := None;
  rq_max_signal_age_secs := None |}.
Example request_clamped_and_announced :
  (view KEY_ARB_POSITION_SIZE (tuning_loop dec_to_i64 no_format default_tuner_config no_env
     [TunerStarts (env_at 0); ArbRequest owner raise_size] empty_world),
   view KEY_ARB_POSITION_SIZE (tuning_loop dec_to_i64 no_format default_tuner_config no_env
     [TunerStarts (env_at 0); ArbRequest {| owner with me_connection_error := Some "down" |} raise_size]
     empty_world)) =
  (Some ((25 # 1)%Q, false, Some (25 # 1)%Q), Some ((25 # 1)%Q, false, Some (10 # 1)%Q)).
Proof. vm_compute. reflexivity. Qed.

(** *** Witnesses *)

Lemma orders_id minute : orders (env_at minute).
Proof. intros l. reflexivity. Qed.

Lemma regime_hysteresis_exact_witness :
  stable_regime (observations 2 ([BullCalm] ++ [BullCalm]) (regime_start Uncertain)) = BullCalm.
Proof. rewrite (regime_hysteresis_exact 2 [BullCalm] BullCalm Uncertain); reflexivity. Defined.

Lemma tick_moves_witness :
  exists w', fst <$> tuner_tick no_format default_tuner_config no_env (env_at 5) started = Some w' /\
    moves cycled (tw_config started) (tw_config w').
Proof.
  destruct (tick_moves no_format default_tuner_config no_env (env_at 5) started started_ok (orders_id 5)
    started_rows) as (w' & E & H & _).
  exists w'. exact (conj E H).
Defined.

Lemma quiet_env_at minute : quiet (env_at minute).
Proof. by intros step. Qed.
Lemma served_env_at minute : served (env_at minute).
Proof. by split. Qed.


End TuningSample.
