(* ===== verification/Simulator.v ===== *)
(** * The backtest simulator

    Models [crates/backtester/src/simulator.rs] and the data of
    [strategy.rs] and [data_store.rs] it works on: the slippage, fee and
    partial-fill models, the execution of signals on a simulated portfolio, the
    run of a strategy over the timeline of snapshots, and the metrics computed
    from trades and equity with [Decimal]s and the [f64] operations of
    [F64]; [powf], whose rounding Rust leaves open, is a parameter.  [None] is a
    panic, which here is a division by zero.  A [HashMap] is a [gmap], iterated
    in its own order.  Random identifiers and texts are left out. *)

From S2P Require Import Prelude F64 Platform Handler.

Local Open Scope handler_scope.

Section Simulator.
Context `{DO : DecimalOps} `{CO : ChronoOps}.

(** ** Models of the costs *)

Inductive SlippageModel : Type :=
| NoSlippage
| FixedSlippage (pct : dec)
| VolumeBased (base_pct size_impact : dec)
| SpreadBased (spread_multiplier : dec)
| DepthBased (base_pct depth_multiplier : dec)
| TimeAdjusted (base_pct prime_time_multiplier off_hours_multiplier : dec).

Definition calculate_with_depth (m : SlippageModel) (price qty spread depth : dec) (hour : Z)
    : option dec :=
  match m with
  | NoSlippage => Some ZERO
  | FixedSlippage pct => Some (price * pct)%dec
  | VolumeBased base_pct size_impact =>
      let volume_impact := (qty * size_impact)%dec in
      Some (price * (base_pct + volume_impact))%dec
  | SpreadBased spread_multiplier => dec_div (spread * spread_multiplier)%dec TWO
  | DepthBased base_pct depth_multiplier =>
      depth_ratio ← (if (depth >? ZERO)%dec then dec_div qty depth else Some ONE);
      let impact := (depth_ratio * depth_multiplier)%dec in
      Some (price * (base_pct + impact))%dec
  | TimeAdjusted base_pct prime_time_multiplier off_hours_multiplier =>
      let time_mult := if (9 <=? hour)%Z && (hour <=? 17)%Z then prime_time_multiplier
                       else off_hours_multiplier in
      Some (price * base_pct * time_mult)%dec
  end.
Definition slippage_calculate (m : SlippageModel) (price qty spread : dec) : option dec :=
  calculate_with_depth m price qty spread ZERO 12.

Inductive FeeModel : Type :=
| FixedFee (pct : dec)
| MakerTaker (maker_fee taker_fee : dec)
| VolumeTiered (tiers : list (dec * dec)) (default_fee : dec).

(** The last tier of the list whose threshold is reached. *)
Definition fee_calculate (m : FeeModel) (value : dec) (is_maker : bool) (cumulative_volume : dec) : dec :=
  match m with
  | FixedFee pct => (value * pct)%dec
  | MakerTaker maker_fee taker_fee => (value * (if is_maker then maker_fee else taker_fee))%dec
  | VolumeTiered tiers default_fee =>
      let reached := List.filter (fun t => fst t <=? cumulative_volume)%dec tiers in
      (value * default default_fee (snd <$> last reached))%dec
  end.

Inductive PartialFillModel : Type :=
| FullFill
| DepthFill (max_depth_pct : dec)
| Probabilistic (base_fill_pct size_threshold decay_rate : dec)
| FixedFill (pct : dec).

Definition calculate_fill (m : PartialFillModel) (requested available_depth : dec) : option dec :=
  match m with
  | FullFill => Some requested
  | DepthFill max_depth_pct => Some (dec_min requested (available_depth * max_depth_pct)%dec)
  | Probabilistic base_fill_pct size_threshold decay_rate =>
      if (requested <=? size_threshold)%dec then Some (requested * base_fill_pct)%dec
      else
        size_ratio ← dec_div requested size_threshold;
        fill_pct ← dec_div base_fill_pct (ONE + size_ratio * decay_rate)%dec;
        Some (requested * fill_pct)%dec
  | FixedFill pct => Some (requested * pct)%dec
  end.
Definition can_fill (spread max_spread : dec) : bool := (spread <=? max_spread)%dec.

Record SimulatorConfig : Type := {
  initial_capital : dec;
  slippage_model : SlippageModel;
  sim_fee_model : FeeModel;
  partial_fill_model : PartialFillModel;
  allow_margin : bool;
  max_leverage : dec;
  reinvest_profits : bool;
  sim_min_position_size : dec;
  max_position_pct : dec;
  max_spread_for_fill : dec;
}.

Definition default_simulator_config : SimulatorConfig := {|
  initial_capital := dec_new 10000 0;
  slippage_model := FixedSlippage (dec_new 1 3);
  sim_fee_model := FixedFee (dec_new 2 2);
  partial_fill_model := FullFill;
  allow_margin := false;
  max_leverage := ONE;
  reinvest_profits := true;
  sim_min_position_size := dec_new 10 0;
  max_position_pct := dec_new 20 2;
  max_spread_for_fill := dec_new 10 2;
|}.

(** ** Data *)

Record MarketSnapshot : Type := {
  ms_market_id : string;
  ms_timestamp : datetime;
  yes_bid : dec; yes_ask_price : dec; no_bid : dec; no_ask_price : dec;
  yes_bid_depth : dec; yes_ask_depth : dec; no_bid_depth : dec; no_ask_depth : dec;
  yes_mid : dec; no_mid : dec;
  yes_spread : dec; no_spread : dec;
  volume_24h : dec;
}.

Inductive SignalKind : Type := SigBuy | SigSell | SigClose | SigHold.

(** A signal; its identifier, optional prices, confidence and metadata are not
    read by the simulator. *)
Record Signal : Type := {
  sg_market_id : string;
  sg_outcome_id : string;
  sg_type : SignalKind;
  sg_position_size : dec;
}.

Record SimPosition : Type := {
  bp_market_id : string;
  bp_outcome_id : string;
  bp_quantity : dec;
  bp_entry_price : dec;
  bp_opened_at : datetime;
  bp_unrealized_pnl : dec;
  bp_current_price : dec;
}.
Definition position_value (p : SimPosition) : dec := (bp_quantity p * bp_current_price p)%dec.
(** The change since the entry, as a fraction. *)
Definition position_return_pct (p : SimPosition) : option dec :=
  if dec_is_zero (bp_entry_price p) then Some ZERO
  else dec_div (bp_current_price p - bp_entry_price p)%dec (bp_entry_price p).

Inductive TradeType : Type := TradeBuy | TradeSell | TradeClose.

Record TradeRecord : Type := {
  tr_market_id : string;
  tr_outcome_id : string;
  tr_type : TradeType;
  tr_entry_time : datetime;
  tr_exit_time : option datetime;
  tr_entry_price : dec;
  tr_exit_price : option dec;
  tr_quantity : dec;
  tr_fees : dec;
  tr_slippage : dec;
  tr_pnl : option dec;
  tr_return_pct : option f64;
}.

Record SimulationState : Type := {
  cash : dec;
  positions : gmap string SimPosition;
  trades : list TradeRecord;
  equity_curve : list (datetime * dec);
  total_fees : dec;
  total_slippage : dec;
  sim_realized_pnl : dec;
  winning_trades : Z;
  losing_trades : Z;
  total_wins : dec;
  total_losses : dec;
}.

Record StrategyContext : Type := {
  sc_timestamp : datetime;
  sc_portfolio_value : dec;
  sc_available_cash : dec;
  sc_positions : gmap string SimPosition;
  sc_market_data : gmap string (list MarketSnapshot);
}.

Definition state_new (capital : dec) : SimulationState := {|
  cash := capital; positions := ∅; trades := []; equity_curve := []; total_fees := ZERO;
  total_slippage := ZERO; sim_realized_pnl := ZERO; winning_trades := 0; losing_trades := 0;
  total_wins := ZERO; total_losses := ZERO |}.
Definition context_new (now : datetime) (value : dec) : StrategyContext := {|
  sc_timestamp := now; sc_portfolio_value := value; sc_available_cash := value;
  sc_positions := ∅; sc_market_data := ∅ |}.

Definition position_key (market_id outcome_id : string) : string :=
  market_id +:+ ":" +:+ outcome_id.

Definition portfolio_value (s : SimulationState) : dec :=
  (cash s + dec_sum (position_value ∘ snd <$> map_to_list (positions s)))%dec.

(** *** What strategies read of the context *)

Definition sim_has_position (market_id : string) (c : StrategyContext) : bool :=
  existsb (fun p => bool_decide (bp_market_id p = market_id)) (snd <$> map_to_list (sc_positions c)).
Definition latest_snapshot (market_id : string) (c : StrategyContext) : option MarketSnapshot :=
  sc_market_data c !! market_id ≫= last.
Definition recent_snapshots (market_id : string) (n : nat) (c : StrategyContext)
    : list MarketSnapshot :=
  let l := default [] (sc_market_data c !! market_id) in drop (length l - n) l.

(** ** Executing a signal *)

Section Config.
Variable config : SimulatorConfig.

(** The snapshot's side for an outcome. *)
Definition is_yes (outcome_id : string) : bool := bool_decide (outcome_id = "yes").
Definition ask_of (outcome_id : string) (s : MarketSnapshot) : dec :=
  if is_yes outcome_id then yes_ask_price s else no_ask_price s.
Definition bid_of (outcome_id : string) (s : MarketSnapshot) : dec :=
  if is_yes outcome_id then yes_bid s else no_bid s.
Definition spread_of (outcome_id : string) (s : MarketSnapshot) : dec :=
  if is_yes outcome_id then yes_spread s else no_spread s.
Definition ask_depth_of (outcome_id : string) (s : MarketSnapshot) : dec :=
  if is_yes outcome_id then yes_ask_depth s else no_ask_depth s.
Definition bid_depth_of (outcome_id : string) (s : MarketSnapshot) : dec :=
  if is_yes outcome_id then yes_bid_depth s else no_bid_depth s.

(** [update_positions]: the state's part, then the context's copy. *)
Definition mark_price (price : dec) (p : SimPosition) : SimPosition :=
  {| p with bp_current_price := price;
            bp_unrealized_pnl := ((price - bp_entry_price p) * bp_quantity p)%dec |}.
Definition mark_to_market (s : MarketSnapshot) (p : SimPosition) : SimPosition :=
  if bool_decide (bp_market_id p = ms_market_id s)
  then mark_price (bid_of (bp_outcome_id p) s) p else p.
Definition set_positions (ps : gmap string SimPosition) (st : SimulationState) : SimulationState :=
  {| st with positions := ps |}.
Definition update_positions (snapshots : list MarketSnapshot) (st : SimulationState)
    : SimulationState :=
  set_positions (foldl (fun ps s => mark_to_market s <$> ps) (positions st) snapshots) st.

(** What a buy comes to: the quantity, the price with slippage, the slippage
    and the fees; [None] inside if it is skipped. *)
Record Quote : Type := {
  qt_quantity : dec;
  qt_slippage : dec;
  qt_price : dec;
  qt_fees : dec;
}.

Definition buy_budget (signal : Signal) (context : StrategyContext) (st : SimulationState) : dec :=
  let max_position_value := (sc_portfolio_value context * max_position_pct config)%dec in
  let target_value := (sc_portfolio_value context * sg_position_size signal)%dec in
  dec_min (dec_min target_value max_position_value) (cash st).

Definition quote_buy (signal : Signal) (context : StrategyContext) (st : SimulationState)
    (snapshot : MarketSnapshot) : option (option Quote) :=
  let budget := buy_budget signal context st in
  if (budget <? sim_min_position_size config)%dec then Some None
  else
    let outcome := sg_outcome_id signal in
    let base_price := ask_of outcome snapshot in
    let spread := spread_of outcome snapshot in
    let depth := ask_depth_of outcome snapshot in
    if negb (can_fill spread (max_spread_for_fill config)) then Some None
    else
      requested ← dec_div budget base_price;
      qty ← calculate_fill (partial_fill_model config) requested depth;
      smallest ← dec_div (sim_min_position_size config) base_price;
      if (qty <? smallest)%dec then Some None
      else
        slippage ← calculate_with_depth (slippage_model config) base_price qty spread depth
                     (hour (ms_timestamp snapshot));
        let price := (base_price + slippage)%dec in
        let fees := fee_calculate (sim_fee_model config) (qty * price)%dec false (total_fees st) in
        if (qty * price + fees >? cash st)%dec then Some None
        else Some (Some {| qt_quantity := qty; qt_slippage := slippage; qt_price := price;
                           qt_fees := fees |}).

Definition buy_position (signal : Signal) (now : datetime) (q : Quote) : SimPosition := {|
  bp_market_id := sg_market_id signal; bp_outcome_id := sg_outcome_id signal;
  bp_quantity := qt_quantity q; bp_entry_price := qt_price q; bp_opened_at := now;
  bp_unrealized_pnl := ZERO; bp_current_price := qt_price q |}.
Definition buy_trade (signal : Signal) (now : datetime) (q : Quote) : TradeRecord := {|
  tr_market_id := sg_market_id signal;
  tr_outcome_id := sg_outcome_id signal; tr_type := TradeBuy; tr_entry_time := now;
  tr_exit_time := None; tr_entry_price := qt_price q; tr_exit_price := None;
  tr_quantity := qt_quantity q; tr_fees := qt_fees q;
  tr_slippage := (qt_slippage q * qt_quantity q)%dec; tr_pnl := None; tr_return_pct := None |}.

(** [HashMap::insert] replaces the position the key had. *)
Definition book_buy (signal : Signal) (now : datetime) (q : Quote) (st : SimulationState)
    : SimulationState :=
  {| st with
     cash := (cash st - (qt_quantity q * qt_price q + qt_fees q))%dec;
     total_fees := (total_fees st + qt_fees q)%dec;
     total_slippage := (total_slippage st + qt_slippage q * qt_quantity q)%dec;
     positions := <[position_key (sg_market_id signal) (sg_outcome_id signal) :=
                    buy_position signal now q]> (positions st);
     trades := trades st ++ [buy_trade signal now q] |}.

Definition execute_buy (signal : Signal) (context : StrategyContext) (snapshot : MarketSnapshot)
    (st : SimulationState) : option (SimulationState * option TradeRecord) :=
  quote ← quote_buy signal context st snapshot;
  Some match quote with
       | None => (st, None)
       | Some q => (book_buy signal (sc_timestamp context) q st,
                    Some (buy_trade signal (sc_timestamp context) q))
       end.

(** *** Closing *)

(** The first trade of the outcome without an exit time gets the exit. *)
Definition is_open_entry (signal : Signal) (t : TradeRecord) : bool :=
  bool_decide (tr_market_id t = sg_market_id signal)
  && bool_decide (tr_outcome_id t = sg_outcome_id signal)
  && bool_decide (tr_exit_time t = None).
Definition with_exit (exit_time : datetime) (exit_price pnl : dec) (return_pct : f64)
    (t : TradeRecord) : TradeRecord :=
  {| t with tr_exit_time := Some exit_time; tr_exit_price := Some exit_price;
            tr_pnl := Some pnl; tr_return_pct := Some return_pct |}.
Definition close_entry (signal : Signal) (exit_time : datetime) (exit_price pnl : dec)
    (return_pct : f64) : list TradeRecord -> list TradeRecord :=
  update_first (is_open_entry signal) (with_exit exit_time exit_price pnl return_pct).

Definition quote_close (p : SimPosition) (st : SimulationState) (snapshot : MarketSnapshot)
    : option Quote :=
  let outcome := bp_outcome_id p in
  let base_price := bid_of outcome snapshot in
  slippage ← calculate_with_depth (slippage_model config) base_price (bp_quantity p)
               (spread_of outcome snapshot) (bid_depth_of outcome snapshot)
               (hour (ms_timestamp snapshot));
  let price := (base_price - slippage)%dec in
  let fees := fee_calculate (sim_fee_model config) (bp_quantity p * price)%dec false (total_fees st) in
  Some {| qt_quantity := bp_quantity p; qt_slippage := slippage; qt_price := price; qt_fees := fees |}.

Definition close_proceeds (q : Quote) : dec := (qt_quantity q * qt_price q - qt_fees q)%dec.
Definition cost_basis (p : SimPosition) : dec := (bp_quantity p * bp_entry_price p)%dec.
Definition close_pnl (p : SimPosition) (q : Quote) : dec := (close_proceeds q - cost_basis p)%dec.
Definition close_return (p : SimPosition) (q : Quote) : option f64 :=
  if (cost_basis p >? ZERO)%dec
  then x ← dec_div (close_proceeds q) (cost_basis p);
       Some (default f64_zero (dec_to_f64 (x - ONE)%dec))
  else Some f64_zero.

(** The tally of a closed trade. *)
Definition book_result (pnl : dec) (st : SimulationState) : SimulationState :=
  if (pnl >? ZERO)%dec
  then {| st with winning_trades := winning_trades st + 1;
                  total_wins := (total_wins st + pnl)%dec |}
  else {| st with losing_trades := losing_trades st + 1;
                  total_losses := (total_losses st + dec_abs pnl)%dec |}.

Definition book_close (signal : Signal) (key : string) (p : SimPosition) (q : Quote)
    (exit_time : datetime) (return_pct : f64) (st : SimulationState) : SimulationState :=
  let pnl := close_pnl p q in
  let st := {| st with
     positions := delete key (positions st);
     cash := (cash st + close_proceeds q)%dec;
     total_fees := (total_fees st + qt_fees q)%dec;
     total_slippage := (total_slippage st + qt_slippage q * bp_quantity p)%dec;
     sim_realized_pnl := (sim_realized_pnl st + pnl)%dec;
     trades := close_entry signal exit_time (qt_price q) pnl return_pct (trades st) |} in
  book_result pnl st.

Definition close_trade (signal : Signal) (p : SimPosition) (q : Quote) (exit_time : datetime)
    (return_pct : f64) : TradeRecord := {|
  tr_market_id := sg_market_id signal;
  tr_outcome_id := bp_outcome_id p; tr_type := TradeClose; tr_entry_time := bp_opened_at p;
  tr_exit_time := Some exit_time; tr_entry_price := bp_entry_price p;
  tr_exit_price := Some (qt_price q); tr_quantity := bp_quantity p; tr_fees := qt_fees q;
  tr_slippage := (qt_slippage q * bp_quantity p)%dec; tr_pnl := Some (close_pnl p q);
  tr_return_pct := Some return_pct |}.

Definition execute_close (signal : Signal) (snapshot : MarketSnapshot) (st : SimulationState)
    : option (SimulationState * option TradeRecord) :=
  let key := position_key (sg_market_id signal) (sg_outcome_id signal) in
  match positions st !! key with
  | None => Some (st, None)
  | Some p =>
      q ← quote_close p st snapshot;
      return_pct ← close_return p q;
      let now := ms_timestamp snapshot in
      Some (book_close signal key p q now return_pct st,
            Some (close_trade signal p q now return_pct))
  end.

(** Partial close is not implemented. *)
Definition execute_sell := execute_close.

Definition execute_signal (signal : Signal) (context : StrategyContext)
    (snapshots : list MarketSnapshot) (st : SimulationState)
    : option (SimulationState * option TradeRecord) :=
  match List.find (fun s => bool_decide (ms_market_id s = sg_market_id signal)) snapshots with
  | None => Some (st, None)
  | Some snapshot =>
      match sg_type signal with
      | SigBuy => execute_buy signal context snapshot st
      | SigSell => execute_sell signal snapshot st
      | SigClose => execute_close signal snapshot st
      | SigHold => Some (st, None)
      end
  end.

(** [Signal::close]. *)
Definition signal_close (market_id outcome_id : string) : Signal := {|
  sg_market_id := market_id; sg_outcome_id := outcome_id; sg_type := SigClose;
  sg_position_size := ZERO |}.

(** Close what is left at the last snapshot of each market. *)
Definition close_last (context : StrategyContext) (o : option SimulationState)
    (p : SimPosition) : option SimulationState :=
  st ← o;
  match latest_snapshot (bp_market_id p) context with
  | None => Some st
  | Some snapshot =>
      fst <$> execute_close (signal_close (bp_market_id p) (bp_outcome_id p)) snapshot st
  end.
Definition close_all_positions (context : StrategyContext) (st : SimulationState)
    : option SimulationState :=
  foldl (close_last context) (Some st) (snd <$> map_to_list (positions st)).

(** ** Metrics *)

(** Wins and losses in a row: the longest of each so far and the current ones. *)
Definition streak_step (acc : Z * Z * Z * Z) (t : TradeRecord) : Z * Z * Z * Z :=
  let '(max_wins, max_losses, wins, losses) := acc in
  match tr_pnl t with
  | None => acc
  | Some pnl =>
      if (pnl >? ZERO)%dec then (Z.max max_wins (wins + 1), max_losses, (wins + 1)%Z, 0%Z)
      else if (pnl <? ZERO)%dec
      then (max_wins, Z.max max_losses (losses + 1), 0%Z, (losses + 1)%Z)
      else acc
  end.
Definition calculate_consecutive_streaks (l : list TradeRecord) : Z * Z :=
  let '(max_wins, max_losses, _, _) := foldl streak_step (0, 0, 0, 0)%Z l in
  (max_wins, max_losses).

(** The running peak and the drawdown so far. *)
Definition drawdown_step (o : option (dec * f64)) (point : datetime * dec) : option (dec * f64) :=
  '(peak, worst) ← o;
  let peak := if (snd point >? peak)%dec then snd point else peak in
  ratio ← dec_div (peak - snd point)%dec peak;
  Some (peak, f64_max worst (default f64_zero (dec_to_f64 ratio))).
Definition calculate_max_drawdown (curve : list (datetime * dec)) : option f64 :=
  match curve with
  | [] => Some f64_zero
  | first :: _ => snd <$> foldl drawdown_step (Some (snd first, f64_zero)) curve
  end.

(** The change from each point of the curve to the next, as a fraction. *)
Definition point_return (prev curr : dec) : option f64 :=
  if dec_is_zero prev then Some f64_zero
  else x ← dec_div (curr - prev)%dec prev; Some (default f64_zero (dec_to_f64 x)).
Fixpoint point_returns (prev : dec) (curve : list (datetime * dec)) : option (list f64) :=
  match curve with
  | [] => Some []
  | point :: curve =>
      r ← point_return prev (snd point);
      rs ← point_returns (snd point) curve;
      Some (r :: rs)
  end.
Definition curve_returns (curve : list (datetime * dec)) : option (list f64) :=
  match curve with [] => Some [] | first :: rest => point_returns (snd first) rest end.

Definition squared_error (mean r : f64) : f64 := f64_mul (f64_sub r mean) (f64_sub r mean).
Definition f64_std_dev (mean : f64) (l : list f64) : f64 :=
  f64_sqrt (f64_mean (squared_error mean <$> l)).
Definition f64_pos (x : f64) : bool := f64_ltb f64_zero x.
Definition f64_is_neg (x : f64) : bool := f64_ltb x f64_zero.

(** Sharpe and Sortino ratios. *)
Definition calculate_risk_metrics (curve : list (datetime * dec)) : option (f64 * f64) :=
  if (length curve <? 2)%nat then Some (f64_zero, f64_zero)
  else
    returns ← curve_returns curve;
    let mean := f64_mean returns in
    let std_dev := f64_std_dev mean returns in
    let year := f64_sqrt (f64_of_Z 252) in
    let sharpe := if f64_pos std_dev then f64_mul (f64_div mean std_dev) year else f64_zero in
    let downside := List.filter f64_is_neg returns in
    let downside_dev := match downside with
                        | [] => f64_zero
                        | _ => f64_sqrt (f64_mean ((fun r => f64_mul r r) <$> downside))
                        end in
    let sortino := if f64_pos downside_dev then f64_mul (f64_div mean downside_dev) year
                   else if f64_pos mean then f64_infinity else f64_zero in
    Some (sharpe, sortino).

(** A stable sort. *)
Fixpoint f64_insert (x : f64) (l : list f64) : list f64 :=
  match l with
  | [] => [x]
  | y :: k => if f64_ltb x y then x :: l else y :: f64_insert x k
  end.
Definition f64_sort (l : list f64) : list f64 := foldl (fun k x => f64_insert x k) [] l.

Definition calculate_var_cvar (curve : list (datetime * dec)) : option (f64 * f64) :=
  if (length curve <? 2)%nat then Some (f64_zero, f64_zero)
  else
    returns ← curve_returns curve;
    let sorted := f64_sort returns in
    let i := Z.to_nat (f64_ceil (f64_mul (f64_of_Z (Z.of_nat (length sorted))) (f64_lit 5 100))) in
    let var_95 := match sorted !! i with Some r => f64_opp r | None => f64_zero end in
    let tail := take (Nat.max i 1) sorted in
    let cvar_95 := match tail with [] => f64_zero | _ => f64_opp (f64_mean tail) end in
    Some (var_95, cvar_95).

Definition trade_hours (t : TradeRecord) : list Z :=
  match tr_exit_time t with Some exit => [hours_since exit (tr_entry_time t)] | None => [] end.
Definition calculate_avg_trade_duration (l : list TradeRecord) : f64 :=
  match flat_map trade_hours l with
  | [] => f64_zero
  | hours => f64_div (f64_of_Z (foldr Z.add 0%Z hours)) (f64_of_Z (Z.of_nat (length hours)))
  end.

(** [a / b], infinite or zero when there is nothing to divide by. *)
Definition ratio_or_infinity (a b : f64) : f64 :=
  if f64_pos b then f64_div a b else if f64_pos a then f64_infinity else f64_zero.
Definition extreme (pick : f64 -> f64 -> f64) (start : f64) (l : list f64) : f64 :=
  let x := foldl pick start l in if f64_eqb x start then f64_zero else x.
Definition mean_or_zero (l : list f64) : f64 := match l with [] => f64_zero | _ => f64_mean l end.

Record BacktestResult : Type := {
  br_data_points : Z;
  br_initial_capital : dec;
  br_final_value : dec;
  br_total_return : dec;
  br_return_pct : f64;
  br_annualized_return : f64;
  br_max_drawdown : f64;
  br_sharpe_ratio : f64;
  br_sortino_ratio : f64;
  br_win_rate : f64;
  br_profit_factor : f64;
  br_total_trades : Z;
  br_winning_trades : Z;
  br_losing_trades : Z;
  br_total_fees : dec;
  br_total_slippage : dec;
  br_avg_trade_duration_hours : f64;
  br_equity_curve : list (datetime * dec);
  br_trades : list TradeRecord;
  br_calmar_ratio : f64;
  br_var_95 : f64;
  br_cvar_95 : f64;
  br_recovery_factor : f64;
  br_best_trade_return : f64;
  br_worst_trade_return : f64;
  br_max_consecutive_wins : Z;
  br_max_consecutive_losses : Z;
  br_avg_win : f64;
  br_avg_loss : f64;
  br_expectancy : f64;
}.
Definition is_profitable (r : BacktestResult) : bool :=
  (br_final_value r >? br_initial_capital r)%dec.
Definition is_risk_adjusted_profitable (r : BacktestResult) : bool :=
  f64_ltb f64_one (br_sharpe_ratio r) && f64_pos (br_return_pct r).

Variable powf : f64 -> f64 -> f64.

Definition profit_factor (st : SimulationState) : option f64 :=
  if (total_losses st >? ZERO)%dec
  then x ← dec_div (total_wins st) (total_losses st); Some (default f64_zero (dec_to_f64 x))
  else Some (if (total_wins st >? ZERO)%dec then f64_infinity else f64_zero).

(** [days] is the length of the query's period. *)
Definition calculate_results (st : SimulationState) (days data_points : Z) : option BacktestResult :=
  let final_value := portfolio_value st in
  growth ← dec_div final_value (initial_capital config);
  let return_pct := default f64_zero (dec_to_f64 (growth - ONE)%dec) in
  let years := f64_div (f64_of_Z days) (f64_of_Z 365) in
  let annualized_return :=
    if f64_pos years
    then f64_sub (powf (f64_add f64_one return_pct) (f64_div f64_one years)) f64_one
    else f64_zero in
  max_drawdown ← calculate_max_drawdown (equity_curve st);
  '(sharpe, sortino) ← calculate_risk_metrics (equity_curve st);
  let total_trades := (winning_trades st + losing_trades st)%Z in
  let win_rate := if (0 <? total_trades)%Z
                  then f64_div (f64_of_Z (winning_trades st)) (f64_of_Z total_trades)
                  else f64_zero in
  factor ← profit_factor st;
  '(var_95, cvar_95) ← calculate_var_cvar (equity_curve st);
  let trade_returns := omap tr_return_pct (trades st) in
  let '(wins, losses) := calculate_consecutive_streaks (trades st) in
  let avg_win := mean_or_zero (List.filter f64_pos trade_returns) in
  let avg_loss := mean_or_zero (List.filter f64_is_neg trade_returns) in
  Some {|
    br_data_points := data_points;
    br_initial_capital := initial_capital config;
    br_final_value := final_value;
    br_total_return := (final_value - initial_capital config)%dec;
    br_return_pct := return_pct;
    br_annualized_return := annualized_return;
    br_max_drawdown := max_drawdown;
    br_sharpe_ratio := sharpe;
    br_sortino_ratio := sortino;
    br_win_rate := win_rate;
    br_profit_factor := factor;
    br_total_trades := total_trades;
    br_winning_trades := winning_trades st;
    br_losing_trades := losing_trades st;
    br_total_fees := total_fees st;
    br_total_slippage := total_slippage st;
    br_avg_trade_duration_hours := calculate_avg_trade_duration (trades st);
    br_equity_curve := equity_curve st;
    br_trades := trades st;
    br_calmar_ratio := ratio_or_infinity annualized_return max_drawdown;
    br_var_95 := var_95;
    br_cvar_95 := cvar_95;
    br_recovery_factor := ratio_or_infinity return_pct max_drawdown;
    br_best_trade_return := extreme f64_max (f64_opp f64_infinity) trade_returns;
    br_worst_trade_return := extreme f64_min f64_infinity trade_returns;
    br_max_consecutive_wins := wins;
    br_max_consecutive_losses := losses;
    br_avg_win := avg_win;
    br_avg_loss := avg_loss;
    br_expectancy := f64_add (f64_mul win_rate avg_win)
                             (f64_mul (f64_sub f64_one win_rate) avg_loss);
  |}.

(** ** A run *)

(** [build_timeline]: the snapshots of each instant, in their order, the
    instants in time order. *)
Fixpoint timeline_push (s : MarketSnapshot) (l : list (datetime * list MarketSnapshot))
    : list (datetime * list MarketSnapshot) :=
  match l with
  | [] => [(ms_timestamp s, [s])]
  | (t, group) :: rest =>
      match dt_cmp (ms_timestamp s) t with
      | Eq => (t, group ++ [s]) :: rest
      | Lt => (ms_timestamp s, [s]) :: l
      | Gt => (t, group) :: timeline_push s rest
      end
  end.
Definition build_timeline (snapshots : list MarketSnapshot)
    : list (datetime * list MarketSnapshot) :=
  foldl (fun l s => timeline_push s l) [] snapshots.

Definition push_snapshot (c : StrategyContext) (s : MarketSnapshot) : StrategyContext :=
  let data := default [] (sc_market_data c !! ms_market_id s) ++ [s] in
  let data := if (100 <? length data)%nat then drop 50 data else data in
  {| c with sc_market_data := <[ms_market_id s := data]> (sc_market_data c) |}.

End Config.

(** The trait [Strategy]: each method changes the strategy and may fail, or
    panic. *)
Class Strategy (S E : Type) : Type := {
  initialize : StrategyContext -> S -> option (S * result unit E);
  on_data : StrategyContext -> S -> option (S * result (list Signal) E);
  on_fill : Signal -> dec -> dec -> S -> option (S * result unit E);
  finalize : StrategyContext -> S -> option (S * result unit E);
}.

Section Run.
Context (config : SimulatorConfig) (powf : f64 -> f64 -> f64).
Context {S E : Type} {ST : Strategy S E}.

Record Run : Type := {
  run_strategy : S;
  run_context : StrategyContext;
  run_state : SimulationState;
}.

Definition set_strategy (s : S) (w : Run) : Run := {| w with run_strategy := s |}.
Definition on_context (f : StrategyContext -> StrategyContext) (w : Run) : Run :=
  {| w with run_context := f (run_context w) |}.
Definition set_sim_state (st : SimulationState) (w : Run) : Run := {| w with run_state := st |}.

(** A call of a strategy's method followed by [?]. *)
Definition ask_strategy {A B} (f : S -> option (S * result A E)) : handler Run (result B E) A :=
  let! r := try_update (fun w => '(s, r) ← f (run_strategy w); Some (set_strategy s w, r)) in
  propagate r.

Definition at_time (t : datetime) (c : StrategyContext) : StrategyContext :=
  {| c with sc_timestamp := t |}.
(** [update_positions], with the context's copy. *)
Definition sync_positions (group : list MarketSnapshot) (w : Run) : Run :=
  let st := update_positions group (run_state w) in
  on_context (fun c => {| c with sc_positions := positions st |}) (set_sim_state st w).

Definition handle_signal {B} (group : list MarketSnapshot) (signal : Signal)
    : handler Run (result B E) unit :=
  let! trade := try_update (fun w =>
    '(st, trade) ← execute_signal config signal (run_context w) group (run_state w);
    Some (set_sim_state st w, trade)) in
  match trade with
  | None => ret tt
  | Some t => ask_strategy (on_fill signal (tr_entry_price t) (tr_quantity t))
  end.

Definition add_point (t : datetime) (st : SimulationState) : SimulationState :=
  {| st with equity_curve := equity_curve st ++ [(t, portfolio_value st)] |}.
(** The end of a step: the equity curve and the context's figures. *)
Definition record_equity (t : datetime) (w : Run) : Run :=
  let st := run_state w in
  on_context (fun c => {| c with sc_portfolio_value := portfolio_value st;
                                 sc_available_cash := cash st |})
    (set_sim_state (add_point t st) w).

Definition time_step {B} (step : datetime * list MarketSnapshot) : handler Run (result B E) unit :=
  let '(t, group) := step in
  modify (on_context (fun c => foldl push_snapshot (at_time t c) group)) ;;
  modify (sync_positions group) ;;
  let! w := get_state in
  let! signals := ask_strategy (on_data (run_context w)) in
  for_each (handle_signal group) signals ;;
  modify (record_equity t).

(** The run up to the metrics: what it leaves, or the error it returns. *)
Definition simulate (timeline : list (datetime * list MarketSnapshot))
    : handler Run (result unit E) (result unit E) :=
  let! w := get_state in
  ask_strategy (initialize (run_context w)) ;;
  for_each time_step timeline ;;
  let! w := get_state in
  ask_strategy (finalize (run_context w)) ;;
  try_update (fun w =>
    st ← close_all_positions config (run_context w) (run_state w);
    Some (set_sim_state st w, tt)) ;;
  ret (Ok tt).

Definition run_new (now : datetime) (s : S) : Run := {|
  run_strategy := s;
  run_context := context_new now (initial_capital config);
  run_state := state_new (initial_capital config);
|}.

(** [run]: [data] is the answer of the data store, [no_data] the error of an
    empty one. *)
Definition run (now : datetime) (no_data : E) (days : Z) (data : result (list MarketSnapshot) E)
    (s : S) : option (S * result BacktestResult E) :=
  match data with
  | Err e => Some (s, Err e)
  | Ok [] => Some (s, Err no_data)
  | Ok snapshots =>
      '(w, r) ← run_handler (simulate (build_timeline snapshots)) (run_new now s);
      match r with
      | Err e => Some (run_strategy w, Err e)
      | Ok _ =>
          result ← calculate_results config powf (run_state w) days (Z.of_nat (length snapshots));
          Some (run_strategy w, Ok result)
      end
  end.
End Run.
End Simulator.
