(* ===== verification/SimulatorFacts.v ===== *)
(** * The backtest simulator: lemmas

    Sums over the open positions, what one buy and one close do to the books,
    when a signal's execution panics, and the books over a run: [books] is the
    accounting identity every operation keeps, with the cost of the positions a
    buy has overwritten as the difference. *)

From S2P Require Import Prelude F64 Platform Handler Simulator.

Local Open Scope Q_scope.

(** ** Sums over a map *)

Section MapSum.
Context {A : Type}.
Implicit Types (f : A -> Q) (m : gmap string A).

Definition map_values (m : gmap string A) : list A := snd <$> map_to_list m.
Definition map_sum f m : Q := Qsum (f <$> map_values m).

Lemma map_sum_empty f : map_sum f ∅ == 0.
Proof. unfold map_sum, map_values. by rewrite map_to_list_empty. Qed.
Lemma map_sum_insert f m k a : m !! k = None -> map_sum f (<[k := a]> m) == f a + map_sum f m.
Proof.
  intros H. unfold map_sum, map_values. by rewrite (map_to_list_insert _ _ _ H).
Qed.
Lemma map_sum_delete f m k a : m !! k = Some a -> map_sum f m == f a + map_sum f (delete k m).
Proof.
  intros H. rewrite <- (map_sum_insert f (delete k m) k a) by apply lookup_delete_eq.
  by rewrite insert_delete_id.
Qed.
(** The share of a key, if it has one. *)
Definition at_key f m k : Q := match m !! k with Some a => f a | None => 0 end.
Lemma map_sum_replace f m k a :
  map_sum f (<[k := a]> m) == map_sum f m - at_key f m k + f a.
Proof.
  unfold at_key. destruct (m !! k) as [b|] eqn:E.
  - rewrite <- insert_delete_eq, map_sum_insert by apply lookup_delete_eq.
    rewrite (map_sum_delete f m k b) by done. lra.
  - rewrite map_sum_insert by done. lra.
Qed.
Lemma map_sum_fmap f (g : A -> A) m :
  (forall a, f (g a) == f a) -> map_sum f (g <$> m) == map_sum f m.
Proof.
  intros H. unfold map_sum, map_values. rewrite map_to_list_fmap.
  induction (map_to_list m) as [|[k a] l IH]; simpl; [done|]. simpl in IH. by rewrite IH, H.
Qed.
Lemma elem_of_map_values m k a : m !! k = Some a -> a ∈ map_values m.
Proof.
  intros H. apply list_elem_of_fmap. exists (k, a). split; [done|]. by apply elem_of_map_to_list.
Qed.
End MapSum.

Section SimulatorFacts.
Context `{DO : DecimalOps} `{CO : ChronoOps} {DS : DecimalSpec} {EX : DecimalExact}.
Implicit Types (st : SimulationState) (p : SimPosition) (signal : Signal) (q : Quote)
  (c : StrategyContext) (snap : MarketSnapshot).

Definition cost p : Q := dval (bp_quantity p) * dval (bp_entry_price p).
Definition value p : Q := dval (bp_quantity p) * dval (bp_current_price p).
Definition entry_fees st : Q := Qsum ((fun t => dval (tr_fees t)) <$> trades st).
Definition signal_key signal : string := position_key (sg_market_id signal) (sg_outcome_id signal).

Lemma dval_cost_basis p : dval (cost_basis p) == cost p.
Proof. apply dval_mul. Qed.
Lemma dval_proceeds q :
  dval (close_proceeds q) == dval (qt_quantity q) * dval (qt_price q) - dval (qt_fees q).
Proof. unfold close_proceeds. by rewrite dval_sub, dval_mul. Qed.

Lemma portfolio_value_sum st :
  dval (portfolio_value st) == dval (cash st) + map_sum value (positions st).
Proof.
  unfold portfolio_value. rewrite dval_add, dval_dec_sum. unfold map_sum, map_values.
  apply Qplus_comp; [done|].
  induction (map_to_list (positions st)) as [|[k p] l IH]; simpl; [done|]. simpl in IH.
  rewrite IH. unfold position_value. by rewrite dval_mul.
Qed.

(** ** When the prices of a signal can be computed *)

Lemma slippage_total m price qty spread depth h :
  is_Some (calculate_with_depth m price qty spread depth h).
Proof.
  destruct m; simpl; eauto.
  - apply dec_div_some. rewrite dval_TWO. lra.
  - destruct (depth >? ZERO)%dec eqn:E; [|eauto]. dec_to_Q.
    destruct (dec_div_some qty depth) as [r ->]; [lra|]. simpl. eauto.
Qed.

(** A partial-fill model that divides by no zero. *)
Definition fill_total (m : PartialFillModel) : Prop :=
  match m with
  | Probabilistic _ size_threshold decay_rate => 0 < dval size_threshold /\ 0 <= dval decay_rate
  | _ => True
  end.
Lemma calculate_fill_total m requested depth :
  fill_total m -> is_Some (calculate_fill m requested depth).
Proof.
  destruct m; simpl; eauto. intros [Ht Hd].
  destruct (requested <=? size_threshold)%dec eqn:E; [eauto|]. dec_to_Q.
  destruct (dec_div_some requested size_threshold) as [r Hr]; [lra|]. rewrite Hr. simpl.
  assert (0 <= dval r).
  { rewrite <- dval_ZERO. eapply dec_div_ge; [done|lra|]. rewrite dval_ZERO. lra. }
  destruct (dec_div_some base_fill_pct (ONE + r * decay_rate)%dec) as [f ->]; [|simpl; eauto].
  rewrite dval_add, dval_mul, dval_ONE. nra.
Qed.

Section Config.
Variable config : SimulatorConfig.

Lemma quote_close_total p st snap : exists q,
  quote_close config p st snap = Some q /\ qt_quantity q = bp_quantity p.
Proof.
  unfold quote_close. destruct (slippage_total (slippage_model config)
    (bid_of (bp_outcome_id p) snap) (bp_quantity p) (spread_of (bp_outcome_id p) snap)
    (bid_depth_of (bp_outcome_id p) snap) (hour (ms_timestamp snap))) as [s ->].
  simpl. eauto.
Qed.
Lemma close_return_total p q : is_Some (close_return p q).
Proof.
  unfold close_return. destruct (cost_basis p >? ZERO)%dec eqn:E; [|eauto]. dec_to_Q.
  destruct (dec_div_some (close_proceeds q) (cost_basis p)) as [x ->]; [lra|]. simpl. eauto.
Qed.

(** ** One buy *)

(** A quote is one the cash pays for, at the ask with its slippage, in a narrow
    enough spread. *)
Record quoted signal c st snap q : Prop := {
  quoted_affordable :
    dval (qt_quantity q) * dval (qt_price q) + dval (qt_fees q) <= dval (cash st);
  quoted_price :
    dval (qt_price q) == dval (ask_of (sg_outcome_id signal) snap) + dval (qt_slippage q);
  quoted_spread : dval (spread_of (sg_outcome_id signal) snap) <= dval (max_spread_for_fill config);
  quoted_budget : dval (sim_min_position_size config) <= dval (buy_budget config signal c st);
  quoted_quantity : exists requested,
    dec_div (buy_budget config signal c st) (ask_of (sg_outcome_id signal) snap) = Some requested /\
    calculate_fill (partial_fill_model config) requested (ask_depth_of (sg_outcome_id signal) snap)
      = Some (qt_quantity q);
}.

Lemma quote_buy_quoted signal c st snap q :
  quote_buy config signal c st snap = Some (Some q) -> quoted signal c st snap q.
Proof.
  unfold quote_buy. intros H.
  destruct (_ <? sim_min_position_size config)%dec eqn:E1; [done|].
  destruct (negb _) eqn:E2; [done|]. apply negb_false_iff in E2. unfold can_fill in E2.
  inv_bind. destruct (_ <? _)%dec eqn:E5 in H; [done|]. inv_bind.
  destruct (_ >? cash st)%dec eqn:E7 in H; [done|]. simplify_eq.
  dec_to_Q. rewrite dval_add, dval_mul in E7. split; cbn [qt_quantity qt_price qt_fees qt_slippage]; try done.
  - apply dval_add.
  - eauto.
Qed.

(** Nothing but a zero ask stops a buy from being answered. *)
Lemma quote_buy_total signal c st snap :
  fill_total (partial_fill_model config) -> ~ dval (ask_of (sg_outcome_id signal) snap) == 0 ->
  is_Some (quote_buy config signal c st snap).
Proof.
  intros Hf Hask. unfold quote_buy.
  destruct (_ <? sim_min_position_size config)%dec; [eauto|].
  destruct (negb _); [eauto|].
  destruct (dec_div_some (buy_budget config signal c st) (ask_of (sg_outcome_id signal) snap) Hask)
    as [x ->]. simpl.
  destruct (calculate_fill_total _ x (ask_depth_of (sg_outcome_id signal) snap) Hf) as [y ->]. simpl.
  destruct (dec_div_some (sim_min_position_size config) (ask_of (sg_outcome_id signal) snap) Hask)
    as [z ->]. simpl.
  destruct (y <? z)%dec; [eauto|].
  destruct (slippage_total (slippage_model config) (ask_of (sg_outcome_id signal) snap) y
    (spread_of (sg_outcome_id signal) snap) (ask_depth_of (sg_outcome_id signal) snap)
    (hour (ms_timestamp snap))) as [w ->]. simpl.
  destruct (_ >? cash st)%dec; eauto.
Qed.

(** ** The books *)

(** A position's key is that of its market and outcome. *)
Definition keyed (ps : gmap string SimPosition) : Prop :=
  forall k p, ps !! k = Some p -> k = position_key (bp_market_id p) (bp_outcome_id p).

(** What the books say after spending from [initial], [lost] being the cost of
    the positions that buys have overwritten. *)
Record books (initial lost : Q) st : Prop := {
  books_ledger : dval (cash st) + map_sum cost (positions st) + entry_fees st + lost
                 == initial + dval (sim_realized_pnl st);
  books_results : dval (sim_realized_pnl st) == dval (total_wins st) - dval (total_losses st);
  books_wins : 0 <= dval (total_wins st);
  books_losses : 0 <= dval (total_losses st);
  books_counts : (0 <= winning_trades st /\ 0 <= losing_trades st)%Z;
  books_keyed : keyed (positions st);
}.

Lemma books_new capital : books (dval capital) 0 (state_new capital).
Proof.
  split; unfold state_new, entry_fees; cbn [cash positions trades sim_realized_pnl total_wins
    total_losses winning_trades losing_trades fmap list_fmap Qsum foldr];
    rewrite ?map_sum_empty, ?dval_ZERO; try lra; [lia|].
  intros k p. by rewrite lookup_empty.
Qed.

(** Marking to market keeps the books. *)
Lemma mark_to_market_keeps snap p :
  bp_quantity (mark_to_market snap p) = bp_quantity p /\
  bp_entry_price (mark_to_market snap p) = bp_entry_price p /\
  bp_market_id (mark_to_market snap p) = bp_market_id p /\
  bp_outcome_id (mark_to_market snap p) = bp_outcome_id p.
Proof. unfold mark_to_market. by case_match. Qed.
Lemma mark_cost snap ps : map_sum cost (mark_to_market snap <$> ps) == map_sum cost ps.
Proof.
  apply map_sum_fmap. intros p. unfold cost. by destruct (mark_to_market_keeps snap p) as (-> & -> & _).
Qed.
Lemma mark_keyed snap ps : keyed ps -> keyed (mark_to_market snap <$> ps).
Proof.
  intros H k p. rewrite lookup_fmap_Some. intros (p' & <- & Hk).
  destruct (mark_to_market_keeps snap p') as (_ & _ & -> & ->). by apply H.
Qed.
Lemma update_positions_books initial lost group st :
  books initial lost st -> books initial lost (update_positions group st).
Proof.
  intros []. unfold update_positions.
  assert (H : forall l ps, keyed ps ->
    keyed (foldl (fun ps s => mark_to_market s <$> ps) ps l) /\
    map_sum cost (foldl (fun ps s => mark_to_market s <$> ps) ps l) == map_sum cost ps).
  { induction l as [|s l IH]; intros ps Hk; [done|]. simpl.
    destruct (IH _ (mark_keyed s ps Hk)) as [Hk' Hs]. split; [done|]. by rewrite Hs, mark_cost. }
  destruct (H group (positions st) books_keyed0) as [Hk Hs].
  split; cbn [set_positions cash positions trades sim_realized_pnl total_wins total_losses
    winning_trades losing_trades entry_fees]; try done.
  change (entry_fees (set_positions _ st)) with (entry_fees st). by rewrite Hs.
Qed.
Lemma update_positions_lookup group st k :
  is_Some (positions (update_positions group st) !! k) <-> is_Some (positions st !! k).
Proof.
  unfold update_positions. cbn [set_positions positions]. generalize (positions st).
  induction group as [|s l IH]; intros ps; [done|]. simpl. by rewrite IH, lookup_fmap, fmap_is_Some.
Qed.

Lemma book_buy_books initial lost signal now q st :
  books initial lost st ->
  books initial (lost + at_key cost (positions st) (signal_key signal)) (book_buy signal now q st).
Proof.
  intros []. split; unfold entry_fees in *; cbn [book_buy cash positions trades sim_realized_pnl
    total_wins total_losses winning_trades losing_trades]; try done.
  - rewrite map_sum_replace, fmap_app, Qsum_app. fold (signal_key signal).
    rewrite dval_sub, dval_add, dval_mul. cbn [fmap list_fmap Qsum foldr buy_trade tr_fees].
    assert (Hc : cost (buy_position signal now q) = dval (qt_quantity q) * dval (qt_price q)) by done.
    rewrite Hc. lra.
  - intros k p Hk. destruct (decide (k = signal_key signal)) as [->|Hne].
    + unfold signal_key in Hk. rewrite lookup_insert_eq in Hk. by simplify_eq.
    + unfold signal_key in Hne. rewrite lookup_insert_ne in Hk by done. by apply books_keyed0.
Qed.

Lemma close_entry_fees signal t price pnl r l :
  Qsum ((fun t => dval (tr_fees t)) <$> close_entry signal t price pnl r l)
  = Qsum ((fun t => dval (tr_fees t)) <$> l).
Proof.
  unfold close_entry. induction l as [|x l IH]; [done|]. simpl.
  case_match; [done|]. rewrite !fmap_cons. unfold Qsum in *. cbn [foldr]. by rewrite IH.
Qed.

(** The tally of a closed trade: its result counts once, as a win or a loss. *)
Lemma book_result_keeps pnl st :
  let st' := book_result pnl st in
  cash st' = cash st /\ positions st' = positions st /\ trades st' = trades st /\
  sim_realized_pnl st' = sim_realized_pnl st /\
  dval (total_wins st') - dval (total_losses st')
    == dval (total_wins st) - dval (total_losses st) + dval pnl /\
  dval (total_wins st) <= dval (total_wins st') /\
  dval (total_losses st) <= dval (total_losses st') /\
  (winning_trades st' + losing_trades st' = winning_trades st + losing_trades st + 1 /\
   winning_trades st <= winning_trades st' /\ losing_trades st <= losing_trades st')%Z.
Proof.
  unfold book_result. destruct (pnl >? ZERO)%dec eqn:E; dec_to_Q;
    cbn [cash positions trades sim_realized_pnl total_wins total_losses winning_trades losing_trades];
    repeat (split; [done|]); rewrite ?dval_add, ?dval_abs, ?(Qabs_neg (dval pnl)) by done;
    repeat split; lra || lia.
Qed.

Lemma book_close_keeps signal key p q t r st :
  let st' := book_close signal key p q t r st in
  dval (cash st') == dval (cash st) + dval (close_proceeds q) /\
  positions st' = delete key (positions st) /\
  trades st' = close_entry signal t (qt_price q) (close_pnl p q) r (trades st) /\
  dval (sim_realized_pnl st') == dval (sim_realized_pnl st) + dval (close_pnl p q).
Proof.
  unfold book_close. cbv zeta.
  match goal with |- context [book_result ?x ?y] =>
    destruct (book_result_keeps x y) as (E1 & E2 & E3 & E4 & _) end.
  rewrite E1, E2, E3, E4. cbn [cash positions trades sim_realized_pnl]. by rewrite !dval_add.
Qed.

Lemma book_close_books initial lost signal key p q t r st :
  positions st !! key = Some p -> books initial lost st ->
  books initial lost (book_close signal key p q t r st).
Proof.
  intros Hp []. pose proof (map_sum_delete cost _ _ _ Hp) as Hs.
  assert (Hpnl : dval (close_pnl p q) == dval (close_proceeds q) - cost p)
    by (unfold close_pnl; by rewrite dval_sub, dval_cost_basis).
  destruct (book_close_keeps signal key p q t r st) as (E1 & E2 & E3 & E4).
  unfold book_close in *. cbv zeta in *.
  match goal with |- context [book_result ?x ?y] =>
    destruct (book_result_keeps x y) as (_ & _ & _ & _ & E5 & E6 & E7 & E8 & E9 & E10) end.
  cbn [cash positions trades sim_realized_pnl total_wins total_losses winning_trades losing_trades] in *.
  split; try lra; try lia.
  - unfold entry_fees in *. rewrite E1, E2, E3, E4, close_entry_fees. lra.
  - rewrite E2. intros k p' Hk. apply books_keyed0. by apply lookup_delete_Some in Hk as [_ ?].
Qed.

(** ** One signal *)

(** What the execution of a signal can do. *)
Inductive executed signal st : SimulationState -> option TradeRecord -> Prop :=
| executed_none : executed signal st st None
| executed_buy c snap q now :
    sg_type signal = SigBuy -> quoted signal c st snap q ->
    executed signal st (book_buy signal now q st) (Some (buy_trade signal now q))
| executed_close p q t r :
    positions st !! signal_key signal = Some p -> qt_quantity q = bp_quantity p ->
    executed signal st (book_close signal (signal_key signal) p q t r st)
      (Some (close_trade signal p q t r)).

(** No ask of the snapshots is zero. *)
Definition asks_nonzero (group : list MarketSnapshot) : Prop :=
  Forall (fun s => ~ dval (yes_ask_price s) == 0 /\ ~ dval (no_ask_price s) == 0) group.

Lemma execute_close_executed signal snap st : exists st' trade,
  execute_close config signal snap st = Some (st', trade) /\
  executed signal st st' trade /\ positions st' = delete (signal_key signal) (positions st).
Proof.
  unfold execute_close. fold (signal_key signal).
  destruct (positions st !! signal_key signal) as [p|] eqn:Hp.
  - destruct (quote_close_total p st snap) as (q & -> & Hq). simpl.
    destruct (close_return_total p q) as [r ->]. simpl. do 2 eexists. split; [done|]. split.
    + by constructor.
    + by destruct (book_close_keeps signal (signal_key signal) p q (ms_timestamp snap) r st) as (_ & E & _).
  - do 2 eexists. split; [done|]. split; [constructor|]. by rewrite delete_id.
Qed.

Lemma execute_signal_executed signal c group st :
  fill_total (partial_fill_model config) -> asks_nonzero group -> exists st' trade,
  execute_signal config signal c group st = Some (st', trade) /\ executed signal st st' trade /\
  (is_Some trade -> sg_market_id signal ∈ ms_market_id <$> group).
Proof.
  intros Hf Hasks. unfold execute_signal.
  destruct (List.find _ group) as [snap|] eqn:Efind.
  2:{ exists st, None. split; [done|]. split; [constructor|]. by intros [? ?]. }
  apply List.find_some in Efind as [Hin Hm%bool_decide_eq_true].
  assert (Hg : sg_market_id signal ∈ ms_market_id <$> group).
  { rewrite <- Hm. apply list_elem_of_fmap_2. by apply list_elem_of_In. }
  destruct (sg_type signal) eqn:Et.
  - assert (Hask : ~ dval (ask_of (sg_outcome_id signal) snap) == 0).
    { unfold asks_nonzero in Hasks. rewrite Forall_forall in Hasks.
      destruct (Hasks snap) as [? ?]; [by apply list_elem_of_In|].
      unfold ask_of. by case_match. }
    unfold execute_buy. destruct (quote_buy_total signal c st snap Hf Hask) as [[q|] Eq]; rewrite Eq; simpl.
    + do 2 eexists. split; [done|]. split; [|done]. econstructor; [done|]. by apply quote_buy_quoted.
    + do 2 eexists. split; [done|]. split; [constructor|done].
  - destruct (execute_close_executed signal snap st) as (st' & trade & E & Hex & _).
    exists st', trade. by unfold execute_sell.
  - destruct (execute_close_executed signal snap st) as (st' & trade & E & Hex & _).
    exists st', trade. done.
  - exists st, None. split; [done|]. split; [constructor|done].
Qed.
End Config.

(** ** Strategies that buy nothing twice *)

Definition is_buy signal : bool := match sg_type signal with SigBuy => true | _ => false end.
Definition buy_keys (l : list Signal) : list string := signal_key <$> List.filter is_buy l.
Definition binary (outcome : string) : Prop := outcome = "yes" \/ outcome = "no".
(** Only outcomes of binary markets are held. *)
Definition binary_held (ps : gmap string SimPosition) : Prop :=
  forall k p, ps !! k = Some p -> binary (bp_outcome_id p).
(** The buys are of outcomes that differ and are not held. *)
Record fresh_buys (ps : gmap string SimPosition) (l : list Signal) : Prop := {
  fresh_distinct : NoDup (buy_keys l);
  fresh_absent : forall k, k ∈ buy_keys l -> ps !! k = None;
  fresh_binary : Forall (fun s => is_buy s = true -> binary (sg_outcome_id s)) l;
}.

(** What the run relies on: the strategy answers, and its buys are fresh. *)
Class Disciplined (S E : Type) {ST : Strategy S E} : Prop := {
  initialize_answers : forall c (s : S), exists s', initialize c s = Some (s', Ok tt);
  on_data_answers : forall c (s : S),
    keyed (sc_positions c) -> binary_held (sc_positions c) -> exists s' signals,
    on_data c s = Some (s', Ok signals) /\ fresh_buys (sc_positions c) signals;
  on_fill_answers : forall signal price qty (s : S), exists s',
    on_fill signal price qty s = Some (s', Ok tt);
  finalize_answers : forall c (s : S), exists s', finalize c s = Some (s', Ok tt);
}.

Lemma fresh_buys_tail ps signal l : fresh_buys ps (signal :: l) -> fresh_buys ps l.
Proof.
  intros [Hnd Ha Hb]. unfold buy_keys, is_buy in *. cbn [List.filter] in *.
  apply Forall_cons in Hb as [_ Hb].
  destruct (sg_type signal); [rewrite fmap_cons in *; apply NoDup_cons in Hnd as [_ Hnd]|..];
    (split; [done| |done]); intros k Hk; apply Ha; try done; by right.
Qed.
Lemma fresh_buys_head ps signal l :
  fresh_buys ps (signal :: l) -> sg_type signal = SigBuy ->
  ps !! signal_key signal = None /\ binary (sg_outcome_id signal) /\
  signal_key signal ∉ buy_keys l.
Proof.
  intros [Hnd Ha Hb] Ht. apply Forall_cons in Hb as [Hb _].
  unfold buy_keys, is_buy in *. cbn [List.filter] in *. rewrite Ht, fmap_cons in *.
  apply NoDup_cons in Hnd as [Hn _]. split; [apply Ha; by left|]. split; [by apply Hb|done].
Qed.

(** One signal leaves the rest fresh, and costs no position. *)
Lemma executed_fresh config initial signal l st st' trade :
  books initial 0 st -> binary_held (positions st) -> fresh_buys (positions st) (signal :: l) ->
  executed config signal st st' trade ->
  books initial 0 st' /\ binary_held (positions st') /\ fresh_buys (positions st') l.
Proof.
  intros Hb Hbin Hf Hex. pose proof (fresh_buys_tail _ _ _ Hf) as Hf'.
  destruct Hex as [|c snap q now Ht _|p q t r Hp _].
  - done.
  - destruct (fresh_buys_head _ _ _ Hf Ht) as (Hnew & Hbin' & Hnot).
    pose proof (book_buy_books initial 0 signal now q st Hb) as H.
    unfold at_key in H. rewrite Hnew in H. split; [destruct H; split; done || lra|].
    unfold book_buy. cbn [positions]. split.
    + intros k p. intros [[<- <-]|[? ?]]%lookup_insert_Some; [done|by eapply Hbin].
    + destruct Hf' as [Hnd Ha Hall]. split; [done| |done]. intros k Hk.
      fold (signal_key signal). rewrite lookup_insert_ne; [by apply Ha|]. by intros <-.
  - split; [by apply book_close_books|].
    destruct (book_close_keeps signal (signal_key signal) p q t r st) as (_ & -> & _). split.
    + intros k p' [_ ?]%lookup_delete_Some. by eapply Hbin.
    + destruct Hf' as [Hnd Ha Hall]. split; [done| |done]. intros k Hk.
      apply lookup_delete_None. right. by apply Ha.
Qed.

(** ** A run *)

(** Every position's market has a snapshot to close it at. *)
Definition priced (m : string) c : Prop := is_Some (latest_snapshot m c).
Definition covered c st : Prop := forall k p, positions st !! k = Some p -> priced (bp_market_id p) c.

Lemma push_snapshot_priced c snap m :
  m = ms_market_id snap \/ priced m c -> priced m (push_snapshot c snap).
Proof.
  unfold priced, latest_snapshot, push_snapshot. cbn [sc_market_data].
  destruct (decide (m = ms_market_id snap)) as [->|Hne].
  - intros _. rewrite lookup_insert_eq. cbn [mbind option_bind].
    set (l := default [] _). destruct (100 <? length (l ++ [snap]))%nat eqn:E.
    + apply Nat.ltb_lt in E. rewrite length_app in E. simpl in E.
      rewrite drop_app_le by lia. by rewrite last_snoc.
    + by rewrite last_snoc.
  - intros [?|?]; [done|]. by rewrite lookup_insert_ne.
Qed.
Lemma push_snapshots_priced group c m :
  m ∈ ms_market_id <$> group \/ priced m c -> priced m (foldl push_snapshot c group).
Proof.
  revert c. induction group as [|s l IH]; intros c Hm; simpl.
  - destruct Hm as [?%elem_of_nil|]; done.
  - apply IH. rewrite fmap_cons, elem_of_cons in Hm.
    destruct Hm as [[->|?]|?]; [right|by left|right]; apply push_snapshot_priced; auto.
Qed.
Lemma push_snapshots_positions group c :
  sc_positions (foldl push_snapshot c group) = sc_positions c.
Proof. revert c. induction group as [|s l IH]; intros c; [done|]. simpl. by rewrite IH. Qed.

Lemma update_positions_markets group st k p :
  positions (update_positions group st) !! k = Some p ->
  exists p', positions st !! k = Some p' /\ bp_market_id p = bp_market_id p' /\
             bp_outcome_id p = bp_outcome_id p'.
Proof.
  unfold update_positions. cbn [set_positions positions]. generalize (positions st) p.
  induction group as [|s l IH]; intros ps p0; simpl; [eauto|].
  intros (p1 & H1 & E & E')%IH. apply lookup_fmap_Some in H1 as (p2 & <- & H2).
  exists p2. split; [done|]. rewrite E, E'.
  by destruct (mark_to_market_keeps s p2) as (_ & _ & -> & ->).
Qed.

Lemma executed_covered config signal st st' trade c :
  executed config signal st st' trade -> covered c st ->
  (is_Some trade -> priced (sg_market_id signal) c) -> covered c st'.
Proof.
  intros Hex Hc Hg. destruct Hex as [|c' snap q now Ht _|p q t r Hp _]; [done| |].
  - intros k p. unfold book_buy. cbn [positions]. intros [[<- <-]|[? ?]]%lookup_insert_Some.
    + apply Hg. eauto.
    + by eapply Hc.
  - intros k p'. destruct (book_close_keeps signal (signal_key signal) p q t r st) as (_ & -> & _).
    intros [_ ?]%lookup_delete_Some. by eapply Hc.
Qed.

(** *** The timeline *)

Lemma timeline_push_forall (P : MarketSnapshot -> Prop) s l :
  P s -> Forall (fun e => Forall P e.2) l -> Forall (fun e => Forall P e.2) (timeline_push s l).
Proof.
  intros Hs. induction 1 as [|[t g] l Hg Hl IH]; simpl; [by repeat constructor|].
  destruct (dt_cmp (ms_timestamp s) t).
  - constructor; [|done]. simpl. apply Forall_app_2; [done|]. by apply Forall_singleton.
  - constructor; [by apply Forall_singleton|]. by constructor.
  - by constructor.
Qed.
Lemma build_timeline_forall (P : MarketSnapshot -> Prop) l :
  Forall P l -> Forall (fun e => Forall P e.2) (build_timeline l).
Proof.
  unfold build_timeline. intros Hl.
  assert (H : Forall (fun e : datetime * list MarketSnapshot => Forall P e.2) []) by constructor.
  revert H. generalize (@nil (datetime * list MarketSnapshot)).
  induction Hl as [|s l Hs Hl IH]; intros acc H; simpl; [done|].
  apply IH. by apply timeline_push_forall.
Qed.
Lemma timeline_push_perm s l :
  concat (snd <$> timeline_push s l) ≡ₚ concat (snd <$> l) ++ [s].
Proof.
  induction l as [|[t g] l IH]; simpl; [done|]. destruct (dt_cmp (ms_timestamp s) t); simpl.
  - rewrite <- !app_assoc. f_equiv. apply Permutation_app_comm.
  - apply (Permutation_app_comm [s]).
  - rewrite <- app_assoc. f_equiv. apply IH.
Qed.
(** Every snapshot is in the timeline once. *)
Lemma build_timeline_perm l : concat (snd <$> build_timeline l) ≡ₚ l.
Proof.
  unfold build_timeline.
  assert (H : forall acc, concat (snd <$> foldl (fun l s => timeline_push s l) acc l)
                          ≡ₚ concat (snd <$> acc) ++ l).
  { induction l as [|s l IH]; intros acc; simpl; [by rewrite app_nil_r|].
    rewrite IH, timeline_push_perm. by rewrite <- app_assoc. }
  by rewrite H.
Qed.

(** *** The final close *)

Lemma close_last_closes config c st p initial lost :
  books initial lost st -> priced (bp_market_id p) c ->
  (positions st !! position_key (bp_market_id p) (bp_outcome_id p) = Some p) -> exists st',
  close_last config c (Some st) p = Some st' /\ books initial lost st' /\
  positions st' = delete (position_key (bp_market_id p) (bp_outcome_id p)) (positions st).
Proof.
  intros Hb [snap Hs] Hp. unfold close_last. cbn [mbind option_bind]. rewrite Hs.
  destruct (execute_close_executed config (signal_close (bp_market_id p) (bp_outcome_id p)) snap st)
    as (st' & trade & -> & Hex & Hpos).
  exists st'. split; [done|]. split; [|done].
  inversion Hex as [|c' snap' q now Ht|p' q t r Hp' Hq]; subst; [done|done|].
  by apply book_close_books.
Qed.

Lemma close_all_flat config c st initial lost :
  books initial lost st -> covered c st -> exists st',
  close_all_positions config c st = Some st' /\ books initial lost st' /\ positions st' = ∅.
Proof.
  unfold close_all_positions. intros Hb Hc.
  assert (Hin : forall k p, positions st !! k = Some p -> (k, p) ∈ map_to_list (positions st))
    by (intros; by apply elem_of_map_to_list).
  assert (Hout : Forall (fun e => positions st !! e.1 = Some e.2) (map_to_list (positions st)))
    by (apply Forall_forall; intros [k p] ?%elem_of_map_to_list; done).
  pose proof (NoDup_fst_map_to_list (positions st)) as Hnd.
  revert st Hb Hc Hin Hout Hnd.
  assert (H : forall l st, books initial lost st -> covered c st ->
    (forall k p, positions st !! k = Some p -> (k, p) ∈ l) ->
    Forall (fun e => positions st !! e.1 = Some e.2) l -> NoDup l.*1 -> exists st',
    foldl (close_last config c) (Some st) (snd <$> l) = Some st' /\ books initial lost st' /\
    positions st' = ∅); [|eauto].
  induction l as [|[k p] l IH]; intros st Hb Hc Hin Hout Hnd.
  - exists st. split; [done|]. split; [done|]. apply map_empty. intros k.
    destruct (positions st !! k) as [p|] eqn:E; [|done]. by apply Hin, elem_of_nil in E.
  - apply Forall_cons in Hout as [Hk Hout]. simpl in Hk.
    rewrite fmap_cons in Hnd. apply NoDup_cons in Hnd as [Hn Hnd]. simpl in Hn.
    pose proof (books_keyed _ _ _ Hb k p Hk) as Ek.
    destruct (close_last_closes config c st p initial lost) as (st' & E & Hb' & Hpos);
      [done|by eapply Hc|by rewrite <- Ek|].
    rewrite <- Ek in Hpos. rewrite fmap_cons. cbn [foldl snd]. rewrite E.
    apply IH; [done| | |  |done].
    + intros k' p'. rewrite Hpos. intros [_ ?]%lookup_delete_Some. by eapply Hc.
    + intros k' p'. rewrite Hpos. intros [Hne H']%lookup_delete_Some.
      apply Hin, elem_of_cons in H' as [[= ? ?]|?]; [by subst|done].
    + rewrite Forall_forall in *. intros [k' p'] Hin'. rewrite Hpos.
      rewrite lookup_delete_ne; [by apply (Hout (k', p'))|]. simpl. intros <-.
      apply Hn. by apply (list_elem_of_fmap_2 fst _ (k, p')).
Qed.

(** *** The loop *)

Section Run.
Context (config : SimulatorConfig) {S E : Type} {ST : Strategy S E} {DI : Disciplined S E}.
Hypothesis fills : fill_total (partial_fill_model config).
Variable initial : Q.

Definition run_ok (w : Run) : Prop :=
  books initial 0 (run_state (S := S) w) /\ covered (run_context w) (run_state w) /\
  binary_held (positions (run_state w)).

Lemma wp_ask_strategy {A B} (f : S -> option (S * result A E))
    (P : Run -> flow (result B E) A -> Prop) w s a :
  f (run_strategy w) = Some (s, Ok a) -> P (set_strategy s w) (Go a) -> wp (ask_strategy f) P w.
Proof.
  intros Hf HP. unfold ask_strategy. apply wp_bind. eapply wp_try_update; [by rewrite Hf|].
  by apply wp_ret.
Qed.

Lemma handle_signal_ok {B} group signal l w (P : Run -> flow (result B E) unit -> Prop) :
  asks_nonzero group ->
  (forall m, m ∈ ms_market_id <$> group -> priced m (run_context w)) ->
  run_ok w -> fresh_buys (positions (run_state w)) (signal :: l) ->
  (forall w', run_context w' = run_context w -> run_ok w' ->
     fresh_buys (positions (run_state w')) l -> P w' (Go tt)) ->
  wp (handle_signal config group signal) P w.
Proof.
  intros Hasks Hg (Hb & Hc & Hbin) Hf HP. unfold handle_signal. apply wp_bind.
  destruct (execute_signal_executed config signal (run_context w) group (run_state w) fills Hasks)
    as (st' & trade & Ex & Hex & Hm).
  eapply wp_try_update; [by rewrite Ex|].
  destruct (executed_fresh _ _ _ _ _ _ _ Hb Hbin Hf Hex) as (Hb' & Hbin' & Hf').
  assert (Hc' : covered (run_context w) st')
    by (eapply executed_covered; [done..|]; intros ?; by apply Hg, Hm).
  destruct trade as [t|].
  - destruct (on_fill_answers signal (tr_entry_price t) (tr_quantity t) (run_strategy w)) as [s' Es].
    eapply wp_ask_strategy; [exact Es|]. by apply HP.
  - apply wp_ret. by apply HP.
Qed.

Lemma time_step_ok {B} t group w (P : Run -> flow (result B E) unit -> Prop) :
  asks_nonzero group -> run_ok w -> (forall w', run_ok w' -> P w' (Go tt)) ->
  wp (time_step config (t, group)) P w.
Proof.
  intros Hasks (Hb & Hc & Hbin) HP. unfold time_step. do 2 (wp_step; wp_step). wp_step. wp_step.
  set (c := foldl push_snapshot (at_time t (run_context w)) group).
  set (w1 := sync_positions group _).
  assert (Hb1 : books initial 0 (run_state w1)) by by apply update_positions_books.
  assert (Hps : forall m, m ∈ ms_market_id <$> group -> priced m (run_context w1))
    by (intros m Hm; apply (push_snapshots_priced group (at_time t (run_context w))); by left).
  assert (Hc1 : covered (run_context w1) (run_state w1)).
  { intros k p (p' & Hk & Em & _)%update_positions_markets. rewrite Em.
    apply (push_snapshots_priced group (at_time t (run_context w))). right.
    by apply (Hc k). }
  assert (Hbin1 : binary_held (positions (run_state w1)))
    by (intros k p (p' & Hk & _ & ->)%update_positions_markets; by eapply Hbin).
  destruct (on_data_answers (run_context w1) (run_strategy w1)) as (s' & signals & Es & Hf);
    [by apply (books_keyed _ _ _ Hb1)|done|].
  wp_step. eapply wp_ask_strategy; [exact Es|]. wp_step.
  apply (wp_for_each_rest (fun l w => run_ok w /\ fresh_buys (positions (run_state w)) l /\
    forall m, m ∈ ms_market_id <$> group -> priced m (run_context w))).
  - done.
  - intros signal l w2 (Hok & Hf2 & Hg2).
    eapply handle_signal_ok; [done|done|done|exact Hf2|].
    intros w' Ec Hok' Hf'. rewrite Ec. done.
  - intros w2 (([] & Hc2 & Hbin2) & _). wp_step. apply HP. split; [by split|].
    split; [|done]. intros k p Hk. by eapply Hc2.
Qed.

(** The run answers, with nothing left open and the books balanced. *)
Lemma simulate_ok timeline w :
  Forall (fun e => asks_nonzero e.2) timeline -> run_ok w ->
  wp (simulate config timeline)
    (fun w' f => f = Go (Ok tt) /\ books initial 0 (run_state w') /\ positions (run_state w') = ∅) w.
Proof.
  intros Ht Hok. unfold simulate. wp_step. wp_step.
  destruct (initialize_answers (run_context w) (run_strategy w)) as [s1 E1].
  wp_step. eapply wp_ask_strategy; [exact E1|]. wp_step.
  eapply (wp_for_each run_ok); [done| |].
  { intros [t group] w1 Hin Hok1. apply time_step_ok; [|done|done].
    rewrite Forall_forall in Ht. by apply (Ht (t, group)). }
  intros w1 (Hb1 & Hc1 & _). wp_step. wp_step.
  destruct (finalize_answers (run_context w1) (run_strategy w1)) as [s2 E2].
  wp_step. eapply wp_ask_strategy; [exact E2|]. wp_step.
  destruct (close_all_flat config (run_context w1) (run_state w1) _ _ Hb1 Hc1) as (st & E3 & Hb3 & Hflat).
  eapply wp_try_update; [by cbn [run_context run_state set_strategy]; rewrite E3|].
  by apply wp_ret.
Qed.
End Run.
End SimulatorFacts.
