(* ===== verification/Strategies.v ===== *)
(** * Backtest strategies

    Models two strategies of [crates/backtester/src/strategy.rs]: the
    arbitrage strategy, which buys both outcomes of a market at once, and the
    grid strategy, which buys an outcome at one price level after another.  A
    [HashMap] and a [HashSet] are finite maps and sets; what a signal carries
    for the log is left out. *)

From stdpp Require Import gmap.
From S2P Require Import Prelude F64 Platform Handler Simulator.

Section Strategies.
Context `{DO : DecimalOps} `{CO : ChronoOps} {E : Type}.

(** [Signal::buy] and [Signal::sell]. *)
Definition signal_buy (market_id outcome_id : string) (size : dec) : Signal := {|
  sg_market_id := market_id; sg_outcome_id := outcome_id; sg_type := SigBuy;
  sg_position_size := size |}.
Definition signal_sell (market_id outcome_id : string) (size : dec) : Signal := {|
  sg_market_id := market_id; sg_outcome_id := outcome_id; sg_type := SigSell;
  sg_position_size := size |}.

Definition sim_round_trip_fee (fee_pct : dec) : dec := (fee_pct * TWO)%dec.

(** ** Arbitrage *)

Record ArbitrageStrategy : Type := {
  base_min_spread : dec;
  trading_fee_pct : dec;
  as_position_size : dec;
  as_max_positions : Z;
  as_min_depth : dec;
  use_dynamic_threshold : bool;
  volatility_lookback : nat;
  volatility_multiplier : f64;
  effective_min_spread : dec;
}.

Definition default_arbitrage : ArbitrageStrategy :=
  let fee := dec_new 2 2 in
  let min_spread := dec_new 2 2 in
  {| base_min_spread := min_spread; trading_fee_pct := fee;
     as_position_size := dec_new 10 2; as_max_positions := 5; as_min_depth := dec_new 100 0;
     use_dynamic_threshold := false; volatility_lookback := 20;
     volatility_multiplier := f64_lit 15 10;
     effective_min_spread := (min_spread + sim_round_trip_fee fee)%dec |}.
Definition arbitrage_new (min_spread size : dec) (max_positions : Z) : ArbitrageStrategy :=
  let fee := dec_new 2 2 in
  let a := default_arbitrage in
  {| a with base_min_spread := min_spread; trading_fee_pct := fee; as_position_size := size;
            as_max_positions := max_positions;
            effective_min_spread := (min_spread + sim_round_trip_fee fee)%dec |}.
Definition with_fee (fee : dec) (a : ArbitrageStrategy) : ArbitrageStrategy :=
  {| a with trading_fee_pct := fee;
            effective_min_spread := (base_min_spread a + sim_round_trip_fee fee)%dec |}.
Definition with_min_depth (depth : dec) (a : ArbitrageStrategy) : ArbitrageStrategy :=
  {| a with as_min_depth := depth |}.
Definition with_dynamic_threshold (lookback : nat) (multiplier : f64) (a : ArbitrageStrategy)
    : ArbitrageStrategy :=
  {| a with use_dynamic_threshold := true; volatility_lookback := lookback;
            volatility_multiplier := multiplier |}.

Definition arb_spread (s : MarketSnapshot) : dec := (ONE - yes_ask_price s - no_ask_price s)%dec.
Definition calculate_dynamic_threshold (a : ArbitrageStrategy) (l : list MarketSnapshot) : dec :=
  if (length l <? 2)%nat then effective_min_spread a
  else
    let spreads := (fun s => default f64_zero (dec_parse_f64 (arb_spread s))) <$> l in
    let volatility := f64_std_dev (f64_mean spreads) spreads in
    let adjustment :=
      default ZERO (dec_from_f64 (f64_mul volatility (volatility_multiplier a))) in
    (effective_min_spread a + adjustment)%dec.
Definition has_sufficient_depth (a : ArbitrageStrategy) (s : MarketSnapshot) : bool :=
  (yes_ask_depth s >=? as_min_depth a)%dec && (no_ask_depth s >=? as_min_depth a)%dec.
Definition arb_min_spread (a : ArbitrageStrategy) (c : StrategyContext) (market_id : string) : dec :=
  if use_dynamic_threshold a
  then calculate_dynamic_threshold a (recent_snapshots market_id (volatility_lookback a) c)
  else effective_min_spread a.

(** Whether a market is entered: deep, cheap enough, and not held yet. *)
Definition arb_enters (a : ArbitrageStrategy) (c : StrategyContext) (market_id : string)
    (s : MarketSnapshot) : bool :=
  has_sufficient_depth a s
  && (ONE - (yes_ask_price s + no_ask_price s) >=? arb_min_spread a c market_id)%dec
  && negb (sim_has_position market_id c).

Definition arb_market (a : ArbitrageStrategy) (c : StrategyContext)
    (entry : string * list MarketSnapshot) : option (list Signal) :=
  let '(market_id, snapshots) := entry in
  match last snapshots with
  | None => Some []
  | Some s =>
      if arb_enters a c market_id s
      then leg ← dec_div (as_position_size a) TWO;
           Some [signal_buy market_id "yes" leg; signal_buy market_id "no" leg]
      else Some []
  end.
Definition open_markets (c : StrategyContext) : gset string :=
  list_to_set (bp_market_id ∘ snd <$> map_to_list (sc_positions c)).
Definition arb_on_data (a : ArbitrageStrategy) (c : StrategyContext) : option (list Signal) :=
  if (as_max_positions a <=? Z.of_nat (size (open_markets c)))%Z then Some []
  else (@concat _) <$> mapM (arb_market a c) (map_to_list (sc_market_data c)).

(** The trait's other methods do nothing. *)
#[export] Instance arbitrage_strategy : Strategy ArbitrageStrategy E := {|
  initialize _ a := Some (a, Ok tt);
  on_data c a := signals ← arb_on_data a c; Some (a, Ok signals);
  on_fill _ _ _ a := Some (a, Ok tt);
  finalize _ a := Some (a, Ok tt);
|}.

(** ** Grid *)

Record GridStrategy : Type := {
  center_price : option dec;
  grid_levels : Z;
  grid_spacing_pct : dec;
  order_size : dec;
  grid_max_position_size : dec;
  use_dynamic_center : bool;
  center_lookback : nat;
  filled_levels : gmap string (list Z);
  level_quantities : gmap string (gmap Z dec);
}.

Definition default_grid : GridStrategy := {|
  center_price := None; grid_levels := 5; grid_spacing_pct := dec_new 2 2;
  order_size := dec_new 5 2; grid_max_position_size := dec_new 50 2;
  use_dynamic_center := true; center_lookback := 20;
  filled_levels := ∅; level_quantities := ∅ |}.
Definition grid_new (levels : Z) (spacing size : dec) : GridStrategy :=
  let g := default_grid in
  {| g with grid_levels := levels; grid_spacing_pct := spacing; order_size := size |}.
Definition with_center (price : dec) (g : GridStrategy) : GridStrategy :=
  {| g with center_price := Some price; use_dynamic_center := false |}.
Definition with_max_position (max : dec) (g : GridStrategy) : GridStrategy :=
  {| g with grid_max_position_size := max |}.

(** The level of a price: its distance from the center in grid steps. *)
Definition price_to_level (g : GridStrategy) (price center : dec) : option Z :=
  if dec_is_zero center || dec_is_zero (grid_spacing_pct g) then Some 0%Z
  else
    deviation ← dec_div (price - center)%dec center;
    level ← dec_div deviation (grid_spacing_pct g);
    Some (f64_round_i32 (default f64_zero (dec_parse_f64 level))).
Definition calculate_dynamic_center (l : list MarketSnapshot) : option (option dec) :=
  match l with
  | [] => Some None
  | _ => Some <$> dec_div (dec_sum (yes_mid <$> l)) (dec_of_Z (Z.of_nat (length l)))
  end.
Definition total_position (g : GridStrategy) (market_id : string) : dec :=
  match level_quantities g !! market_id with
  | Some levels => dec_sum (snd <$> map_to_list levels)
  | None => ZERO
  end.

Definition filled (g : GridStrategy) (market_id : string) : list Z :=
  default [] (filled_levels g !! market_id).
Definition quantities (g : GridStrategy) (market_id : string) : gmap Z dec :=
  default ∅ (level_quantities g !! market_id).
Definition set_levels (market_id : string) (f : list Z) (q : gmap Z dec) (g : GridStrategy)
    : GridStrategy :=
  {| g with filled_levels := <[market_id := f]> (filled_levels g);
            level_quantities := <[market_id := q]> (level_quantities g) |}.

Definition grid_center (g : GridStrategy) (c : StrategyContext) (market_id : string) (price : dec)
    : option dec :=
  if use_dynamic_center g
  then o ← calculate_dynamic_center (recent_snapshots market_id (center_lookback g) c);
       Some (default price o)
  else Some (default price (center_price g)).

(** [x as i32] of an integer. *)
Definition i32_wrap (x : Z) : Z := u32_as_i32 (x mod 2 ^ 32)%Z.
(** A buy at a level below the center that is not filled yet, *)
Definition grid_buys (g : GridStrategy) (market_id : string) (level : Z) : bool :=
  (level <? 0)%Z && (i32_wrap (- i32_wrap (grid_levels g)) <=? level)%Z
  && negb (bool_decide (level ∈ filled g market_id))
  && (total_position g market_id <? grid_max_position_size g)%dec.
Definition grid_buy (market_id : string) (level : Z) (g : GridStrategy)
    : GridStrategy * list Signal :=
  (set_levels market_id (filled g market_id ++ [level])
     (<[level := order_size g]> (quantities g market_id)) g,
   [signal_buy market_id "yes" (order_size g)]).
(** and above it the sale of the filled levels. *)
Definition closable (level : Z) (quantities : gmap Z dec) (l : Z) : option (Z * dec) :=
  if (l <? level)%Z && (l <? 0)%Z then pair l <$> quantities !! l else None.
Definition grid_sell (market_id : string) (acc : GridStrategy * list Signal) (entry : Z * dec)
    : GridStrategy * list Signal :=
  let '(g, signals) := acc in
  (set_levels market_id (filter (fun l => l <> fst entry) (filled g market_id))
     (delete (fst entry) (quantities g market_id)) g,
   signals ++ [signal_sell market_id "yes" (snd entry)]).
Definition grid_sells (market_id : string) (level : Z) (g : GridStrategy)
    : GridStrategy * list Signal :=
  foldl (grid_sell market_id) (g, [])
    (omap (closable level (quantities g market_id)) (filled g market_id)).

Definition grid_market (c : StrategyContext) (o : option (GridStrategy * list Signal))
    (entry : string * list MarketSnapshot) : option (GridStrategy * list Signal) :=
  '(g, signals) ← o;
  let '(market_id, snapshots) := entry in
  match last snapshots with
  | None => Some (g, signals)
  | Some s =>
      center ← grid_center g c market_id (yes_mid s);
      level ← price_to_level g (yes_mid s) center;
      let g' := set_levels market_id (filled g market_id) (quantities g market_id) g in
      let '(g1, buys) := if grid_buys g market_id level then grid_buy market_id level g'
                         else (g', []) in
      let '(g2, sells) := if (0 <? level)%Z then grid_sells market_id level g1 else (g1, []) in
      Some (g2, signals ++ buys ++ sells)
  end.
Definition grid_on_data (g : GridStrategy) (c : StrategyContext)
    : option (GridStrategy * list Signal) :=
  foldl (grid_market c) (Some (g, [])) (map_to_list (sc_market_data c)).

#[export] Instance grid_strategy : Strategy GridStrategy E := {|
  initialize _ g := Some (g, Ok tt);
  on_data c g := '(g, signals) ← grid_on_data g c; Some (g, Ok signals);
  on_fill _ _ _ g := Some (g, Ok tt);
  finalize _ g := Some (g, Ok tt);
|}.
End Strategies.
