(* ===== verification/StrategiesFacts.v ===== *)
(** * What a backtest reports

    A backtest of the arbitrage strategy answers, ends flat and its result
    reconciles with its trades; what one buy books; and, on a run of the grid
    strategy, how a second buy of an outcome loses the first. *)

From stdpp Require Import gmap.
From S2P Require Import Prelude F64 Platform Handler Simulator SimulatorFacts Strategies.

Local Open Scope Q_scope.

(** ** Keys of positions *)

Lemma list_ascii_app a b :
  String.list_ascii_of_string (a +:+ b) = String.list_ascii_of_string a ++ String.list_ascii_of_string b.
Proof. induction a as [|c a IH]; [done|]. simpl. by rewrite IH. Qed.
Lemma list_ascii_inj a b : String.list_ascii_of_string a = String.list_ascii_of_string b -> a = b.
Proof.
  intros E. rewrite <- (String.string_of_list_ascii_of_string a), E.
  apply String.string_of_list_ascii_of_string.
Qed.

Lemma position_key_binary m m' o o' :
  binary o -> binary o' -> position_key m o = position_key m' o' -> m = m' /\ o = o'.
Proof.
  unfold position_key. intros Ho Ho' E%(f_equal String.list_ascii_of_string).
  rewrite !list_ascii_app in E.
  destruct Ho as [-> | ->], Ho' as [-> | ->]; simpl in E.
  1, 4: split; [|done]; apply list_ascii_inj; by apply app_inv_tail in E.
  all: apply (f_equal last) in E; rewrite !last_app in E; by simpl in E.
Qed.

Section StrategiesFacts.
Context `{DO : DecimalOps} `{CO : ChronoOps} {DS : DecimalSpec} {EX : DecimalExact}.

(** ** The arbitrage strategy buys nothing twice *)

Definition legs (m : string) (size : dec) : list Signal :=
  [signal_buy m "yes" size; signal_buy m "no" size].

Lemma arb_market_spec a c entry : exists l,
  arb_market a c entry = Some l /\
  (l = [] \/ exists size, l = legs entry.1 size /\ sim_has_position entry.1 c = false).
Proof.
  destruct entry as [m snapshots]. simpl. destruct (last snapshots) as [s|]; [|eauto].
  destruct (arb_enters a c m s) eqn:E; [|eauto].
  destruct (dec_div_some (as_position_size a) TWO) as [leg ->]; [rewrite dval_TWO; lra|].
  simpl. eexists. split; [done|]. right. exists leg. split; [done|].
  unfold arb_enters in E. by reflect_bools.
Qed.

(** The signals of the markets of [entries]: their keys are of those markets,
    distinct, and of markets without a position. *)
Lemma arb_markets_spec a c entries : NoDup entries.*1 -> exists ls,
  mapM (arb_market a c) entries = Some ls /\ NoDup (buy_keys (concat ls)) /\
  forall k, k ∈ buy_keys (concat ls) -> exists m o,
    k = position_key m o /\ binary o /\ m ∈ entries.*1 /\ sim_has_position m c = false.
Proof.
  induction entries as [|[m snapshots] entries IH]; intros Hnd.
  - exists []. split; [done|]. split; [constructor|]. by intros k ?%elem_of_nil.
  - rewrite fmap_cons in *. apply NoDup_cons in Hnd as [Hn Hnd]. simpl in Hn.
    destruct (IH Hnd) as (ls & E & Hls & Hkeys).
    destruct (arb_market_spec a c (m, snapshots)) as (l & El & Hl).
    exists (l :: ls). split; [cbn [mapM]; by rewrite El; simpl; rewrite E|].
    destruct Hl as [->|(size & -> & Hm)].
    + split; [done|]. intros k (m' & o & ? & ? & ? & ?)%Hkeys. exists m', o.
      split_and!; [done|done|by apply elem_of_cons; right|done].
    + cbn [fst] in *. change (buy_keys (concat (legs m size :: ls))) with
        (position_key m "yes" :: position_key m "no" :: buy_keys (concat ls)).
      assert (Hnew : forall o, binary o -> position_key m o ∉ buy_keys (concat ls)).
      { intros o Ho (m' & o' & Ek & Ho' & Hin & _)%Hkeys.
        apply position_key_binary in Ek as [-> _]; [|done..]. done. }
      assert (Hyes : binary "yes") by by left. assert (Hno : binary "no") by by right.
      split.
      * constructor; [|constructor; [by apply Hnew|done]].
        rewrite elem_of_cons. intros [Ek|?]; [|by destruct (Hnew "yes"%string Hyes)].
        by apply position_key_binary in Ek as [_ ?].
      * intros k [->|[->|Hk]%elem_of_cons]%elem_of_cons.
        -- exists m, "yes"%string. split_and!; [done|done|by apply elem_of_cons; left|done].
        -- exists m, "no"%string. split_and!; [done|done|by apply elem_of_cons; left|done].
        -- apply Hkeys in Hk as (m' & o & ? & ? & ? & ?). exists m', o.
      split_and!; [done|done|by apply elem_of_cons; right|done].
Qed.

Lemma has_position_key c m o p :
  sim_has_position m c = false -> sc_positions c !! position_key m o = Some p ->
  keyed (sc_positions c) -> binary o -> binary (bp_outcome_id p) -> False.
Proof.
  intros Hm Hp Hk Ho Hop. pose proof (Hk _ _ Hp) as E.
  apply position_key_binary in E as [-> _]; [|done..].
  unfold sim_has_position in Hm. apply not_true_iff_false in Hm. apply Hm.
  apply existsb_exists. exists p. split; [|by apply bool_decide_eq_true].
  apply list_elem_of_In. by eapply elem_of_map_values.
Qed.

Context {E : Type}.

#[export] Instance arbitrage_disciplined : Disciplined ArbitrageStrategy E.
Proof.
  split; [by intros; eexists| |by intros; eexists|by intros; eexists].
  intros c a Hk Hbin. cbn [on_data arbitrage_strategy]. unfold arb_on_data.
  destruct (as_max_positions a <=? _)%Z.
  { exists a, []. split; [done|]. split; [constructor|by intros k ?%elem_of_nil|constructor]. }
  destruct (arb_markets_spec a c (map_to_list (sc_market_data c)) (NoDup_fst_map_to_list _))
    as (ls & El & Hnd & Hkeys).
  rewrite El. exists a, (concat ls). split; [done|]. split; [done| |].
  - intros k (m & o & -> & Ho & _ & Hm)%Hkeys.
    destruct (sc_positions c !! position_key m o) as [p|] eqn:Hp; [|done].
    destruct (has_position_key c m o p); [done..|by eapply Hbin].
  - apply Forall_concat. clear Hnd Hkeys. revert ls El.
    induction (map_to_list (sc_market_data c)) as [|entry l IH]; intros ls El; [injection El as <-; constructor|].
    cbn [mapM] in El. destruct (arb_market_spec a c entry) as (x & Ex & Hx). rewrite Ex in El.
    cbn [mbind option_bind] in El. destruct (mapM (arb_market a c) l) as [ls'|]; [|done].
    injection El as <-. constructor; [|by apply IH].
    destruct Hx as [->|(size & -> & _)]; [constructor|].
    constructor; [intros _; by left|]. constructor; [intros _; by right|constructor].
Qed.

(** ** The metrics are computed *)

Definition curve_positive (curve : list (datetime * dec)) : Prop :=
  Forall (fun point => 0 < dval point.2) curve.

Lemma drawdown_step_total peak worst point :
  0 < dval peak -> exists peak' worst',
  drawdown_step (Some (peak, worst)) point = Some (peak', worst') /\ 0 < dval peak'.
Proof.
  intros Hp. unfold drawdown_step. cbn [mbind option_bind].
  assert (H : forall top, 0 < dval top -> exists peak' worst',
    (ratio ← dec_div (top - point.2)%dec top;
     Some (top, f64_max worst (default f64_zero (dec_to_f64 ratio)))) = Some (peak', worst') /\
    0 < dval peak').
  { intros top Ht. destruct (dec_div_some (top - point.2)%dec top) as [r ->]; [lra|]. simpl. eauto. }
  destruct (point.2 >? peak)%dec eqn:Hc; dec_to_Q; apply H; lra.
Qed.
Lemma max_drawdown_total curve :
  curve_positive curve -> is_Some (calculate_max_drawdown curve).
Proof.
  unfold calculate_max_drawdown. destruct curve as [|[t first] rest]; [eauto|].
  intros Hc. pose proof (Forall_inv Hc) as Hfirst. cbn [snd] in *. apply fmap_is_Some.
  assert (H : forall l peak worst, 0 < dval peak ->
    is_Some (foldl drawdown_step (Some (peak, worst)) l)).
  { induction l as [|point l IH]; intros peak worst Hp; [eauto|]. cbn [foldl].
    destruct (drawdown_step_total peak worst point Hp) as (peak' & worst' & -> & ?). by apply IH. }
  by apply H.
Qed.
Lemma curve_returns_total curve : is_Some (curve_returns curve).
Proof.
  destruct curve as [|[t prev] rest]; [eauto|]. cbn [curve_returns snd]. revert prev.
  induction rest as [|[t' curr] rest IH]; intros prev; cbn [point_returns snd]; [eauto|].
  assert (Hr : is_Some (point_return prev curr)).
  { unfold point_return. destruct (dec_is_zero prev) eqn:Hz; [eauto|].
    destruct (dec_div_some (curr - prev)%dec prev) as [x ->]; [|simpl; eauto].
    unfold dec_is_zero in Hz. intros H. apply not_true_iff_false in Hz. apply Hz.
    apply dec_eqb_eq. by rewrite dval_ZERO. }
  destruct Hr as [r ->], (IH curr) as [rs Hrs]. simpl in *. rewrite Hrs. simpl. eauto.
Qed.
Lemma profit_factor_total st : is_Some (profit_factor st).
Proof.
  unfold profit_factor. destruct (total_losses st >? ZERO)%dec eqn:Hl; [|eauto]. dec_to_Q.
  destruct (dec_div_some (total_wins st) (total_losses st)) as [x ->]; [lra|]. simpl. eauto.
Qed.

(** The metrics need a capital and an equity that stays positive. *)
Lemma results_total config powf st days n :
  ~ dval (initial_capital config) == 0 -> curve_positive (equity_curve st) -> exists r,
  calculate_results config powf st days n = Some r /\
  br_total_return r = (portfolio_value st - initial_capital config)%dec /\
  br_trades r = trades st /\
  br_total_trades r = (br_winning_trades r + br_losing_trades r)%Z.
Proof.
  intros Hi Hc. unfold calculate_results.
  destruct (dec_div_some (portfolio_value st) (initial_capital config) Hi) as [g ->].
  destruct (max_drawdown_total _ Hc) as [x ->].
  destruct (curve_returns_total (equity_curve st)) as [rs Hrs].
  assert (H1 : is_Some (calculate_risk_metrics (equity_curve st)))
    by (unfold calculate_risk_metrics; rewrite Hrs; case_match; simpl; eauto).
  assert (H2 : is_Some (calculate_var_cvar (equity_curve st)))
    by (unfold calculate_var_cvar; rewrite Hrs; case_match; simpl; eauto).
  destruct H1 as [[sharpe sortino] ->], H2 as [[var cvar] ->], (profit_factor_total st) as [f ->].
  cbn [mbind option_bind]. destruct (calculate_consecutive_streaks (trades st)) as [ws ls].
  eexists. split; [reflexivity|]. done.
Qed.

(** ** The theorems *)

(** What a backtest of any disciplined strategy comes to. *)
Definition reconciles {S} {ST : Strategy S E} (config : SimulatorConfig) (powf : f64 -> f64 -> f64)
    (now : datetime) (no_data : E) (days : Z) (snapshots : list MarketSnapshot) (a : S) : Prop :=
  exists st a',
  run config powf now no_data days (Ok snapshots) a
    = (r ← calculate_results config powf st days (Z.of_nat (length snapshots)); Some (a', Ok r)) /\
  positions st = ∅ /\ 0 <= dval (total_wins st) /\ 0 <= dval (total_losses st) /\
  dval (portfolio_value st) == dval (initial_capital config)
    + (dval (total_wins st) - dval (total_losses st)) - entry_fees st /\
  (~ dval (initial_capital config) == 0 -> curve_positive (equity_curve st) -> exists r,
   run config powf now no_data days (Ok snapshots) a = Some (a', Ok r) /\
   br_trades r = trades st /\
   dval (br_total_return r) == dval (total_wins st) - dval (total_losses st) - entry_fees st).
Lemma disciplined_reconciles {S} {ST : Strategy S E} {DI : Disciplined S E} config powf now (no_data : E)
    days snapshots (a : S) :
  snapshots <> [] -> fill_total (partial_fill_model config) -> asks_nonzero snapshots ->
  reconciles config powf now no_data days snapshots a.
Proof.
  intros Hne Hf Hasks. unfold reconciles, run. destruct snapshots as [|snap rest]; [done|].
  set (l := snap :: rest) in *.
  assert (Hok : run_ok (dval (initial_capital config)) (run_new config now a)).
  { split; [apply books_new|]. split; intros k p Hk;
      unfold run_new, state_new in Hk; cbn [run_state positions] in Hk; by rewrite lookup_empty in Hk. }
  pose proof (simulate_ok config Hf _ (build_timeline l) (run_new config now a)
    (build_timeline_forall _ _ Hasks) Hok) as Hwp.
  pose proof (wp_run (simulate (E := E) config (build_timeline l))
    (fun w r => r = Ok tt /\ books (dval (initial_capital config)) 0 (run_state w) /\
                positions (run_state w) = ∅) (run_new config now a)) as Hrun.
  destruct Hrun as (w & r & Erun & -> & Hb & Hflat).
  { eapply wp_mono; [exact Hwp|]. intros w f (-> & Hb & Hflat). done. }
  rewrite Erun. cbn [mbind option_bind]. exists (run_state w), (run_strategy w).
  pose proof (portfolio_value_sum (run_state w)) as Hv. destruct Hb.
  rewrite Hflat, map_sum_empty in *.
  split; [done|]. split; [done|]. split; [done|]. split; [done|]. split; [lra|].
  intros Hi Hc. destruct (results_total config powf (run_state w) days (Z.of_nat (length l)) Hi Hc)
    as (r & -> & Hr & Ht & _).
  exists r. split; [done|]. split; [done|]. rewrite Hr, dval_sub. lra.
Qed.


(** A buy that is filled was affordable, within the spread limit and the
    position limits; the equity loses its fees, and the whole value of the
    position the outcome had, which the new one replaces. *)
Theorem buy_replaces_position config signal c snap st st' t :
  execute_buy config signal c snap st = Some (st', Some t) ->
  0 <= dval (cash st') /\
  dval (spread_of (sg_outcome_id signal) snap) <= dval (max_spread_for_fill config) /\
  dval (sim_min_position_size config) <= dval (buy_budget config signal c st) /\
  dval (buy_budget config signal c st)
    <= dval (sc_portfolio_value c) * dval (max_position_pct config) /\
  (exists p, positions st' = <[signal_key signal := p]> (positions st) /\
     bp_quantity p = tr_quantity t /\ bp_entry_price p = tr_entry_price t) /\
  dval (portfolio_value st') == dval (portfolio_value st) - dval (tr_fees t)
    - at_key value (positions st) (signal_key signal).
Proof.
  unfold execute_buy. intros H.
  destruct (quote_buy config signal c st snap) as [[q|]|] eqn:Eq; [|done..]. simplify_eq/=.
  destruct (quote_buy_quoted _ _ _ _ _ _ Eq) as [Haff _ Hspread Hbudget _].
  rewrite !portfolio_value_sum. unfold book_buy. cbn [cash positions].
  rewrite dval_sub, dval_add, dval_mul. split; [lra|]. split; [done|]. split; [done|].
  split; [unfold buy_budget; rewrite !dval_min, !dval_mul; q_cases; lra|].
  split; [eexists; by split|].
  fold (signal_key signal). rewrite map_sum_replace.
  assert (Hv : value (buy_position signal (sc_timestamp c) q)
               = dval (qt_quantity q) * dval (qt_price q)) by done.
  rewrite Hv. lra.
Qed.
End StrategiesFacts.

(** ** Witnesses *)

Module BacktestSample.
Import Platform.Concrete.

#[local] Existing Instances decimal decimal_spec decimal_exact chrono.

(** A snapshot of market m with the yes side around [mid] hundredths. *)
Definition snapshot (minute mid : Z) : MarketSnapshot := {|
  ms_market_id := "m"; ms_timestamp := at_minute minute;
  yes_bid := d (mid - 1) 2; yes_ask_price := d (mid + 1) 2;
  no_bid := d 44 2; no_ask_price := d 46 2;
  yes_bid_depth := d 1000 0; yes_ask_depth := d 1000 0;
  no_bid_depth := d 1000 0; no_ask_depth := d 1000 0;
  yes_mid := d mid 2; no_mid := d 45 2; yes_spread := d 2 2; no_spread := d 2 2;
  volume_24h := d 0 0 |}.
Definition power (x y : f64) : f64 := x.

Definition data : list MarketSnapshot := [snapshot 0 40; snapshot 1 47].
Lemma data_asks : asks_nonzero data.
Proof. repeat constructor; vm_compute; intros; discriminate. Qed.


(** Both outcomes are bought, and closed one step later. *)
Example sample_trades :
  match run default_simulator_config power (at_minute 0) tt 1 (Ok data) default_arbitrage with
  | Some (_, Ok r) => (length (br_trades r) =? 2)%nat && (br_total_trades r =? 2)%Z
  | _ => false
  end = true.
Proof. vm_compute. reflexivity. Qed.

(** A second buy of the outcome that is held. *)
Definition held : SimulationState :=
  book_buy (signal_buy "m" "yes" (d 5 2)) (at_minute 0)
    {| qt_quantity := d 1000 0; qt_slippage := d 0 0; qt_price := d 50 2; qt_fees := d 10 0 |}
    (state_new (d 10000 0)).
Definition more : Signal := signal_buy "m" "yes" (d 5 2).
Definition context : StrategyContext := context_new (at_minute 1) (d 9990 0).

Lemma buy_replaces_position_witness : exists st' t,
  execute_buy default_simulator_config more context (snapshot 1 49) held = Some (st', Some t) /\
  0 <= dval (cash st') /\
  dval (spread_of (sg_outcome_id more) (snapshot 1 49))
    <= dval (max_spread_for_fill default_simulator_config) /\
  dval (sim_min_position_size default_simulator_config)
    <= dval (buy_budget default_simulator_config more context held) /\
  dval (buy_budget default_simulator_config more context held)
    <= dval (sc_portfolio_value context) * dval (max_position_pct default_simulator_config) /\
  (exists p, positions st' = <[signal_key more := p]> (positions held) /\
     bp_quantity p = tr_quantity t /\ bp_entry_price p = tr_entry_price t) /\
  dval (portfolio_value st') == dval (portfolio_value held) - dval (tr_fees t)
    - at_key value (positions held) (signal_key more).
Proof.
  assert (X : match execute_buy default_simulator_config more context (snapshot 1 49) held with
              | Some (_, Some _) => true | _ => false end = true) by (vm_compute; reflexivity).
  destruct (execute_buy default_simulator_config more context (snapshot 1 49) held)
    as [[st' [t|]]|] eqn:Ex; [|discriminate X..].
  exists st', t. exact (conj eq_refl (buy_replaces_position _ _ _ _ _ _ _ Ex)).
Defined.

(** The grid strategy buys "yes" at one level below its center and again at the
    next: the first position is gone, and with it its cost of some 500 out of
    the 10000, which no result reports. *)
Definition grid : GridStrategy := with_center (d 50 2) default_grid.
Definition grid_data : list MarketSnapshot := [snapshot 0 50; snapshot 1 49; snapshot 2 48].
Example grid_loses_a_position :
  match run_handler (simulate (E := unit) default_simulator_config (build_timeline grid_data))
          (run_new default_simulator_config (at_minute 0) grid) with
  | Some (w, Ok _) =>
      let st := run_state w in
      (length (trades st) =? 2)%nat && (winning_trades st + losing_trades st =? 1)%Z &&
      Qle_bool 490 (dval (initial_capital default_simulator_config)
                    + (dval (total_wins st) - dval (total_losses st)) - entry_fees st
                    - dval (portfolio_value st))
  | _ => false
  end = true.
Proof. vm_compute. reflexivity. Qed.
End BacktestSample.
