(* ===== verification/PriceStrategies.v ===== *)
(** * Strategies on the history of prices

    Models the momentum and the mean reversion strategy of
    [crates/backtester/src/strategy.rs].  Both go through the markets of the
    context in the order of its [HashMap], and read and write of their own map
    the entry of the market alone; what a signal carries for the log is left
    out.  A [usize] that counts snapshots is a [nat]. *)

From stdpp Require Import gmap.
From S2P Require Import Prelude F64 Platform Handler Simulator Strategies.

Section PriceStrategies.
Context `{DO : DecimalOps} `{CO : ChronoOps} {E : Type}.

(** [for (market_id, snapshots) in &context.market_data]: the step of a market
    gives its entry of the map and its signals. *)
Fixpoint each_market {V} (step : string -> list MarketSnapshot -> option V -> option (option V * list Signal))
    (l : list (string * list MarketSnapshot)) (entries : gmap string V)
    : option (gmap string V * list Signal) :=
  match l with
  | [] => Some (entries, [])
  | (market_id, snapshots) :: l =>
      '(v, signals) ← step market_id snapshots (entries !! market_id);
      '(entries, rest) ← each_market step l (partial_alter (fun _ => v) market_id entries);
      Some (entries, signals ++ rest)
  end.

(** ** Momentum *)

Record MomentumStrategy : Type := {
  mo_lookback_periods : nat;
  momentum_threshold : dec;
  mo_position_size : dec;
  require_volume_confirmation : bool;
  volume_multiplier : dec;
  min_trend_strength : f64;
  use_multi_timeframe : bool;
  long_term_lookback : nat;
  trailing_stop_pct : option dec;
  peak_prices : gmap string dec;
}.
Definition default_momentum : MomentumStrategy := {|
  mo_lookback_periods := 10; momentum_threshold := dec_new 5 2; mo_position_size := dec_new 10 2;
  require_volume_confirmation := false; volume_multiplier := dec_new 15 1;
  min_trend_strength := f64_zero; use_multi_timeframe := false; long_term_lookback := 50;
  trailing_stop_pct := None; peak_prices := ∅ |}.
Definition momentum_new (lookback : nat) (threshold size : dec) : MomentumStrategy :=
  let s := default_momentum in
  {| s with mo_lookback_periods := lookback; momentum_threshold := threshold; mo_position_size := size |}.
Definition with_volume_confirmation (multiplier : dec) (s : MomentumStrategy) : MomentumStrategy :=
  {| s with require_volume_confirmation := true; volume_multiplier := multiplier |}.
Definition with_trend_strength (min_strength : f64) (s : MomentumStrategy) : MomentumStrategy :=
  {| s with min_trend_strength := f64_clamp min_strength f64_zero f64_one |}.
Definition with_multi_timeframe (long_lookback : nat) (s : MomentumStrategy) : MomentumStrategy :=
  {| s with use_multi_timeframe := true; long_term_lookback := long_lookback |}.
Definition with_trailing_stop (pct : dec) (s : MomentumStrategy) : MomentumStrategy :=
  {| s with trailing_stop_pct := Some pct |}.
Definition with_peaks (peaks : gmap string dec) (s : MomentumStrategy) : MomentumStrategy :=
  {| s with peak_prices := peaks |}.

(** [windows(2)]. *)
Definition windows2 {A} (l : list A) : list (A * A) := zip l (tail l).

(** The sums of upward and downward movement and of the true range. *)
Definition directional_step (acc : f64 * f64 * f64) (window : MarketSnapshot * MarketSnapshot)
    : f64 * f64 * f64 :=
  let '(plus_dm, minus_dm, true_range_sum) := acc in
  let '(prev, curr) := window in
  let high_diff := default f64_zero (dec_parse_f64 (yes_ask_price curr - yes_ask_price prev)%dec) in
  let low_diff := default f64_zero (dec_parse_f64 (yes_bid prev - yes_bid curr)%dec) in
  let range := default (f64_lit 1 100) (dec_parse_f64 (yes_ask_price curr - yes_bid curr)%dec) in
  let true_range_sum := f64_add true_range_sum (f64_max range (f64_lit 1 100)) in
  if f64_ltb low_diff high_diff && f64_ltb f64_zero high_diff
  then (f64_add plus_dm high_diff, minus_dm, true_range_sum)
  else if f64_ltb high_diff low_diff && f64_ltb f64_zero low_diff
  then (plus_dm, f64_add minus_dm low_diff, true_range_sum)
  else (plus_dm, minus_dm, true_range_sum).
Definition calculate_trend_strength (l : list MarketSnapshot) : f64 :=
  if (length l <? 3)%nat then f64_zero
  else
    let '(plus_dm, minus_dm, true_range_sum) :=
      foldl directional_step (f64_zero, f64_zero, f64_zero) (windows2 l) in
    if f64_eqb true_range_sum f64_zero then f64_zero
    else
      let plus_di := f64_div plus_dm true_range_sum in
      let minus_di := f64_div minus_dm true_range_sum in
      let di_diff := f64_abs (f64_sub plus_di minus_di) in
      let di_sum := f64_add plus_di minus_di in
      if f64_ltb f64_zero di_sum then f64_clamp (f64_div di_diff di_sum) f64_zero f64_one
      else f64_zero.

(** [n as i64]. *)
Definition usize_as_i64 (n : nat) : Z := ((Z.of_nat n + 2 ^ 63) mod 2 ^ 64 - 2 ^ 63)%Z.
Definition volume_confirmed (s : MomentumStrategy) (l : list MarketSnapshot) : option bool :=
  if negb (require_volume_confirmation s) || (length l <? 2)%nat then Some true
  else
    let current_volume := default ZERO (volume_24h <$> last l) in
    avg_volume ← dec_div (dec_sum (volume_24h <$> l)) (dec_of_Z (Z.max (usize_as_i64 (length l)) 1));
    Some (current_volume >=? avg_volume * volume_multiplier s)%dec.

Definition first_bid (l : list MarketSnapshot) : dec := default ZERO (yes_bid <$> head l).
Definition last_bid (l : list MarketSnapshot) : dec := default ZERO (yes_bid <$> last l).
Definition momentum_of (l : list MarketSnapshot) : option dec :=
  dec_div (last_bid l - first_bid l)%dec (first_bid l).

Definition multi_timeframe_aligned (s : MomentumStrategy) (short_momentum : dec)
    (l : list MarketSnapshot) : option bool :=
  if negb (use_multi_timeframe s) || (length l <? long_term_lookback s)%nat then Some true
  else if dec_is_zero (first_bid l) then Some true
  else
    long_momentum ← momentum_of l;
    Some ((short_momentum >? ZERO)%dec && (long_momentum >? ZERO)%dec
          || (short_momentum <? ZERO)%dec && (long_momentum <? ZERO)%dec).

(** The peak of the market with the new price, and whether the price is below
    the stop. *)
Definition check_trailing_stop (s : MomentumStrategy) (current_price : dec) (peak : option dec)
    : option dec * bool :=
  match trailing_stop_pct s, peak with
  | Some stop_pct, Some peak =>
      let peak := if (current_price >? peak)%dec then current_price else peak in
      (Some peak, (current_price <? peak * (ONE - stop_pct))%dec)
  | _, _ => (peak, false)
  end.

(** What is measured of a market, if it has enough snapshots: the snapshots,
    the last bid and the momentum. *)
Definition measured (s : MomentumStrategy) (c : StrategyContext) (market_id : string)
    (snapshots : list MarketSnapshot) : option (option (list MarketSnapshot * dec * dec)) :=
  let recent := recent_snapshots market_id (mo_lookback_periods s) c in
  if (length snapshots <? mo_lookback_periods s)%nat || (length recent <? 2)%nat
     || dec_is_zero (first_bid recent)
  then Some None
  else momentum ← momentum_of recent; Some (Some (recent, last_bid recent, momentum)).

Definition momentum_exit (s : MomentumStrategy) (market_id : string) (price momentum : dec)
    (peak : option dec) : option dec * list Signal :=
  let '(peak, stopped) := check_trailing_stop s price peak in
  if stopped then (None, [signal_close market_id "yes"])
  else if (momentum <? - momentum_threshold s)%dec then (None, [signal_close market_id "yes"])
  else (peak, []).
Definition momentum_entry (s : MomentumStrategy) (c : StrategyContext) (market_id : string)
    (recent : list MarketSnapshot) (price momentum : dec) (peak : option dec)
    : option (option dec * list Signal) :=
  if (momentum >? momentum_threshold s)%dec then
    confirmed ← volume_confirmed s recent;
    if negb confirmed then Some (peak, [])
    else
      aligned ← multi_timeframe_aligned s momentum (recent_snapshots market_id (long_term_lookback s) c);
      Some (if aligned : bool
            then (Some price, [signal_buy market_id "yes" (mo_position_size s)]) else (peak, []))
  else Some (peak, []).

Definition momentum_market (s : MomentumStrategy) (c : StrategyContext) (market_id : string)
    (snapshots : list MarketSnapshot) (peak : option dec) : option (option dec * list Signal) :=
  o ← measured s c market_id snapshots;
  match o with
  | None => Some (peak, [])
  | Some (recent, price, momentum) =>
      if f64_ltb (calculate_trend_strength recent) (min_trend_strength s) then Some (peak, [])
      else if sim_has_position market_id c then Some (momentum_exit s market_id price momentum peak)
      else momentum_entry s c market_id recent price momentum peak
  end.
Definition momentum_on_data (s : MomentumStrategy) (c : StrategyContext)
    : option (MomentumStrategy * list Signal) :=
  '(peaks, signals) ← each_market (momentum_market s c) (map_to_list (sc_market_data c)) (peak_prices s);
  Some (with_peaks peaks s, signals).

#[export] Instance momentum_strategy : Strategy MomentumStrategy E := {|
  initialize _ s := Some (s, Ok tt);
  on_data c s := '(s, signals) ← momentum_on_data s c; Some (s, Ok signals);
  on_fill _ _ _ s := Some (s, Ok tt);
  finalize _ s := Some (s, Ok tt);
|}.

(** ** Mean reversion *)

Inductive MarketRegime : Type := Trending | RangeBound | HighVolatility | LowVolatility.
#[export] Instance MarketRegime_eq_dec : EqDecision MarketRegime.
Proof. solve_decision. Defined.

Record MeanReversionStrategy : Type := {
  mr_lookback_periods : nat;
  entry_std_devs : f64;
  mr_position_size : dec;
  use_regime_detection : bool;
  trend_threshold : f64;
  mr_use_dynamic_threshold : bool;
  min_bb_width : f64;
  max_bb_width : f64;
  max_hold_periods : option Z;
  exit_z_score : f64;
  entry_periods : gmap string Z;
  current_period : Z;
}.
Definition default_mean_reversion : MeanReversionStrategy := {|
  mr_lookback_periods := 20; entry_std_devs := f64_of_Z 2; mr_position_size := dec_new 10 2;
  use_regime_detection := false; trend_threshold := f64_lit 6 10; mr_use_dynamic_threshold := false;
  min_bb_width := f64_lit 2 100; max_bb_width := f64_lit 20 100; max_hold_periods := None;
  exit_z_score := f64_zero; entry_periods := ∅; current_period := 0 |}.
Definition mean_reversion_new (lookback : nat) (std_devs : f64) (size : dec) : MeanReversionStrategy :=
  let s := default_mean_reversion in
  {| s with mr_lookback_periods := lookback; entry_std_devs := std_devs; mr_position_size := size |}.
Definition with_regime_detection (threshold : f64) (s : MeanReversionStrategy) : MeanReversionStrategy :=
  {| s with use_regime_detection := true; trend_threshold := f64_clamp threshold f64_zero f64_one |}.
Definition with_volatility_threshold (s : MeanReversionStrategy) : MeanReversionStrategy :=
  {| s with mr_use_dynamic_threshold := true |}.
Definition with_bb_width_filter (min_width max_width : f64) (s : MeanReversionStrategy)
    : MeanReversionStrategy :=
  {| s with min_bb_width := min_width; max_bb_width := max_width |}.
Definition with_max_hold_periods (periods : Z) (s : MeanReversionStrategy) : MeanReversionStrategy :=
  {| s with max_hold_periods := Some periods |}.
Definition with_exit_z_score (z_score : f64) (s : MeanReversionStrategy) : MeanReversionStrategy :=
  {| s with exit_z_score := z_score |}.
Definition with_entries (entries : gmap string Z) (s : MeanReversionStrategy) : MeanReversionStrategy :=
  {| s with entry_periods := entries |}.
Definition next_period (s : MeanReversionStrategy) : MeanReversionStrategy :=
  {| s with current_period := u64_add (current_period s) 1 |}.

(** The numerator and the denominator of the regression slope. *)
Definition slope_step (x_mean y_mean : f64) (acc : f64 * f64) (point : nat * f64) : f64 * f64 :=
  let x_diff := f64_sub (f64_of_Z (Z.of_nat (fst point))) x_mean in
  (f64_add (fst acc) (f64_mul x_diff (f64_sub (snd point) y_mean)),
   f64_add (snd acc) (f64_mul x_diff x_diff)).
Definition detect_regime (s : MeanReversionStrategy) (prices : list f64) : MarketRegime :=
  if (length prices <? 3)%nat then RangeBound
  else
    let n := f64_of_Z (Z.of_nat (length prices)) in
    let x_mean := f64_div (f64_sub n f64_one) (f64_of_Z 2) in
    let y_mean := f64_mean prices in
    let '(numerator, denominator) :=
      foldl (slope_step x_mean y_mean) (f64_zero, f64_zero) (zip (seq 0 (length prices)) prices) in
    let slope := if f64_eqb denominator f64_zero then f64_zero else f64_div numerator denominator in
    let normalized_slope := f64_abs (f64_div slope y_mean) in
    let volatility := f64_div (f64_std_dev y_mean prices) y_mean in
    if f64_ltb (trend_threshold s) normalized_slope then Trending
    else if f64_ltb (f64_lit 1 10) volatility then HighVolatility
    else if f64_ltb volatility (f64_lit 2 100) then LowVolatility
    else RangeBound.

Definition entry_threshold (s : MeanReversionStrategy) (std_dev mean : f64) : f64 :=
  if negb (mr_use_dynamic_threshold s) || f64_eqb mean f64_zero then entry_std_devs s
  else
    let cv := f64_div std_dev mean in
    if f64_ltb (f64_lit 1 10) cv then f64_mul (entry_std_devs s) (f64_lit 15 10)
    else if f64_ltb cv (f64_lit 3 100) then f64_mul (entry_std_devs s) (f64_lit 8 10)
    else entry_std_devs s.
Definition bollinger_band_width (s : MeanReversionStrategy) (std_dev mean : f64) : f64 :=
  if f64_eqb mean f64_zero then f64_zero
  else f64_div (f64_mul (f64_mul (f64_of_Z 2) std_dev) (entry_std_devs s)) mean.

Definition z_score_of (prices : list f64) : f64 :=
  let mean := f64_mean prices in
  let std_dev := f64_std_dev mean prices in
  if f64_ltb f64_zero std_dev
  then f64_div (f64_sub (default f64_zero (last prices)) mean) std_dev else f64_zero.

(** The position was entered long enough ago. *)
Definition overdue (s : MeanReversionStrategy) (entry : option Z) : bool :=
  match max_hold_periods s, entry with
  | Some max_periods, Some entry_period => (max_periods <=? u64_sub (current_period s) entry_period)%Z
  | _, _ => false
  end.
Definition reversion_exit (s : MeanReversionStrategy) (market_id : string) (prices : list f64)
    (entry : option Z) : option Z * list Signal :=
  if overdue s entry || f64_leb (exit_z_score s) (z_score_of prices)
  then (None, [signal_close market_id "yes"]) else (entry, []).
Definition reversion_entry (s : MeanReversionStrategy) (market_id : string) (prices : list f64)
    (entry : option Z) : option Z * list Signal :=
  let mean := f64_mean prices in
  let std_dev := f64_std_dev mean prices in
  let bb_width := bollinger_band_width s std_dev mean in
  if use_regime_detection s && bool_decide (detect_regime s prices = Trending) then (entry, [])
  else if f64_ltb bb_width (min_bb_width s) || f64_ltb (max_bb_width s) bb_width then (entry, [])
  else if f64_ltb (z_score_of prices) (f64_opp (entry_threshold s std_dev mean))
  then (Some (current_period s), [signal_buy market_id "yes" (mr_position_size s)])
  else (entry, []).

(** The bids of the lookback that read as numbers. *)
Definition recent_prices (s : MeanReversionStrategy) (c : StrategyContext) (market_id : string)
    : list f64 :=
  omap (fun snapshot => dec_parse_f64 (yes_bid snapshot))
    (recent_snapshots market_id (mr_lookback_periods s) c).
Definition reversion_market (s : MeanReversionStrategy) (c : StrategyContext) (market_id : string)
    (snapshots : list MarketSnapshot) (entry : option Z) : option (option Z * list Signal) :=
  let prices := recent_prices s c market_id in
  Some (if (length snapshots <? mr_lookback_periods s)%nat
           || (length prices <? mr_lookback_periods s)%nat then (entry, [])
        else if sim_has_position market_id c then reversion_exit s market_id prices entry
        else reversion_entry s market_id prices entry).
Definition reversion_on_data (s : MeanReversionStrategy) (c : StrategyContext)
    : option (MeanReversionStrategy * list Signal) :=
  let s := next_period s in
  '(entries, signals) ← each_market (reversion_market s c) (map_to_list (sc_market_data c)) (entry_periods s);
  Some (with_entries entries s, signals).

#[export] Instance mean_reversion_strategy : Strategy MeanReversionStrategy E := {|
  initialize _ s := Some (s, Ok tt);
  on_data c s := '(s, signals) ← reversion_on_data s c; Some (s, Ok signals);
  on_fill _ _ _ s := Some (s, Ok tt);
  finalize _ s := Some (s, Ok tt);
|}.
End PriceStrategies.
