(* ===== verification/PriceStrategiesFacts.v ===== *)
(** * Properties of the strategies on the history of prices

    Both meet the interface the simulator asks of a strategy, so their backtests
    reconcile; what the trailing stop and the hold limit guarantee over a run,
    and what escapes them. *)

From stdpp Require Import gmap.
From S2P Require Import Prelude F64 Platform Handler Simulator SimulatorFacts Strategies StrategiesFacts.
From S2P Require Import PriceStrategies.

Local Open Scope Q_scope.

Section Facts.
Context `{DO : DecimalOps} `{CO : ChronoOps} {DS : DecimalSpec} {EX : DecimalExact} {E : Type}.

(** ** The markets of a context *)

(** The signals of a market. *)
Definition signals_of (m : string) (l : list Signal) : list Signal :=
  List.filter (fun s => bool_decide (sg_market_id s = m)) l.
Lemma signals_of_app m l k : signals_of m (l ++ k) = signals_of m l ++ signals_of m k.
Proof. apply List.filter_app. Qed.

Section EachMarket.
Context {V : Type} (step : string -> list MarketSnapshot -> option V -> option (option V * list Signal)).
(** Whether the context holds a position of a market. *)
Variable held : string -> bool.

(** A step answers with a buy of "yes" where there is no position, a close, or
    nothing. *)
Inductive one_signal (m : string) : list Signal -> Prop :=
| no_signal : one_signal m []
| closes : one_signal m [signal_close m "yes"]
| buys size : held m = false -> one_signal m [signal_buy m "yes" size].
Hypothesis step_signals : forall m snapshots v, exists v' l,
  step m snapshots v = Some (v', l) /\ one_signal m l.

Lemma signals_of_own m l : one_signal m l -> signals_of m l = l.
Proof. intros []; unfold signals_of; simpl; by rewrite ?bool_decide_eq_true_2. Qed.
Lemma signals_of_other m m' l : one_signal m' l -> m <> m' -> signals_of m l = [].
Proof. intros [] Hm; unfold signals_of; simpl; by rewrite ?bool_decide_eq_false_2. Qed.

Lemma each_market_answers l entries : exists entries' signals,
  each_market step l entries = Some (entries', signals) /\
  (forall m, m ∉ l.*1 -> entries' !! m = entries !! m /\ signals_of m signals = []) /\
  (NoDup l.*1 ->
     (forall m snapshots, (m, snapshots) ∈ l ->
        step m snapshots (entries !! m) = Some (entries' !! m, signals_of m signals)) /\
     NoDup (buy_keys signals) /\
     Forall (fun s => is_buy s = true ->
       sg_outcome_id s = "yes"%string /\ sg_market_id s ∈ l.*1 /\ held (sg_market_id s) = false) signals).
Proof.
  revert entries. induction l as [|[m snapshots] l IH]; intros entries; simpl.
  - exists entries, []. split; [done|]. split; [done|]. intros _.
    split; [by intros ?? ?%elem_of_nil|]. split; constructor.
  - destruct (step_signals m snapshots (entries !! m)) as (v & k & Ev & Hk). rewrite Ev. simpl.
    destruct (IH (partial_alter (fun _ => v) m entries)) as (entries' & signals & -> & Ho & Hd). simpl.
    exists entries', (k ++ signals). split; [done|]. split.
    { intros m' Hm'. apply not_elem_of_cons in Hm' as [Hne Hm']. destruct (Ho m' Hm') as [-> Hs].
      rewrite lookup_partial_alter_ne by done. by rewrite signals_of_app, Hs, (signals_of_other m' m). }
    intros [Hn Hnd]%NoDup_cons. destruct (Hd Hnd) as (Hstep & Hkeys & Hall).
    destruct (Ho m Hn) as [Hm Hs]. rewrite lookup_partial_alter_eq in Hm. split; [|split].
    + intros m' snapshots' Hin. apply elem_of_cons in Hin as [[= -> ->]|Hin].
      * by rewrite signals_of_app, Hs, signals_of_own, app_nil_r, Ev, Hm.
      * assert (Hne : m' <> m) by (intros ->; apply Hn; by apply (list_elem_of_fmap_2 fst l (m, snapshots'))).
        rewrite signals_of_app, (signals_of_other m' m) by done. simpl. rewrite <- (Hstep _ _ Hin).
        by rewrite lookup_partial_alter_ne.
    + destruct Hk as [| |size Hheld]; [done..|].
      change (NoDup (position_key m "yes" :: buy_keys signals)). constructor; [|done].
      unfold buy_keys. intros (s & Ek & Hin)%list_elem_of_fmap.
      apply list_elem_of_In, List.filter_In in Hin as [Hin Hb]. apply list_elem_of_In in Hin.
      rewrite Forall_forall in Hall. destruct (Hall s Hin Hb) as (Ho' & Hin' & _).
      unfold signal_key in Ek. rewrite Ho' in Ek.
      apply position_key_binary in Ek as [-> _]; [done|by left|by left].
    + apply Forall_app. split.
      * destruct Hk as [| |size Hheld]; [by apply Forall_nil|by apply Forall_singleton|].
        apply Forall_singleton. intros _. split; [done|]. split; [apply list_elem_of_here|done].
      * eapply Forall_impl; [exact Hall|]. intros s Hs' Hb. destruct (Hs' Hb) as (? & ? & ?).
        split; [done|]. split; [by apply list_elem_of_further|done].
Qed.
End EachMarket.

(** Such signals are fresh. *)
Lemma each_market_fresh {V} (step : string -> list MarketSnapshot -> option V -> option (option V * list Signal)) c entries :
  (forall m snapshots v, exists v' l,
     step m snapshots v = Some (v', l) /\ one_signal (fun m => sim_has_position m c) m l) ->
  keyed (sc_positions c) -> binary_held (sc_positions c) ->
  exists entries' signals, each_market step (map_to_list (sc_market_data c)) entries = Some (entries', signals) /\
    fresh_buys (sc_positions c) signals.
Proof.
  intros Hstep Hk Hbin.
  destruct (each_market_answers step _ Hstep (map_to_list (sc_market_data c)) entries)
    as (entries' & signals & Es & _ & Hd).
  destruct (Hd (NoDup_fst_map_to_list _)) as (_ & Hnd & Hall). exists entries', signals. split; [done|].
  rewrite Forall_forall in Hall. split; [done| |].
  - unfold buy_keys. intros k (s & -> & Hin)%list_elem_of_fmap.
    apply list_elem_of_In, List.filter_In in Hin as [Hin Hb]. apply list_elem_of_In in Hin.
    destruct (Hall s Hin Hb) as (Ho & _ & Hm). unfold signal_key. rewrite Ho.
    destruct (sc_positions c !! position_key (sg_market_id s) "yes") as [p|] eqn:Hp; [|done].
    destruct (has_position_key c (sg_market_id s) "yes" p); [done..|by left|by eapply Hbin].
  - apply Forall_forall. intros s Hin Hb. left. by destruct (Hall s Hin Hb).
Qed.

(** ** What the steps answer *)

Section Markets.
Implicit Types c : StrategyContext.

Lemma momentum_of_total l : dec_is_zero (first_bid l) = false -> is_Some (momentum_of l).
Proof.
  intros Hz. apply dec_div_some. intros H. apply not_true_iff_false in Hz. apply Hz.
  unfold dec_is_zero. apply dec_eqb_eq. by rewrite dval_ZERO.
Qed.
Lemma volume_confirmed_total s l : is_Some (volume_confirmed s l).
Proof.
  unfold volume_confirmed. destruct (_ || _); [eauto|].
  destruct (dec_div_some (dec_sum (volume_24h <$> l)) (dec_of_Z (Z.max (usize_as_i64 (length l)) 1)))
    as [q ->]; [|simpl; eauto].
  assert (Hn : (usize_as_i64 (length l) < 2 ^ 63)%Z)
    by (unfold usize_as_i64; pose proof (Z.mod_pos_bound (Z.of_nat (length l) + 2 ^ 63) (2 ^ 64)); lia).
  pose proof (dec_of_Z_pos (Z.max (usize_as_i64 (length l)) 1)) as Hpos. lapply Hpos; [lra|lia].
Qed.
Lemma multi_timeframe_aligned_total s momentum l : is_Some (multi_timeframe_aligned s momentum l).
Proof.
  unfold multi_timeframe_aligned. destruct (_ || _); [eauto|].
  destruct (dec_is_zero (first_bid l)) eqn:Hz; [eauto|].
  destruct (momentum_of_total l Hz) as [q ->]. simpl. eauto.
Qed.
Lemma measured_total s c m l : is_Some (measured s c m l).
Proof.
  unfold measured. destruct (_ || _) eqn:Hb; [eauto|].
  apply orb_false_iff in Hb as [_ Hz]. destruct (momentum_of_total _ Hz) as [q ->]. simpl. eauto.
Qed.

Lemma momentum_market_signals s c m l peak : exists peak' signals,
  momentum_market s c m l peak = Some (peak', signals) /\
  one_signal (fun m => sim_has_position m c) m signals.
Proof.
  unfold momentum_market. destruct (measured_total s c m l) as [[[[recent price] momentum]|] ->];
    simpl; [|eexists _, _; split; [done|constructor]].
  destruct (f64_ltb _ _); [eexists _, _; split; [done|constructor]|].
  destruct (sim_has_position m c) eqn:Hp.
  - unfold momentum_exit. destruct (check_trailing_stop s price peak) as [peak' stopped].
    destruct stopped; [eexists _, _; split; [done|constructor]|].
    destruct (_ <? _)%dec; eexists _, _; (split; [done|constructor]).
  - unfold momentum_entry. destruct (_ >? _)%dec; [|eexists _, _; split; [done|constructor]].
    destruct (volume_confirmed_total s recent) as [[] ->]; simpl;
      [|eexists _, _; split; [done|constructor]].
    destruct (multi_timeframe_aligned_total s momentum (recent_snapshots m (long_term_lookback s) c))
      as [[] ->]; simpl; eexists _, _; (split; [done|by constructor]).
Qed.
Lemma reversion_market_signals s c m l entry : exists entry' signals,
  reversion_market s c m l entry = Some (entry', signals) /\
  one_signal (fun m => sim_has_position m c) m signals.
Proof.
  unfold reversion_market. destruct (_ || _); [eexists _, _; split; [done|constructor]|].
  destruct (sim_has_position m c) eqn:Hp.
  - unfold reversion_exit. destruct (_ || _); eexists _, _; (split; [done|constructor]).
  - unfold reversion_entry. repeat case_match; simplify_eq; eexists _, _; (split; [done|by constructor]).
Qed.

#[export] Instance momentum_disciplined : Disciplined MomentumStrategy E.
Proof.
  split; [by intros; eexists| |by intros; eexists|by intros; eexists].
  intros c s Hk Hbin. cbn [on_data momentum_strategy]. unfold momentum_on_data.
  destruct (each_market_fresh (momentum_market s c) c (peak_prices s)
    (momentum_market_signals s c) Hk Hbin) as (entries & signals & -> & Hf).
  simpl. eauto.
Qed.
#[export] Instance mean_reversion_disciplined : Disciplined MeanReversionStrategy E.
Proof.
  split; [by intros; eexists| |by intros; eexists|by intros; eexists].
  intros c s Hk Hbin. cbn [on_data mean_reversion_strategy]. unfold reversion_on_data.
  destruct (each_market_fresh (reversion_market (next_period s) c) c (entry_periods (next_period s))
    (reversion_market_signals (next_period s) c) Hk Hbin) as (entries & signals & -> & Hf).
  simpl. eauto.
Qed.
End Markets.

(** One call seen from a market of the context. *)
Lemma momentum_on_data_market s c m l :
  sc_market_data c !! m = Some l -> exists s' signals,
  momentum_on_data s c = Some (s', signals) /\ s' = with_peaks (peak_prices s') s /\
  momentum_market s c m l (peak_prices s !! m) = Some (peak_prices s' !! m, signals_of m signals).
Proof.
  intros Hm. unfold momentum_on_data.
  destruct (each_market_answers _ _ (momentum_market_signals s c) (map_to_list (sc_market_data c))
    (peak_prices s)) as (peaks & signals & -> & _ & Hd).
  destruct (Hd (NoDup_fst_map_to_list _)) as (Hstep & _). simpl. exists (with_peaks peaks s), signals.
  split; [done|]. split; [done|]. apply Hstep. by apply elem_of_map_to_list.
Qed.
Lemma reversion_on_data_market s c m l :
  sc_market_data c !! m = Some l -> exists s' signals,
  reversion_on_data s c = Some (s', signals) /\ s' = with_entries (entry_periods s') (next_period s) /\
  reversion_market (next_period s) c m l (entry_periods s !! m)
    = Some (entry_periods s' !! m, signals_of m signals).
Proof.
  intros Hm. unfold reversion_on_data.
  destruct (each_market_answers _ _ (reversion_market_signals (next_period s) c)
    (map_to_list (sc_market_data c)) (entry_periods (next_period s))) as (entries & signals & -> & _ & Hd).
  destruct (Hd (NoDup_fst_map_to_list _)) as (Hstep & _). simpl.
  exists (with_entries entries (next_period s)), signals.
  split; [done|]. split; [done|]. apply Hstep. by apply elem_of_map_to_list.
Qed.

(** ** Runs *)

(** The calls of a strategy over successive contexts, none of which signals
    anything for a market. *)
Inductive quiet_run {S} (call : S -> StrategyContext -> option (S * list Signal)) (m : string)
    : S -> list StrategyContext -> S -> Prop :=
| quiet_done s : quiet_run call m s [] s
| quiet_call s c s1 signals cs s' :
    call s c = Some (s1, signals) -> signals_of m signals = [] ->
    quiet_run call m s1 cs s' -> quiet_run call m s (c :: cs) s'.

(** A context in which the market is held, and the momentum strategy gets to
    its exits: there are snapshots enough and the trend is strong enough. *)
Definition watched (s : MomentumStrategy) (m : string) (c : StrategyContext)
    (price momentum : dec) : Prop :=
  exists l recent, sc_market_data c !! m = Some l /\ sim_has_position m c = true /\
    measured s c m l = Some (Some (recent, price, momentum)) /\
    f64_ltb (calculate_trend_strength recent) (min_trend_strength s) = false.
(** The highest of the entry price and the later ones. *)
Definition high_of (peak : dec) (prices : list dec) : dec :=
  foldl (fun top price => if (price >? top)%dec then price else top) peak prices.

Lemma momentum_watched s m c price momentum pct peak :
  watched s m c price momentum -> trailing_stop_pct s = Some pct -> peak_prices s !! m = Some peak ->
  let high := high_of peak [price] in
  let stops := (price <? high * (ONE - pct))%dec || (momentum <? - momentum_threshold s)%dec in
  exists s' signals, momentum_on_data s c = Some (s', signals) /\ s' = with_peaks (peak_prices s') s /\
    signals_of m signals = (if stops then [signal_close m "yes"] else []) /\
    peak_prices s' !! m = (if stops then None else Some high).
Proof.
  intros (l & recent & Hl & Hheld & Hmeas & Htrend) Hpct Hpeak.
  destruct (momentum_on_data_market s c m l Hl) as (s' & signals & Ecall & Es' & Estep).
  exists s', signals. split; [done|]. split; [done|].
  unfold momentum_market in Estep. rewrite Hmeas, Hpeak in Estep. simpl in Estep.
  rewrite Htrend, Hheld in Estep. unfold momentum_exit, check_trailing_stop in Estep. rewrite Hpct in Estep.
  unfold high_of. simpl. destruct (price <? _)%dec; simpl in *; [by simplify_eq|].
  destruct (momentum <? _)%dec; by simplify_eq.
Qed.
Lemma watched_peaks s peaks m c price momentum :
  watched (with_peaks peaks s) m c price momentum <-> watched s m c price momentum.
Proof. done. Qed.

Lemma quiet_momentum s m pct peak cs prices s' :
  trailing_stop_pct s = Some pct -> peak_prices s !! m = Some peak ->
  Forall2 (fun c price => exists momentum, watched s m c price momentum) cs prices ->
  quiet_run momentum_on_data m s cs s' ->
  s' = with_peaks (peak_prices s') s /\ peak_prices s' !! m = Some (high_of peak prices).
Proof.
  intros Hpct Hpeak Hw Hrun. revert peak prices Hpct Hpeak Hw.
  induction Hrun as [s|s c s1 signals cs s' Ecall Hquiet Hrun IH]; intros peak prices Hpct Hpeak Hw.
  - apply Forall2_nil_inv_l in Hw as ->. split; [by destruct s|done].
  - apply Forall2_cons_inv_l in Hw as (price & prices' & [momentum Hc] & Hw & ->).
    destruct (momentum_watched _ _ _ _ _ _ _ Hc Hpct Hpeak) as (s2 & signals' & E1 & Es & Hsig & Hpk).
    rewrite Ecall in E1. injection E1 as -> ->. rewrite Hquiet in Hsig.
    destruct (_ || _) in Hsig, Hpk; [done|].
    destruct (IH (high_of peak [price]) prices') as [E' Hp'];
      [by rewrite Es|done|by rewrite Es|]. split; [|done].
    rewrite E', Es. done.
Qed.

(** A market the mean reversion strategy holds and has prices enough of. *)
Definition followed (s : MeanReversionStrategy) (m : string) (c : StrategyContext) : Prop :=
  exists l, sc_market_data c !! m = Some l /\ sim_has_position m c = true /\
    (mr_lookback_periods s <= length l)%nat /\ (mr_lookback_periods s <= length (recent_prices s c m))%nat.
Lemma quiet_reversion s m n e cs s' :
  max_hold_periods s = Some n -> entry_periods s !! m = Some e -> (0 <= e <= current_period s)%Z ->
  (current_period s + Z.of_nat (length cs) < 2 ^ 64)%Z -> Forall (followed s m) cs ->
  quiet_run reversion_on_data m s cs s' ->
  cs = [] \/ (current_period s + Z.of_nat (length cs) - e < n)%Z.
Proof.
  intros Hn He Hb Hlim Hw Hrun. revert Hn He Hb Hlim Hw.
  induction Hrun as [s|s c s1 signals cs s' Ecall Hquiet Hrun IH]; intros Hn He Hb Hlim Hw; [by left|].
  right. apply Forall_cons in Hw as [(l & Hl & Hheld & Hlen & Hprices) Hw]. cbn [length] in *.
  destruct (reversion_on_data_market s c m l Hl) as (s2 & signals' & E1 & Es & Estep).
  rewrite Ecall in E1. injection E1 as -> ->.
  assert (Hp : current_period (next_period s) = (current_period s + 1)%Z)
    by (simpl; unfold u64_add; rewrite Z.mod_small; lia).
  unfold reversion_market in Estep. change (recent_prices (next_period s)) with (recent_prices s) in Estep.
  change (mr_lookback_periods (next_period s)) with (mr_lookback_periods s) in Estep.
  apply Nat.ltb_ge in Hlen, Hprices. rewrite Hlen, Hprices, Hheld, Hquiet in Estep. simpl in Estep.
  injection Estep as Estep. unfold reversion_exit in Estep.
  destruct (overdue (next_period s) (entry_periods s !! m)) eqn:Ho; [done|]. simpl in Estep.
  destruct (f64_leb _ _); [done|]. injection Estep as Ee.
  unfold overdue in Ho. rewrite He in Ho. change (max_hold_periods (next_period s)) with (max_hold_periods s) in Ho.
  rewrite Hn, Hp in Ho. apply Z.leb_gt in Ho. unfold u64_sub in Ho. rewrite Z.mod_small in Ho by lia.
  destruct (decide (cs = [])) as [->|Hne]; [simpl; lia|].
  assert (Hp2 : current_period s2 = (current_period s + 1)%Z) by (rewrite Es; exact Hp).
  destruct IH as [?|IH]; [by rewrite Es|by rewrite <- Ee|lia|lia| |done|lia].
  rewrite Es. exact Hw.
Qed.
(** A buy of the mean reversion strategy is of a market with data, and enters
    the period it is made in. *)
Lemma reversion_buy s c s' signals m size :
  reversion_on_data s c = Some (s', signals) -> signals_of m signals = [signal_buy m "yes" size] ->
  s' = with_entries (entry_periods s') (next_period s) /\
  entry_periods s' !! m = Some (current_period s').
Proof.
  intros Ecall Hbuy. destruct (sc_market_data c !! m) as [l|] eqn:Hl.
  - destruct (reversion_on_data_market s c m l Hl) as (s2 & signals' & E1 & Es & Estep).
    rewrite Ecall in E1. injection E1 as -> ->. split; [done|].
    assert (Hp : current_period s2 = current_period (next_period s)) by (by rewrite Es).
    rewrite Hbuy in Estep. unfold reversion_market, reversion_exit, reversion_entry in Estep.
    rewrite Hp. repeat case_match; by simplify_eq.
  - exfalso. unfold reversion_on_data in Ecall.
    destruct (each_market_answers _ _ (reversion_market_signals (next_period s) c)
      (map_to_list (sc_market_data c)) (entry_periods (next_period s)))
      as (entries & signals' & E1 & Ho & _).
    rewrite E1 in Ecall. simpl in Ecall. injection Ecall as _ ->.
    destruct (Ho m) as [_ Hs]; [|by rewrite Hs in Hbuy].
    intros ([m' l] & -> & Hin)%list_elem_of_fmap. apply elem_of_map_to_list in Hin. simpl in Hl.
    by rewrite Hl in Hin.
Qed.

(** ** The theorems *)


(** C33. The trailing stop of the momentum strategy follows the highest price
    since the entry: over any number of calls in which the market is held, its
    trend is strong enough and nothing is signalled for it, the next call closes
    it exactly if its price is below the highest price so far, the new one
    included, by more than the stop, or its momentum is below the negated
    threshold; and then it forgets the high, otherwise it remembers it. *)
Theorem trailing_stop_follows_high s m pct peak cs prices s' c price momentum :
  trailing_stop_pct s = Some pct -> peak_prices s !! m = Some peak ->
  Forall2 (fun c price => exists momentum, watched s m c price momentum) cs prices ->
  quiet_run momentum_on_data m s cs s' -> watched s m c price momentum ->
  let high := high_of peak (prices ++ [price]) in
  let stops := (price <? high * (ONE - pct))%dec || (momentum <? - momentum_threshold s)%dec in
  exists s1 signals, momentum_on_data s' c = Some (s1, signals) /\
    signals_of m signals = (if stops then [signal_close m "yes"] else []) /\
    peak_prices s1 !! m = (if stops then None else Some high).
Proof.
  intros Hpct Hpeak Hw Hrun Hc high stops.
  destruct (quiet_momentum _ _ _ _ _ _ _ Hpct Hpeak Hw Hrun) as [Es Hhigh].
  destruct (momentum_watched s' m c price momentum pct (high_of peak prices))
    as (s1 & signals & Ecall & _ & Hsig & Hpk); [by rewrite Es|by rewrite Es|done|].
  exists s1, signals. split; [done|]. rewrite Es in Hsig, Hpk. subst stops high.
  by rewrite (foldl_app _ prices [price] peak : high_of peak (prices ++ [price]) = high_of (high_of peak prices) [price]).
Qed.

(** The mean reversion strategy lets go of what it bought: after a buy, the
    calls in which the market is held, has prices enough and is not signalled
    are fewer than the hold limit, whatever the prices are. *)
Theorem hold_time_bounded s m n size c s0 signals cs s' :
  max_hold_periods s = Some n -> (0 <= current_period s)%Z ->
  (current_period s + 1 + Z.of_nat (length cs) < 2 ^ 64)%Z ->
  reversion_on_data s c = Some (s0, signals) -> signals_of m signals = [signal_buy m "yes" size] ->
  Forall (followed s m) cs -> quiet_run reversion_on_data m s0 cs s' ->
  (Z.of_nat (length cs) < Z.max n 1)%Z.
Proof.
  intros Hn Hcur Hlim Ecall Hbuy Hw Hrun. destruct (reversion_buy _ _ _ _ _ _ Ecall Hbuy) as [Es He].
  assert (Hp : current_period s0 = (current_period s + 1)%Z)
    by (rewrite Es; simpl; unfold u64_add; rewrite Z.mod_small; lia).
  destruct (quiet_reversion s0 m n (current_period s0) cs s') as [->|H]; [by rewrite Es|done|lia|lia| |done|simpl; lia|lia].
  rewrite Es. exact Hw.
Qed.
End Facts.

(** ** Witnesses *)

Module PriceSample.
Import Platform.Concrete BacktestSample.

#[local] Existing Instances decimal decimal_spec decimal_exact chrono.


(** A market m with the bids [bids], in hundredths, held or not. *)
Definition position : SimPosition := {|
  bp_market_id := "m"; bp_outcome_id := "yes"; bp_quantity := d 100 0; bp_entry_price := d 50 2;
  bp_opened_at := at_minute 0; bp_unrealized_pnl := d 0 0; bp_current_price := d 50 2 |}.
Definition history (bids : list Z) : list MarketSnapshot := (fun bid => snapshot 0 (bid + 1)) <$> bids.
Definition market (held : bool) (bids : list Z) : StrategyContext := {|
  sc_timestamp := at_minute 1; sc_portfolio_value := d 10000 0; sc_available_cash := d 10000 0;
  sc_positions := if held then {["m:yes" := position]} else ∅;
  sc_market_data := {["m" := history bids]} |}.
Definition answers {S} (o : option (S * list Signal)) (s : S) : S * list Signal := default (s, []) o.

(** Entered at 0.50 with a stop of a tenth: 0.55 is a new high, from which 0.48
    is below the stop. *)
Definition trailing : MomentumStrategy :=
  with_peaks {["m" := d 50 2]} (with_trailing_stop (d 10 2) (momentum_new 3 (d 20 2) (d 10 2))).
Definition rise : StrategyContext := market true [49; 52; 55]%Z.
Definition fall : StrategyContext := market true [52; 55; 48]%Z.
Definition risen : MomentumStrategy * list Signal := answers (momentum_on_data trailing rise) trailing.

Definition momentum_in (bids : list Z) : dec := default ZERO (momentum_of (history bids)).
Lemma watch bids price :
  measured trailing (market true bids) "m" (history bids)
    = Some (Some (history bids, price, momentum_in bids)) ->
  f64_ltb (calculate_trend_strength (history bids)) (min_trend_strength trailing) = false ->
  watched trailing "m" (market true bids) price (momentum_in bids).
Proof. intros Hm Ht. exists (history bids), (history bids). split; [apply lookup_singleton_eq|done]. Qed.
Lemma watched_rise : watched trailing "m" rise (d 55 2) (momentum_in [49; 52; 55]%Z).
Proof. apply watch; computes. Qed.
Lemma watched_fall : watched trailing "m" fall (d 48 2) (momentum_in [52; 55; 48]%Z).
Proof. apply watch; computes. Qed.
Lemma quiet_rise : quiet_run momentum_on_data "m" trailing [rise] (fst risen).
Proof. apply (quiet_call _ _ _ _ (fst risen) (snd risen)); [computes..|constructor]. Qed.

Lemma trailing_stop_follows_high_witness : exists s1 signals,
  momentum_on_data (fst risen) fall = Some (s1, signals) /\
  signals_of "m" signals = [signal_close "m" "yes"] /\ peak_prices s1 !! "m" = None.
Proof.
  assert (Hstop : (d 48 2 <? high_of (d 50 2) ([d 55 2] ++ [d 48 2]) * (ONE - d 10 2))%dec
                  || (momentum_in [52; 55; 48]%Z <? - momentum_threshold trailing)%dec = true) by computes.
  destruct (trailing_stop_follows_high trailing "m" (d 10 2) (d 50 2) [rise] [d 55 2] (fst risen) fall
    (d 48 2) (momentum_in [52; 55; 48]%Z) eq_refl (lookup_singleton_eq _ _)
    ltac:(constructor; [exact (ex_intro _ _ watched_rise)|constructor]) quiet_rise watched_fall)
    as (s1 & signals & Ecall & Hsig & Hpk).
  exists s1, signals. rewrite Hstop in Hsig, Hpk. exact (conj Ecall (conj Hsig Hpk)).
Defined.

(** A trend that is too weak is not watched at all: the market may fall as far
    as it likes, its stop of a tenth is not looked at. *)
Example weak_trend_skips_the_stop :
  signals_of "m" (snd (answers (momentum_on_data (with_trend_strength (f64_lit 5 10) trailing)
    (market true [30; 20; 29]%Z)) trailing)) = [].
Proof. computes. Qed.

(** Bought one and a half deviations below its mean, and let go after two
    periods though the price did not come back. *)
Definition holding : MeanReversionStrategy :=
  with_max_hold_periods 2 (mean_reversion_new 3 (f64_of_Z 1) (d 10 2)).
Definition dip : StrategyContext := market false [50; 50; 42]%Z.
Definition low : StrategyContext := market true [50; 42; 41]%Z.
Definition bought : MeanReversionStrategy * list Signal := answers (reversion_on_data holding dip) holding.
Definition held_one : MeanReversionStrategy * list Signal :=
  answers (reversion_on_data (fst bought) low) holding.
Lemma followed_low : followed holding "m" low.
Proof.
  exists (history [50; 42; 41]%Z). split; [apply lookup_singleton_eq|]. split; [computes|].
  split; apply Nat.leb_le; computes.
Qed.
Lemma hold_time_bounded_witness :
  signals_of "m" (snd bought) = [signal_buy "m" "yes" (d 10 2)] /\
  (Z.of_nat (length [low]) < Z.max 2 1)%Z.
Proof.
  assert (Hbuy : signals_of "m" (snd bought) = [signal_buy "m" "yes" (d 10 2)]) by computes.
  assert (Ecall : reversion_on_data holding dip = Some (fst bought, snd bought)) by computes.
  assert (Hrun : quiet_run reversion_on_data "m" (fst bought) [low] (fst held_one))
    by (apply (quiet_call _ _ _ _ (fst held_one) (snd held_one)); [computes..|constructor]).
  split; [exact Hbuy|].
  exact (hold_time_bounded holding "m" 2 (d 10 2) dip (fst bought) (snd bought) [low] (fst held_one)
    eq_refl ltac:(done) ltac:(done) Ecall Hbuy ltac:(apply Forall_singleton; exact followed_low) Hrun).
Defined.
(** The next call is too many. *)
Example held_too_long :
  signals_of "m" (snd (answers (reversion_on_data (fst held_one) low) holding)) = [signal_close "m" "yes"].
Proof. computes. Qed.

(** Prices that rise from 0.01 to 0.96 over the lookback: a slope of 0.05 per
    period, a tenth of the mean, is far below the threshold of 0.6. *)
Example steep_rise_is_no_trend :
  detect_regime (with_regime_detection (f64_lit 6 10) default_mean_reversion)
    ((fun i => f64_lit (5 * Z.of_nat i + 1) 100) <$> seq 0 20) = HighVolatility.
Proof. computes. Qed.
End PriceSample.
