(* ===== verification/AdvancedStops.v ===== *)
(** * Advanced stops

    Models [crates/risk-manager/src/advanced_stops.rs]: compound conditions, the
    volatility stop and its average true range, the step trailing stop, the
    break-even stop, the time-decay stop and the session stop.  The clock is an
    argument ([now]); identifiers and creation times are left out; [None] is the
    panic of a division by zero. *)

From S2P Require Import Prelude Platform.

Section AdvancedStops.
Context `{DO : DecimalOps} `{CO : ChronoOps}.

Record AdvancedStopConfig : Type := {
  break_even_enabled : bool;
  break_even_trigger_pct : dec;
  break_even_buffer_pct : dec;
  step_trailing_enabled : bool;
  cfg_step_size : dec;
  step_offset_pct : dec;
  volatility_adjusted : bool;
  atr_multiplier : dec;
  atr_period : Z;
  time_decay_enabled : bool;
  time_decay_start_hours : Z;
  time_decay_final_multiplier : dec;
}.
Definition default_advanced_config : AdvancedStopConfig := {|
  break_even_enabled := true; break_even_trigger_pct := dec_new 8 2;
  break_even_buffer_pct := dec_new 5 3;
  step_trailing_enabled := false; cfg_step_size := dec_new 5 2; step_offset_pct := dec_new 3 2;
  volatility_adjusted := true; atr_multiplier := dec_new 25 1; atr_period := 14;
  time_decay_enabled := true; time_decay_start_hours := 12;
  time_decay_final_multiplier := dec_new 65 2 |}.

(** ** Compound stops *)

Inductive CompoundLogic : Type := LogicAnd | LogicOr | LogicAtLeast (n : nat).

Inductive StopCondition : Type :=
| PriceBelow (price : dec)
| PercentageFromPeak (peak pct : dec)
| LossExceeds (amount : dec)
| TimeReached (deadline : datetime)
| VolatilityExceeds (threshold : dec)
| VolumeBelowAvg (threshold_pct avg_volume : dec)
| OutsideMarketHours (allowed_hours : list (Z * Z))
| ConsecutiveDownCandles (count current : Z)
| SupportBroken (level : dec).

Record StopContext : Type := {
  sx_current_price : dec;
  sx_entry_price : dec;
  sx_unrealized_pnl : dec;
  sx_current_volatility : option dec;
  sx_current_volume : option dec;
  sx_position_age_hours : Z;
}.

Record CompoundStop : Type := {
  conditions : list StopCondition;
  logic : CompoundLogic;
  cs_activated : bool;
  cs_triggered : bool;
}.
Definition compound_new (l : list StopCondition) (g : CompoundLogic) : CompoundStop := {|
  conditions := l; logic := g; cs_activated := false; cs_triggered := false |}.
Definition compound_activate (s : CompoundStop) : CompoundStop := {| s with cs_activated := true |}.

Definition within_hours (h : Z) (range : Z * Z) : bool := (fst range <=? h)%Z && (h <? snd range)%Z.

Definition evaluate_condition (now : datetime) (x : StopContext) (c : StopCondition) : bool :=
  match c with
  | PriceBelow price => (sx_current_price x <=? price)%dec
  | PercentageFromPeak peak pct => (sx_current_price x <=? peak * (ONE - pct))%dec
  | LossExceeds amount => (sx_unrealized_pnl x <=? - amount)%dec
  | TimeReached deadline => dt_leb deadline now
  | VolatilityExceeds threshold =>
      match sx_current_volatility x with Some v => (threshold <=? v)%dec | None => false end
  | VolumeBelowAvg threshold_pct avg_volume =>
      match sx_current_volume x with
      | Some v => (v <? avg_volume * threshold_pct)%dec
      | None => false
      end
  | OutsideMarketHours allowed_hours => negb (existsb (within_hours (hour now)) allowed_hours)
  | ConsecutiveDownCandles count current => (count <=? current)%Z
  | SupportBroken level => (sx_current_price x <? level)%dec
  end.

Definition compound_check (now : datetime) (x : StopContext) (s : CompoundStop) : bool :=
  if negb (cs_activated s) || cs_triggered s then false
  else
    let results := evaluate_condition now x <$> conditions s in
    match logic s with
    | LogicAnd => forallb id results
    | LogicOr => existsb id results
    | LogicAtLeast n => (n <=? count_if id results)%nat
    end.

(** ** Volatility *)

Record PriceBar : Type := { high : dec; low : dec; close : dec; bar_timestamp : datetime }.
Record VolatilityStop : Type := {
  price_history : list PriceBar;
  period : nat;
  multiplier : dec;
  current_atr : option dec;
}.
Definition volatility_new (n : nat) (m : dec) : VolatilityStop :=
  {| price_history := []; period := n; multiplier := m; current_atr := None |}.

Definition true_range (prev current : PriceBar) : dec :=
  dec_max (dec_max (high current - low current)%dec (dec_abs (high current - close prev)%dec))
          (dec_abs (low current - close prev)%dec).
Fixpoint true_ranges_from (prev : PriceBar) (l : list PriceBar) : list dec :=
  match l with
  | [] => []
  | current :: l => true_range prev current :: true_ranges_from current l
  end.
Definition true_ranges (l : list PriceBar) : list dec :=
  match l with [] => [] | first :: rest => true_ranges_from first rest end.

Definition calculate_atr (v : VolatilityStop) : option VolatilityStop :=
  if (length (price_history v) <? 2)%nat then Some v
  else
    let ranges := true_ranges (price_history v) in
    if (period v <=? length ranges)%nat
    then
      atr ← dec_div (dec_sum (take (period v) (rev ranges))) (dec_of_Z (Z.of_nat (period v)));
      Some {| v with current_atr := Some atr |}
    else Some v.
Definition add_bar (bar : PriceBar) (v : VolatilityStop) : option VolatilityStop :=
  let history := price_history v ++ [bar] in
  let history := if (period v + 1 <? length history)%nat then drop 1 history else history in
  calculate_atr {| v with price_history := history |}.
Definition get_stop_level (entry_price : dec) (v : VolatilityStop) : option dec :=
  (fun atr => entry_price - atr * multiplier v)%dec <$> current_atr v.

(** ** Step trailing *)

Record StepTrailingStop : Type := {
  st_entry_price : dec;
  step_size : dec;
  offset_pct : dec;
  current_step : Z;
  highest_step : Z;
  st_stop_price : dec;
  st_activated : bool;
}.
Definition step_new (entry size offset : dec) : StepTrailingStop := {|
  st_entry_price := entry; step_size := size; offset_pct := offset; current_step := 0;
  highest_step := 0; st_stop_price := (entry * (ONE - offset))%dec; st_activated := false |}.
Definition step_activate (s : StepTrailingStop) : StepTrailingStop := {| s with st_activated := true |}.

(** The step a price is on; a number of steps that is no [u32] is none. *)
Definition step_of (s : StepTrailingStop) (price_move : dec) : option Z :=
  steps ← dec_div price_move (step_size s);
  Some (default 0%Z (dec_parse_u32 (dec_floor steps))).
Definition raise_step (new_step : Z) (s : StepTrailingStop) : StepTrailingStop :=
  if (highest_step s <? new_step)%Z
  then {| s with highest_step := new_step;
                 st_stop_price := dec_max (st_entry_price s + step_size s * dec_of_Z (new_step - 1))%dec
                                    (st_stop_price s) |}
  else s.
Definition set_current_step (s : StepTrailingStop) : StepTrailingStop :=
  {| s with current_step := highest_step s |}.
Definition step_update (price : dec) (s : StepTrailingStop) : option (StepTrailingStop * bool) :=
  if negb (st_activated s) then Some (s, false)
  else
    let price_move := (price - st_entry_price s)%dec in
    s' ← (if (price_move >? ZERO)%dec
          then new_step ← step_of s price_move; Some (raise_step new_step s)
          else Some s);
    let s' := set_current_step s' in
    Some (s', (price <=? st_stop_price s')%dec).

(** ** Break-even *)

Record BreakEvenStop : Type := {
  be_entry_price : dec;
  trigger_profit_pct : dec;
  buffer_pct : dec;
  triggered_to_break_even : bool;
  be_stop_price : option dec;
  be_activated : bool;
}.
Definition break_even_new (entry trigger buffer : dec) : BreakEvenStop := {|
  be_entry_price := entry; trigger_profit_pct := trigger; buffer_pct := buffer;
  triggered_to_break_even := false; be_stop_price := None; be_activated := false |}.
Definition break_even_activate (s : BreakEvenStop) : BreakEvenStop := {| s with be_activated := true |}.

Definition raise_break_even (price : dec) (s : BreakEvenStop) : option BreakEvenStop :=
  if triggered_to_break_even s then Some s
  else
    profit_pct ← dec_div (price - be_entry_price s)%dec (be_entry_price s);
    Some (if (trigger_profit_pct s <=? profit_pct)%dec
          then {| s with be_stop_price := Some (be_entry_price s * (ONE + buffer_pct s))%dec;
                         triggered_to_break_even := true |}
          else s).
Definition break_even_update (price : dec) (s : BreakEvenStop) : option (BreakEvenStop * bool) :=
  if negb (be_activated s) then Some (s, false)
  else
    s' ← raise_break_even price s;
    Some (s', match be_stop_price s' with Some stop => (price <=? stop)%dec | None => false end).

(** ** Time decay *)

Record TimeDecayStop : Type := {
  base_stop_pct : dec;
  td_deadline : datetime;
  decay_start_hours : Z;
  final_multiplier : dec;
  td_entry_price : dec;
  td_activated : bool;
}.
Definition time_decay_new (entry base : dec) (deadline : datetime) (start : Z) (final : dec)
    : TimeDecayStop := {|
  base_stop_pct := base; td_deadline := deadline; decay_start_hours := start;
  final_multiplier := final; td_entry_price := entry; td_activated := false |}.
Definition time_decay_activate (s : TimeDecayStop) : TimeDecayStop := {| s with td_activated := true |}.

Definition decay_factor (s : TimeDecayStop) (hours_to_deadline : Z) : option dec :=
  if (decay_start_hours s <=? hours_to_deadline)%Z then Some ONE
  else if (hours_to_deadline <=? 0)%Z then Some (final_multiplier s)
  else
    progress ← dec_div (dec_of_Z (decay_start_hours s - hours_to_deadline))
                 (dec_of_Z (decay_start_hours s));
    Some (ONE - progress * (ONE - final_multiplier s))%dec.
Definition decayed_level (s : TimeDecayStop) (factor : dec) : dec :=
  let adjusted_stop_pct := (base_stop_pct s * factor)%dec in
  (td_entry_price s * (ONE - adjusted_stop_pct))%dec.
Definition current_stop_level (now : datetime) (s : TimeDecayStop) : option dec :=
  decayed_level s <$> decay_factor s (hours_since (td_deadline s) now).
Definition time_decay_triggered (now : datetime) (price : dec) (s : TimeDecayStop) : option bool :=
  if negb (td_activated s) then Some false
  else level ← current_stop_level now s; Some (price <=? level)%dec.

(** ** Sessions *)

(** [trading_days] are [num_days_from_sunday]. *)
Record SessionStop : Type := {
  close_at_session_end : bool;
  session_end_hour : Z;
  trading_days : list Z;
  tighten_outside_prime : bool;
  prime_hours : Z * Z;
  outside_prime_multiplier : dec;
  ss_activated : bool;
}.
Definition session_new : SessionStop := {|
  close_at_session_end := false; session_end_hour := 21; trading_days := [1; 2; 3; 4; 5]%Z;
  tighten_outside_prime := true; prime_hours := (13, 21)%Z;
  outside_prime_multiplier := dec_new 5 1; ss_activated := false |}.
Definition session_activate (s : SessionStop) : SessionStop := {| s with ss_activated := true |}.

Definition should_close_session_end (now : datetime) (s : SessionStop) : bool :=
  if negb (ss_activated s) || negb (close_at_session_end s) then false
  else if negb (bool_decide (trading_days s = [])) && negb (bool_decide (weekday now ∈ trading_days s))
  then true
  else (session_end_hour s <=? hour now)%Z.
Definition get_stop_multiplier (now : datetime) (s : SessionStop) : dec :=
  if negb (ss_activated s) || negb (tighten_outside_prime s) then ONE
  else if within_hours (hour now) (prime_hours s) then ONE else outside_prime_multiplier s.

(** ** Runs *)

(** A stop that sees one price after another, to the first that triggers it;
    [None] is a panic. *)
Fixpoint watch {S} (update : dec -> S -> option (S * bool)) (prices : list dec) (s : S)
    : option (S * bool) :=
  match prices with
  | [] => Some (s, false)
  | price :: prices =>
      '(s, hit) ← update price s;
      if hit : bool then Some (s, true) else watch update prices s
  end.
Fixpoint add_bars (bars : list PriceBar) (v : VolatilityStop) : option VolatilityStop :=
  match bars with
  | [] => Some v
  | bar :: bars => v ← add_bar bar v; add_bars bars v
  end.
End AdvancedStops.
