(* ===== verification/AdvancedStopsFacts.v ===== *)
(** * Advanced stops: properties

    The step trailing stop and the break-even stop over any run of prices, and
    the bounds of the time-decay and the volatility levels. *)

From S2P Require Import Prelude Platform AdvancedStops.

Local Open Scope Q_scope.

Section AdvancedStopsFacts.
Context `{DO : DecimalOps} `{CO : ChronoOps} {DS : DecimalSpec}.

(** ** The step trailing stop *)

(** The step of a price move is one it has nearly made: the quotient is
    rounded, by less than one step. *)
Lemma step_of_bounds s move n :
  0 < dval (step_size s) -> step_of s move = Some n -> (0 < n)%Z ->
  (n < 2 ^ 32)%Z /\ dval (step_size s) * inject_Z (n - 1) < dval move.
Proof.
  unfold step_of. intros Hs Hn Hpos.
  destruct (dec_div move (step_size s)) as [q|] eqn:Hq; [|done]. cbn [mbind option_bind] in Hn.
  rewrite dec_parse_u32_floor in Hn. cbv zeta in Hn.
  destruct ((0 <=? Qfloor (dval q)) && (Qfloor (dval q) <? 2 ^ 32))%Z eqn:Hr; simpl in Hn;
    injection Hn as <-; [|lia].
  reflect_bools. split; [done|].
  assert (Hlow : inject_Z (Qfloor (dval q)) <= dval q) by apply Qfloor_le.
  set (n := Qfloor (dval q)) in *. clearbody n.
  assert (Hinj : inject_Z (n - 1) < inject_Z n) by (rewrite <- Zlt_Qlt; lia).
  assert (Hrep : dval (dec_of_Z (n - 1)) == inject_Z (n - 1)) by (apply dval_of_Z; lia).
  destruct (Qlt_le_dec (inject_Z (n - 1) * dval (step_size s)) (dval move)) as [?|Hle]; [lra|].
  exfalso. assert (dval q <= dval (dec_of_Z (n - 1))); [|lra].
  eapply dec_div_le; [done..|]. rewrite Hrep. lra.
Qed.

Lemma step_of_total s move : ~ dval (step_size s) == 0 -> is_Some (step_of s move).
Proof.
  intros Hs. unfold step_of. destruct (dec_div_some move (step_size s) Hs) as [q ->]. simpl. eauto.
Qed.

(** What one price does to the stop. *)
Record stepped (price : dec) (s s' : StepTrailingStop) : Prop := {
  stepped_entry : st_entry_price s' = st_entry_price s;
  stepped_size : step_size s' = step_size s;
  stepped_active : st_activated s' = st_activated s;
  stepped_highest : (highest_step s <= highest_step s')%Z;
  stepped_stop : dval (st_stop_price s) <= dval (st_stop_price s');
  stepped_same : highest_step s' = highest_step s -> st_stop_price s' = st_stop_price s;
  stepped_new : (highest_step s < highest_step s')%Z ->
    (highest_step s' < 2 ^ 32)%Z /\
    dval (step_size s) * inject_Z (highest_step s' - 1) < dval (price - st_entry_price s)%dec /\
    st_stop_price s' = dec_max (st_entry_price s + step_size s * dec_of_Z (highest_step s' - 1))%dec
                         (st_stop_price s);
}.

Lemma step_update_stepped price s s' hit :
  0 < dval (step_size s) -> (0 <= highest_step s)%Z -> st_activated s = true ->
  step_update price s = Some (s', hit) ->
  stepped price s s' /\ hit = (price <=? st_stop_price s')%dec.
Proof.
  unfold step_update. intros Hs Hh -> H. cbn [negb] in H.
  destruct (price - st_entry_price s >? ZERO)%dec eqn:Em; cycle 1.
  { simpl in H. injection H as <- <-. split; [|done]. by split; cbn; try lia; try lra. }
  destruct (step_of s (price - st_entry_price s)%dec) as [n|] eqn:En; [|done].
  cbn [mbind option_bind] in H. injection H as <- <-. split; [|done]. unfold raise_step.
  destruct (highest_step s <? n)%Z eqn:E; reflect_bools.
  - destruct (step_of_bounds s _ n Hs En) as [Hlt Hmove]; [lia|].
    split; cbn; try done; try lia.
    rewrite dval_max. q_cases; lra.
  - by split; cbn; try lia; try lra.
Qed.

Lemma step_update_total price s : ~ dval (step_size s) == 0 -> is_Some (step_update price s).
Proof.
  intros Hs. unfold step_update. destruct (negb (st_activated s)); [eauto|].
  destruct (price - st_entry_price s >? ZERO)%dec; [|simpl; eauto].
  destruct (step_of_total s (price - st_entry_price s)%dec Hs) as [n ->]. simpl. eauto.
Qed.

Section Exact.
Context {EX : DecimalExact}.

(** The level of a step: one step below it. *)
Definition step_level s (n : Z) : Q := dval (st_entry_price s) + dval (step_size s) * inject_Z (n - 1).

(** A price that raises the stop stays above the new level, so a price triggers
    exactly if it is at or below the stop it meets. *)
Lemma stepped_hit price s s' :
  (0 <= highest_step s)%Z -> stepped price s s' ->
  (price <=? st_stop_price s')%dec = (price <=? st_stop_price s)%dec /\
  ((highest_step s < highest_step s')%Z ->
   dval (st_stop_price s') == Qmax (step_level s (highest_step s')) (dval (st_stop_price s))).
Proof.
  intros Hh [_ _ _ Hhigh _ Hsame Hnew].
  destruct (decide (highest_step s' = highest_step s)) as [E|E].
  { rewrite (Hsame E). split; [done|lia]. }
  destruct Hnew as (Hlt & Hmove & Est); [lia|].
  assert (Hlevel : dval (st_entry_price s + step_size s * dec_of_Z (highest_step s' - 1))%dec
                   == step_level s (highest_step s')).
  { unfold step_level. by rewrite dval_add, dval_mul, dval_of_Z by lia. }
  rewrite dval_sub in Hmove. unfold step_level in *.
  assert (Hmax : dval (st_stop_price s')
    == Qmax (dval (st_entry_price s) + dval (step_size s) * inject_Z (highest_step s' - 1))
         (dval (st_stop_price s))) by (rewrite Est, dval_max; by rewrite Hlevel).
  split; [|done]. apply eq_true_iff_eq. rewrite !dec_leb_le, Hmax. q_cases; lra.
Qed.

(** ** Runs of prices *)

(** Over any run of prices an activated step trailing stop with positive
    steps never panics; its stop price never falls, and is, from the first
    step reached on, the larger of the price it had and one step below the
    highest step.  The run triggers exactly at a price at or below the stop in
    force, never at one that raises it. *)
Theorem step_stop_ratchets prices s :
  0 < dval (step_size s) -> (0 <= highest_step s)%Z -> st_activated s = true ->
  exists s' hit,
  watch step_update prices s = Some (s', hit) /\
  (highest_step s <= highest_step s')%Z /\ dval (st_stop_price s) <= dval (st_stop_price s') /\
  (highest_step s' = highest_step s -> st_stop_price s' = st_stop_price s) /\
  ((highest_step s < highest_step s')%Z ->
   dval (st_stop_price s') == Qmax (step_level s (highest_step s')) (dval (st_stop_price s))) /\
  (hit = true -> exists price, price ∈ prices /\ dval price <= dval (st_stop_price s')) /\
  (hit = false -> forall price, price ∈ prices -> dval (st_stop_price s) < dval price).
Proof.
  revert s. induction prices as [|price prices IH]; intros s Hs Hh Ha; simpl.
  - exists s, false. split_and!; try done; try lra; try lia.
    intros _ p Hp. by apply elem_of_nil in Hp.
  - destruct (step_update_total price s) as [[s1 hit1] E1]; [lra|]. rewrite E1. simpl.
    destruct (step_update_stepped _ _ _ _ Hs Hh Ha E1) as [Hst ->].
    destruct (stepped_hit _ _ _ Hh Hst) as [Hhit Hlevel]. pose proof Hst as [He Hz Hact H1 H2 H3 _].
    destruct (price <=? st_stop_price s1)%dec eqn:Ehit.
    + exists s1, true. split_and!; try done. intros _. exists price. dec_to_Q. split; [left|done].
    + destruct (IH s1) as (s' & hit & E & H1' & H2' & H3' & H4' & H5' & H6');
        [by rewrite Hz|lia|by rewrite Hact|].
      exists s', hit. rewrite E. assert (Hprice : dval (st_stop_price s) < dval price)
        by (by apply dec_leb_gt; rewrite <- Hhit).
      unfold step_level in *. rewrite He, Hz in H4'.
      split_and!; [done|lia|lra| | | |].
      * intros Eh. rewrite H3' by lia. apply H3. lia.
      * intros Hlt. destruct (decide (highest_step s' = highest_step s1)) as [Eh|Eh].
        -- rewrite (H3' Eh), Eh. apply Hlevel. lia.
        -- rewrite H4' by lia. destruct (decide (highest_step s1 = highest_step s)) as [E0|E0].
           { by rewrite (H3 E0). }
           rewrite Hlevel by lia.
           assert (Hinj : inject_Z (highest_step s1 - 1) <= inject_Z (highest_step s' - 1))
             by (rewrite <- Zle_Qle; lia).
           assert (dval (step_size s) * inject_Z (highest_step s1 - 1)
                   <= dval (step_size s) * inject_Z (highest_step s' - 1)) by nra.
           q_cases; lra.
      * intros Hh'. destruct (H5' Hh') as (p & Hp & Hle). exists p. split; [by right|done].
      * intros Hh' p [->|Hp]%elem_of_cons; [done|]. specialize (H6' Hh' p Hp). lra.
Qed.

(** ** The bounded levels *)

Lemma decay_factor_bounds s h :
  0 <= dval (final_multiplier s) <= 1 -> (decay_start_hours s < 2 ^ 63)%Z -> exists f,
  decay_factor s h = Some f /\ dval (final_multiplier s) <= dval f <= 1.
Proof.
  intros Hf Hb. unfold decay_factor.
  destruct (decay_start_hours s <=? h)%Z eqn:E1; [exists ONE; rewrite dval_ONE; split; [done|lra]|].
  destruct (h <=? 0)%Z eqn:E2; [exists (final_multiplier s); split; [done|lra]|]. reflect_bools.
  assert (Hstart : dval (dec_of_Z (decay_start_hours s)) == inject_Z (decay_start_hours s))
    by (apply dval_of_Z; lia).
  assert (Hleft : dval (dec_of_Z (decay_start_hours s - h)) == inject_Z (decay_start_hours s - h))
    by (apply dval_of_Z; lia).
  assert (0 < inject_Z (decay_start_hours s)) by (change 0 with (inject_Z 0); rewrite <- Zlt_Qlt; lia).
  assert (0 <= inject_Z (decay_start_hours s - h) <= inject_Z (decay_start_hours s)).
  { change 0 with (inject_Z 0). rewrite <- !Zle_Qle. lia. }
  destruct (dec_div_some (dec_of_Z (decay_start_hours s - h)) (dec_of_Z (decay_start_hours s)))
    as [q Hq]; [lra|]. rewrite Hq. simpl.
  assert (0 <= dval q)
    by (rewrite <- dval_ZERO; eapply dec_div_ge; [done|lra|rewrite dval_ZERO; lra]).
  assert (dval q <= 1) by (rewrite <- dval_ONE; eapply dec_div_le; [done|lra|rewrite dval_ONE; lra]).
  eexists. split; [done|]. rewrite dval_sub, dval_mul, dval_sub, dval_ONE. nra.
Qed.

(** A time-decay stop always has a level: that of its base percentage
    until the decay starts, that of the final one at the deadline and after,
    and between them always within the two. *)
Theorem time_decay_within now s :
  0 <= dval (final_multiplier s) <= 1 -> 0 <= dval (base_stop_pct s) ->
  0 <= dval (td_entry_price s) -> (decay_start_hours s < 2 ^ 63)%Z ->
  let h := hours_since (td_deadline s) now in
  let base := dval (td_entry_price s) * (1 - dval (base_stop_pct s)) in
  let final := dval (td_entry_price s)
               * (1 - dval (base_stop_pct s) * dval (final_multiplier s)) in
  exists level, current_stop_level now s = Some level /\ base <= dval level <= final /\
  ((decay_start_hours s <= h)%Z -> dval level == base) /\
  ((h < decay_start_hours s)%Z -> (h <= 0)%Z -> dval level == final).
Proof.
  intros Hf Hb He Hs h base final. unfold current_stop_level. fold h.
  destruct (decay_factor_bounds s h Hf Hs) as (f & Ef & Hrange).
  assert (Hval : dval (decayed_level s f) == dval (td_entry_price s) * (1 - dval (base_stop_pct s) * dval f))
    by (unfold decayed_level; by rewrite dval_mul, dval_sub, dval_mul, dval_ONE).
  rewrite Ef. exists (decayed_level s f). split; [done|].
  unfold base, final. rewrite !Hval. split; [|split].
  - assert (dval (base_stop_pct s) * dval (final_multiplier s) <= dval (base_stop_pct s) * dval f) by nra.
    assert (dval (base_stop_pct s) * dval f <= dval (base_stop_pct s)) by nra. nra.
  - intros Hh. unfold decay_factor in Ef. apply Z.leb_le in Hh. rewrite Hh in Ef.
    injection Ef as <-. rewrite dval_ONE. lra.
  - intros Hh H0. unfold decay_factor in Ef. apply Z.leb_gt in Hh. apply Z.leb_le in H0.
    rewrite Hh, H0 in Ef. by injection Ef as <-.
Qed.
End Exact.

(** ** The average true range *)

Lemma true_range_nonneg prev current : 0 <= dval (true_range prev current).
Proof.
  unfold true_range. rewrite !dval_max, !dval_abs.
  pose proof (Qabs_nonneg (dval (low current - close prev)%dec)). q_cases; lra.
Qed.
Lemma true_ranges_length l : length (true_ranges l) = (length l - 1)%nat.
Proof.
  destruct l as [|first rest]; [done|]. simpl. revert first.
  induction rest as [|bar rest IH]; intros first; simpl; [done|]. rewrite IH. lia.
Qed.
Lemma true_ranges_nonneg l : Forall (fun x => 0 <= dval x) (true_ranges l).
Proof.
  destruct l as [|first rest]; [constructor|]. simpl. revert first.
  induction rest as [|bar rest IH]; intros first; simpl; constructor; auto using true_range_nonneg.
Qed.

(** What holds of the calculator: a bounded history, an average that is no
    negative number and is there once the history is full. *)
Record vol_ok (v : VolatilityStop) : Prop := {
  vol_bounded : (length (price_history v) <= period v + 1)%nat;
  vol_nonneg : forall atr, current_atr v = Some atr -> 0 <= dval atr;
  vol_full : (0 < period v)%nat -> length (price_history v) = (period v + 1)%nat ->
             is_Some (current_atr v);
}.

Lemma add_bar_ok bar v :
  (Z.of_nat (period v) < 2 ^ 64)%Z -> vol_ok v -> exists v',
  add_bar bar v = Some v' /\ vol_ok v' /\ period v' = period v /\ multiplier v' = multiplier v /\
  length (price_history v') = Nat.min (length (price_history v) + 1) (period v + 1).
Proof.
  intros Hp [Hb Hn Hf]. unfold add_bar.
  match goal with |- context [calculate_atr {| v with price_history := ?h |}] => set (history := h) end.
  assert (Hlen : length history = Nat.min (length (price_history v) + 1) (period v + 1)).
  { unfold history. destruct (period v + 1 <? length (price_history v ++ [bar]))%nat eqn:E;
      [apply Nat.ltb_lt in E|apply Nat.ltb_ge in E];
      rewrite ?length_drop; rewrite length_app in *; cbn [length] in *; lia. }
  clearbody history. unfold calculate_atr. cbn [price_history period].
  destruct (length history <? 2)%nat eqn:E2; [apply Nat.ltb_lt in E2|apply Nat.ltb_ge in E2].
  { eexists. split; [done|]. split_and!; [split|..]; cbn; try done; lia. }
  destruct (period v <=? length (true_ranges history))%nat eqn:E3; cycle 1.
  { apply Nat.leb_gt in E3. rewrite true_ranges_length in E3.
    eexists. split; [done|]. split_and!; [split|..]; cbn; try done; lia. }
  assert (Hperiod : 0 < dval (dec_of_Z (Z.of_nat (period v)))).
  { rewrite dval_of_Z by lia. change 0 with (inject_Z 0). rewrite <- Zlt_Qlt. lia. }
  destruct (dec_div_some (dec_sum (take (period v) (rev (true_ranges history))))
    (dec_of_Z (Z.of_nat (period v)))) as [atr Hatr]; [lra|].
  rewrite Hatr. eexists. split; [done|]. split_and!; [split|..]; cbn; try done; try lia.
  intros ? [= <-]. rewrite <- dval_ZERO. eapply dec_div_ge; [done..|]. rewrite dval_ZERO.
  assert (0 <= dval (dec_sum (take (period v) (rev (true_ranges history))))); [|lra].
  apply dec_sum_nonneg, Forall_take. apply Forall_rev, true_ranges_nonneg.
Qed.

(** Whatever bars it is given, the volatility stop never panics: it keeps
    at most one bar more than its period, its average true range is there from
    then on and is not negative, and with a multiplier that is not negative
    its level is not above the entry. *)
Theorem volatility_stop_below_entry bars n m entry :
  (Z.of_nat n < 2 ^ 64)%Z -> 0 <= dval m ->
  exists v, add_bars bars (volatility_new n m) = Some v /\
  (length (price_history v) <= n + 1)%nat /\
  ((0 < n < length bars)%nat -> is_Some (current_atr v)) /\
  forall level, get_stop_level entry v = Some level -> dval level <= dval entry.
Proof.
  intros Hn Hm.
  assert (H : forall bars v, vol_ok v -> period v = n -> multiplier v = m -> exists v',
    add_bars bars v = Some v' /\ vol_ok v' /\ period v' = n /\ multiplier v' = m /\
    length (price_history v') = Nat.min (length (price_history v) + length bars) (n + 1)).
  { clear bars. induction bars as [|bar bars IH]; intros v Hv Hp Hmult; simpl.
    - exists v. pose proof (vol_bounded v Hv). split_and!; try done. lia.
    - destruct (add_bar_ok bar v) as (v1 & -> & Hv1 & Hp1 & Hm1 & Hl1); [by rewrite Hp|done|].
      simpl. destruct (IH v1) as (v' & E & Hv' & Hp' & Hm' & Hl'); [done|by rewrite Hp1|by rewrite Hm1|].
      exists v'. split_and!; try done. rewrite Hl', Hl1, Hp. lia. }
  destruct (H bars (volatility_new n m)) as (v & E & Hv & Hp & Hmult & Hl).
  { split; cbn; [lia|done|lia]. }
  { done. }
  { done. }
  exists v. destruct Hv as [Hb Hnn Hf]. split; [done|]. split; [by rewrite <- Hp|]. split.
  - intros Hbars. apply Hf; [lia|]. rewrite Hl, Hp. cbn. lia.
  - unfold get_stop_level. intros level. destruct (current_atr v) as [atr|] eqn:Ea; [|done].
    intros [= <-]. apply dec_sub_upper. rewrite Hmult.
    assert (0 <= dval (atr * m)%dec) by (apply dec_mul_nonneg; [by apply Hnn|done]). lra.
Qed.

(** ** Compound stops *)

(** An activated [And] stop without conditions triggers at every check. *)
Lemma empty_and_triggers now x s :
  conditions s = [] -> logic s = LogicAnd -> cs_activated s = true -> cs_triggered s = false ->
  compound_check now x s = true.
Proof. unfold compound_check. by intros -> -> -> ->. Qed.
End AdvancedStopsFacts.

(** ** Witnesses *)

Module StopSample.
Import Platform.Concrete.
#[local] Existing Instances decimal decimal_spec decimal_exact chrono.

Definition step_stop : StepTrailingStop := step_activate (step_new (d 50 2) (d 5 2) (d 3 2)).
Definition prices : list (@dec decimal) := [d 56 2; d 61 2; d 54 2].

Lemma step_stop_ratchets_witness :
  0 < dval (step_size step_stop) /\ exists s' hit,
  watch step_update prices step_stop = Some (s', hit) /\
  (highest_step step_stop <= highest_step s')%Z /\
  dval (st_stop_price step_stop) <= dval (st_stop_price s') /\
  (highest_step s' = highest_step step_stop -> st_stop_price s' = st_stop_price step_stop) /\
  ((highest_step step_stop < highest_step s')%Z ->
   dval (st_stop_price s')
   == Qmax (step_level step_stop (highest_step s')) (dval (st_stop_price step_stop))) /\
  (hit = true -> exists price, price ∈ prices /\ dval price <= dval (st_stop_price s')) /\
  (hit = false -> forall price, price ∈ prices -> dval (st_stop_price step_stop) < dval price).
Proof.
  assert (H : 0 < dval (step_size step_stop)) by (vm_compute; reflexivity).
  exact (conj H (step_stop_ratchets prices step_stop H (Z.le_refl 0) eq_refl)).
Defined.
(** Two steps up to 0.55, then 0.54 triggers. *)
Example step_stop_run :
  match watch step_update prices step_stop with
  | Some (s', hit) => hit && (highest_step s' =? 2)%Z && Qeq_bool (dval (st_stop_price s')) (55 # 100)
  | None => false
  end = true.
Proof. vm_compute. reflexivity. Qed.

(** Twelve hours before the deadline, half way through a decay of a day. *)
Definition decaying : TimeDecayStop :=
  time_decay_activate (time_decay_new (d 50 2) (d 10 2) (at_minute 1440) 24 (d 5 1)).

Lemma time_decay_within_witness : exists level,
  current_stop_level (at_minute 720) decaying = Some level /\
  (dval (td_entry_price decaying) * (1 - dval (base_stop_pct decaying)) <= dval level
   <= dval (td_entry_price decaying)
      * (1 - dval (base_stop_pct decaying) * dval (final_multiplier decaying))) /\
  ((decay_start_hours decaying <= hours_since (td_deadline decaying) (at_minute 720))%Z ->
   dval level == dval (td_entry_price decaying) * (1 - dval (base_stop_pct decaying))) /\
  ((hours_since (td_deadline decaying) (at_minute 720) < decay_start_hours decaying)%Z ->
   (hours_since (td_deadline decaying) (at_minute 720) <= 0)%Z ->
   dval level == dval (td_entry_price decaying)
      * (1 - dval (base_stop_pct decaying) * dval (final_multiplier decaying))).
Proof.
  assert (H1 : 0 <= dval (final_multiplier decaying) <= 1)
    by (split; vm_compute; intros; discriminate).
  assert (H2 : 0 <= dval (base_stop_pct decaying)) by (vm_compute; intros; discriminate).
  assert (H3 : 0 <= dval (td_entry_price decaying)) by (vm_compute; intros; discriminate).
  assert (H4 : (decay_start_hours decaying < 2 ^ 63)%Z) by (vm_compute; reflexivity).
  exact (time_decay_within (at_minute 720) decaying H1 H2 H3 H4).
Defined.

Definition bar (h l c : Z) : PriceBar :=
  {| high := d h 2; low := d l 2; close := d c 2; bar_timestamp := at_minute 0 |}.
Definition bars : list PriceBar := [bar 52 48 50; bar 53 49 51; bar 54 50 52; bar 55 51 53].

Lemma volatility_stop_below_entry_witness :
  exists v, add_bars bars (volatility_new 3 (d 2 0)) = Some v /\
  (length (price_history v) <= 3 + 1)%nat /\
  ((0 < 3 < length bars)%nat -> is_Some (current_atr v)) /\
  forall level, get_stop_level (d 50 2) v = Some level -> dval level <= dval (d 50 2).
Proof.
  assert (H1 : (Z.of_nat 3 < 2 ^ 64)%Z) by (vm_compute; reflexivity).
  assert (H2 : 0 <= dval (d 2 0)) by (vm_compute; intros; discriminate).
  exact (volatility_stop_below_entry bars 3 (d 2 0) (d 50 2) H1 H2).
Defined.
End StopSample.
