(* ===== verification/StopLoss.v ===== *)
(** * Stop-loss rules and their manager

    Models [crates/risk-manager/src/stop_loss.rs] and [stop_loss_repo.rs]: the
    rules, the trigger conditions, the manager with its two concurrent maps,
    the table [stop_loss_rules] and the sell orders, which go through the
    executor of [Executor].

    A concurrent map ([dashmap], not in the source) is split into shards, each
    under its own lock: a reference into the map, an iterator's included, holds
    the lock of its shard, and [get_mut] of a key waits for the exclusive lock
    of the key's shard.  [Platform.DashOps] gives the shard of a key and the order
    of an iteration.  A task that asks for the exclusive lock of a shard it holds
    itself never continues: the outcome [Blocked]. *)

From stdpp Require Import sorting.
From S2P Require Import Prelude F64 Platform Market Executor.

(** The end of a run that may wait for a lock. *)
Inductive Run (A : Type) : Type :=
| Finished (a : A)
| Blocked
| Panicked.
Arguments Finished {A} _.
Arguments Blocked {A}.
Arguments Panicked {A}.

Definition run_bind {A B} (r : Run A) (k : A -> Run B) : Run B :=
  match r with Finished a => k a | Blocked => Blocked | Panicked => Panicked end.

Fixpoint run_fold {A B} (f : A -> B -> Run B) (l : list A) (acc : B) : Run B :=
  match l with
  | [] => Finished acc
  | x :: l => run_bind (f x acc) (run_fold f l)
  end.

Section StopLoss.
Context `{DO : DecimalOps} `{CO : ChronoOps} `{UO : UuidOps}.

(** Type of stop-loss trigger. *)
Inductive StopType : Type :=
| Fixed (trigger_price : dec)
| Percentage (loss_pct : dec)
| Trailing (offset_pct peak_price : dec)
| TimeBased (deadline : datetime).

Definition trailing (offset_pct : dec) : StopType := Trailing offset_pct ZERO.

(** A stop-loss rule attached to a position. *)
Record StopLossRule : Type := {
  sr_id : Uuid;
  sr_position_id : Uuid;
  sr_market_id : string;
  sr_outcome_id : string;
  sr_entry_price : dec;
  sr_quantity : dec;
  stop_type : StopType;
  activated : bool;
  activated_at : option datetime;
  executed : bool;
  executed_at : option datetime;
  sr_created_at : datetime;
}.

Definition rule_new (id : Uuid) (now : datetime) (position_id : Uuid) (market_id outcome_id : string)
    (entry_price quantity : dec) (t : StopType) : StopLossRule := {|
  sr_id := id; sr_position_id := position_id; sr_market_id := market_id;
  sr_outcome_id := outcome_id; sr_entry_price := entry_price; sr_quantity := quantity;
  stop_type := t; activated := false; activated_at := None; executed := false;
  executed_at := None; sr_created_at := now |}.

(** Activate the stop-loss (start monitoring). *)
Definition activate (now : datetime) (r : StopLossRule) : StopLossRule :=
  if activated r then r else {| r with activated := true; activated_at := Some now |}.

(** Check if this stop-loss is triggered given the current price; [None] is
    the panic of the division. *)
Definition is_triggered (now : datetime) (current_price : dec) (r : StopLossRule) : option bool :=
  if negb (activated r) || executed r then Some false
  else match stop_type r with
  | Fixed trigger_price => Some (current_price <=? trigger_price)%dec
  | Percentage loss_pct =>
      if (sr_entry_price r <=? ZERO)%dec then Some false
      else
        loss ← dec_div (sr_entry_price r - current_price)%dec (sr_entry_price r);
        Some (loss >=? loss_pct)%dec
  | Trailing offset_pct peak_price =>
      if (peak_price <=? ZERO)%dec then Some false
      else Some (current_price <=? peak_price * (ONE - offset_pct))%dec
  | TimeBased deadline => Some (dt_leb deadline now)
  end.

(** Update trailing stop with new peak price. *)
Definition update_peak (current_price : dec) (r : StopLossRule) : StopLossRule :=
  match stop_type r with
  | Trailing offset_pct peak_price =>
      if (current_price >? peak_price)%dec
      then {| r with stop_type := Trailing offset_pct current_price |} else r
  | _ => r
  end.

Definition current_trigger_price (r : StopLossRule) : option dec :=
  match stop_type r with
  | Fixed trigger_price => Some trigger_price
  | Percentage loss_pct => Some (sr_entry_price r * (ONE - loss_pct))%dec
  | Trailing offset_pct peak_price =>
      if (peak_price >? ZERO)%dec then Some (peak_price * (ONE - offset_pct))%dec else None
  | TimeBased _ => None
  end.

Definition mark_executed (now : datetime) (r : StopLossRule) : StopLossRule :=
  {| r with executed := true; executed_at := Some now |}.

(** ** The table [stop_loss_rules] *)

Record StopRow : Type := {
  st_id : Uuid;
  st_position_id : Uuid;
  st_market_id : string;
  st_outcome_id : string;
  st_entry_price : dec;
  st_quantity : dec;
  st_stop_type : Z;
  st_trigger_price : option dec;
  st_loss_percentage : option dec;
  st_trailing_offset_pct : option dec;
  st_peak_price : option dec;
  st_deadline : option datetime;
  st_activated : bool;
  st_activated_at : option datetime;
  st_executed : bool;
  st_executed_at : option datetime;
  st_created_at : datetime;
}.
Abbreviation StopTable := (gmap Uuid StopRow).

(** Decompose StopType into database columns. *)
Definition decompose_stop_type (t : StopType)
    : Z * option dec * option dec * option dec * option dec * option datetime :=
  match t with
  | Fixed trigger_price => (0%Z, Some trigger_price, None, None, None, None)
  | Percentage loss_pct => (1%Z, None, Some loss_pct, None, None, None)
  | Trailing offset_pct peak_price => (2%Z, None, None, Some offset_pct, Some peak_price, None)
  | TimeBased deadline => (3%Z, None, None, None, None, Some deadline)
  end.

Definition rule_row (r : StopLossRule) : StopRow :=
  let '(kind, trigger_price, loss_pct, trailing_offset, peak_price, deadline) :=
    decompose_stop_type (stop_type r) in
  {| st_id := sr_id r; st_position_id := sr_position_id r; st_market_id := sr_market_id r;
     st_outcome_id := sr_outcome_id r; st_entry_price := sr_entry_price r;
     st_quantity := sr_quantity r; st_stop_type := kind; st_trigger_price := trigger_price;
     st_loss_percentage := loss_pct; st_trailing_offset_pct := trailing_offset;
     st_peak_price := peak_price; st_deadline := deadline; st_activated := activated r;
     st_activated_at := activated_at r; st_executed := executed r;
     st_executed_at := executed_at r; st_created_at := sr_created_at r |}.

(** The columns [UPDATE] sets. *)
Definition rule_update (r : StopLossRule) (row : StopRow) : StopRow :=
  let '(kind, trigger_price, loss_pct, trailing_offset, peak_price, deadline) :=
    decompose_stop_type (stop_type r) in
  {| row with st_stop_type := kind; st_trigger_price := trigger_price;
              st_loss_percentage := loss_pct; st_trailing_offset_pct := trailing_offset;
              st_peak_price := peak_price; st_deadline := deadline;
              st_activated := activated r; st_activated_at := activated_at r;
              st_executed := executed r; st_executed_at := executed_at r |}.

Definition row_to_rule (now : datetime) (r : StopRow) : StopLossRule := {|
  sr_id := st_id r; sr_position_id := st_position_id r; sr_market_id := st_market_id r;
  sr_outcome_id := st_outcome_id r; sr_entry_price := st_entry_price r;
  sr_quantity := st_quantity r;
  stop_type :=
    (if (st_stop_type r =? 0)%Z then Fixed (default ZERO (st_trigger_price r))
     else if (st_stop_type r =? 1)%Z then Percentage (default ZERO (st_loss_percentage r))
     else if (st_stop_type r =? 2)%Z
       then Trailing (default ZERO (st_trailing_offset_pct r)) (default ZERO (st_peak_price r))
     else if (st_stop_type r =? 3)%Z then TimeBased (default now (st_deadline r))
     else Fixed ZERO);
  activated := st_activated r; activated_at := st_activated_at r; executed := st_executed r;
  executed_at := st_executed_at r; sr_created_at := st_created_at r |}.

(** The queries; [io] says whether the statement succeeds. *)
Definition stop_insert (io : bool) (r : StopLossRule) (t : StopTable) : StopTable * bool :=
  if io then match t !! sr_id r with
             | Some _ => (t, false)
             | None => (<[sr_id r := rule_row r]> t, true)
             end
  else (t, false).
Definition stop_update (io : bool) (r : StopLossRule) (t : StopTable) : StopTable * bool :=
  if io then (alter (rule_update r) (sr_id r) t, true) else (t, false).
Definition stop_get (io : bool) (now : datetime) (id : Uuid) (t : StopTable)
    : option (option StopLossRule) :=
  if io then Some (row_to_rule now <$> t !! id) else None.
Definition by_created (a b : StopRow) : Prop := dt_leb (st_created_at a) (st_created_at b) = true.
#[local] Instance by_created_dec : RelDecision by_created.
Proof. intros a b. unfold by_created. apply _. Defined.
Definition stop_rows (where_ : StopRow -> bool) (t : StopTable) : list StopRow :=
  merge_sort by_created (List.filter where_ ((map_to_list t).*2)).
Definition stop_get_active (io : bool) (now : datetime) (t : StopTable)
    : option (list StopLossRule) :=
  if io then Some (row_to_rule now <$> stop_rows (fun r => st_activated r && negb (st_executed r)) t)
  else None.
Definition stop_get_by_position (io : bool) (now : datetime) (position_id : Uuid) (t : StopTable)
    : option (list StopLossRule) :=
  if io then Some (row_to_rule now <$>
    stop_rows (fun r => bool_decide (st_position_id r = position_id)) t)
  else None.
Definition stop_delete (io : bool) (id : Uuid) (t : StopTable) : StopTable * bool :=
  if io then (delete id t, true) else (t, false).
Definition stop_delete_by_position (io : bool) (position_id : Uuid) (t : StopTable)
    : StopTable * bool :=
  if io then (filter (fun '(_, r) => st_position_id r <> position_id) t, true) else (t, false).

(** ** The manager *)

(** Result of a triggered stop-loss. *)
Record TriggeredStop : Type := {
  ts_rule : StopLossRule;
  ts_trigger_price : dec;
  ts_current_price : dec;
}.

(** Summary of check_triggers results. *)
Record CheckTriggersSummary : Type := {
  total_rules : nat;
  triggered : nat;
  not_triggered : nat;
  skipped_market_missing : nat;
  skipped_no_bids : nat;
  skipped_not_active : nat;
  skipped_already_executed : nat;
  skipped_trailing_no_peak : nat;
}.
Definition no_checks : CheckTriggersSummary := {|
  total_rules := 0; triggered := 0; not_triggered := 0; skipped_market_missing := 0;
  skipped_no_bids := 0; skipped_not_active := 0; skipped_already_executed := 0;
  skipped_trailing_no_peak := 0 |}.

(** [sl_repo] is [None] without persistence; [notified] are the stops sent to
    the channel, while [listening] there is a receiver. *)
Record StopLossManager : Type := {
  rules : gmap Uuid StopLossRule;
  rules_by_position : gmap Uuid (list Uuid);
  sl_executor : OrderExecutor;
  sl_repo : option StopTable;
  notified : list TriggeredStop;
  listening : bool;
}.

Definition manager_new (x : OrderExecutor) (repo : option StopTable) : StopLossManager := {|
  rules := ∅; rules_by_position := ∅; sl_executor := x; sl_repo := repo; notified := [];
  listening := true |}.

(** [entry(position).or_default().push(id)] and the insertion of the rule. *)
Definition index_rule (r : StopLossRule) (m : StopLossManager) : StopLossManager :=
  {| m with
     rules_by_position := <[sr_position_id r :=
       default [] (rules_by_position m !! sr_position_id r) ++ [sr_id r]]> (rules_by_position m);
     rules := <[sr_id r := r]> (rules m) |}.

(** [get_mut(position).retain(..)]. *)
Definition unindex (position_id id : Uuid) (m : StopLossManager) : StopLossManager :=
  {| m with rules_by_position :=
       alter (List.filter (fun i => negb (bool_decide (i = id)))) position_id (rules_by_position m) |}.

(** Load active rules from database on startup. *)
Definition load_active_rules (io : bool) (now : datetime) (m : StopLossManager)
    : StopLossManager * result nat unit :=
  match sl_repo m with
  | None => (m, Ok 0%nat)
  | Some t =>
      match stop_get_active io now t with
      | None => (m, Err tt)
      | Some loaded => (foldl (fun m r => index_rule r m) m loaded, Ok (length loaded))
      end
  end.

Definition add_rule (io : bool) (now : datetime) (r : StopLossRule) (m : StopLossManager)
    : StopLossManager * bool :=
  let r := activate now r in
  match sl_repo m with
  | None => (index_rule r m, true)
  | Some t =>
      match stop_insert io r t with
      | (t, true) => (index_rule r {| m with sl_repo := Some t |}, true)
      | (_, false) => (m, false)
      end
  end.

(** [Err]: the rule is gone from memory, and its row was not deleted. *)
Definition remove_rule (io : bool) (id : Uuid) (m : StopLossManager)
    : StopLossManager * result (option StopLossRule) unit :=
  match rules m !! id with
  | None => (m, Ok None)
  | Some r =>
      let m := {| m with rules := delete id (rules m) |} in
      let m := unindex (sr_position_id r) id m in
      match sl_repo m with
      | None => (m, Ok (Some r))
      | Some t =>
          match stop_delete io id t with
          | (t, true) => ({| m with sl_repo := Some t |}, Ok (Some r))
          | (_, false) => (m, Err tt)
          end
      end
  end.

(** [rules.remove(id)] for each id, and the rules removed. *)
Fixpoint take_rules (ids : list Uuid) (rs : gmap Uuid StopLossRule)
    : gmap Uuid StopLossRule * list StopLossRule :=
  match ids with
  | [] => (rs, [])
  | id :: ids =>
      let '(rs', removed) := take_rules ids (delete id rs) in
      (rs', option_list (rs !! id) ++ removed)
  end.

Definition remove_rules_for_position (io : bool) (position_id : Uuid) (m : StopLossManager)
    : StopLossManager * result (list StopLossRule) unit :=
  let ids := default [] (rules_by_position m !! position_id) in
  let '(rs, removed) := take_rules ids (rules m) in
  let m := {| m with rules_by_position := delete position_id (rules_by_position m); rules := rs |} in
  match sl_repo m with
  | None => (m, Ok removed)
  | Some t =>
      match stop_delete_by_position io position_id t with
      | (t, true) => ({| m with sl_repo := Some t |}, Ok removed)
      | (_, false) => (m, Err tt)
      end
  end.

Definition get_rule (id : Uuid) (m : StopLossManager) : option StopLossRule := rules m !! id.
Definition rules_for_position (position_id : Uuid) (m : StopLossManager) : list StopLossRule :=
  match rules_by_position m !! position_id with
  | Some ids => omap (fun id => rules m !! id) ids
  | None => []
  end.

Context `{DA : !DashOps}.

Definition active_rules (m : StopLossManager) : list StopLossRule :=
  List.filter (fun r => activated r && negb (executed r)) ((dash_iter (rules m)).*2).

Abbreviation Prices := (gmap string BinaryMarketBook).

(** *** The check *)

(** The state of the loop: the rules it may update, the stops found, the
    updates to persist and the counters. *)
Record CheckState : Type := {
  cs_rules : gmap Uuid StopLossRule;
  cs_triggered : list TriggeredStop;
  cs_updates : list StopLossRule;
  cs_summary : CheckTriggersSummary;
}.
Definition count (f : CheckTriggersSummary -> CheckTriggersSummary) (s : CheckState) : CheckState :=
  {| s with cs_summary := f (cs_summary s) |}.

Definition count_total (s : CheckTriggersSummary) := {| s with total_rules := S (total_rules s) |}.
Definition count_triggered (s : CheckTriggersSummary) := {| s with triggered := S (triggered s) |}.
Definition count_not_triggered (s : CheckTriggersSummary) :=
  {| s with not_triggered := S (not_triggered s) |}.
Definition count_market_missing (s : CheckTriggersSummary) :=
  {| s with skipped_market_missing := S (skipped_market_missing s) |}.
Definition count_no_bids (s : CheckTriggersSummary) :=
  {| s with skipped_no_bids := S (skipped_no_bids s) |}.
Definition count_not_active (s : CheckTriggersSummary) :=
  {| s with skipped_not_active := S (skipped_not_active s) |}.
Definition count_already_executed (s : CheckTriggersSummary) :=
  {| s with skipped_already_executed := S (skipped_already_executed s) |}.

(** The best bid of the rule's outcome; outer [None] when the book is of other
    outcomes. *)
Definition outcome_bid (r : StopLossRule) (b : BinaryMarketBook) : option (option dec) :=
  if bool_decide (sr_outcome_id r = ob_outcome_id (yes_book b)) then Some (best_bid (yes_book b))
  else if bool_decide (sr_outcome_id r = ob_outcome_id (no_book b)) then Some (best_bid (no_book b))
  else None.

(** [if let Some(mut r) = self.rules.get_mut(id) { f(r) }] while the iterator
    holds the shard of [held]. *)
Definition get_mut_while_held (held id : Uuid) (f : StopLossRule -> CheckState -> CheckState)
    (s : CheckState) : Run CheckState :=
  if (shard id =? shard held)%nat then Blocked
  else match cs_rules s !! id with
  | Some r => Finished (f r s)
  | None => Finished s
  end.

Definition peak_of (r : StopLossRule) : dec :=
  match stop_type r with Trailing _ peak => peak | _ => ZERO end.

(** The first peak: the rule is updated and always noted. *)
Definition set_first_peak (price : dec) (r : StopLossRule) (s : CheckState) : CheckState :=
  let r' := update_peak price r in
  {| s with cs_rules := <[sr_id r := r']> (cs_rules s); cs_updates := cs_updates s ++ [r'] |}.

Definition raise_peak (price : dec) (r : StopLossRule) (s : CheckState) : CheckState :=
  let r' := update_peak price r in
  {| s with cs_rules := <[sr_id r := r']> (cs_rules s);
            cs_updates := if (peak_of r' >? peak_of r)%dec
                          then cs_updates s ++ [r'] else cs_updates s |}.

Definition update_trailing (r : StopLossRule) (price : dec) (s : CheckState) : Run CheckState :=
  match stop_type r with
  | Trailing _ peak_price =>
      run_bind
        (if (peak_price <=? ZERO)%dec && (price <=? sr_entry_price r)%dec
         then get_mut_while_held (sr_id r) (sr_id r)
                (set_first_peak (dec_max price (sr_entry_price r))) s
         else Finished s)
        (get_mut_while_held (sr_id r) (sr_id r) (raise_peak price))
  | _ => Finished s
  end.

(** The trigger check of a rule, which is read from the map again. *)
Definition check_price (now : datetime) (id : Uuid) (price : dec) (r : StopLossRule)
    (s : CheckState) : Run CheckState :=
  let r := default r (cs_rules s !! id) in
  match is_triggered now price r with
  | None => Panicked
  | Some true =>
      let stop := {| ts_rule := r; ts_trigger_price := default price (current_trigger_price r);
                     ts_current_price := price |} in
      Finished (count count_triggered {| s with cs_triggered := cs_triggered s ++ [stop] |})
  | Some false => Finished (count count_not_triggered s)
  end.

(** The loop's body. *)
Definition check_rule (now : datetime) (prices : Prices) (entry : Uuid * StopLossRule)
    (s : CheckState) : Run CheckState :=
  let '(id, r) := entry in
  let s := count count_total s in
  if negb (activated r) then Finished (count count_not_active s)
  else if executed r then Finished (count count_already_executed s)
  else match prices !! sr_market_id r with
  | None => Finished (count count_market_missing s)
  | Some book =>
      match outcome_bid r book with
      | None => Finished (count count_market_missing s)
      | Some None => Finished (count count_no_bids s)
      | Some (Some price) => run_bind (update_trailing r price s) (check_price now id price r)
      end
  end.

Definition persist_peaks (io : Uuid -> bool) (updates : list StopLossRule) (t : StopTable)
    : StopTable :=
  foldl (fun t r => fst (stop_update (io (sr_id r)) r t)) t updates.

(** Check all rules against current market prices with detailed results. *)
Definition check_triggers_detailed (io : Uuid -> bool) (now : datetime) (prices : Prices)
    (m : StopLossManager) : Run (StopLossManager * list TriggeredStop * CheckTriggersSummary) :=
  run_bind
    (run_fold (check_rule now prices) (dash_iter (rules m))
       {| cs_rules := rules m; cs_triggered := []; cs_updates := []; cs_summary := no_checks |})
    (fun s => Finished
       ({| m with rules := cs_rules s;
                  sl_repo := persist_peaks io (cs_updates s) <$> sl_repo m |},
        cs_triggered s, cs_summary s)).

Definition check_triggers (io : Uuid -> bool) (now : datetime) (prices : Prices)
    (m : StopLossManager) : Run (StopLossManager * list TriggeredStop) :=
  run_bind (check_triggers_detailed io now prices m) (fun '(m, stops, _) => Finished (m, stops)).

Definition rules_missing_market_data (prices : Prices) (m : StopLossManager) : list StopLossRule :=
  List.filter (fun r => if negb (activated r) || executed r then false
                        else match prices !! sr_market_id r with Some _ => false | None => true end)
    ((dash_iter (rules m)).*2).

(** *** Exits *)

(** What an order of the manager meets: its identifier, the time, the
    exchange's answers, the timeouts and the latency. *)
Record OrderEnv : Type := {
  oe_id : Uuid;
  oe_now : datetime;
  oe_replies : Z -> Replies;
  oe_timed : Z -> Timed;
  oe_latency : Z;
}.

Context `{SH : !DisplayOps}.

Definition sell_rule (e : OrderEnv) (r : StopLossRule) (m : StopLossManager)
    : option (StopLossManager * result ExecutionReport string) :=
  let order := market_order_new (oe_id e) (oe_now e) (sr_market_id r) (sr_outcome_id r) Sell
                 (sr_quantity r) in
  '(x, report, _) ← execute_market_order (oe_now e) (oe_replies e) (oe_timed e) (oe_latency e)
                      order (sl_executor m);
  Some ({| m with sl_executor := x |}, report).

(** [get_mut(id)] marking the rule executed, and the [UPDATE]; its failure is
    only logged. *)
Definition mark_and_persist (io : bool) (now : datetime) (id : Uuid) (m : StopLossManager)
    : StopLossManager :=
  match rules m !! id with
  | None => m
  | Some r =>
      let r := mark_executed now r in
      {| m with rules := <[id := r]> (rules m);
                sl_repo := (fun t => fst (stop_update io r t)) <$> sl_repo m |}
  end.

Definition notify (stop : TriggeredStop) (m : StopLossManager) : StopLossManager :=
  if listening m then {| m with notified := notified m ++ [stop] |} else m.

(** Execute a triggered stop-loss. *)
Definition execute_stop (io : bool) (e : OrderEnv) (stop : TriggeredStop) (m : StopLossManager)
    : option (StopLossManager * result ExecutionReport string) :=
  let r := ts_rule stop in
  '(m, reply) ← sell_rule e r m;
  Some (match reply with
  | Err err => (m, Err err)
  | Ok report =>
      let m := mark_and_persist io (oe_now e) (sr_id r) m in
      let m := {| m with rules := delete (sr_id r) (rules m) |} in
      let m := unindex (sr_position_id r) (sr_id r) m in
      (notify stop m, Ok report)
  end).

(** One rule of a manual exit. *)
Definition exit_rule (io : Uuid -> bool) (envs : Uuid -> OrderEnv)
    (acc : StopLossManager * list ExecutionReport) (r : StopLossRule)
    : option (StopLossManager * list ExecutionReport) :=
  let '(m, reports) := acc in
  if executed r then Some (m, reports)
  else
    '(m, reply) ← sell_rule (envs (sr_id r)) r m;
    Some (match reply with
    | Err _ => (m, reports)
    | Ok report =>
        (mark_and_persist (io (sr_id r)) (oe_now (envs (sr_id r))) (sr_id r) m, reports ++ [report])
    end).

Fixpoint exit_rules (io : Uuid -> bool) (envs : Uuid -> OrderEnv)
    (acc : StopLossManager * list ExecutionReport) (l : list StopLossRule)
    : option (StopLossManager * list ExecutionReport) :=
  match l with
  | [] => Some acc
  | r :: l => acc ← exit_rule io envs acc r; exit_rules io envs acc l
  end.

(** Manually exit a position immediately. *)
Definition manual_exit (io : Uuid -> bool) (envs : Uuid -> OrderEnv) (position_id : Uuid)
    (m : StopLossManager) : option (StopLossManager * list ExecutionReport) :=
  exit_rules io envs (m, []) (rules_for_position position_id m).

(** Summary statistics. *)
Record StopLossStats : Type := {
  ss_total_rules : nat;
  ss_active_rules : nat;
  ss_executed_rules : nat;
  fixed_stops : nat;
  percentage_stops : nat;
  trailing_stops : nat;
  time_based_stops : nat;
}.

Definition stop_stats (m : StopLossManager) : StopLossStats :=
  let l := (dash_iter (rules m)).*2 in
  {| ss_total_rules := length l;
     ss_active_rules := count_if (fun r => activated r && negb (executed r)) l;
     ss_executed_rules := count_if executed l;
     fixed_stops := count_if (fun r => match stop_type r with Fixed _ => true | _ => false end) l;
     percentage_stops :=
       count_if (fun r => match stop_type r with Percentage _ => true | _ => false end) l;
     trailing_stops :=
       count_if (fun r => match stop_type r with Trailing _ _ => true | _ => false end) l;
     time_based_stops :=
       count_if (fun r => match stop_type r with TimeBased _ => true | _ => false end) l |}.

End StopLoss.
