(* ===== verification/StopLossFacts.v ===== *)
(** * Properties of the stop-loss manager

    The trigger conditions, when a check finishes and what it then reports,
    the exit of a rule whose order is rejected, and the agreement of the
    manager's two maps with each other and with the table. *)

From stdpp Require Import sorting.
From S2P Require Import Prelude F64 Platform Market Executor ExecutorFacts StopLoss.

Section Triggers.
Context `{DO : DecimalOps} `{CO : ChronoOps} `{UO : UuidOps}.
Context {DS : DecimalSpec} {CS : @ChronoSpec CO}.
Implicit Types (r : StopLossRule).
Local Open Scope Q_scope.

(** A monitored rule. *)
Definition is_live_rule r : bool := activated r && negb (executed r).

Lemma is_triggered_some now price r : is_Some (is_triggered now price r).
Proof.
  unfold is_triggered. case_match; [by eexists|]. case_match; try (by eexists).
  - destruct (sr_entry_price r <=? ZERO)%dec eqn:E; [by eexists|]. dec_to_Q.
    destruct (dec_div_pos_some (sr_entry_price r - price)%dec (sr_entry_price r)) as [q ->]; [lra|].
    by eexists.
  - case_match; by eexists.
Qed.

Lemma triggered_live now price r : is_triggered now price r = Some true -> is_live_rule r = true.
Proof.
  unfold is_triggered, is_live_rule. destruct (activated r), (executed r); simpl; done.
Qed.

Context {EX : DecimalExact}.

(** The trigger conditions: the test never panics, only a monitored rule
    triggers; a fixed stop triggers at or below its price, a trailing stop at or
    below its offset from a positive peak, a time stop at its deadline, and a
    percentage stop with a positive entry price whenever the price is at or
    below the entry price less the loss, and never above it by more than the
    rounding of the quotient.  A live rule triggers at or below the trigger
    price it displays. *)
Theorem stop_triggers now price r : exists hit, is_triggered now price r = Some hit /\
  (is_live_rule r = false -> hit = false) /\
  (is_live_rule r = true ->
    match stop_type r with
    | Fixed t => hit = true <-> dval price <= dval t
    | Percentage loss =>
        (dval (sr_entry_price r) <= 0 -> hit = false) /\
        (0 < dval (sr_entry_price r) ->
          (dval price <= dval (sr_entry_price r) * (1 - dval loss) -> hit = true) /\
          (hit = true -> forall c, dval c < dval loss ->
             dval price < dval (sr_entry_price r) * (1 - dval c)))
    | Trailing offset peak =>
        hit = true <-> 0 < dval peak /\ dval price <= dval peak * (1 - dval offset)
    | TimeBased deadline => hit = true <-> (instant deadline <= instant now)%Z
    end /\
    forall t, current_trigger_price r = Some t -> 0 < dval (sr_entry_price r) ->
      dval price <= dval t -> hit = true).
Proof.
  destruct (is_triggered_some now price r) as [hit E]. exists hit. split; [done|].
  revert E. unfold is_triggered, is_live_rule, current_trigger_price.
  destruct (activated r), (executed r); simpl; intros E; try (split; [congruence|done]).
  split; [done|]. intros _. destruct (stop_type r) as [t|loss|offset peak|deadline].
  - injection E as <-. rewrite dec_leb_le. split; [done|]. intros t' [= <-] _ ?. by apply dec_leb_le.
  - destruct (sr_entry_price r <=? ZERO)%dec eqn:Ez; dec_to_Q.
    + injection E as <-. split; [split; [done|]|]; intros; exfalso; lra.
    + destruct (dec_div _ _) as [q|] eqn:Eq; simpl in E; [|done]. injection E as <-.
      assert (Hhit : dval price <= dval (sr_entry_price r) * (1 - dval loss) -> (loss <=? q)%dec = true).
      { intros Hp. apply dec_leb_le. eapply dec_div_ge; [done|done|]. rewrite dval_sub. lra. }
      split; [split; [intros; exfalso; lra|]|].
      * intros _. split; [done|]. intros Hh c Hc. dec_to_Q. apply Qnot_le_lt. intros Hn.
        pose proof (dec_div_le _ _ _ c Eq Ez) as Hle. rewrite dval_sub in Hle. lra.
      * intros t [= <-] _ Hp. apply Hhit. rewrite dval_mul, dval_sub, dval_ONE in Hp. lra.
  - destruct (peak <=? ZERO)%dec eqn:Ez; dec_to_Q.
    + injection E as <-. split; [split; [done|intros; exfalso; lra]|].
      destruct (ZERO <? peak)%dec eqn:Ez'; [dec_to_Q; lra|done].
    + injection E as <-. rewrite dec_leb_le, dval_mul, dval_sub, dval_ONE.
      split; [split; [done|by intros []]|].
      destruct (ZERO <? peak)%dec; [|done]. intros t [= <-] _ Hp. by apply dec_leb_le.
  - injection E as <-. by rewrite dt_leb_le.
Qed.
End Triggers.

(** ** The check *)

Section Check.
Context `{DO : DecimalOps} `{CO : ChronoOps} `{UO : UuidOps} `{DA : !DashOps}.
Context {DS : DecimalSpec}.
Variables (now : datetime) (prices : gmap string BinaryMarketBook).
Implicit Types (r : StopLossRule) (s : CheckState).

(** The bid a rule is checked against, if it comes to that. *)
Definition checked_price r : option dec :=
  if is_live_rule r then b ← prices !! sr_market_id r; p ← outcome_bid r b; p else None.
Definition is_trailing r : bool := match stop_type r with Trailing _ _ => true | _ => false end.
(** The check asks for the exclusive lock of such a rule. *)
Definition locks r : bool :=
  is_trailing r && match checked_price r with Some _ => true | None => false end.
Definition stop_at r (price : dec) : TriggeredStop :=
  {| ts_rule := r; ts_trigger_price := default price (current_trigger_price r);
     ts_current_price := price |}.
(** The stop a rule gives. *)
Definition stop_of r : option TriggeredStop :=
  price ← checked_price r;
  match is_triggered now price r with Some true => Some (stop_at r price) | _ => None end.

Definition checks (sum : CheckTriggersSummary) : nat :=
  triggered sum + not_triggered sum + skipped_market_missing sum + skipped_no_bids sum +
  skipped_not_active sum + skipped_already_executed sum + skipped_trailing_no_peak sum.

(** What the loop keeps of its state. *)
Record steady (s0 s : CheckState) : Prop := {
  sy_rules : cs_rules s = cs_rules s0;
  sy_updates : cs_updates s = cs_updates s0;
  sy_total : total_rules (cs_summary s) = S (total_rules (cs_summary s0));
  sy_checks : checks (cs_summary s) = S (checks (cs_summary s0));
}.

Lemma get_mut_blocks id f s : get_mut_while_held id id f s = Blocked.
Proof. unfold get_mut_while_held. by rewrite Nat.eqb_refl. Qed.

Lemma update_trailing_blocks r price s :
  update_trailing r price s = if is_trailing r then Blocked else Finished s.
Proof.
  unfold update_trailing, is_trailing. destruct (stop_type r); try done.
  case_match; simpl; by rewrite ?get_mut_blocks.
Qed.

Lemma check_rule_blocks id r s : locks r = true -> check_rule now prices (id, r) s = Blocked.
Proof.
  unfold locks, check_rule, checked_price, is_live_rule. intros Hl.
  apply andb_prop in Hl as [Ht Hp].
  destruct (activated r), (executed r); simpl in *; try done.
  destruct (prices !! sr_market_id r) as [b|]; simpl in *; [|done].
  destruct (outcome_bid r b) as [[p|]|]; simpl in *; try done.
  by rewrite update_trailing_blocks, Ht.
Qed.

Lemma check_rule_finishes id r s :
  locks r = false -> cs_rules s !! id = Some r ->
  exists s', check_rule now prices (id, r) s = Finished s' /\ steady s s' /\
    cs_triggered s' = cs_triggered s ++ option_list (stop_of r) /\
    triggered (cs_summary s') = (triggered (cs_summary s) + length (option_list (stop_of r)))%nat.
Proof.
  unfold locks, check_rule, stop_of, checked_price, is_live_rule. intros Hl Hid.
  destruct (activated r) eqn:Ea, (executed r) eqn:Ee; simpl in *;
    try (eexists; split; [done|]; split; [split; simpl; unfold checks; simpl; lia || done|];
         split; simpl; [by rewrite app_nil_r|lia]).
  destruct (prices !! sr_market_id r) as [b|]; simpl in *;
    [|eexists; split; [done|]; split; [split; simpl; unfold checks; simpl; lia || done|];
      split; simpl; [by rewrite app_nil_r|lia]].
  destruct (outcome_bid r b) as [[p|]|]; simpl in *;
    [|eexists; split; [done|]; split; [split; simpl; unfold checks; simpl; lia || done|];
      split; simpl; [by rewrite app_nil_r|lia]..].
  rewrite andb_true_r in Hl. rewrite update_trailing_blocks, Hl. simpl.
  unfold check_price. simpl. rewrite Hid. simpl.
  destruct (is_triggered_some now p r) as [[] Eh]; rewrite Eh;
    (eexists; split; [done|]; split; [split; simpl; unfold checks; simpl; lia || done|];
     split; simpl; [by rewrite ?app_nil_r|lia]).
Qed.

Lemma check_rules_finish l s :
  Forall (fun e => locks e.2 = false /\ cs_rules s !! e.1 = Some e.2) l ->
  exists s', run_fold (check_rule now prices) l s = Finished s' /\
    cs_rules s' = cs_rules s /\ cs_updates s' = cs_updates s /\
    total_rules (cs_summary s') = (total_rules (cs_summary s) + length l)%nat /\
    checks (cs_summary s') = (checks (cs_summary s) + length l)%nat /\
    cs_triggered s' = cs_triggered s ++ omap (fun e => stop_of e.2) l /\
    triggered (cs_summary s') =
      (triggered (cs_summary s) + length (omap (fun e => stop_of e.2) l))%nat.
Proof.
  revert s. induction l as [|[id r] l IH]; intros s Hl.
  - exists s. simpl. rewrite app_nil_r. repeat split; lia.
  - apply Forall_cons in Hl as [[Hb Hid] Hl]. simpl in Hb, Hid.
    destruct (check_rule_finishes id r s Hb Hid) as (s1 & E1 & [] & Ht & Hn).
    destruct (IH s1) as (s' & E & H1 & H2 & H3 & H4 & H5 & H6); [by rewrite sy_rules0|].
    exists s'. cbn [run_fold run_bind]. rewrite E1. cbn [run_bind]. split; [done|].
    csimpl. split; [congruence|]. split; [congruence|]. split; [lia|]. split; [lia|].
    rewrite H5, H6, Ht, Hn.
    csimpl. destruct (stop_of r); csimpl; rewrite <- ?app_assoc; split; try done; csimpl; lia.
Qed.

Lemma check_rules_block l s :
  Forall (fun e => cs_rules s !! e.1 = Some e.2) l -> Exists (fun e => locks e.2 = true) l ->
  run_fold (check_rule now prices) l s = Blocked.
Proof.
  revert s. induction l as [|[id r] l IH]; intros s Hl He; [by inversion He|].
  apply Forall_cons in Hl as [Hid Hl]. cbn [run_fold].
  destruct (locks r) eqn:Hb; [by rewrite check_rule_blocks|].
  destruct (check_rule_finishes id r s Hb Hid) as (s1 & -> & [] & _). simpl.
  apply IH; [by rewrite sy_rules0|].
  apply Exists_cons in He as [He|He]; [simpl in He; congruence|done].
Qed.

Context {DP : DashSpec}.

(** A check never panics; it finishes exactly when no monitored trailing
    rule has a bid for its outcome, and otherwise waits forever for a lock it
    holds.  When it finishes it changed no rule and no row, counted every rule
    once, under one reason, and found exactly the stops of the monitored rules
    that trigger at their outcome's best bid. *)
Theorem check_finishes_iff io m :
  (Exists (fun e => locks e.2 = true) (map_to_list (rules m)) ->
   check_triggers_detailed io now prices m = Blocked) /\
  (Forall (fun e => locks e.2 = false) (map_to_list (rules m)) ->
   exists stops sum, check_triggers_detailed io now prices m = Finished (m, stops, sum) /\
     total_rules sum = size (rules m) /\ checks sum = size (rules m) /\
     triggered sum = length stops /\
     forall stop, stop ∈ stops <-> exists id r price, rules m !! id = Some r /\
       checked_price r = Some price /\ is_triggered now price r = Some true /\
       stop = stop_at r price).
Proof.
  unfold check_triggers_detailed. split.
  - intros He. rewrite check_rules_block; [done|apply dash_entries|]. by rewrite dash_iter_perm.
  - intros Hf. destruct (check_rules_finish (dash_iter (rules m))
      {| cs_rules := rules m; cs_triggered := []; cs_updates := []; cs_summary := no_checks |})
      as (s & E & H1 & H2 & H3 & H4 & H5 & H6).
    + simpl. apply Forall_and. split; [by rewrite dash_iter_perm|apply dash_entries].
    + rewrite E. simpl in *. rewrite dash_length in *. exists (cs_triggered s), (cs_summary s).
      rewrite H1, H2. split; [by destruct m as [? ? ? []]|].
      split; [done|]. split; [done|]. split; [by rewrite H5, H6|].
      intros stop. rewrite H5, list_elem_of_omap. split.
      * intros ([id r] & Hin & Hs). rewrite dash_iter_perm in Hin.
        apply elem_of_map_to_list in Hin. exists id, r. revert Hs. unfold stop_of. simpl.
        destruct (checked_price r) as [p|]; simpl; [|done].
        destruct (is_triggered now p r) as [[]|] eqn:Et; intros [= <-]. by exists p.
      * intros (id & r & p & Hin & Hp & Ht & ->). exists (id, r). split.
        -- rewrite dash_iter_perm. by apply elem_of_map_to_list.
        -- unfold stop_of. simpl. rewrite Hp. simpl. by rewrite Ht.
Qed.
End Check.

(** ** The table *)

Section Rows.
Context `{DO : DecimalOps} `{CO : ChronoOps} `{UO : UuidOps}.
Implicit Types (r : StopLossRule) (row : StopRow).

Lemma rule_row_loads now r : row_to_rule now (rule_row r) = r.
Proof. destruct r as [? ? ? ? ? ? [] ? ? ? ? ?]; reflexivity. Qed.

Lemma rule_update_executed r row : st_executed (rule_update r row) = executed r.
Proof. unfold rule_update. by destruct (stop_type r). Qed.

Lemma rule_update_loads now r row :
  row_to_rule now row = r ->
  forall t, row_to_rule now (rule_update (mark_executed t r) row) = mark_executed t r.
Proof. intros <- t. destruct row as [? ? ? ? ? ? k]. unfold rule_update, mark_executed, row_to_rule.
  simpl. repeat case_match; simplify_eq/=; reflexivity.
Qed.
End Rows.

(** ** The maps *)

Section Manager.
Context `{DO : DecimalOps} `{CO : ChronoOps} `{UO : UuidOps}.
Abbreviation StopTable := (gmap Uuid StopRow).
Implicit Types (m : StopLossManager) (r : StopLossRule) (id p : Uuid) (t : StopTable).

Definition ids_of p m : list Uuid := default [] (rules_by_position m !! p).

(** The maps agree: a rule sits under its own identifier, and a position's
    list holds exactly its rules, once each. *)
Record indexed m : Prop := {
  ix_key : forall id r, rules m !! id = Some r -> sr_id r = id;
  ix_index : forall p id, id ∈ ids_of p m <-> exists r, rules m !! id = Some r /\ sr_position_id r = p;
  ix_nodup : forall p, NoDup (ids_of p m);
}.

(** The monitored rules of memory and of the table are the same. *)
Record agree (rs : gmap Uuid StopLossRule) (t : StopTable) : Prop := {
  ag_key : forall id row, t !! id = Some row -> st_id row = id;
  ag_live : forall now id r, is_live_rule r = true ->
    rs !! id = Some r <-> exists row, t !! id = Some row /\ row_to_rule now row = r;
}.
Definition synced m : Prop := forall t, sl_repo m = Some t -> agree (rules m) t.

Record consistent m : Prop := { co_indexed : indexed m; co_synced : synced m }.

(** Maps equal up to the rest of the state. *)
Lemma indexed_ext m m' :
  rules m' = rules m -> (forall p, ids_of p m' = ids_of p m) -> indexed m -> indexed m'.
Proof.
  intros E1 E2 [H1 H2 H3]. split.
  - intros id r. rewrite E1. apply H1.
  - intros p id. rewrite E1, E2. apply H2.
  - intros p. rewrite E2. apply H3.
Qed.

Lemma ids_index p r m :
  ids_of p (index_rule r m) = if decide (p = sr_position_id r) then ids_of p m ++ [sr_id r] else ids_of p m.
Proof.
  unfold ids_of, index_rule. simpl. case_decide as E.
  - subst. by rewrite lookup_insert_eq.
  - by rewrite lookup_insert_ne.
Qed.

Lemma index_rule_indexed r m : indexed m -> rules m !! sr_id r = None -> indexed (index_rule r m).
Proof.
  intros [H1 H2 H3] Hn. split; simpl.
  - intros id r' Hl. apply lookup_insert_Some in Hl as [[<- <-]|[_ Hl]]; [done|by apply H1].
  - intros p id. rewrite ids_index. case_decide as Ep.
    + subst p. rewrite elem_of_app, list_elem_of_singleton, H2. split.
      * intros [(r' & Hl & Hp)| ->].
        -- exists r'. rewrite lookup_insert_ne; [done|]. intros <-. congruence.
        -- exists r. by rewrite lookup_insert_eq.
      * intros (r' & Hl & Hp). apply lookup_insert_Some in Hl as [[<- _]|[_ Hl]]; eauto.
    + rewrite H2. split.
      * intros (r' & Hl & Hp). exists r'. rewrite lookup_insert_ne; [done|]. intros <-. congruence.
      * intros (r' & Hl & Hp). apply lookup_insert_Some in Hl as [[<- <-]|[_ Hl]]; [done|eauto].
  - intros p. rewrite ids_index. case_decide; [|done]. apply NoDup_app. split; [done|].
    split; [|apply NoDup_singleton]. intros id Hin Hs. apply list_elem_of_singleton in Hs. subst.
    apply H2 in Hin as (r' & Hl & _). congruence.
Qed.

Lemma ids_unindex q p id m :
  ids_of q (unindex p id m) =
    if decide (q = p) then List.filter (fun i => negb (bool_decide (i = id))) (ids_of q m)
    else ids_of q m.
Proof.
  unfold ids_of, unindex. simpl. case_decide as E.
  - subst. rewrite lookup_alter_eq. by destruct (rules_by_position m !! p).
  - by rewrite lookup_alter_ne.
Qed.

(** Removing a rule and its index entry. *)
Definition drop_rule p id m : StopLossManager :=
  unindex p id {| m with rules := delete id (rules m) |}.

Lemma drop_rule_indexed p id m :
  indexed m -> (forall r, rules m !! id = Some r -> sr_position_id r = p) ->
  indexed (drop_rule p id m).
Proof.
  intros [H1 H2 H3] Hp. split.
  - intros i r Hl. simpl in Hl. apply lookup_delete_Some in Hl as [_ Hl]. by apply H1.
  - intros q i. unfold drop_rule. rewrite ids_unindex. simpl. change (ids_of q _) with (ids_of q m).
    assert (K : i ∈ (if decide (q = p) then List.filter (fun i => negb (bool_decide (i = id))) (ids_of q m)
                     else ids_of q m) <-> i ∈ ids_of q m /\ i <> id).
    { case_decide as E.
      - rewrite !list_elem_of_In, List.filter_In, negb_true_iff, bool_decide_eq_false. done.
      - split; [|by intros []]. intros Hi. split; [done|]. intros ->.
        apply H2 in Hi as (r & Hl & Hq). apply Hp in Hl. congruence. }
    rewrite K, H2. split.
    + intros [(r & Hl & Hq) Hne]. exists r. by rewrite lookup_delete_ne.
    + intros (r & Hl & Hq). apply lookup_delete_Some in Hl as [Hne Hl]. split; [eauto|done].
  - intros q. unfold drop_rule. rewrite ids_unindex. change (ids_of q _) with (ids_of q m).
    case_decide; [|done]. apply NoDup_ListNoDup, List.NoDup_filter, NoDup_ListNoDup, H3.
Qed.

(** The rules of a position. *)
Lemma rules_for_position_spec p m r :
  indexed m -> r ∈ rules_for_position p m <-> rules m !! sr_id r = Some r /\ sr_position_id r = p.
Proof.
  intros [H1 H2 H3].
  assert (E : rules_for_position p m = omap (fun id => rules m !! id) (ids_of p m)).
  { unfold rules_for_position, ids_of. by destruct (rules_by_position m !! p). }
  rewrite E, list_elem_of_omap. split.
  - intros (id & Hi & Hl). apply H2 in Hi as (r' & Hl' & Hp).
    pose proof (H1 _ _ Hl) as <-. by simplify_eq.
  - intros [Hl Hp]. exists (sr_id r). split; [|done]. apply H2. by exists r.
Qed.

Lemma take_rules_lookup (l : list Uuid) (t : gmap Uuid StopLossRule) id :
  fst (take_rules l t) !! id = if decide (id ∈ l) then None else t !! id.
Proof.
  revert t. induction l as [|i l IH]; intros t; [done|]. cbn [take_rules].
  specialize (IH (delete i t)). destruct (take_rules l (delete i t)) as [t' removed]. simpl in *.
  rewrite IH. destruct (decide (i = id)) as [->|Hne].
  - rewrite lookup_delete_eq. destruct (decide (id ∈ id :: l)) as [|H]; [by destruct (decide _)|].
    destruct H. apply list_elem_of_here.
  - rewrite lookup_delete_ne by done.
    destruct (decide (id ∈ l)), (decide (id ∈ i :: l)) as [H'|H']; try done.
    + destruct H'. by apply list_elem_of_further.
    + apply elem_of_cons in H' as [->|]; done.
Qed.

(** *** The table and memory *)

Lemma executed_not_live now r : is_live_rule (mark_executed now r) = false.
Proof. unfold is_live_rule, mark_executed. simpl. by rewrite andb_false_r. Qed.

Lemma agree_mark rs t now id r :
  agree rs t -> rs !! id = Some r -> sr_id r = id ->
  agree (<[id := mark_executed now r]> rs) (alter (rule_update (mark_executed now r)) id t).
Proof.
  intros [Hk Hl] Hr Hid.
  assert (K : forall row, t !! id = Some row -> st_id (rule_update (mark_executed now r) row) = id /\
    st_executed (rule_update (mark_executed now r) row) = true).
  { intros row Hrow. rewrite rule_update_executed. split; [|done].
    unfold rule_update. destruct (stop_type (mark_executed now r)); simpl; by apply Hk. }
  split.
  - intros i row Hi. apply lookup_alter_Some in Hi as [(<- & row' & Hrow & ->)|[Hne Hi]]; [|by apply Hk].
    by apply K.
  - intros now' i r' Hr'. destruct (decide (i = id)) as [->|Hne].
    + rewrite lookup_insert_eq, lookup_alter_eq. split.
      * intros [= <-]. by rewrite executed_not_live in Hr'.
      * intros (row & Hrow & <-). destruct (t !! id) as [row'|] eqn:E; simplify_eq/=.
        revert Hr'. unfold is_live_rule. simpl. destruct (K row' eq_refl) as [_ ->].
        by rewrite andb_false_r.
    + rewrite lookup_insert_ne, lookup_alter_ne by done. by apply Hl.
Qed.

Lemma agree_delete_memory rs t id :
  (forall r, rs !! id = Some r -> is_live_rule r = false) -> agree rs t -> agree (delete id rs) t.
Proof.
  intros Hd [Hk Hl]. split; [done|]. intros now i r Hr. rewrite <- (Hl now) by done.
  rewrite lookup_delete_Some. split; [by intros []|]. intros Hi. split; [|done]. intros ->.
  apply Hd in Hi. congruence.
Qed.

Lemma agree_delete rs t id : agree rs t -> agree (delete id rs) (delete id t).
Proof.
  intros [Hk Hl]. split.
  - intros i row Hi. apply lookup_delete_Some in Hi as [_ Hi]. by apply Hk.
  - intros now i r Hr. rewrite lookup_delete_Some, (Hl now) by done.
    setoid_rewrite lookup_delete_Some. naive_solver.
Qed.

Lemma agree_insert rs t r :
  rs !! sr_id r = None -> t !! sr_id r = None -> agree rs t ->
  agree (<[sr_id r := r]> rs) (<[sr_id r := rule_row r]> t).
Proof.
  intros Hr Ht [Hk Hl]. split.
  - intros i row Hi. apply lookup_insert_Some in Hi as [[<- <-]|[_ Hi]]; [|by apply Hk].
    unfold rule_row. by destruct (stop_type r).
  - intros now i r' Hr'. destruct (decide (i = sr_id r)) as [->|Hne].
    + rewrite !lookup_insert_eq. split.
      * intros [= <-]. eexists. split; [done|]. apply rule_row_loads.
      * intros (row & [= <-] & <-). by rewrite rule_row_loads.
    + rewrite !lookup_insert_ne by done. by apply Hl.
Qed.

Lemma agree_delete_position rs rs' t p :
  (forall id, rs' !! id = r ← rs !! id; if decide (sr_position_id r = p) then None else Some r) ->
  agree rs t -> agree rs' (filter (fun '(_, row) => st_position_id row <> p) t).
Proof.
  intros E [Hk Hl]. split.
  - intros i row Hi. apply map_lookup_filter_Some in Hi as [Hi _]. by apply Hk.
  - intros now i r Hr. rewrite E. setoid_rewrite map_lookup_filter_Some. split.
    + destruct (rs !! i) as [r0|] eqn:E0; simpl; [|done]. case_decide; [done|]. intros [= ->].
      apply (Hl now) in E0 as (row & Hi & <-); [|done]. by exists row.
    + intros (row & [Hi Hp] & Hrow). simpl in Hp.
      assert (rs !! i = Some r) as -> by (apply (Hl now); eauto). simpl.
      rewrite decide_False; [done|]. by subst r.
Qed.
End Manager.

(** ** The operations *)

Section Operations.
Context `{DO : DecimalOps} `{CO : ChronoOps} `{UO : UuidOps} `{DA : !DashOps} `{SH : !DisplayOps}.
Context {DS : DecimalSpec}.
Implicit Types (m : StopLossManager) (r : StopLossRule) (id p : Uuid).

(** The operations of the manager, with a working database. *)
Inductive StopOp : Type :=
| OpAdd (now : datetime) (r : StopLossRule)
| OpRemove (id : Uuid)
| OpRemovePosition (p : Uuid)
| OpCheck (now : datetime) (prices : gmap string BinaryMarketBook)
| OpStop (e : OrderEnv) (stop : TriggeredStop)
| OpManualExit (envs : Uuid -> OrderEnv) (p : Uuid).

(** [None]: the operation does not return. *)
Definition stop_exec (op : StopOp) m : option StopLossManager :=
  match op with
  | OpAdd now r => Some (fst (add_rule true now r m))
  | OpRemove id => Some (fst (remove_rule true id m))
  | OpRemovePosition p => Some (fst (remove_rules_for_position true p m))
  | OpCheck now prices =>
      match check_triggers_detailed (fun _ => true) now prices m with
      | Finished (m, _, _) => Some m
      | _ => None
      end
  | OpStop e stop => fst <$> execute_stop true e stop m
  | OpManualExit envs p => fst <$> manual_exit (fun _ => true) envs p m
  end.

(** A new rule has a new identifier; a rule's position never changes. *)
Definition stop_op_ok (op : StopOp) m : Prop :=
  match op with
  | OpAdd _ r => rules m !! sr_id r = None
  | OpStop _ stop => forall r, rules m !! sr_id (ts_rule stop) = Some r ->
      sr_position_id r = sr_position_id (ts_rule stop)
  | _ => True
  end.

Inductive sl_reach (m0 : StopLossManager) : StopLossManager -> Prop :=
| sl_refl : sl_reach m0 m0
| sl_step m op m' : sl_reach m0 m -> stop_op_ok op m -> stop_exec op m = Some m' -> sl_reach m0 m'.

Lemma activate_id now r : sr_id (activate now r) = sr_id r.
Proof. unfold activate. by destruct (activated r). Qed.

Lemma add_rule_consistent now r m :
  rules m !! sr_id r = None -> consistent m -> consistent (fst (add_rule true now r m)).
Proof.
  intros Hn [Hi Hs]. unfold add_rule. pose proof (activate_id now r) as Hid.
  set (r' := activate now r) in *. destruct (sl_repo m) as [t|] eqn:Et.
  - simpl. destruct (t !! sr_id r') eqn:E; simpl; [done|]. split.
    + apply index_rule_indexed; [|by rewrite Hid]. by apply (indexed_ext m).
    + intros t' [= <-]. simpl. apply agree_insert; [by rewrite Hid|done|by apply Hs].
  - split; [apply index_rule_indexed; [done|by rewrite Hid]|].
    intros t Ht. simpl in Ht. congruence.
Qed.

Lemma remove_rule_consistent id m : consistent m -> consistent (fst (remove_rule true id m)).
Proof.
  intros [Hi Hs]. unfold remove_rule. destruct (rules m !! id) as [r|] eqn:E; [|done].
  assert (Hd : indexed (drop_rule (sr_position_id r) id m)).
  { apply drop_rule_indexed; [done|]. intros r' ?. by simplify_eq. }
  simpl. destruct (sl_repo m) as [t|] eqn:Et; simpl.
  - split; [by apply (indexed_ext (drop_rule (sr_position_id r) id m))|].
    intros t' [= <-]. simpl. by apply agree_delete, Hs.
  - split; [by eapply indexed_ext; [| |exact Hd]|]. intros t Ht. simpl in Ht. congruence.
Qed.

Lemma remove_position_lookup p m id :
  indexed m ->
  fst (take_rules (ids_of p m) (rules m)) !! id =
    r ← rules m !! id; if decide (sr_position_id r = p) then None else Some r.
Proof.
  intros [H1 H2 H3]. rewrite take_rules_lookup. destruct (decide (id ∈ ids_of p m)) as [Hin|Hn].
  - apply H2 in Hin as (r & -> & Hp). simpl. by rewrite decide_True.
  - destruct (rules m !! id) as [r|] eqn:E; [|done]. simpl. case_decide; [|done].
    destruct Hn. apply H2. by exists r.
Qed.

Lemma remove_position_indexed p m :
  indexed m ->
  indexed {| m with rules_by_position := delete p (rules_by_position m);
                    rules := fst (take_rules (ids_of p m) (rules m)) |}.
Proof.
  intros Hi. pose proof Hi as [H1 H2 H3].
  assert (K : forall q m', rules_by_position m' = delete p (rules_by_position m) ->
    ids_of q m' = if decide (q = p) then [] else ids_of q m).
  { intros q m' E. unfold ids_of. rewrite E. case_decide as Hq.
    - subst. by rewrite lookup_delete_eq.
    - by rewrite lookup_delete_ne. }
  split; simpl.
  - intros id r. rewrite remove_position_lookup by done.
    destruct (rules m !! id) as [r0|] eqn:E; simpl; [|done]. case_decide; [done|].
    intros [= <-]. by apply H1.
  - intros q id. rewrite K by done. setoid_rewrite remove_position_lookup; [|done]. case_decide as Hq.
    + subst q. split; [by intros ?%elem_of_nil|]. intros (r & Hl & Hp).
      destruct (rules m !! id); simpl in Hl; [|done]. case_decide; [done|]. congruence.
    + rewrite H2. split.
      * intros (r & -> & Hp). exists r. simpl. by rewrite decide_False by congruence.
      * intros (r & Hl & Hp). destruct (rules m !! id) as [r0|]; simpl in Hl; [|done].
        case_decide; [done|]. by exists r0; simplify_eq.
  - intros q. rewrite K by done. case_decide; [apply NoDup_nil_2|apply H3].
Qed.

Lemma remove_position_consistent p m :
  consistent m -> consistent (fst (remove_rules_for_position true p m)).
Proof.
  intros [Hi Hs]. pose proof (remove_position_indexed p m Hi) as Hd.
  assert (Hl : forall id, fst (take_rules (ids_of p m) (rules m)) !! id =
    r ← rules m !! id; if decide (sr_position_id r = p) then None else Some r)
    by (intros id; by apply remove_position_lookup).
  unfold remove_rules_for_position. fold (ids_of p m).
  destruct (take_rules (ids_of p m) (rules m)) as [rs removed] eqn:E. simpl in Hd, Hl |- *.
  destruct (sl_repo m) as [t|] eqn:Et; simpl.
  - split; [by eapply indexed_ext; [| |exact Hd]|]. intros t' [= <-]. simpl.
    apply (agree_delete_position (rules m)); [exact Hl|by apply Hs].
  - split; [by eapply indexed_ext; [| |exact Hd]|]. intros t Ht. simpl in Ht. congruence.
Qed.

(** A sell order changes only the executor, and is answered by a report. *)
Lemma sell_rule_kept e r m m' reply :
  sell_rule e r m = Some (m', reply) ->
  rules m' = rules m /\ rules_by_position m' = rules_by_position m /\ sl_repo m' = sl_repo m /\
  exists report, reply = Ok report.
Proof.
  unfold sell_rule, execute_market_order. intros E.
  destruct (max_order_size _ <? _)%dec; simpl in E; [by simplify_eq/=; eauto 10|].
  destruct (execute_with_retry _ _ _); simpl in E; [|done]. simplify_eq/=. eauto 10.
Qed.

Lemma kept_consistent m m' :
  rules m' = rules m -> rules_by_position m' = rules_by_position m -> sl_repo m' = sl_repo m ->
  consistent m -> consistent m'.
Proof.
  intros E1 E2 E3 [Hi Hs]. split.
  - apply (indexed_ext m); [done| |done]. intros p. unfold ids_of. by rewrite E2.
  - intros t. rewrite E1, E3. apply Hs.
Qed.

Lemma mark_rules io now id m :
  rules (mark_and_persist io now id m) = alter (mark_executed now) id (rules m).
Proof.
  unfold mark_and_persist. destruct (rules m !! id) as [r|] eqn:E; simpl.
  - apply map_eq. intros i. destruct (decide (i = id)) as [->|].
    + by rewrite lookup_insert_eq, lookup_alter_eq, E.
    + by rewrite lookup_insert_ne, lookup_alter_ne.
  - apply map_eq. intros i. destruct (decide (i = id)) as [->|].
    + by rewrite lookup_alter_eq, E.
    + by rewrite lookup_alter_ne.
Qed.

Lemma mark_index io now id m :
  rules_by_position (mark_and_persist io now id m) = rules_by_position m.
Proof. unfold mark_and_persist. by destruct (rules m !! id). Qed.

Lemma mark_consistent now id m : consistent m -> consistent (mark_and_persist true now id m).
Proof.
  intros [Hi Hs]. pose proof Hi as [H1 H2 H3]. split.
  - split.
    + intros i r. rewrite mark_rules, lookup_alter_Some.
      intros [(<- & r0 & Hl & ->)|[_ Hl]]; exact (H1 _ _ Hl).
    + intros p i. unfold ids_of. rewrite mark_index. fold (ids_of p m). rewrite H2, mark_rules.
      setoid_rewrite lookup_alter_Some. split.
      * intros (r & Hl & Hp). destruct (decide (id = i)) as [->|].
        -- exists (mark_executed now r). split; [left; eauto|done].
        -- exists r. split; [by right|done].
      * intros (r & [(-> & r0 & Hl & ->)|[_ Hl]] & Hp); eauto.
    + intros p. unfold ids_of. rewrite mark_index. apply H3.
  - unfold mark_and_persist. destruct (rules m !! id) as [r|] eqn:E; [|done].
    intros t. simpl. destruct (sl_repo m) as [t0|] eqn:Et; simpl; [|done]. intros [= <-].
    pose proof (H1 _ _ E) as Hid. rewrite Hid. apply agree_mark; [by apply Hs|done|done].
Qed.

Lemma drop_marked_consistent now p id m :
  (forall r, rules m !! id = Some r -> sr_position_id r = p) -> consistent m ->
  consistent (drop_rule p id (mark_and_persist true now id m)).
Proof.
  intros Hp Hc. apply (mark_consistent now id) in Hc as [Hi Hs]. split.
  - apply drop_rule_indexed; [done|]. intros r. rewrite mark_rules, lookup_alter_eq.
    destruct (rules m !! id) as [r0|]; [|done]. intros [= <-]. exact (Hp r0 eq_refl).
  - intros t Ht. simpl in *. apply agree_delete_memory; [|by apply Hs].
    intros r. rewrite mark_rules, lookup_alter_eq. destruct (rules m !! id); [|done].
    intros [= <-]. apply executed_not_live.
Qed.

Lemma notify_kept stop m :
  rules (notify stop m) = rules m /\ rules_by_position (notify stop m) = rules_by_position m /\
  sl_repo (notify stop m) = sl_repo m.
Proof. unfold notify. by destruct (listening m). Qed.

(** What [execute_stop] does to the maps and the table. *)
Lemma execute_stop_records io e stop m m' reply :
  execute_stop io e stop m = Some (m', reply) ->
  let d := drop_rule (sr_position_id (ts_rule stop)) (sr_id (ts_rule stop))
             (mark_and_persist io (oe_now e) (sr_id (ts_rule stop)) m) in
  rules m' = rules d /\ rules_by_position m' = rules_by_position d /\ sl_repo m' = sl_repo d /\
  exists report, reply = Ok report.
Proof.
  unfold execute_stop. destruct (sell_rule e (ts_rule stop) m) as [[m1 reply1]|] eqn:Es; [|done].
  apply sell_rule_kept in Es as (E1 & E2 & E3 & report & ->). intros [= <- <-].
  match goal with |- context [notify stop ?x] => destruct (notify_kept stop x) as (-> & -> & ->) end.
  unfold mark_and_persist. simpl. rewrite !E1. destruct (rules m !! _); simpl; rewrite ?E1, ?E2, ?E3; eauto.
Qed.

Lemma exit_rule_consistent envs m reports r m' reports' :
  exit_rule (fun _ => true) envs (m, reports) r = Some (m', reports') -> consistent m -> consistent m'.
Proof.
  unfold exit_rule. destruct (executed r); [by intros [= <- <-]|].
  destruct (sell_rule _ r m) as [[m1 reply1]|] eqn:Es; [|done].
  apply sell_rule_kept in Es as (E1 & E2 & E3 & report & ->). intros [= <- <-] Hc.
  apply mark_consistent. by apply (kept_consistent m).
Qed.

Lemma exit_rules_consistent envs l m reports m' reports' :
  exit_rules (fun _ => true) envs (m, reports) l = Some (m', reports') -> consistent m -> consistent m'.
Proof.
  revert m reports. induction l as [|r l IH]; intros m reports; cbn [exit_rules]; [by intros [= <- <-]|].
  destruct (exit_rule _ _ _ r) as [[m1 reports1]|] eqn:E; simpl; [|done].
  intros E' Hc. apply (IH _ _ E'). by apply (exit_rule_consistent _ _ _ _ _ _ E).
Qed.

(** A check that finishes changed nothing. *)
Lemma check_kept {DP : DashSpec} io now prices m m' stops sum :
  check_triggers_detailed io now prices m = Finished (m', stops, sum) -> m' = m.
Proof.
  unfold check_triggers_detailed. intros E.
  destruct (decide (Forall (fun e => locks prices e.2 = false) (dash_iter (rules m)))) as [Hf|Hf].
  - destruct (check_rules_finish now prices (dash_iter (rules m))
      {| cs_rules := rules m; cs_triggered := []; cs_updates := []; cs_summary := no_checks |})
      as (s & E1 & H1 & H2 & _).
    + simpl. apply Forall_and. split; [done|apply dash_entries].
    + rewrite E1 in E. simpl in *. rewrite H1, H2 in E.
      injection E as <- _ _. by destruct m as [? ? ? []].
  - apply not_Forall_Exists in Hf; [|apply _].
    rewrite check_rules_block in E; [done|apply dash_entries|].
    eapply Exists_impl; [exact Hf|]. intros e He. by apply not_false_is_true.
Qed.

Lemma exec_consistent {DP : DashSpec} op m m' :
  stop_op_ok op m -> stop_exec op m = Some m' -> consistent m -> consistent m'.
Proof.
  intros Hok E Hc. destruct op as [now r|id|p|now prices|e stop|envs p]; simpl in *.
  - injection E as <-. by apply add_rule_consistent.
  - injection E as <-. by apply remove_rule_consistent.
  - injection E as <-. by apply remove_position_consistent.
  - destruct (check_triggers_detailed _ _ _ _) as [[[m1 stops] sum]| |] eqn:Ec; [|done..].
    apply check_kept in Ec as ->. by injection E as <-.
  - destruct (execute_stop true e stop m) as [[m1 reply]|] eqn:Es; simplify_eq/=.
    apply execute_stop_records in Es as (E1 & E2 & E3 & _).
    apply (kept_consistent _ _ E1 E2 E3). by apply drop_marked_consistent.
  - unfold manual_exit in E. destruct (exit_rules _ _ _ _) as [[m1 reports]|] eqn:Ee; simplify_eq/=.
    by apply (exit_rules_consistent _ _ _ _ _ _ Ee).
Qed.

(** *** Loading *)

Lemma load_fold l m :
  indexed m -> NoDup (sr_id <$> l) -> (forall r, r ∈ l -> rules m !! sr_id r = None) ->
  indexed (foldl (fun m r => index_rule r m) m l) /\
  sl_repo (foldl (fun m r => index_rule r m) m l) = sl_repo m /\
  forall id r, rules (foldl (fun m r => index_rule r m) m l) !! id = Some r <->
    rules m !! id = Some r \/ (r ∈ l /\ sr_id r = id).
Proof.
  revert m. induction l as [|r l IH]; intros m Hi Hnd Hn; simpl.
  - split; [done|]. split; [done|]. intros id r. split; [by left|].
    intros [|[?%elem_of_nil _]]; done.
  - rewrite fmap_cons, NoDup_cons in Hnd. destruct Hnd as [Hr Hnd].
    assert (Hnr : rules m !! sr_id r = None) by (apply Hn; apply list_elem_of_here).
    destruct (IH (index_rule r m)) as (H1 & H2 & H3); [by apply index_rule_indexed|done| |].
    { intros r' Hin. simpl. rewrite lookup_insert_ne; [apply Hn; by apply list_elem_of_further|].
      intros E. apply Hr. rewrite E. by apply list_elem_of_fmap_2. }
    split; [done|]. split; [by rewrite H2|]. intros id r'. rewrite H3. simpl.
    rewrite lookup_insert_Some, elem_of_cons. split.
    + intros [[[<- <-]|[_ ?]]|[? ?]]; auto.
    + intros [Hl|[[->|?] <-]]; [|auto..]. left. right. split; [|done]. intros <-. congruence.
Qed.

Lemma elem_of_stop_rows where_ t row :
  row ∈ stop_rows where_ t <-> (exists id, t !! id = Some row) /\ where_ row = true.
Proof.
  unfold stop_rows. rewrite merge_sort_Permutation.
  rewrite list_elem_of_In, List.filter_In, <- list_elem_of_In, list_elem_of_fmap. split.
  - intros [([id row'] & -> & Hin) Hw]. apply elem_of_map_to_list in Hin. eauto.
  - intros [[id Hl] Hw]. split; [|done]. exists (id, row). split; [done|].
    by apply elem_of_map_to_list.
Qed.

Lemma stop_rows_nodup where_ t :
  (forall id row, t !! id = Some row -> st_id row = id) -> NoDup (st_id <$> stop_rows where_ t).
Proof.
  intros Hk. unfold stop_rows. rewrite merge_sort_Permutation.
  assert (E : st_id <$> (map_to_list t).*2 = (map_to_list t).*1).
  { rewrite <- list_fmap_compose. apply list_fmap_ext. intros i [id row] Hl. simpl.
    apply Hk. apply elem_of_map_to_list. by eapply list_elem_of_lookup_2. }
  pose proof (NoDup_fst_map_to_list t) as Hnd. rewrite <- E in Hnd. clear E.
  by apply filtered_nodup.
Qed.

Lemma new_indexed x repo : indexed (manager_new x repo).
Proof.
  split; simpl; [done| |].
  - intros p id. unfold ids_of. simpl. rewrite lookup_empty. split; [by intros ?%elem_of_nil|].
    by intros (r & ? & _).
  - intros p. unfold ids_of. simpl. rewrite lookup_empty. apply NoDup_nil_2.
Qed.

Lemma load_restores now x t rs :
  agree rs t ->
  let m := fst (load_active_rules true now (manager_new x (Some t))) in
  consistent m /\ forall id r, rules m !! id = Some r <-> rs !! id = Some r /\ is_live_rule r = true.
Proof.
  intros [Hk Hl]. unfold load_active_rules. simpl.
  set (l := row_to_rule now <$> stop_rows _ t).
  assert (Hids : sr_id <$> l = st_id <$> stop_rows (fun row => st_activated row && negb (st_executed row)) t)
    by (unfold l; by rewrite <- list_fmap_compose).
  destruct (load_fold l (manager_new x (Some t))) as (H1 & H2 & H3);
    [apply new_indexed|rewrite Hids; by apply stop_rows_nodup|done|].
  assert (K : forall id r, rules (foldl (fun m r => index_rule r m) (manager_new x (Some t)) l) !! id =
    Some r <-> rs !! id = Some r /\ is_live_rule r = true).
  { intros id r. rewrite H3. simpl. rewrite lookup_empty. unfold l.
    rewrite list_elem_of_fmap. setoid_rewrite elem_of_stop_rows. split.
    - intros [|[(row & -> & [i Hi] & Hw) <-]]; [done|]. assert (i = st_id row) as -> by (symmetry; eauto).
      split; [|done]. apply (Hl now); [done|]. simpl. eauto.
    - intros [Hr Hlive]. right. apply (Hl now) in Hr as (row & Hi & <-); [|done].
      split; [|simpl; by apply Hk]. exists row. split; [done|]. split; [by exists id|done]. }
  split; [|exact K]. split; [done|]. intros t'. rewrite H2. intros [= <-]. split; [done|].
  intros now' id r Hr. rewrite K, <- (Hl now') by done. by intuition.
Qed.

(** ** Theorems *)

(** A stop whose sell order is refused is given up: on a paper executor
    and a book without bids, executing the stop answers a rejected report, yet
    the rule leaves memory and its row is marked executed, so neither a later
    check nor a restart will sell the position. *)
Theorem rejected_stop_is_dropped e stop m b t r row :
  (0 <= max_retries (ex_config (sl_executor m)) < 2 ^ 32 - 1)%Z ->
  live_override (sl_executor m) = false -> oe_timed e 1 = InTime ->
  rp_book (oe_replies e 1) = Ok b -> bids b = [] ->
  rules m !! sr_id (ts_rule stop) = Some r -> sr_id r = sr_id (ts_rule stop) ->
  sl_repo m = Some t -> t !! sr_id (ts_rule stop) = Some row ->
  exists m' report, execute_stop true e stop m = Some (m', Ok report) /\
    is_success report = false /\ rules m' !! sr_id (ts_rule stop) = None /\
    exists t' row', sl_repo m' = Some t' /\ t' !! sr_id (ts_rule stop) = Some row' /\
      st_executed row' = true.
Proof.
  intros Hm Hlive Ht Hb Hbids Hr Hid Hrepo Hrow.
  assert (Hsell : exists m1 report, sell_rule e (ts_rule stop) m = Some (m1, Ok report) /\
    is_success report = false).
  { unfold sell_rule.
    match goal with |- context [execute_market_order ?n ?rp ?ti ?la ?o ?x] =>
      destruct (paper_sell_refused n rp ti la o x b) as (x' & report & placed & -> & Hrej);
        [lia|done..|] end.
    by do 2 eexists. }
  destruct Hsell as (m1 & report & Hsell & Hrej).
  destruct (execute_stop true e stop m) as [[m' reply]|] eqn:E;
    [|unfold execute_stop in E; by rewrite Hsell in E].
  assert (reply = Ok report) as -> by (unfold execute_stop in E; rewrite Hsell in E; by simplify_eq/=).
  exists m', report. split; [done|]. split; [done|].
  apply execute_stop_records in E as (E1 & _ & E3 & _). rewrite E1, E3. simpl.
  split; [by rewrite lookup_delete_eq|].
  unfold mark_and_persist. rewrite Hr. simpl. rewrite Hrepo. simpl. do 2 eexists. split; [done|].
  rewrite Hid, lookup_alter_eq, Hrow. split; [done|]. apply rule_update_executed.
Qed.

End Operations.

(** ** Witnesses *)

Module Example_stops.
Import Concrete.

#[local] Existing Instance decimal.
#[local] Existing Instance decimal_spec.
#[local] Existing Instance decimal_exact.
#[local] Existing Instance chrono.
#[local] Existing Instance chrono_spec.
#[local] Existing Instance uuid.
#[local] Existing Instance Example_execution.display.

(** A map with one shard, visited in the order of its keys. *)
#[local] Instance dash : DashOps := {| shard _ := 0%nat; dash_iter A m := map_to_list m |}.
#[local] Instance dash_spec : DashSpec.
Proof. by split. Defined.

Definition rule_at (id : positive) (t : StopType) : StopLossRule :=
  activate (at_minute 0) (@rule_new decimal chrono uuid id (at_minute 0) 7%positive "m" "yes" (d 50 2) (d 100 0) t).
Definition fixed_rule : StopLossRule := rule_at 1%positive (Fixed (d 40 2)).
Definition trailing_rule : StopLossRule := rule_at 2%positive (trailing (d 1 1)).
Definition bidless : OrderBook := {|
  ob_market_id := "m"; ob_outcome_id := "yes"; ob_timestamp := at_minute 0; bids := []; asks := [] |}.
Definition market (bid : dec) : BinaryMarketBook := {|
  bmb_market_id := "m"; bmb_timestamp := at_minute 0;
  yes_book := {| bidless with bids := [{| level_price := bid; level_size := d 100 0 |}] |};
  no_book := {| bidless with ob_outcome_id := "no" |} |}.
Definition market_prices (bid : dec) : gmap string BinaryMarketBook := {[ "m" := market bid ]}.

Definition paper : OrderExecutor := executor_new default_executor_config None.
Definition start : StopLossManager := manager_new paper (Some ∅).
Definition guarded : StopLossManager := fst (add_rule true (at_minute 0) fixed_rule start).
Definition trailed : StopLossManager := {| start with rules := {[ 2%positive := trailing_rule ]} |}.

Definition no_bids : OrderEnv := {|
  oe_id := 9%positive; oe_now := at_minute 1;
  oe_replies := fun _ => {| Example_execution.replies with rp_book := Ok bidless |};
  oe_timed := fun _ => InTime; oe_latency := 0 |}.
Definition hit_stop : TriggeredStop := stop_at fixed_rule (d 39 2).

Lemma stop_triggers_witness :
  exists hit, is_triggered (at_minute 1) (d 39 2) fixed_rule = Some hit.
Proof.
  destruct (stop_triggers (at_minute 1) (d 39 2) fixed_rule) as (hit & E & _). by exists hit.
Defined.

(** The trailing rule blocks the check, the fixed one does not. *)
Lemma check_finishes_iff_witness :
  check_triggers_detailed (fun _ => true) (at_minute 1) (market_prices (d 60 2)) trailed = Blocked /\
  exists stops sum,
    check_triggers_detailed (fun _ => true) (at_minute 1) (market_prices (d 39 2)) guarded
      = Finished (guarded, stops, sum).
Proof.
  split.
  - apply (proj1 (check_finishes_iff (at_minute 1) (market_prices (d 60 2)) (fun _ => true) trailed)).
    change (rules trailed) with ({[ 2%positive := trailing_rule ]} : gmap positive StopLossRule).
    rewrite map_to_list_singleton. apply Exists_cons_hd. reflexivity.
  - destruct (proj2 (check_finishes_iff (at_minute 1) (market_prices (d 39 2)) (fun _ => true) guarded))
      as (stops & sum & E & _); [|by exists stops, sum].
    change (rules guarded) with (<[1%positive := fixed_rule]> ∅ : gmap positive StopLossRule).
    rewrite insert_empty, map_to_list_singleton. constructor; [reflexivity|constructor].
Defined.

Lemma rejected_stop_is_dropped_witness :
  exists m' report, execute_stop true no_bids hit_stop guarded = Some (m', Ok report) /\
    is_success report = false.
Proof.
  destruct (rejected_stop_is_dropped no_bids hit_stop guarded bidless {[ 1%positive := rule_row fixed_rule ]}
    fixed_rule (rule_row fixed_rule)) as (m' & report & E & H & _).
  - change (max_retries (ex_config (sl_executor guarded))) with 3%Z. lia.
  - reflexivity.
  - reflexivity.
  - reflexivity.
  - reflexivity.
  - reflexivity.
  - reflexivity.
  - reflexivity.
  - reflexivity.
  - exists m', report. exact (conj E H).
Defined.

End Example_stops.
