(* ===== verification/PositionTracker.v ===== *)
(** * The arbitrage monitor's position tracker

    Models [crates/arb-monitor/src/position_tracker.rs]: a cache of the active
    positions by market over the positions table, the exit check, the stale
    and recovery passes and the reconciliation on startup.  The visiting order
    of a [HashMap] is a class.  An operation reads the clock once ([now]);
    [io] says for each position whether its statement succeeds, [read] whether
    the SELECTs do. *)

From S2P Require Import Prelude F64 Platform Market Position PositionRepo.

(** The keys of a [HashMap] in the order its iterators visit them. *)
Class HashOps : Type := { hash_keys : forall {A : Type}, gmap string A -> list string }.
Class HashSpec `{HO : HashOps} : Prop := {
  hash_keys_perm : forall {A : Type} (m : gmap string A), hash_keys m ≡ₚ (map_to_list m).*1;
}.

Section Tracker.
Context `{DO : DecimalOps} `{CO : ChronoOps} `{UO : UuidOps} `{JO : !JsonOps} `{HO : HashOps}.

Abbreviation Cache := (gmap string (list Position)).

(** Tracks arbitrage positions through their lifecycle. *)
Record PositionTracker : Type := {
  active_positions : Cache;
  exit_threshold : dec;
  tk_table : Table;
}.

Definition default_exit_threshold : dec := dec_new 5 3.
Definition tracker_new (threshold : option dec) (t : Table) : PositionTracker := {|
  active_positions := ∅; exit_threshold := default default_exit_threshold threshold; tk_table := t |}.

Definition set_cache (c : Cache) (tk : PositionTracker) : PositionTracker :=
  {| tk with active_positions := c |}.
(** [entry(market).or_default().push(position)]. *)
Definition push_position (c : Cache) (p : Position) : Cache :=
  <[pos_market_id p := default [] (c !! pos_market_id p) ++ [p]]> c.

(** The first position with this identifier, and its market. *)
Fixpoint locate (keys : list string) (c : Cache) (id : Uuid) : option (string * Position) :=
  match keys with
  | [] => None
  | k :: keys =>
      match List.find (fun p => bool_decide (pos_id p = id)) (default [] (c !! k)) with
      | Some p => Some (k, p)
      | None => locate keys c id
      end
  end.
Definition found (id : Uuid) (tk : PositionTracker) : option (string * Position) :=
  locate (hash_keys (active_positions tk)) (active_positions tk) id.
(** The assignment through the reference that was found. *)
Definition store (k : string) (p : Position) (tk : PositionTracker) : PositionTracker :=
  {| tk with active_positions :=
       alter (update_first (fun q => bool_decide (pos_id q = pos_id p)) (fun _ => p)) k
         (active_positions tk) |}.

(** [self.repo.update(pos)]. *)
Definition persist (io : Uuid -> bool) (p : Position) (tk : PositionTracker)
    : PositionTracker * result unit RepoError :=
  let '(t, r) := repo_update (io (pos_id p)) p (tk_table tk) in ({| tk with tk_table := t |}, r).

(** Visiting every position with mutable access; [f] also says whether to go
    on. *)
Fixpoint visit_list {S} (f : Position -> S -> Position * S * bool) (l : list Position) (s : S)
    : list Position * S * bool :=
  match l with
  | [] => ([], s, true)
  | p :: l =>
      let '(p, s, go) := f p s in
      if go : bool then
        let '(l, s, go) := visit_list f l s in (p :: l, s, go)
      else (p :: l, s, false)
  end.
Fixpoint visit_keys {S} (f : Position -> S -> Position * S * bool) (keys : list string)
    (c : Cache) (s : S) : Cache * S * bool :=
  match keys with
  | [] => (c, s, true)
  | k :: keys =>
      match c !! k with
      | None => visit_keys f keys c s
      | Some l =>
          let '(l, s, go) := visit_list f l s in
          let c := <[k := l]> c in
          if go : bool then visit_keys f keys c s else (c, s, false)
      end
  end.
Definition visit_all {S} (f : Position -> S -> Position * S * bool) (c : Cache) (s : S)
    : Cache * S * bool := visit_keys f (hash_keys c) c s.

Definition load_active_positions (read : bool) (tk : PositionTracker)
    : PositionTracker * result unit RepoError :=
  match get_active_for_arb_monitor read (tk_table tk) with
  | Err e => (tk, Err e)
  | Ok positions => (set_cache (foldl push_position ∅ positions) tk, Ok tt)
  end.

Definition create_position (io : bool) (id : Uuid) (now : datetime) (arb : ArbOpportunity) (qty : dec)
    (strategy : ExitStrategy) (tk : PositionTracker) : PositionTracker * result Position RepoError :=
  let p := apply_arb_fee_model arb
             (position_new id now (arb_market_id arb) (yes_ask arb) (no_ask arb) qty strategy) in
  match repo_insert io p (tk_table tk) with
  | (_, Err e) => (tk, Err e)
  | (t, Ok _) =>
      ({| tk with tk_table := t; active_positions := push_position (active_positions tk) p |}, Ok p)
  end.

(** Update P&L for all positions in a market based on current prices. *)
Definition update_market_positions (now : datetime) (market_id : string) (book : BinaryMarketBook)
    (tk : PositionTracker) : PositionTracker :=
  match active_positions tk !! market_id with
  | None => tk
  | Some positions =>
      match exit_value book with
      | None => tk
      | Some (yes_bid, no_bid, _) =>
          set_cache (<[market_id :=
            (fun p => if is_active p then touch now (update_pnl now yes_bid no_bid DEFAULT_FEE p)
                      else p) <$> positions]> (active_positions tk)) tk
      end
  end.

(** The profit of selling both legs now, as the exit check estimates it. *)
Definition potential_profit (yes_bid no_bid : dec) (p : Position) : dec :=
  let value := ((yes_bid + no_bid) * quantity p)%dec in
  let cost := position_cost p in
  let fees := (DEFAULT_FEE * TWO * quantity p)%dec in
  (value - cost - fees)%dec.

(** The exit check of one position: the table and the ids found go on. *)
Definition check_exit (io : Uuid -> bool) (now : datetime) (threshold yes_bid no_bid : dec)
    (p : Position) (s : Table * list Uuid) : Position * (Table * list Uuid) * bool :=
  let '(t, ready) := s in
  if bool_decide (pos_state p <> Open) then (p, s, true)
  else if bool_decide (exit_strategy p <> ExitOnCorrection) then (p, s, true)
  else if (potential_profit yes_bid no_bid p >=? threshold * quantity p)%dec then
    match mark_exit_ready now p with
    | (p, Err _) => (p, s, true)
    | (p, Ok _) =>
        match repo_update (io (pos_id p)) p t with
        | (t, Err _) => (p, (t, ready), false)
        | (t, Ok _) => (p, (t, ready ++ [pos_id p]), true)
        end
    end
  else (p, s, true).

(** Check for exit opportunities on positions in a market. *)
Definition check_exit_opportunities (io : Uuid -> bool) (now : datetime) (market_id : string)
    (book : BinaryMarketBook) (tk : PositionTracker) : PositionTracker * result (list Uuid) RepoError :=
  match active_positions tk !! market_id with
  | None => (tk, Ok [])
  | Some positions =>
      match exit_value book with
      | None => (tk, Ok [])
      | Some (yes_bid, no_bid, _) =>
          let '(positions, (t, ready), go) :=
            visit_list (check_exit io now (exit_threshold tk) yes_bid no_bid) positions
              (tk_table tk, []) in
          ({| tk with active_positions := <[market_id := positions]> (active_positions tk);
                      tk_table := t |}, if go : bool then Ok ready else Err QueryFailed)
      end
  end.

(** A call that changes one cached position [f] and stores it; [f] may refuse,
    which is only logged. *)
Definition change_found {A} (io : Uuid -> bool) (id : Uuid) (missing : A)
    (f : Position -> Position * result unit PositionError) (answer : Position -> A)
    (tk : PositionTracker) : PositionTracker * result A RepoError :=
  match found id tk with
  | None => (tk, Ok missing)
  | Some (k, p) =>
      match f p with
      | (p, Err _) => (store k p tk, Ok missing)
      | (p, Ok _) =>
          match persist io p (store k p tk) with
          | (tk, Err e) => (tk, Err e)
          | (tk, Ok _) => (tk, Ok (answer p))
          end
      end
  end.

Definition mark_position_open (io : Uuid -> bool) (now : datetime) (id : Uuid) :=
  change_found io id tt (mark_open now) (fun _ => tt).
Definition close_position_exit (io : Uuid -> bool) (now : datetime) (id : Uuid)
    (yes_exit_price no_exit_price : dec) :=
  change_found io id None (close_via_exit now yes_exit_price no_exit_price DEFAULT_FEE) realized_pnl.
Definition close_position_resolution (io : Uuid -> bool) (now : datetime) (id : Uuid) :=
  change_found io id None (close_via_resolution now DEFAULT_FEE) realized_pnl.
Definition tracker_mark_entry_failed (io : Uuid -> bool) (now : datetime) (id : Uuid)
    (reason : FailureReason) :=
  change_found io id tt (fun p => (mark_entry_failed now reason p, Ok tt)) (fun _ => tt).
Definition tracker_mark_exit_failed (io : Uuid -> bool) (now : datetime) (id : Uuid)
    (reason : FailureReason) :=
  change_found io id false (fun p => (mark_exit_failed now reason p, Ok tt)) can_retry.

(** The cached positions, in visiting order. *)
Definition cached (c : Cache) : list Position :=
  concat ((fun k => default [] (c !! k)) <$> hash_keys c).
Definition get_active_positions (tk : PositionTracker) : list Position :=
  List.filter is_active (cached (active_positions tk)).
Definition get_market_positions (market_id : string) (tk : PositionTracker) : list Position :=
  default [] (active_positions tk !! market_id).
Definition get_positions_needing_recovery (tk : PositionTracker) : list Position :=
  List.filter needs_recovery (cached (active_positions tk)).
Definition state_count (s : PositionState) (tk : PositionTracker) : nat :=
  count_if (fun p => bool_decide (pos_state p = s)) (cached (active_positions tk)).

(** Check for stale positions and mark them; a failed UPDATE is only logged. *)
Definition stall_position (io : Uuid -> bool) (now : datetime) (p : Position)
    (s : Table * list Uuid) : Position * (Table * list Uuid) * bool :=
  let '(t, ids) := s in
  if is_stale now p then
    let p := mark_stalled now now p in
    (p, (fst (repo_update (io (pos_id p)) p t), ids ++ [pos_id p]), true)
  else (p, s, true).
Definition check_stale_positions (io : Uuid -> bool) (now : datetime) (tk : PositionTracker)
    : PositionTracker * list Uuid :=
  let '(c, (t, ids), _) := visit_all (stall_position io now) (active_positions tk) (tk_table tk, []) in
  ({| tk with active_positions := c; tk_table := t |}, ids).

(** One position of a recovery pass. *)
Definition recover_position (io : Uuid -> bool) (now : datetime) (p : Position)
    (s : Table * list Uuid) : Position * (Table * list Uuid) * bool :=
  let '(t, recovered) := s in
  if negb (needs_recovery p) then (p, s, true)
  else match pos_state p with
  | ExitFailed =>
      match attempt_exit_recovery now p with
      | (p, true) =>
          match repo_update (io (pos_id p)) p t with
          | (t, Err _) => (p, (t, recovered), true)
          | (t, Ok _) => (p, (t, recovered ++ [pos_id p]), true)
          end
      | (p, false) => (p, s, true)
      end
  | Stalled =>
      match attempt_stalled_recovery now p with
      | (p, Some _) =>
          match repo_update (io (pos_id p)) p t with
          | (t, Err _) => (p, (t, recovered), true)
          | (t, Ok _) => (p, (t, recovered ++ [pos_id p]), true)
          end
      | (p, None) => (p, s, true)
      end
  | _ => (p, s, true)
  end.
Definition recover_failed_positions (io : Uuid -> bool) (now : datetime) (tk : PositionTracker)
    : PositionTracker * list Uuid :=
  let '(c, (t, recovered), _) :=
    visit_all (recover_position io now) (active_positions tk) (tk_table tk, []) in
  ({| tk with active_positions := c; tk_table := t |}, recovered).

(** Touch all active positions; the table is not written. *)
Definition touch_active_positions (now : datetime) (tk : PositionTracker) : PositionTracker :=
  set_cache ((fun l : list Position =>
      (fun p => if is_active p && negb (needs_recovery p) then touch now p else p) <$> l)
    <$> active_positions tk) tk.

(** ** Reconciliation on startup *)

(** Result of position reconciliation on startup. *)
Record ReconciliationResult : Type := {
  rc_total_positions : nat;
  rc_healthy : nat;
  rc_pending_active : nat;
  rc_stale_pending : nat;
  rc_interrupted_closing : nat;
  rc_already_failed : nat;
  rc_stalled : nat;
  rc_already_closed : nat;
  rc_needing_recovery : nat;
  rc_auto_recovered : nat;
}.
Definition no_reconciliation (total needing : nat) : ReconciliationResult := {|
  rc_total_positions := total; rc_healthy := 0; rc_pending_active := 0; rc_stale_pending := 0;
  rc_interrupted_closing := 0; rc_already_failed := 0; rc_stalled := 0; rc_already_closed := 0;
  rc_needing_recovery := needing; rc_auto_recovered := 0 |}.

Definition rc_has_issues (r : ReconciliationResult) : bool :=
  ((0 <? rc_stale_pending r) || (0 <? rc_interrupted_closing r) || (0 <? rc_stalled r)
   || (0 <? rc_already_failed r))%nat.
Definition rc_needs_manual_intervention (r : ReconciliationResult) : nat := rc_stalled r.

Definition interrupted : FailureReason :=
  UnknownFailure "Interrupted during closing - detected on startup".

(** One loaded position. *)
Definition reconcile_position (io : Uuid -> bool) (now : datetime) (p : Position)
    (s : Table * ReconciliationResult) : Position * (Table * ReconciliationResult) * bool :=
  let '(t, r) := s in
  match pos_state p with
  | Pending =>
      if is_stale now p then
        let p := mark_entry_failed now (StalePosition (age_secs now p)) p in
        match repo_update (io (pos_id p)) p t with
        | (t, Err _) => (p, (t, r), false)
        | (t, Ok _) => (p, (t, {| r with rc_stale_pending := S (rc_stale_pending r) |}), true)
        end
      else (p, (t, {| r with rc_pending_active := S (rc_pending_active r) |}), true)
  | Closing =>
      let p := mark_exit_failed now interrupted p in
      match repo_update (io (pos_id p)) p t with
      | (t, Err _) => (p, (t, r), false)
      | (t, Ok _) => (p, (t, {| r with rc_interrupted_closing := S (rc_interrupted_closing r) |}), true)
      end
  | EntryFailed | ExitFailed => (p, (t, {| r with rc_already_failed := S (rc_already_failed r) |}), true)
  | Stalled => (p, (t, {| r with rc_stalled := S (rc_stalled r) |}), true)
  | Open | ExitReady => (p, (t, {| r with rc_healthy := S (rc_healthy r) |}), true)
  | Closed => (p, (t, {| r with rc_already_closed := S (rc_already_closed r) |}), true)
  end.

Definition reconcile_on_startup (read : bool) (io : Uuid -> bool) (now : datetime)
    (tk : PositionTracker) : PositionTracker * result ReconciliationResult RepoError :=
  match get_active_for_arb_monitor read (tk_table tk) with
  | Err e => (tk, Err e)
  | Ok all_positions =>
      match get_needing_recovery_for_arb_monitor read (tk_table tk) with
      | Err e => (tk, Err e)
      | Ok needing =>
          let '(c, (t, r), go) :=
            visit_all (reconcile_position io now) (foldl push_position ∅ all_positions)
              (tk_table tk, no_reconciliation (length all_positions) (length needing)) in
          let tk := {| tk with active_positions := c; tk_table := t |} in
          if go : bool then
            let '(tk, recovered) := recover_failed_positions io now tk in
            (tk, Ok {| r with rc_auto_recovered := length recovered |})
          else (tk, Err QueryFailed)
      end
  end.

(** Summary of current position states. *)
Record PositionSummary : Type := {
  pm_total : nat;
  pm_state_count : PositionState -> nat;
  pm_total_realized_pnl : dec;
  pm_total_unrealized_pnl : dec;
}.
Definition get_position_summary (tk : PositionTracker) : PositionSummary :=
  let l := cached (active_positions tk) in
  {| pm_total := length l;
     pm_state_count := fun s => count_if (fun p => bool_decide (pos_state p = s)) l;
     pm_total_realized_pnl := dec_sum (omap realized_pnl l);
     pm_total_unrealized_pnl := dec_sum (unrealized_pnl <$> l) |}.

End Tracker.
