(* ===== verification/PositionTrackerFacts.v ===== *)
(** * Properties of the position tracker

    What an exit signal promises, the agreement of the cache with the table
    under a working database, and what a restart does to a stalled position. *)

From stdpp Require Import sorting.
From S2P Require Import Prelude F64 Platform Market Position PositionFacts.
From S2P Require Import PositionRepo PositionRepoFacts PositionTracker.

Section Facts.
Context `{DO : DecimalOps} `{CO : ChronoOps} `{UO : UuidOps} `{JO : !JsonOps} `{HO : HashOps}.
Abbreviation Cache := (gmap string (list Position)).
Implicit Types (p q : Position) (t : Table) (c : Cache) (k : string) (tk : PositionTracker).

(** ** What the table keeps of a position *)

(** A position without its volatile fields: the state before a stall, and the
    valuation and time that price updates and touches change in memory only. *)
Definition settled p : Position :=
  {| p with pre_stall_state := None; unrealized_pnl := ZERO; last_updated := entry_timestamp p |}.

(** The fields no call of the tracker changes. *)
Definition same_entry p q : Prop :=
  pos_id q = pos_id p /\ pos_market_id q = pos_market_id p /\
  yes_entry_price q = yes_entry_price p /\ no_entry_price q = no_entry_price p /\
  quantity q = quantity p /\ entry_timestamp q = entry_timestamp p /\
  exit_strategy q = exit_strategy p.

Lemma same_entry_refl p : same_entry p p.
Proof. by split_and!. Qed.

(** A step of a position that the tracker may take. *)
Definition tame p q : Prop := same_entry p q /\ (is_u32 (retry_count p) -> is_u32 (retry_count q)).

Lemma tame_refl p : tame p p.
Proof. split; [apply same_entry_refl|done]. Qed.

Lemma settled_tame p q : settled p = settled q -> tame p q.
Proof.
  destruct p, q. unfold settled. simpl. intros E. injection E. intros. subst.
  split; [by split_and!|done].
Qed.

(** The row [row] holds position [p], up to its volatile fields. *)
Definition holds_row t p : Prop := is_u32 (retry_count p) /\ exists row, t !! pos_id p = Some row /\
  r_id row = pos_id p /\ settled (row_to_position row) = settled p.

Lemma holds_row_settled t p q : settled q = settled p -> holds_row t p -> holds_row t q.
Proof.
  intros E (Hr & row & Hl & Hid & Hs).
  destruct (settled_tame p q) as [(E1 & _) Hr']; [done|].
  split; [by apply Hr'|]. exists row. by rewrite E1, E.
Qed.

Context {JS : JsonSpec}.

Lemma settled_reloaded p q row :
  settled (row_to_position row) = settled p -> r_id row = pos_id p -> same_entry p q ->
  settled (reloaded row q) = settled q.
Proof.
  destruct row, p, q. unfold settled, reloaded, row_to_position, same_entry. simpl.
  intros E Hid (-> & -> & -> & -> & -> & -> & ->). injection E. intros. by subst.
Qed.

Lemma holds_row_update t p q :
  tame p q -> holds_row t p -> holds_row (alter (update_row q) (pos_id q) t) q.
Proof.
  intros [He Hr'] (Hr & row & Hl & Hid & Hs). pose proof He as (E1 & _). split; [by apply Hr'|].
  exists (update_row q row). rewrite lookup_alter_eq, E1, Hl. split; [done|]. split; [exact Hid|].
  rewrite row_to_position_update by by apply Hr'. by apply (settled_reloaded p).
Qed.

Lemma holds_row_other t p q :
  pos_id p <> pos_id q -> holds_row t p -> holds_row (alter (update_row q) (pos_id q) t) p.
Proof.
  intros Hne (Hr & row & Hl & Hrow). split; [done|]. exists row. by rewrite lookup_alter_ne.
Qed.

Lemma holds_row_market t p q :
  pos_id p = pos_id q -> holds_row t p -> holds_row t q -> pos_market_id p = pos_market_id q.
Proof.
  intros E (_ & row & Hl & _ & Hs) (_ & row' & Hl' & _ & Hs').
  assert (row = row') as <- by congruence.
  destruct (settled_tame q p) as [(_ & Em & _) _]; [congruence|done].
Qed.

(** ** The mirror *)

(** The positions cached for a market are stored, once each. *)
Record mirrored t k (l : list Position) : Prop := {
  mi_nodup : NoDup (pos_id <$> l);
  mi_stored : forall p, p ∈ l -> pos_market_id p = k /\ holds_row t p;
}.
Definition mirrors t c : Prop := forall k l, c !! k = Some l -> mirrored t k l.

(** The table changed in the rows of [ids] only. *)
Definition changed (ids : list Uuid) t t' : Prop := forall id, id ∉ ids -> t' !! id = t !! id.

Lemma changed_refl ids t : changed ids t t.
Proof. done. Qed.

Lemma mirrored_changed ids t t' k l :
  changed ids t t' -> (forall p, p ∈ l -> pos_id p ∉ ids) -> mirrored t k l -> mirrored t' k l.
Proof.
  intros Hc Hn [H1 H2]. split; [done|]. intros p Hp. destruct (H2 p Hp) as [Hk (Hr & row & Hl & Hs)].
  split; [done|]. split; [done|]. exists row. rewrite Hc by by apply Hn. done.
Qed.

(** Replacing a market's list. *)
Lemma mirrors_replace t t' c k l l' :
  mirrors t c -> c !! k = Some l -> changed (pos_id <$> l) t t' -> mirrored t' k l' ->
  mirrors t' (<[k := l']> c).
Proof.
  intros Hm Hl Hc Hl' k2 l2 Hk2. apply lookup_insert_Some in Hk2 as [[<- <-]|[Hne Hk2]]; [done|].
  apply (mirrored_changed (pos_id <$> l) t); [done| |by apply Hm].
  intros p Hp Hin. apply list_elem_of_fmap in Hin as (q & E & Hq).
  destruct (mi_stored _ _ _ (Hm _ _ Hk2) p Hp) as [E1 Hp'].
  destruct (mi_stored _ _ _ (Hm _ _ Hl) q Hq) as [E2 Hq'].
  apply Hne. rewrite <- E1, <- E2. symmetry. by apply (holds_row_market t).
Qed.

(** A visitor that keeps the mirror: the position takes a tame step, and is
    written or only its volatile fields change. *)
Definition mirroring {A} (f : Position -> Table * A -> Position * (Table * A) * bool) : Prop :=
  forall p t (a : A) q t' a' go, f p (t, a) = (q, (t', a'), go) -> tame p q /\
    ((t' = t /\ settled q = settled p) \/ t' = alter (update_row q) (pos_id q) t).

Lemma visit_list_mirrored {A} (f : Position -> Table * A -> Position * (Table * A) * bool) k l t a l' t' a' go :
  mirroring f -> mirrored t k l -> visit_list f l (t, a) = (l', (t', a'), go) ->
  mirrored t' k l' /\ changed (pos_id <$> l) t t' /\ pos_id <$> l' = pos_id <$> l.
Proof.
  intros Hf. revert t a l'. induction l as [|p l IH]; intros t a l' Hm; cbn [visit_list].
  { by intros [= <- <- <- <-]. }
  destruct (f p (t, a)) as [[q [t1 a1]] go1] eqn:Ef. apply Hf in Ef as [[He Hr] Ht].
  destruct Hm as [Hnd Hs]. rewrite fmap_cons, NoDup_cons in Hnd. destruct Hnd as [Hp Hnd].
  pose proof He as (Eid & Emk & _). destruct (Hs p) as [Hk Hrow]; [apply list_elem_of_here|].
  assert (Hq : pos_market_id q = k /\ holds_row t1 q).
  { split; [congruence|]. destruct Ht as [[-> Hset]| ->]; [by apply (holds_row_settled t p)|].
    by apply (holds_row_update t p). }
  assert (Hl : mirrored t1 k l).
  { split; [done|]. intros p2 Hp2. destruct (Hs p2) as [Hk2 Hrow2]; [by apply list_elem_of_further|].
    split; [done|]. destruct Ht as [[-> _]| ->]; [done|]. apply holds_row_other; [|done].
    intros E. apply Hp. rewrite <- Eid, <- E. by apply list_elem_of_fmap_2. }
  assert (Hc1 : changed [pos_id p] t t1).
  { intros id Hid. rewrite list_elem_of_singleton in Hid.
    destruct Ht as [[-> _]| ->]; [done|]. rewrite lookup_alter_ne; [done|]. congruence. }
  destruct go1.
  - destruct (visit_list f l (t1, a1)) as [[l2 [t2 a2]] go2] eqn:El. intros [= <- <- <- <-].
    destruct (IH t1 a1 l2 Hl El) as ([H1 H2] & H3 & H4). rewrite !fmap_cons. split; [split|split].
    + rewrite fmap_cons. apply NoDup_cons. by rewrite H4, Eid.
    + intros p2 Hp2. apply elem_of_cons in Hp2 as [->|Hp2]; [|by apply H2].
      split; [apply Hq|]. destruct Hq as [_ (Hr1 & row & Hl1 & Hrest)]. split; [done|]. exists row.
      rewrite H3; [done|]. by rewrite Eid.
    + intros id Hid. rewrite not_elem_of_cons in Hid. rewrite H3 by apply Hid. apply Hc1.
      rewrite list_elem_of_singleton. apply Hid.
    + by rewrite H4, Eid.
  - intros [= <- <- <- <-]. rewrite !fmap_cons. split; [split|split].
    + rewrite fmap_cons. apply NoDup_cons. by rewrite Eid.
    + intros p2 Hp2. apply elem_of_cons in Hp2 as [->|Hp2]; [done|by apply Hl].
    + intros id Hid. rewrite not_elem_of_cons in Hid. apply Hc1. rewrite list_elem_of_singleton. apply Hid.
    + by rewrite Eid.
Qed.

Lemma visit_keys_mirrors {A} (f : Position -> Table * A -> Position * (Table * A) * bool) keys c t a c' t' a' go :
  mirroring f -> mirrors t c -> visit_keys f keys c (t, a) = (c', (t', a'), go) -> mirrors t' c'.
Proof.
  intros Hf. revert c t a. induction keys as [|k keys IH]; intros c t a Hm; cbn [visit_keys].
  { by intros [= <- <- _ _]. }
  destruct (c !! k) as [l|] eqn:El; [|by apply IH].
  destruct (visit_list f l (t, a)) as [[l1 [t1 a1]] go1] eqn:Ev.
  destruct (visit_list_mirrored f k l t a l1 t1 a1 go1 Hf (Hm _ _ El) Ev) as (H1 & H2 & _).
  assert (Hm1 : mirrors t1 (<[k := l1]> c)) by by apply (mirrors_replace t t1 c k l).
  destruct go1; [by apply IH|]. by intros [= <- <- _ _].
Qed.

(** ** The steps of the tracker are tame *)

Lemma u32_add_tame p q n : same_entry p q -> retry_count q = u32_add (retry_count p) n -> tame p q.
Proof. intros H E. split; [done|]. intros _. rewrite E. apply u32_add_range. Qed.

Lemma plain_tame p q : same_entry p q -> retry_count q = retry_count p -> tame p q.
Proof. intros H E. split; [done|]. by rewrite E. Qed.

(** A step that changes neither the entry nor the count. *)
Ltac tame_fields := apply plain_tame; [split_and!|]; done.

Lemma kept_tame p q : kept p q -> same_entry p q -> tame p q.
Proof. intros [] H. by apply plain_tame. Qed.

Lemma recorded_entry now fee p : same_entry p (fst (close_via_recorded_exit now fee p)).
Proof. unfold close_via_recorded_exit. repeat case_match; by split_and!. Qed.

Lemma close_exit_tame now y n fee p : tame p (fst (close_via_exit now y n fee p)).
Proof.
  apply kept_tame; [apply close_via_exit_kept|].
  destruct (enterable_dec p) as [[H1 H2]|[E|E]].
  - rewrite close_via_exit_records by done. destruct (recorded_entry now fee (with_exits
      (if fst (held_outcomes p) then Some y else yes_exit_price p)
      (if snd (held_outcomes p) then Some n else no_exit_price p) p)) as (?&?&?&?&?&?&?). by split_and!.
  - unfold close_via_exit. rewrite E. by split_and!.
  - unfold close_via_exit. rewrite E. by split_and!.
Qed.

Lemma close_resolution_tame now fee p : tame p (fst (close_via_resolution now fee p)).
Proof.
  apply kept_tame; [apply close_resolution_kept|].
  unfold close_via_resolution. repeat case_match; by split_and!.
Qed.

Lemma transition_tame now expected target p : tame p (fst (transition now expected target p)).
Proof.
  destruct (transition_spec now expected target p) as [[_ ->]|[_ ->]]; tame_fields.
Qed.

(** A refused call leaves the position. *)
Lemma transition_refused now expected target p q e :
  transition now expected target p = (q, Err e) -> q = p.
Proof.
  destruct (transition_spec now expected target p) as [[_ ->]|[_ ->]]; intros E; by simplify_eq.
Qed.
Lemma close_exit_refused now y n fee p q e : close_via_exit now y n fee p = (q, Err e) -> q = p.
Proof.
  destruct (enterable_dec p) as [He|[E|E]].
  - destruct (close_exit_ok now y n fee p He) as (p' & -> & _). done.
  - unfold close_via_exit. rewrite E. simpl. by intros [= <- _].
  - unfold close_via_exit. rewrite E. simpl. by intros [= <- _].
Qed.
Lemma close_resolution_refused now fee p q e : close_via_resolution now fee p = (q, Err e) -> q = p.
Proof. unfold close_via_resolution. repeat case_match; by intros [= <-]. Qed.

Lemma check_exit_mirroring now th yb nb : mirroring (check_exit (fun _ => true) now th yb nb).
Proof.
  intros p t a q t' a' go. unfold check_exit, repo_update. simpl.
  destruct (bool_decide (pos_state p <> Open)); [intros [= <- <- <- <-]; auto using tame_refl|].
  destruct (bool_decide (exit_strategy p <> ExitOnCorrection)); [intros [= <- <- <- <-]; auto using tame_refl|].
  destruct (_ <=? _)%dec; [|intros [= <- <- <- <-]; auto using tame_refl].
  pose proof (transition_tame now Open ExitReady p) as Ht. unfold mark_exit_ready.
  destruct (transition now Open ExitReady p) as [p1 [u|e]] eqn:E; simpl in Ht.
  - intros [= <- <- <- <-]. auto.
  - apply transition_refused in E as ->. intros [= <- <- <- <-]. auto.
Qed.

Lemma stall_mirroring now : mirroring (stall_position (fun _ => true) now).
Proof.
  intros p t a q t' a' go. unfold stall_position, repo_update. simpl.
  destruct (is_stale now p); intros [= <- <- <- <-]; [|auto using tame_refl].
  split; [tame_fields|by right].
Qed.

Lemma exit_recovery_tame now p : tame p (fst (attempt_exit_recovery now p)).
Proof. unfold attempt_exit_recovery. repeat case_match; tame_fields. Qed.
Lemma stalled_recovery_tame now p : tame p (fst (attempt_stalled_recovery now p)).
Proof.
  unfold attempt_stalled_recovery. case_match; [apply tame_refl|].
  by apply (u32_add_tame _ _ 1); [split_and!|].
Qed.

Lemma recover_mirroring now : mirroring (recover_position (fun _ => true) now).
Proof.
  intros p t a q t' a' go. unfold recover_position, repo_update. simpl.
  destruct (needs_recovery p); simpl; [|intros [= <- <- <- <-]; auto using tame_refl].
  pose proof (exit_recovery_tame now p) as H1. pose proof (stalled_recovery_tame now p) as H2.
  destruct (pos_state p); try (intros [= <- <- <- <-]; auto using tame_refl).
  - destruct (attempt_exit_recovery now p) as [p1 []] eqn:E; simpl in *.
    + intros [= <- <- <- <-]. auto.
    + assert (p1 = p) as -> by (revert E; unfold attempt_exit_recovery; repeat case_match; by intros [= <-]).
      intros [= <- <- <- <-]. auto.
  - destruct (attempt_stalled_recovery now p) as [p1 [s|]] eqn:E; simpl in *.
    + intros [= <- <- <- <-]. auto.
    + assert (p1 = p) as -> by (revert E; unfold attempt_stalled_recovery; case_match; by intros [= <-]).
      intros [= <- <- <- <-]. auto.
Qed.

Lemma reconcile_mirroring now : mirroring (reconcile_position (fun _ => true) now).
Proof.
  intros p t a q t' a' go. unfold reconcile_position, repo_update. simpl.
  destruct (pos_state p); [destruct (is_stale now p)|..]; intros [= <- <- <- <-];
    try (split; [apply tame_refl|by left]).
  - split; [tame_fields|by right].
  - split; [by apply (u32_add_tame _ _ 1); [split_and!|]|by right].
Qed.

(** ** The table's rows *)

(** A property of a row that an UPDATE keeps. *)
Definition row_stable (P : Uuid -> PositionRow -> Prop) : Prop :=
  forall id row q, P id row -> P id (update_row q row).

Definition keyed t : Prop := map_Forall (fun id row => r_id row = id) t.

Lemma keyed_stable : row_stable (fun id row => r_id row = id).
Proof. by intros id row q. Qed.

Lemma rows_alter P t q id : row_stable P -> map_Forall P t -> map_Forall P (alter (update_row q) id t).
Proof.
  intros Hs Hk i row Hl. apply lookup_alter_Some in Hl as [(-> & row' & Hl & ->)|[_ Hl]].
  - by apply Hs, Hk.
  - by apply Hk.
Qed.

Lemma visit_list_rows {A} P (f : Position -> Table * A -> Position * (Table * A) * bool) l t a l' t' a' go :
  mirroring f -> row_stable P -> map_Forall P t ->
  visit_list f l (t, a) = (l', (t', a'), go) -> map_Forall P t'.
Proof.
  intros Hf Hs. revert t a l' t' a' go.
  induction l as [|p l IH]; intros t a l' t' a' go Hk; cbn [visit_list]; [by intros [= _ <- _ _]|].
  destruct (f p (t, a)) as [[q [t1 a1]] go1] eqn:Ef. apply Hf in Ef as [_ Ht].
  assert (Hk1 : map_Forall P t1) by (destruct Ht as [[-> _]| ->]; [done|by apply rows_alter]).
  destruct go1; [|by intros [= _ <- _ _]].
  destruct (visit_list f l (t1, a1)) as [[l2 [t2 a2]] go2] eqn:El. intros [= _ <- _ _].
  by eapply IH.
Qed.

Lemma visit_all_rows {A} P (f : Position -> Table * A -> Position * (Table * A) * bool) c t a c' t' a' go :
  mirroring f -> row_stable P -> map_Forall P t ->
  visit_all f c (t, a) = (c', (t', a'), go) -> map_Forall P t'.
Proof.
  unfold visit_all. generalize (hash_keys c). intros keys Hf Hs. revert c t a.
  induction keys as [|k keys IH]; intros c t a Hk; cbn [visit_keys]; [by intros [= _ <- _ _]|].
  destruct (c !! k) as [l|]; [|by apply IH].
  destruct (visit_list f l (t, a)) as [[l1 [t1 a1]] go1] eqn:Ev.
  assert (Hk1 : map_Forall P t1) by by eapply visit_list_rows.
  destruct go1; [by apply IH|]. by intros [= _ <- _ _].
Qed.

(** The invariant of the tracker. *)
Definition in_sync tk : Prop := keyed (tk_table tk) /\ mirrors (tk_table tk) (active_positions tk).

Lemma visit_all_sync {A} (f : Position -> Table * A -> Position * (Table * A) * bool) c t a c' t' a' go :
  mirroring f -> keyed t -> mirrors t c -> visit_all f c (t, a) = (c', (t', a'), go) ->
  keyed t' /\ mirrors t' c'.
Proof.
  unfold visit_all. intros Hf Hk Hm E. split; [|by eapply visit_keys_mirrors].
  by eapply visit_all_rows; [| apply keyed_stable | |exact E].
Qed.

(** ** Loading *)

Definition in_cache c (id : Uuid) : Prop := exists k l p, c !! k = Some l /\ p ∈ l /\ pos_id p = id.

Lemma in_cache_push c p id : in_cache (push_position c p) id -> id = pos_id p \/ in_cache c id.
Proof.
  intros (k & l & q & Hl & Hq & <-). unfold push_position in Hl.
  apply lookup_insert_Some in Hl as [[<- <-]|[_ Hl]]; [|right; by exists k, l, q].
  apply elem_of_app in Hq as [Hq|Hq].
  - right. destruct (c !! pos_market_id p) as [l0|] eqn:E; [|by apply elem_of_nil in Hq].
    by exists (pos_market_id p), l0, q.
  - left. apply list_elem_of_singleton in Hq. by subst.
Qed.

Lemma push_mirrors t c p :
  mirrors t c -> holds_row t p -> ~ in_cache c (pos_id p) -> mirrors t (push_position c p).
Proof.
  intros Hm Hp Hn k l Hl. unfold push_position in Hl.
  apply lookup_insert_Some in Hl as [[<- <-]|[_ Hl]]; [|by apply Hm].
  destruct (c !! pos_market_id p) as [l0|] eqn:E; simpl.
  - destruct (Hm _ _ E) as [Hnd Hs]. split.
    + rewrite fmap_app. apply NoDup_app. split; [done|]. split; [|apply NoDup_singleton].
      intros id Hid Hid'. apply list_elem_of_singleton in Hid'. subst. apply Hn.
      apply list_elem_of_fmap in Hid as (q & Eq & Hq). by exists (pos_market_id p), l0, q.
    + intros q [Hq|Hq]%elem_of_app; [by apply Hs|]. apply list_elem_of_singleton in Hq. by subst.
  - split; [apply NoDup_singleton|]. intros q Hq. apply list_elem_of_singleton in Hq. by subst.
Qed.

Lemma load_mirrors t ps c :
  mirrors t c -> Forall (holds_row t) ps -> NoDup (pos_id <$> ps) ->
  (forall p, p ∈ ps -> ~ in_cache c (pos_id p)) -> mirrors t (foldl push_position c ps).
Proof.
  revert c. induction ps as [|p ps IH]; intros c Hm Hps Hnd Hn; simpl; [done|].
  apply Forall_cons in Hps as [Hp Hps]. rewrite fmap_cons, NoDup_cons in Hnd. destruct Hnd as [Hpn Hnd].
  apply IH; [|done|done|].
  - apply push_mirrors; [done..|]. apply Hn, list_elem_of_here.
  - intros q Hq [E|Hc]%in_cache_push.
    + apply Hpn. rewrite <- E. by apply list_elem_of_fmap_2.
    + by apply (Hn q); [apply list_elem_of_further|].
Qed.

(** The positions a query selects, on a keyed table. *)
Lemma selected_hold {R : PositionRow -> PositionRow -> Prop} `{!RelDecision R} where_ t :
  keyed t -> Forall (holds_row t) (row_to_position <$> merge_sort R (select_rows where_ t)).
Proof.
  intros Hk. apply Forall_forall. intros p (id & r & Hl & _ & ->)%elem_of_sorted.
  pose proof (Hk _ _ Hl) as Hid. split.
  - unfold is_u32. simpl. apply Z.mod_pos_bound. lia.
  - exists r. simpl. rewrite Hid. done.
Qed.

Lemma selected_nodup {R : PositionRow -> PositionRow -> Prop} `{!RelDecision R} where_ t :
  keyed t -> NoDup (pos_id <$> (row_to_position <$> merge_sort R (select_rows where_ t))).
Proof.
  intros Hk. rewrite <- list_fmap_compose, (merge_sort_Permutation R). unfold select_rows.
  assert (E : r_id <$> (snd <$> map_to_list t) = (map_to_list t).*1).
  { rewrite <- list_fmap_compose. apply list_fmap_ext. intros i [id row] Hl. simpl.
    apply Hk, elem_of_map_to_list. by eapply list_elem_of_lookup_2. }
  pose proof (NoDup_fst_map_to_list t) as Hnd. rewrite <- E in Hnd. clear E.
  by apply (filtered_nodup r_id).
Qed.

(** ** The operations *)

Lemma locate_spec keys c id k p :
  locate keys c id = Some (k, p) -> pos_id p = id /\ exists l, c !! k = Some l /\ p ∈ l.
Proof.
  induction keys as [|k' keys IH]; simpl; [done|].
  destruct (List.find _ _) as [q|] eqn:Ef; [|done]. intros [= -> ->].
  apply List.find_some in Ef as [Hin Hid]. apply bool_decide_eq_true in Hid. split; [done|].
  destruct (c !! k) as [l|]; [|done]. exists l. split; [done|]. by apply list_elem_of_In.
Qed.

Lemma store_mirrors t t' c k l p q :
  mirrors t c -> c !! k = Some l -> p ∈ l -> tame p q ->
  (t' = t /\ settled q = settled p) \/ t' = alter (update_row q) (pos_id q) t ->
  mirrors t' (alter (update_first (fun x => bool_decide (pos_id x = pos_id q)) (fun _ => q)) k c).
Proof.
  intros Hm Hl Hp Ht Hw. pose proof Ht as [(Eid & Emk & _) _].
  assert (E : alter (update_first (fun x => bool_decide (pos_id x = pos_id q)) (fun _ => q)) k c =
    <[k := update_first (fun x => bool_decide (pos_id x = pos_id q)) (fun _ => q) l]> c).
  { apply map_eq. intros i. destruct (decide (i = k)) as [->|].
    - by rewrite lookup_alter_eq, Hl, lookup_insert_eq.
    - by rewrite lookup_alter_ne, lookup_insert_ne. }
  destruct (Hm _ _ Hl) as [Hnd Hs]. destruct (Hs p Hp) as [Hk Hrow].
  assert (Hc : changed (pos_id <$> l) t t').
  { intros id Hid. destruct Hw as [[-> _]| ->]; [done|]. rewrite lookup_alter_ne; [done|].
    intros <-. apply Hid. rewrite Eid. by apply list_elem_of_fmap_2. }
  rewrite E. apply (mirrors_replace t t' c k l); [done..|].
  assert (Hids : pos_id <$> update_first (fun x => bool_decide (pos_id x = pos_id q)) (fun _ => q) l =
    pos_id <$> l).
  { apply fmap_update_first. intros x. by rewrite bool_decide_eq_true. }
  assert (Hq : holds_row t' q).
  { destruct Hw as [[-> Hset]| ->]; [by apply (holds_row_settled t p)|by apply (holds_row_update t p)]. }
  split; [by rewrite Hids|]. intros x Hx. destruct (decide (pos_id x = pos_id q)) as [Ex|Ex].
  - assert (x = q) as ->; [|split; [congruence|done]].
    apply (nodup_key pos_id (update_first (fun x => bool_decide (pos_id x = pos_id q)) (fun _ => q) l));
      [by rewrite Hids|done| |done].
    assert (Hin : pos_id q ∈ pos_id <$> update_first (fun x => bool_decide (pos_id x = pos_id q)) (fun _ => q) l).
    { rewrite Hids, Eid. by apply list_elem_of_fmap_2. }
    apply list_elem_of_fmap in Hin as (y & Ey & Hy). clear x Hx Ex.
    assert (Hfirst : q ∈ update_first (fun x => bool_decide (pos_id x = pos_id q)) (fun _ => q) l);
      [|done]. clear y Ey Hy. clear -Hp Eid. induction l as [|z l IH]; [by apply elem_of_nil in Hp|].
    simpl. case_bool_decide as Ez; [apply list_elem_of_here|]. apply list_elem_of_further, IH.
    apply elem_of_cons in Hp as [->|Hp]; [by destruct Ez|done].
  - apply elem_of_update_first in Hx as [->|Hx]; [done|]. destruct (Hs x Hx) as [Hkx Hrx].
    split; [done|]. destruct Hw as [[-> _]| ->]; [done|]. by apply holds_row_other.
Qed.

Lemma change_found_sync {A} now_id (missing : A) f answer tk :
  (forall p, tame p (fst (f p))) -> (forall p q e, f p = (q, Err e) -> q = p) ->
  in_sync tk -> in_sync (fst (change_found (fun _ => true) now_id missing f answer tk)).
Proof.
  intros Hf Hr [Hk Hm]. unfold change_found, found.
  destruct (locate _ _ _) as [[k p]|] eqn:El; [|done].
  apply locate_spec in El as (_ & l & Hl & Hp). pose proof (Hf p) as Ht.
  destruct (f p) as [q [u|e]] eqn:Ef; simpl in *.
  - split; [by apply rows_alter; [apply keyed_stable|]|].
    apply (store_mirrors (tk_table tk) _ _ k l p); auto.
  - apply Hr in Ef as ->. split; [done|].
    apply (store_mirrors (tk_table tk) _ _ k l p); auto.
Qed.

Lemma mirrored_map t k l g :
  (forall p, settled (g p) = settled p) -> mirrored t k l -> mirrored t k (g <$> l).
Proof.
  intros Hg [Hnd Hs].
  assert (Hid : forall p, pos_id (g p) = pos_id p /\ pos_market_id (g p) = pos_market_id p).
  { intros p. destruct (settled_tame p (g p)) as [(E1 & E2 & _) _]; [by rewrite Hg|done]. }
  split.
  - rewrite <- list_fmap_compose. rewrite (list_fmap_ext _ pos_id); [done|]. intros i p _. apply Hid.
  - intros q (p & -> & Hp)%list_elem_of_fmap. destruct (Hs p Hp) as [Hk Hrow]. destruct (Hid p) as [_ ->].
    split; [done|]. by apply (holds_row_settled t p).
Qed.

Context {HS : HashSpec}.

Inductive TrackerOp : Type :=
| TLoad
| TCreate (id : Uuid) (now : datetime) (arb : ArbOpportunity) (qty : dec) (strategy : ExitStrategy)
| TPrices (now : datetime) (market_id : string) (book : BinaryMarketBook)
| TCheckExit (now : datetime) (market_id : string) (book : BinaryMarketBook)
| TOpen (now : datetime) (id : Uuid)
| TCloseExit (now : datetime) (id : Uuid) (yes_price no_price : dec)
| TCloseResolution (now : datetime) (id : Uuid)
| TEntryFailed (now : datetime) (id : Uuid) (reason : FailureReason)
| TExitFailed (now : datetime) (id : Uuid) (reason : FailureReason)
| TStale (now : datetime)
| TRecover (now : datetime)
| TTouch (now : datetime)
| TReconcile (now : datetime).

(** The operations with a working database. *)
Definition t_exec (op : TrackerOp) tk : PositionTracker :=
  let io := fun _ => true in
  match op with
  | TLoad => fst (load_active_positions true tk)
  | TCreate id now arb qty strategy => fst (create_position true id now arb qty strategy tk)
  | TPrices now market_id book => update_market_positions now market_id book tk
  | TCheckExit now market_id book => fst (check_exit_opportunities io now market_id book tk)
  | TOpen now id => fst (mark_position_open io now id tk)
  | TCloseExit now id y n => fst (close_position_exit io now id y n tk)
  | TCloseResolution now id => fst (close_position_resolution io now id tk)
  | TEntryFailed now id reason => fst (tracker_mark_entry_failed io now id reason tk)
  | TExitFailed now id reason => fst (tracker_mark_exit_failed io now id reason tk)
  | TStale now => fst (check_stale_positions io now tk)
  | TRecover now => fst (recover_failed_positions io now tk)
  | TTouch now => touch_active_positions now tk
  | TReconcile now => fst (reconcile_on_startup true io now tk)
  end.

Definition t_run (ops : list TrackerOp) tk : PositionTracker := foldl (fun tk op => t_exec op tk) tk ops.

Lemma mirrors_empty t : mirrors t ∅.
Proof. intros k l Hl. by rewrite lookup_empty in Hl. Qed.

Lemma load_selected t ps :
  keyed t -> get_active_for_arb_monitor true t = Ok ps -> mirrors t (foldl push_position ∅ ps).
Proof.
  unfold get_active_for_arb_monitor, query. intros Hk [= <-].
  apply load_mirrors; [apply mirrors_empty|by apply selected_hold|by apply selected_nodup|].
  intros p _ (k & l & q & Hl & _). by rewrite lookup_empty in Hl.
Qed.

Lemma create_sync id now arb qty strategy tk :
  in_sync tk -> in_sync (fst (create_position true id now arb qty strategy tk)).
Proof.
  intros [Hk Hm]. unfold create_position, repo_insert, insert_with_source. simpl.
  set (p := apply_arb_fee_model _ _). change id with (pos_id p).
  destruct (tk_table tk !! pos_id p) eqn:E; simpl; [done|].
  assert (Hc : changed [pos_id p] (tk_table tk) (<[pos_id p := insert_row p SOURCE_MANUAL None]> (tk_table tk))).
  { intros i Hi. rewrite list_elem_of_singleton in Hi. rewrite lookup_insert_ne; [done|congruence]. }
  assert (Hfresh : forall k l q, active_positions tk !! k = Some l -> q ∈ l -> pos_id q <> pos_id p).
  { intros k l q Hl Hq Eq. destruct (mi_stored _ _ _ (Hm _ _ Hl) q Hq) as [_ (_ & row & Hrow & _)].
    congruence. }
  split.
  - apply map_Forall_insert_2; [done|exact Hk].
  - apply push_mirrors.
    + intros k l Hl. apply (mirrored_changed [pos_id p] (tk_table tk)); [done| |by apply Hm].
      intros q Hq. rewrite list_elem_of_singleton. by eapply Hfresh.
    + split; [unfold is_u32; simpl; lia|]. eexists. split; [apply lookup_insert_eq|].
      split; [done|]. rewrite row_to_position_insert; [done|]. unfold is_u32. simpl. lia.
    + intros (k & l & q & Hl & Hq & Eq). by eapply Hfresh.
Qed.

Lemma exec_sync op tk : in_sync tk -> in_sync (t_exec op tk).
Proof.
  intros Hs. pose proof Hs as [Hk Hm]. destruct op; cbn [t_exec].
  - unfold load_active_positions.
    destruct (get_active_for_arb_monitor true (tk_table tk)) as [ps|e] eqn:E; [|done].
    split; [done|]. by apply load_selected.
  - by apply create_sync.
  - unfold update_market_positions. destruct (active_positions tk !! market_id) as [l|] eqn:El; [|done].
    destruct (exit_value book) as [[[y n] v]|]; [|done]. split; [done|].
    apply (mirrors_replace (tk_table tk) _ _ _ l); [done..|]. apply mirrored_map; [|by apply Hm].
    intros p. by destruct (is_active p).
  - unfold check_exit_opportunities. destruct (active_positions tk !! market_id) as [l|] eqn:El; [|done].
    destruct (exit_value book) as [[[y n] v]|]; [|done].
    destruct (visit_list _ l _) as [[l1 [t1 ready]] go] eqn:Ev. simpl.
    pose proof (check_exit_mirroring now (exit_threshold tk) y n) as Hf. split.
    + by eapply visit_list_rows; [exact Hf|apply keyed_stable| |exact Ev].
    + destruct (visit_list_mirrored _ _ _ _ _ _ _ _ _ Hf (Hm _ _ El) Ev) as (H1 & H2 & _).
      by apply (mirrors_replace (tk_table tk) _ _ _ l).
  - apply change_found_sync; [apply transition_tame|apply transition_refused|done].
  - apply change_found_sync; [apply close_exit_tame|apply close_exit_refused|done].
  - apply change_found_sync; [apply close_resolution_tame|apply close_resolution_refused|done].
  - apply change_found_sync; [intros p; tame_fields|done|done].
  - apply change_found_sync; [|done|done]. intros p. by apply (u32_add_tame _ _ 1); [split_and!|].
  - unfold check_stale_positions. destruct (visit_all _ _ _) as [[c [t ids]] go] eqn:Ev.
    by apply (visit_all_sync _ _ _ _ _ _ _ _ (stall_mirroring now) Hk Hm Ev).
  - unfold recover_failed_positions. destruct (visit_all _ _ _) as [[c [t ids]] go] eqn:Ev.
    by apply (visit_all_sync _ _ _ _ _ _ _ _ (recover_mirroring now) Hk Hm Ev).
  - split; [done|]. intros k l Hl. simpl in Hl. rewrite lookup_fmap in Hl.
    destruct (active_positions tk !! k) as [l0|] eqn:El; simplify_eq/=.
    apply mirrored_map; [|by apply Hm]. intros p. by destruct (is_active p && negb (needs_recovery p)).
  - unfold reconcile_on_startup.
    destruct (get_active_for_arb_monitor true (tk_table tk)) as [ps|e] eqn:E; [|done].
    destruct (get_needing_recovery_for_arb_monitor true (tk_table tk)) as [needing|e]; [|done].
    destruct (visit_all _ _ _) as [[c [t r]] go] eqn:Ev.
    destruct (visit_all_sync _ _ _ _ _ _ _ _ (reconcile_mirroring now) Hk (load_selected _ _ Hk E) Ev)
      as [Hk1 Hm1].
    destruct go; [|done]. unfold recover_failed_positions. simpl.
    destruct (visit_all _ c _) as [[c2 [t2 ids]] go2] eqn:Ev2.
    by apply (visit_all_sync _ _ _ _ _ _ _ _ (recover_mirroring now) Hk1 Hm1 Ev2).
Qed.

(** ** Visits as maps *)

(** A visitor that goes on, and whose answer for a position is [g]. *)
Definition pure {S} (f : Position -> S -> Position * S * bool) (g : Position -> Position) : Prop :=
  forall p s, exists s', f p s = (g p, s', true).

Lemma visit_list_pure {S} (f : Position -> S -> Position * S * bool) g l s :
  pure f g -> exists s', visit_list f l s = (g <$> l, s', true).
Proof.
  intros Hf. revert s. induction l as [|p l IH]; intros s; cbn [visit_list]; [by exists s|].
  destruct (Hf p s) as [s1 ->]. destruct (IH s1) as [s2 ->]. by exists s2.
Qed.

Lemma visit_keys_pure {S} (f : Position -> S -> Position * S * bool) g keys c s :
  pure f g -> NoDup keys -> exists c' s', visit_keys f keys c s = (c', s', true) /\
    forall k, c' !! k = if decide (k ∈ keys) then fmap g <$> c !! k else c !! k.
Proof.
  intros Hf. revert c s. induction keys as [|k keys IH]; intros c s Hnd; cbn [visit_keys].
  - exists c, s. split; [done|]. intros k. destruct (decide (k ∈ [])) as [H|]; [by apply elem_of_nil in H|done].
  - apply NoDup_cons in Hnd as [Hk Hnd].
    assert (K : forall c1 s1, (forall i, i <> k -> c1 !! i = c !! i) -> c1 !! k = fmap g <$> c !! k ->
      exists c' s', visit_keys f keys c1 s1 = (c', s', true) /\
        forall i, c' !! i = if decide (i ∈ k :: keys) then fmap g <$> c !! i else c !! i).
    { intros c1 s1 H1 H2. destruct (IH c1 s1 Hnd) as (c' & s' & E & Hc). exists c', s'. split; [done|].
      intros i. rewrite Hc. destruct (decide (i = k)) as [->|Hne].
      - rewrite decide_False, decide_True by (done || apply list_elem_of_here). done.
      - rewrite H1 by done. destruct (decide (i ∈ keys)).
        + by rewrite decide_True by by apply list_elem_of_further.
        + rewrite decide_False; [done|]. by intros [|]%elem_of_cons. }
    destruct (c !! k) as [l|] eqn:El; [|apply K; [done|by rewrite El]].
    destruct (visit_list_pure f g l s Hf) as [s1 ->]. apply K.
    + intros i Hi. by rewrite lookup_insert_ne.
    + by rewrite lookup_insert_eq.
Qed.

Lemma visit_all_pure {S} (f : Position -> S -> Position * S * bool) g c s :
  pure f g -> exists c' s', visit_all f c s = (c', s', true) /\
    forall k, c' !! k = fmap g <$> c !! k.
Proof.
  intros Hf. unfold visit_all. destruct (visit_keys_pure f g (hash_keys c) c s Hf) as (c' & s' & E & Hc).
  { rewrite hash_keys_perm. apply NoDup_fst_map_to_list. }
  exists c', s'. split; [done|]. intros k. rewrite Hc. case_decide as Hk; [done|].
  destruct (c !! k) as [l|] eqn:El; [|done]. destruct Hk. rewrite hash_keys_perm.
  apply list_elem_of_fmap. exists (k, l). split; [done|]. by apply elem_of_map_to_list.
Qed.

Definition stalled_as (now : datetime) p : Position := if is_stale now p then mark_stalled now now p else p.
Definition recovered_as (now : datetime) p : Position :=
  match pos_state p with
  | ExitFailed => fst (attempt_exit_recovery now p)
  | Stalled => fst (attempt_stalled_recovery now p)
  | _ => p
  end.
Definition reconciled_as (now : datetime) p : Position :=
  match pos_state p with
  | Pending => if is_stale now p then mark_entry_failed now (StalePosition (age_secs now p)) p else p
  | Closing => mark_exit_failed now interrupted p
  | _ => p
  end.

Lemma stall_pure now : pure (stall_position (fun _ => true) now) (stalled_as now).
Proof.
  intros p [t ids]. unfold stall_position, stalled_as. destruct (is_stale now p); by eexists.
Qed.
Lemma recover_pure now : pure (recover_position (fun _ => true) now) (recovered_as now).
Proof.
  intros p [t ids]. unfold recover_position, recovered_as, needs_recovery, repo_update.
  destruct (pos_state p); simpl; try by eexists.
  - destruct (attempt_exit_recovery now p) as [q []]; by eexists.
  - destruct (attempt_stalled_recovery now p) as [q [s|]]; by eexists.
Qed.
Lemma reconcile_pure now : pure (reconcile_position (fun _ => true) now) (reconciled_as now).
Proof.
  intros p [t r]. unfold reconcile_position, reconciled_as, repo_update.
  destruct (pos_state p); simpl; try by eexists. destruct (is_stale now p); by eexists.
Qed.

Lemma loaded_in ps c p :
  p ∈ ps \/ (exists l, c !! pos_market_id p = Some l /\ p ∈ l) ->
  exists l, foldl push_position c ps !! pos_market_id p = Some l /\ p ∈ l.
Proof.
  revert c. induction ps as [|q ps IH]; intros c H; simpl.
  - destruct H as [H|H]; [by apply elem_of_nil in H|done].
  - apply IH. destruct H as [[->|H]%elem_of_cons|(l & Hl & Hp)]; [|by left|].
    + right. unfold push_position. rewrite lookup_insert_eq. eexists. split; [done|].
      apply elem_of_app. right. apply list_elem_of_here.
    + right. unfold push_position. destruct (decide (pos_market_id q = pos_market_id p)) as [E|E].
      * rewrite E, lookup_insert_eq, Hl. eexists. split; [done|]. apply elem_of_app. by left.
      * rewrite lookup_insert_ne by done. by exists l.
Qed.

(** What a restart has in its cache: every stored active position, reconciled
    and recovered. *)
Lemma reconcile_caches now tk row id :
  tk_table tk !! id = Some row -> row_active row = true -> row_arb_source row = true ->
  exists l, active_positions (fst (reconcile_on_startup true (fun _ => true) now tk)) !! r_market_id row
    = Some l /\ recovered_as now (reconciled_as now (row_to_position row)) ∈ l.
Proof.
  intros Hrow Ha Hsrc. unfold reconcile_on_startup, get_active_for_arb_monitor,
    get_needing_recovery_for_arb_monitor, query.
  set (ps := row_to_position <$> _).
  assert (Hin : row_to_position row ∈ ps).
  { unfold ps. apply elem_of_sorted. exists id, row. by rewrite Ha, Hsrc. }
  destruct (loaded_in ps ∅ (row_to_position row)) as (l & Hl & Hp); [by left|].
  match goal with |- context [visit_all _ _ ?x] =>
    destruct (visit_all_pure _ _ (foldl push_position ∅ ps) x (reconcile_pure now)) as (c1 & [t1 r1] & E1 & H1) end.
  unfold ps in *. rewrite E1. unfold recover_failed_positions. cbn [active_positions tk_table].
  destruct (visit_all_pure _ _ c1 (t1, []) (recover_pure now)) as (c2 & [t2 ids] & E2 & H2).
  rewrite E2. cbn. rewrite H2, H1. change (r_market_id row) with (pos_market_id (row_to_position row)).
  rewrite Hl. simpl. eexists. split; [done|]. by do 2 apply list_elem_of_fmap_2.
Qed.

(** ** The exit check *)

(** The positions the exit check picks. *)
Definition exit_signal (threshold yes_bid no_bid : dec) p : bool :=
  bool_decide (pos_state p = Open) && bool_decide (exit_strategy p = ExitOnCorrection) &&
  (threshold * quantity p <=? potential_profit yes_bid no_bid p)%dec.

Lemma check_exits now th y n l t ready :
  exists t', visit_list (check_exit (fun _ => true) now th y n) l (t, ready) =
    ((fun p => if exit_signal th y n p then moved now ExitReady p else p) <$> l,
     (t', ready ++ (pos_id <$> List.filter (exit_signal th y n) l)), true).
Proof.
  revert t ready. induction l as [|p l IH]; intros t ready; cbn [visit_list].
  { exists t. by rewrite app_nil_r. }
  assert (E : exists t1, check_exit (fun _ => true) now th y n p (t, ready) =
    (if exit_signal th y n p then moved now ExitReady p else p,
     (t1, if exit_signal th y n p then ready ++ [pos_id p] else ready), true)).
  { unfold check_exit, exit_signal, repo_update. simpl.
    destruct (decide (pos_state p = Open)) as [Eo|Eo];
      [rewrite (bool_decide_false (pos_state p <> Open)), (bool_decide_true (pos_state p = Open)) by auto
      |rewrite (bool_decide_true (pos_state p <> Open)), (bool_decide_false (pos_state p = Open)) by auto;
       by exists t].
    destruct (decide (exit_strategy p = ExitOnCorrection)) as [Es|Es];
      [rewrite (bool_decide_false (exit_strategy p <> ExitOnCorrection)),
         (bool_decide_true (exit_strategy p = ExitOnCorrection)) by auto
      |rewrite (bool_decide_true (exit_strategy p <> ExitOnCorrection)),
         (bool_decide_false (exit_strategy p = ExitOnCorrection)) by auto; by exists t].
    simpl. destruct (_ <=? _)%dec; [|by exists t]. unfold mark_exit_ready.
    destruct (transition_spec now Open ExitReady p) as [[_ ->]|[Hne _]]; [by eexists|done]. }
  destruct E as [t1 ->]. destruct (IH t1 (if exit_signal th y n p then ready ++ [pos_id p] else ready))
    as [t2 ->]. exists t2. rewrite fmap_cons. simpl.
  destruct (exit_signal th y n p); simpl; by rewrite <- ?app_assoc.
Qed.

Context {DS : DecimalSpec} {EX : DecimalExact}.
Local Open Scope Q_scope.

Lemma dval_potential y n p :
  dval (potential_profit y n p) ==
    (dval y + dval n) * dval (quantity p) - dval (position_cost p) - (1 # 25) * dval (quantity p).
Proof.
  assert (Hf : dval DEFAULT_FEE == 1 # 50) by (unfold DEFAULT_FEE; rewrite dval_new by lia; done).
  unfold potential_profit. rewrite !dval_sub, !dval_mul, !dval_add, Hf, dval_TWO. lra.
Qed.

(** The drag of the fees at an exit is within the two fees of the estimate. *)
Definition fees_covered y n p : Prop := 0 <= dval (quantity p) /\
  match fee_model p with
  | LegacyFlat =>
      dval y + dval n + dval (yes_entry_price p) + dval (no_entry_price p) <= 2
  | ShareBased =>
      0 <= dval y /\ 0 <= dval n /\
      dval y * dval (yes_entry_fee_shares p) + dval n * dval (no_entry_fee_shares p) <= 1 # 25
  end.

Lemma covered_exit y n p :
  fees_covered y n p -> dval (potential_profit y n p) <= dval (exit_pnl p y n DEFAULT_FEE).
Proof.
  assert (Hf : dval DEFAULT_FEE == 1 # 50) by (unfold DEFAULT_FEE; rewrite dval_new by lia; done).
  intros [Hq Hm]. rewrite dval_potential, dval_exit_pnl. destruct (fee_model p).
  - rewrite Hf. unfold position_cost in *. rewrite dval_mul, dval_add. nra.
  - destruct Hm as (Hy & Hn & Hs).
    set (fy := dval (yes_entry_fee_shares p)) in *. set (fn := dval (no_entry_fee_shares p)) in *.
    pose proof (Q.le_max_l (1 - fy) 0) as My. pose proof (Q.le_max_l (1 - fn) 0) as Mn.
    set (my := Qmax (1 - fy) 0) in *. set (mn := Qmax (1 - fn) 0) in *.
    assert (0 <= dval y * dval (quantity p)) by nra. assert (0 <= dval n * dval (quantity p)) by nra.
    assert (dval y * (dval (quantity p) * (1 - fy)) <= dval y * (dval (quantity p) * my)) by nra.
    assert (dval n * (dval (quantity p) * (1 - fn)) <= dval n * (dval (quantity p) * mn)) by nra.
    nra.
Qed.

(** *** Stalled positions *)

Lemma stalled_cached now k l p tk :
  active_positions tk !! k = Some l -> p ∈ l -> is_stale now p = true ->
  exists l1, active_positions (fst (check_stale_positions (fun _ => true) now tk)) !! k = Some l1 /\
    mark_stalled now now p ∈ l1.
Proof.
  intros Hl Hp Hstale. unfold check_stale_positions.
  destruct (visit_all_pure _ _ (active_positions tk) (tk_table tk, []) (stall_pure now)) as (c & [t ids] & E & Hc).
  rewrite E. simpl. rewrite Hc, Hl. simpl. eexists. split; [done|].
  apply list_elem_of_fmap. exists p. split; [|done]. unfold stalled_as. by rewrite Hstale.
Qed.

Lemma stale_sources now tk :
  map_Forall (fun _ row => row_arb_source row = true) (tk_table tk) ->
  map_Forall (fun _ row => row_arb_source row = true)
    (tk_table (fst (check_stale_positions (fun _ => true) now tk))).
Proof.
  intros Hsrc. unfold check_stale_positions. destruct (visit_all _ _ _) as [[c [t ids]] go] eqn:E.
  eapply visit_all_rows; [apply (stall_mirroring now)| |exact Hsrc|exact E]. by intros id r q.
Qed.

Lemma settled_field {A} (f : Position -> A) p q :
  (forall x, f (settled x) = f x) -> settled p = settled q -> f p = f q.
Proof. intros Hf E. by rewrite <- (Hf p), E, Hf. Qed.

(** Without the state before the stall, entry prices count as fills. *)
Lemma forgotten_stall_opens now q :
  pos_state q = Stalled -> pre_stall_state q = None -> yes_exit_price q = None -> no_exit_price q = None ->
  0 < dval (yes_entry_price q) -> 0 < dval (no_entry_price q) ->
  pos_id (recovered_as now (reconciled_as now q)) = pos_id q /\
  pos_state (recovered_as now (reconciled_as now q)) = Open.
Proof.
  intros F1 F2 F3 F4 Hy Hn. unfold reconciled_as. rewrite F1. unfold recovered_as. rewrite F1.
  unfold attempt_stalled_recovery. rewrite F1, F2, F3, F4. cbn [bool_decide decide fst].
  assert ((ZERO <? yes_entry_price q)%dec = true) as -> by (apply dec_ltb_lt; by rewrite dval_ZERO).
  assert ((ZERO <? no_entry_price q)%dec = true) as -> by (apply dec_ltb_lt; by rewrite dval_ZERO).
  done.
Qed.

(** ** Theorems *)

(** Exit signals are exact and honest: with a working database the check
    of a market whose book has both bids signals exactly its open positions
    with the correction strategy whose estimated profit reaches the threshold,
    makes them exit-ready and changes nothing else; and selling a signalled
    position at these bids realizes at least the threshold per share, as long
    as its fees stay within the two flat fees of the estimate. *)
Theorem exit_signals_honest now market_id book y n v l tk :
  active_positions tk !! market_id = Some l -> exit_value book = Some (y, n, v) ->
  exists tk', check_exit_opportunities (fun _ => true) now market_id book tk =
      (tk', Ok (pos_id <$> List.filter (exit_signal (exit_threshold tk) y n) l)) /\
    active_positions tk' = <[market_id := (fun p => if exit_signal (exit_threshold tk) y n p
      then moved now ExitReady p else p) <$> l]> (active_positions tk) /\
    forall p, p ∈ l -> exit_signal (exit_threshold tk) y n p = true ->
      pos_state p = Open /\ exit_strategy p = ExitOnCorrection /\
      (fees_covered y n p ->
       dval (exit_threshold tk) * dval (quantity p) <= dval (exit_pnl p y n DEFAULT_FEE)).
Proof.
  intros Hl Hv. unfold check_exit_opportunities. rewrite Hl, Hv.
  destruct (check_exits now (exit_threshold tk) y n l (tk_table tk) []) as [t' ->].
  eexists. split; [done|]. split; [done|]. intros p _ Hs. unfold exit_signal in Hs.
  apply andb_prop in Hs as [Hs Hp]. reflect_bools. dec_to_Q.
  split; [done|]. split; [done|]. intros Hc. apply covered_exit in Hc. rewrite dval_mul in Hp. lra.
Qed.


(** A restart opens a position that was never bought: a pending position
    that went stale is recovered to pending as long as the process lives, but
    the state before the stall is not stored, so when the tracker restarts the
    reconciliation takes the requested entry prices for fills and recovers it
    as open, in the cache and in the table. *)
Theorem restart_opens_stalled_pending now1 now2 threshold k l p tk :
  in_sync tk -> active_positions tk !! k = Some l -> p ∈ l ->
  pos_state p = Pending -> is_stale now1 p = true ->
  yes_exit_price p = None -> no_exit_price p = None ->
  0 < dval (yes_entry_price p) -> 0 < dval (no_entry_price p) ->
  map_Forall (fun _ row => row_arb_source row = true) (tk_table tk) ->
  let tk1 := fst (check_stale_positions (fun _ => true) now1 tk) in
  (exists l1, active_positions (fst (recover_failed_positions (fun _ => true) now2 tk1)) !! k = Some l1 /\
     exists q, q ∈ l1 /\ pos_id q = pos_id p /\ pos_state q = Pending) /\
  let tk2 := fst (reconcile_on_startup true (fun _ => true) now2 (tracker_new threshold (tk_table tk1))) in
  in_sync tk2 /\ exists l2, active_positions tk2 !! k = Some l2 /\
    exists q, q ∈ l2 /\ pos_id q = pos_id p /\ pos_state q = Open.
Proof.
  intros Hs Hl Hp Hstate Hstale Hye Hne Hy Hn Hsrc tk1.
  pose proof (exec_sync (TStale now1) tk Hs) as [Hk1 Hm1]. cbn [t_exec] in Hk1, Hm1. fold tk1 in Hk1, Hm1.
  destruct (stalled_cached now1 k l p tk Hl Hp Hstale) as (l1 & Hl1 & Hp1). fold tk1 in Hl1. split.
  - unfold recover_failed_positions.
    destruct (visit_all_pure _ _ (active_positions tk1) (tk_table tk1, []) (recover_pure now2)) as (c & [t ids] & E & Hc).
    rewrite E. simpl. rewrite Hc, Hl1. simpl. eexists. split; [done|].
    exists (recovered_as now2 (mark_stalled now1 now1 p)). split; [by apply list_elem_of_fmap_2|].
    unfold recovered_as, attempt_stalled_recovery. simpl. by rewrite Hstate.
  - split; [apply (exec_sync (TReconcile now2)); split; [done|apply mirrors_empty]|].
    destruct (mi_stored _ _ _ (Hm1 _ _ Hl1) _ Hp1) as [Hk (_ & row & Hrow & Hid & Hset)].
    pose proof (fun A f Hf => @settled_field A f _ _ Hf Hset) as G.
    pose proof (G _ pos_state ltac:(done)) as F1. pose proof (G _ pos_market_id ltac:(done)) as F2.
    destruct (reconcile_caches now2 (tracker_new threshold (tk_table tk1)) row (pos_id p))
      as (l2 & Hl2 & Hin); [exact Hrow| |by apply (stale_sources now1 tk Hsrc _ _ Hrow)|].
    { simpl in F1. unfold row_active. unfold state_of_code in F1. by repeat case_match. }
    change (r_market_id row) with (pos_market_id (row_to_position row)) in Hl2. rewrite F2 in Hl2.
    rewrite Hk in Hl2. exists l2. split; [exact Hl2|]. eexists. split; [exact Hin|].
    change (pos_id p) with (pos_id (mark_stalled now1 now1 p)).
    rewrite <- (G _ pos_id ltac:(done)). apply forgotten_stall_opens;
      rewrite ?F1, ?(G _ yes_exit_price), ?(G _ no_exit_price), ?(G _ yes_entry_price),
        ?(G _ no_entry_price) by done; done.
Qed.
End Facts.

(** ** Witnesses *)

Module Example_tracker.
Import Concrete.

#[local] Existing Instance decimal.
#[local] Existing Instance decimal_spec.
#[local] Existing Instance decimal_exact.
#[local] Existing Instance chrono.
#[local] Existing Instance uuid.
#[local] Existing Instance ConcreteJson.json.
#[local] Existing Instance ConcreteJson.json_spec.

#[local] Instance hash : HashOps := {| hash_keys A m := (map_to_list m).*1 |}.
#[local] Instance hash_spec : HashSpec.
Proof. by split. Defined.

Definition half_arb : ArbOpportunity := {|
  arb_market_id := "m"; arb_timestamp := at_minute 0; yes_ask := d 48 2; no_ask := d 46 2;
  total_cost := d 94 2; gross_profit := d 6 2; net_profit := d 4 2; fee_drag := d 2 2;
  worst_case_payout := d 98 2; yes_fee_shares := d 1 2; no_fee_shares := d 1 2 |}.
Definition requested : Position :=
  apply_arb_fee_model half_arb
    (position_new 1%positive (at_minute 0) "m" (d 48 2) (d 46 2) (d 100 0) ExitOnCorrection).
Definition fresh : PositionTracker := tracker_new None ∅.
Definition tracking : PositionTracker :=
  fst (create_position true 1%positive (at_minute 0) half_arb (d 100 0) ExitOnCorrection fresh).

Definition side (outcome : string) (bid : dec) : OrderBook := {|
  ob_market_id := "m"; ob_outcome_id := outcome; ob_timestamp := at_minute 1;
  bids := [{| level_price := bid; level_size := d 100 0 |}]; asks := [] |}.
(** Bids of 52 and 50 cents. *)
Definition recovered_book : BinaryMarketBook := {|
  bmb_market_id := "m"; bmb_timestamp := at_minute 1;
  yes_book := side "yes" (d 52 2); no_book := side "no" (d 50 2) |}.
Definition opened : PositionTracker :=
  {| fresh with active_positions := {[ "m" := [moved (at_minute 1) Open requested] ]} |}.

Lemma fresh_sync : in_sync fresh.
Proof. split; [apply map_Forall_empty|apply mirrors_empty]. Qed.
Lemma tracking_sync : in_sync tracking.
Proof. apply create_sync, fresh_sync. Qed.

Lemma exit_signals_honest_witness :
  exists tk', check_exit_opportunities (fun _ => true) (at_minute 2) "m" recovered_book opened =
    (tk', Ok (pos_id <$> List.filter (exit_signal (exit_threshold opened) (d 52 2) (d 50 2))
                           [moved (at_minute 1) Open requested])).
Proof.
  destruct (exit_signals_honest (at_minute 2) "m" recovered_book (d 52 2) (d 50 2)
    (d 52 2 + d 50 2)%dec [moved (at_minute 1) Open requested] opened) as (tk' & E & _).
  - reflexivity.
  - reflexivity.
  - exists tk'. exact E.
Defined.


Lemma restart_opens_stalled_pending_witness :
  let tk1 := fst (check_stale_positions (fun _ => true) (at_minute 6) tracking) in
  let tk2 := fst (reconcile_on_startup true (fun _ => true) (at_minute 7)
                    (tracker_new None (tk_table tk1))) in
  exists l2, active_positions tk2 !! "m" = Some l2 /\
    exists q, q ∈ l2 /\ pos_id q = pos_id requested /\ pos_state q = Open.
Proof.
  refine (proj2 (proj2 (restart_opens_stalled_pending (at_minute 6) (at_minute 7) None "m" [requested]
    requested tracking tracking_sync _ _ _ _ _ _ _ _ _))).
  - reflexivity.
  - apply list_elem_of_here.
  - reflexivity.
  - vm_compute. reflexivity.
  - reflexivity.
  - reflexivity.
  - vm_compute. reflexivity.
  - vm_compute. reflexivity.
  - apply map_Forall_insert_2; [reflexivity|apply map_Forall_empty].
Defined.
End Example_tracker.
