(* ===== verification/BookStream.v ===== *)
(** * The order-book stream

    Models the websocket client of [crates/polymarket-core/src/api/clob.rs]: the
    parsing of a message, the books of a connection, its loop with the ping and
    the read deadline, and the reconnections.  What serde_json makes of a text
    is the class [WsDecoder]; what chrono parses is [TimestampOps]. *)

From stdpp Require Import sorting.
From S2P Require Import Prelude Platform Market.

(** ** Messages *)

Inductive WsParseKind : Type :=
| ControlPing | ControlPong | InvalidOperation | InvalidJson | WsSnapshot | WsPriceChanged
| EmptyPriceChange | UnsupportedArray | UnsupportedObject | UnsupportedValue.
#[export] Instance WsParseKind_eq_dec : EqDecision WsParseKind.
Proof. solve_decision. Defined.
Definition kind_str (k : WsParseKind) : string :=
  match k with
  | ControlPing => "control_ping" | ControlPong => "control_pong"
  | InvalidOperation => "invalid_operation" | InvalidJson => "invalid_json"
  | WsSnapshot => "snapshot" | WsPriceChanged => "price_change"
  | EmptyPriceChange => "empty_price_change" | UnsupportedArray => "unsupported_array"
  | UnsupportedObject => "unsupported_object" | UnsupportedValue => "unsupported_value"
  end.
Definition is_parse_miss (k : WsParseKind) : bool :=
  match k with
  | InvalidOperation | InvalidJson | EmptyPriceChange | UnsupportedArray | UnsupportedObject
  | UnsupportedValue => true
  | _ => false
  end.

Record ClobPriceLevel : Type := { cl_price : string; cl_size : string }.
Record WsBook : Type := {
  wb_market : string;
  wb_asset_id : string;
  wb_bids : list ClobPriceLevel;
  wb_asks : list ClobPriceLevel;
  wb_timestamp : string;
}.
Record WsPriceChange : Type := {
  wc_asset_id : string;
  wc_price : string;
  wc_size : string;
  wc_side : string;
}.
Record WsPriceChangeEvent : Type := {
  we_market : string;
  we_price_changes : list WsPriceChange;
  we_timestamp : option string;
}.

(** [serde_json::Value] as far as it is looked at. *)
Inductive WsShape (V : Type) : Type := WsArray (items : list V) | WsObject | WsScalar.
Arguments WsArray {V}.
Arguments WsObject {V}.
Arguments WsScalar {V}.
Class WsDecoder : Type := {
  ws_value : Type;
  (** [serde_json::from_str]. *)
  ws_from_str : string -> option ws_value;
  ws_shape : ws_value -> WsShape ws_value;
  (** [serde_json::from_value] as a book and as a change. *)
  ws_book_of : ws_value -> option WsBook;
  ws_event_of : ws_value -> option WsPriceChangeEvent;
}.
Class TimestampOps `{CO : ChronoOps} : Type := {
  from_timestamp_millis : Z -> option datetime;
  (** [s.parse::<DateTime<Utc>>().ok()]. *)
  dt_parse : string -> option datetime;
}.

(** [a.eq_ignore_ascii_case(b)]. *)
Definition eq_ignore_case (a b : string) : bool := bool_decide (string_lower a = string_lower b).

Section Stream.
Context `{DO : DecimalOps} `{CO : ChronoOps} `{TO : !TimestampOps} `{WD : WsDecoder}.

Record OrderBookUpdate : Type := {
  bu_market_id : string;
  bu_asset_id : string;
  bu_timestamp : datetime;
  bu_bids : list PriceLevel;
  bu_asks : list PriceLevel;
}.
Record ParsedWsMessage : Type := { pm_updates : list OrderBookUpdate; pm_kind : WsParseKind }.

Definition parse_ws_timestamp (raw : string) (now : datetime) : datetime :=
  match parse_i64 raw ≫= from_timestamp_millis with
  | Some ts => ts
  | None => default now (dt_parse raw)
  end.

(** A level that does not parse has price or size 0. *)
Definition parse_level (l : ClobPriceLevel) : PriceLevel := {|
  level_price := default ZERO (dec_parse (cl_price l));
  level_size := default ZERO (dec_parse (cl_size l)) |}.
Definition update_of_book (b : WsBook) (now : datetime) : OrderBookUpdate := {|
  bu_market_id := wb_market b;
  bu_asset_id := wb_asset_id b;
  bu_timestamp := parse_ws_timestamp (wb_timestamp b) now;
  bu_bids := parse_level <$> wb_bids b;
  bu_asks := parse_level <$> wb_asks b |}.
Definition parse_ws_book_from_value (v : ws_value) (now : datetime) : option OrderBookUpdate :=
  b ← ws_book_of v; Some (update_of_book b now).
Definition update_to_orderbook (u : OrderBookUpdate) : OrderBook := {|
  ob_market_id := bu_market_id u; ob_outcome_id := bu_asset_id u; ob_timestamp := bu_timestamp u;
  bids := bu_bids u; asks := bu_asks u |}.
Definition orderbook_to_update (b : OrderBook) : OrderBookUpdate := {|
  bu_market_id := ob_market_id b; bu_asset_id := ob_outcome_id b; bu_timestamp := ob_timestamp b;
  bu_bids := bids b; bu_asks := asks b |}.

(** ** Changes of a book *)

(** Bids are ordered by descending prices, asks by ascending ones. *)
Definition better (descending : bool) (a b : PriceLevel) : Prop :=
  if descending then (level_price b <=? level_price a)%dec = true
  else (level_price a <=? level_price b)%dec = true.
#[export] Instance better_dec descending : RelDecision (better descending).
Proof. intros a b. unfold better. destruct descending; apply _. Defined.

Definition at_price (price : dec) (l : PriceLevel) : Prop := (level_price l =? price)%dec = true.
#[export] Instance at_price_dec price l : Decision (at_price price l).
Proof. unfold at_price. apply _. Defined.

Definition set_size (size : dec) (l : PriceLevel) : PriceLevel := {| l with level_size := size |}.
Definition change_level (levels : list PriceLevel) (price size : dec) : list PriceLevel :=
  match list_find (at_price price) levels with
  | Some (idx, _) => if (size <=? ZERO)%dec then delete idx levels else alter (set_size size) idx levels
  | None => if (size >? ZERO)%dec then levels ++ [{| level_price := price; level_size := size |}]
            else levels
  end.
Definition upsert_level (levels : list PriceLevel) (price size : dec) (descending : bool)
    : list PriceLevel := merge_sort (better descending) (change_level levels price size).

Abbreviation Books := (gmap string OrderBook).
Definition empty_book (market_id asset_id : string) (t : datetime) : OrderBook := {|
  ob_market_id := market_id; ob_outcome_id := asset_id; ob_timestamp := t; bids := []; asks := [] |}.
(** The book of an asset, as of an event. *)
Definition touched_book (market_id : string) (t : datetime) (asset_id : string) (books : Books)
    : OrderBook :=
  let b := default (empty_book market_id asset_id t) (books !! asset_id) in
  {| b with ob_market_id := market_id; ob_timestamp := t |}.
Definition set_bids (levels : list PriceLevel) (b : OrderBook) : OrderBook := {| b with bids := levels |}.
Definition set_asks (levels : list PriceLevel) (b : OrderBook) : OrderBook := {| b with asks := levels |}.

Definition apply_price_change (market_id : string) (t : datetime) (c : WsPriceChange) (books : Books)
    : Books * option OrderBookUpdate :=
  match dec_parse (wc_price c), dec_parse (wc_size c) with
  | Some price, Some size =>
      let asset := wc_asset_id c in
      let b := touched_book market_id t asset books in
      if eq_ignore_case (wc_side c) "BUY" then
        let b := set_bids (upsert_level (bids b) price size true) b in
        (<[asset := b]> books, Some (orderbook_to_update b))
      else if eq_ignore_case (wc_side c) "SELL" then
        let b := set_asks (upsert_level (asks b) price size false) b in
        (<[asset := b]> books, Some (orderbook_to_update b))
      else (<[asset := b]> books, None)
  | _, _ => (books, None)
  end.
Fixpoint apply_changes (market_id : string) (t : datetime) (cs : list WsPriceChange) (books : Books)
    : Books * list OrderBookUpdate :=
  match cs with
  | [] => (books, [])
  | c :: cs =>
      let '(books, u) := apply_price_change market_id t c books in
      let '(books, us) := apply_changes market_id t cs books in
      (books, option_list u ++ us)
  end.
Definition apply_price_changes (e : WsPriceChangeEvent) (now : datetime) (books : Books)
    : Books * list OrderBookUpdate :=
  let t := match we_timestamp e with None => now | Some raw => parse_ws_timestamp raw now end in
  apply_changes (we_market e) t (we_price_changes e) books.

(** ** A text message

    [clock i] is the time when its [i]-th item is read. *)

Definition store_update (u : OrderBookUpdate) (books : Books) : Books :=
  <[bu_asset_id u := update_to_orderbook u]> books.
Fixpoint snapshots (clock : nat -> datetime) (items : list ws_value) (books : Books)
    : Books * list OrderBookUpdate :=
  match items with
  | [] => (books, [])
  | v :: items =>
      let u := parse_ws_book_from_value v (clock 0%nat) in
      let '(books, us) := snapshots (fun i => clock (S i)) items (from_option store_update id u books) in
      (books, option_list u ++ us)
  end.
Definition parsed (us : list OrderBookUpdate) (some none : WsParseKind) : ParsedWsMessage :=
  {| pm_updates := us; pm_kind := match us with [] => none | _ => some end |}.
Definition parse_ws_message (clock : nat -> datetime) (text : string) (books : Books)
    : Books * ParsedWsMessage :=
  let trimmed := string_trim text in
  if eq_ignore_case trimmed "PING" then (books, parsed [] ControlPing ControlPing)
  else if eq_ignore_case trimmed "PONG" then (books, parsed [] ControlPong ControlPong)
  else if eq_ignore_case trimmed "INVALID OPERATION"
       then (books, parsed [] InvalidOperation InvalidOperation)
  else match ws_from_str trimmed with
  | None => (books, parsed [] InvalidJson InvalidJson)
  | Some v =>
      match ws_shape v with
      | WsArray items =>
          let '(books, us) := snapshots clock items books in
          (books, parsed us WsSnapshot UnsupportedArray)
      | WsObject =>
          match parse_ws_book_from_value v (clock 0%nat) with
          | Some u => (store_update u books, parsed [u] WsSnapshot WsSnapshot)
          | None =>
              match ws_event_of v with
              | Some e => let '(books, us) := apply_price_changes e (clock 0%nat) books in
                          (books, parsed us WsPriceChanged EmptyPriceChange)
              | None => (books, parsed [] UnsupportedObject UnsupportedObject)
              end
          end
      | WsScalar => (books, parsed [] UnsupportedValue UnsupportedValue)
      end
  end.

(** ** The statistics of the process *)

Record WebSocketRuntimeStatsSnapshot : Type := {
  subscribed_assets : Z;
  subscriptions_started_total : Z;
  text_messages_received_total : Z;
  orderbook_updates_emitted_total : Z;
  parse_misses_total : Z;
  snapshot_messages_total : Z;
  price_change_messages_total : Z;
  invalid_operation_messages_total : Z;
  ping_messages_received_total : Z;
  pong_messages_received_total : Z;
  ws_last_message_at : option datetime;
  ws_last_orderbook_update_at : option datetime;
  ws_last_parse_miss_at : option datetime;
  ws_last_parse_miss_kind : option string;
  ws_last_message_kind : option string;
}.
Abbreviation WsStats := WebSocketRuntimeStatsSnapshot.
Definition default_ws_stats : WsStats := {|
  subscribed_assets := 0; subscriptions_started_total := 0; text_messages_received_total := 0;
  orderbook_updates_emitted_total := 0; parse_misses_total := 0; snapshot_messages_total := 0;
  price_change_messages_total := 0; invalid_operation_messages_total := 0;
  ping_messages_received_total := 0; pong_messages_received_total := 0; ws_last_message_at := None;
  ws_last_orderbook_update_at := None; ws_last_parse_miss_at := None; ws_last_parse_miss_kind := None;
  ws_last_message_kind := None |}.

Definition note_subscription (assets : nat) (s : WsStats) : WsStats :=
  {| s with subscribed_assets := Z.of_nat assets;
            subscriptions_started_total := u64_sat_add (subscriptions_started_total s) 1;
            ws_last_message_kind := Some "subscription_started" |}.
Definition count_kind (k : WsParseKind) (s : WsStats) : WsStats :=
  match k with
  | WsSnapshot => {| s with snapshot_messages_total := u64_sat_add (snapshot_messages_total s) 1 |}
  | WsPriceChanged =>
      {| s with price_change_messages_total := u64_sat_add (price_change_messages_total s) 1 |}
  | InvalidOperation =>
      {| s with invalid_operation_messages_total := u64_sat_add (invalid_operation_messages_total s) 1 |}
  | ControlPing => {| s with ping_messages_received_total := u64_sat_add (ping_messages_received_total s) 1 |}
  | ControlPong => {| s with pong_messages_received_total := u64_sat_add (pong_messages_received_total s) 1 |}
  | _ => s
  end.
Definition note_miss (now : datetime) (k : WsParseKind) (s : WsStats) : WsStats :=
  if is_parse_miss k then
    {| s with parse_misses_total := u64_sat_add (parse_misses_total s) 1;
              ws_last_parse_miss_at := Some now; ws_last_parse_miss_kind := Some (kind_str k) |}
  else s.
Definition note_updates (now : datetime) (us : list OrderBookUpdate) (s : WsStats) : WsStats :=
  match us with
  | [] => s
  | _ => {| s with orderbook_updates_emitted_total :=
                     u64_sat_add (orderbook_updates_emitted_total s) (Z.of_nat (length us));
                   ws_last_orderbook_update_at := Some now |}
  end.
Definition note_received (now : datetime) (kind : string) (s : WsStats) : WsStats :=
  {| s with ws_last_message_at := Some now; ws_last_message_kind := Some kind |}.
Definition note_text (now : datetime) (p : ParsedWsMessage) (s : WsStats) : WsStats :=
  let s := note_received now (kind_str (pm_kind p))
             {| s with text_messages_received_total := u64_sat_add (text_messages_received_total s) 1 |} in
  note_updates now (pm_updates p) (note_miss now (pm_kind p) (count_kind (pm_kind p) s)).
Definition note_ping (now : datetime) (s : WsStats) : WsStats :=
  note_received now "ping_frame"
    {| s with ping_messages_received_total := u64_sat_add (ping_messages_received_total s) 1 |}.
Definition note_pong (now : datetime) (s : WsStats) : WsStats :=
  note_received now "pong_frame"
    {| s with pong_messages_received_total := u64_sat_add (pong_messages_received_total s) 1 |}.

(** ** A connection *)

Inductive WsError : Type := NoAssets | NotConnected | NotWritten | ReadTimedOut | NotRead.

(** What the stream yields. *)
Inductive WsFrame : Type :=
| TextFrame (text : string) | PingFrame | PongFrame | CloseFrame | OtherFrame | ErrorFrame | StreamEnded.
(** The clock while a frame is handled, how many of its updates the receiver
    takes before it is gone, if it goes, and whether a reply can be written. *)
Record FrameEnv : Type := {
  fe_clock : nat -> datetime;
  fe_now : datetime;
  fe_gone_after : option nat;
  fe_writes : bool;
}.
Definition delivered (en : FrameEnv) (us : list OrderBookUpdate) : list OrderBookUpdate * bool :=
  match fe_gone_after en with
  | Some n => if decide (n < length us)%nat then (take n us, false) else (us, true)
  | None => (us, true)
  end.

(** The books of the connection, the statistics, and what was sent to the
    receiver. *)
Record WsConnection : Type := {
  wn_books : Books;
  wn_stats : WsStats;
  wn_sent : list OrderBookUpdate;
}.
Definition with_stats (f : WsStats -> WsStats) (c : WsConnection) : WsConnection :=
  {| c with wn_stats := f (wn_stats c) |}.

(** [None]: the loop goes on. *)
Definition WsTurn : Type := WsConnection * option (result unit WsError).
Definition on_text (en : FrameEnv) (text : string) (c : WsConnection) : WsTurn :=
  let '(books, p) := parse_ws_message (fe_clock en) text (wn_books c) in
  let '(sent, listening) := delivered en (pm_updates p) in
  ({| wn_books := books; wn_stats := note_text (fe_now en) p (wn_stats c); wn_sent := wn_sent c ++ sent |},
   if listening then None else Some (Ok tt)).
Definition on_frame (en : FrameEnv) (f : WsFrame) (c : WsConnection) : WsTurn :=
  match f with
  | TextFrame text => on_text en text c
  | PingFrame => (with_stats (note_ping (fe_now en)) c, if fe_writes en then None else Some (Err NotWritten))
  | PongFrame => (with_stats (note_pong (fe_now en)) c, None)
  | CloseFrame => (with_stats (note_received (fe_now en) "close_frame") c, Some (Ok tt))
  | OtherFrame => (c, None)
  | ErrorFrame => (c, Some (Err NotRead))
  | StreamEnded => (c, Some (Ok tt))
  end.

(** What wakes the loop; [OnPingTick] carries whether the ping can be written. *)
Inductive WsEvent : Type :=
| OnPingTick (writes : bool) | OnReadDeadline | OnFrame (en : FrameEnv) (f : WsFrame).
Definition ws_turn (e : WsEvent) (c : WsConnection) : WsTurn :=
  match e with
  | OnPingTick writes => (c, if writes then None else Some (Err NotWritten))
  | OnReadDeadline => (c, Some (Err ReadTimedOut))
  | OnFrame en f => on_frame en f c
  end.
Fixpoint ws_run (events : list WsEvent) (c : WsConnection) : WsTurn :=
  match events with
  | [] => (c, None)
  | e :: events => let '(c, r) := ws_turn e c in
                   match r with None => ws_run events c | Some r => (c, Some r) end
  end.

(** A session: does it connect and subscribe, its events, and whether the
    receiver is gone once it has ended. *)
Record WsSession : Type := {
  wx_connects : bool;
  wx_subscribes : bool;
  wx_events : list WsEvent;
  wx_closed : bool;
}.
(** The process: the statistics and what was sent. *)
Definition WsProcess : Type := WsStats * list OrderBookUpdate.
Definition ws_loop (asset_ids : list string) (x : WsSession) (p : WsProcess)
    : WsProcess * option (result unit WsError) :=
  match asset_ids with
  | [] => (p, Some (Err NoAssets))
  | _ =>
      if negb (wx_connects x) then (p, Some (Err NotConnected))
      else if negb (wx_subscribes x) then (p, Some (Err NotWritten))
      else
        let '(c, r) := ws_run (wx_events x)
             {| wn_books := ∅; wn_stats := note_subscription (length asset_ids) p.1; wn_sent := p.2 |} in
        ((wn_stats c, wn_sent c), r)
  end.

(** The pause before a reconnection, in seconds. *)
Definition backoff_secs (attempt : Z) : Z := Z.min (Z.min (1 * Z.min (2 ^ attempt) u64_max) u64_max) 60.
Definition u32_sat_succ (n : Z) : Z := Z.min (n + 1) u32_max.
(** The sessions one after the other, with the pauses between them; the last
    session may still run. *)
Fixpoint ws_loop_with_reconnect (asset_ids : list string) (attempt : Z) (xs : list WsSession)
    (p : WsProcess) : WsProcess * list Z :=
  match xs with
  | [] => (p, [])
  | x :: xs =>
      let '(p, r) := ws_loop asset_ids x p in
      match r with
      | None => (p, [])
      | Some _ =>
          if wx_closed x then (p, [])
          else let '(p, pauses) := ws_loop_with_reconnect asset_ids (u32_sat_succ attempt) xs p in
               (p, backoff_secs attempt :: pauses)
      end
  end.
(** [subscribe_orderbook] starts the loop and cannot fail. *)
Definition subscribe_orderbook (asset_ids : list string) (xs : list WsSession) (stats : WsStats)
    : WsProcess * list Z := ws_loop_with_reconnect asset_ids 0 xs (stats, []).

(** ** The timers of a connection

    As in the monitor: [fires ready b t] says that with the branches ready at
    [ready], [select!] completes at [t] with [b], [next_deadline due t] when an
    [interval] whose tick was due at [due] and taken at [t] ticks again. *)

Inductive WsBranch : Type := WPing | WDeadline | WFrame.
Definition ws_branch (e : WsEvent) : WsBranch :=
  match e with OnPingTick _ => WPing | OnReadDeadline => WDeadline | OnFrame _ _ => WFrame end.

Section Timing.
Variable fires : (WsBranch -> option Z) -> WsBranch -> Z -> Prop.
Variable next_deadline : Z -> Z -> Z.
(** The read timeout, and how long a turn takes at most. *)
Variable read_timeout : Z.
Variable turn_time : Z.

Record WsTimers : Type := { wt_now : Z; wt_ping : Z; wt_deadline : Z }.
(** [arrival]: when the next frame arrives. *)
Definition ws_ready (arrival : option Z) (t : WsTimers) (b : WsBranch) : option Z :=
  match b with
  | WPing => Some (Z.max (wt_now t) (wt_ping t))
  | WDeadline => Some (Z.max (wt_now t) (wt_deadline t))
  | WFrame => Z.max (wt_now t) <$> arrival
  end.
(** A frame resets the deadline, at [reset]; the turn ends at [later]. *)
Definition ws_rearm (b : WsBranch) (fired reset later : Z) (t : WsTimers) : WsTimers :=
  match b with
  | WPing => {| wt_now := later; wt_ping := next_deadline (wt_ping t) fired; wt_deadline := wt_deadline t |}
  | WDeadline => {| wt_now := later; wt_ping := wt_ping t; wt_deadline := wt_deadline t |}
  | WFrame => {| wt_now := later; wt_ping := wt_ping t; wt_deadline := (reset + read_timeout)%Z |}
  end.
Inductive ws_timed : WsTimers -> list WsEvent -> Prop :=
| ws_timed_nil t : ws_timed t []
| ws_timed_cons t e events arrival fired reset later :
    fires (ws_ready arrival t) (ws_branch e) fired ->
    (fired <= reset)%Z -> (reset <= later)%Z -> (later <= fired + turn_time)%Z ->
    ws_timed (ws_rearm (ws_branch e) fired reset later t) events ->
    ws_timed t (e :: events).
End Timing.
End Stream.
