(* ===== verification/BookStreamFacts.v ===== *)
(** * Properties of the order-book stream

    The books of a connection are the last writes of the exchange, best level
    first, and its receiver has them; when a connection times out and when it
    does not; how long the pauses between connections are. *)

From stdpp Require Import sorting.
From S2P Require Import Prelude Platform Market BookStream.

Local Open Scope nat_scope.

(** ** Levels *)

Section Levels.
Context `{DO : DecimalOps} {DS : DecimalSpec}.
Implicit Types (l : list PriceLevel) (p s : dec).

(** Prices as numbers. *)
Definition price_key p : Q := Qred (dval p).
Definition level_key (x : PriceLevel) : Q := price_key (level_price x).
Lemma at_price_key p x : at_price p x <-> level_key x = price_key p.
Proof.
  unfold at_price, level_key, price_key. rewrite dec_eqb_eq. split; [apply Qred_complete|].
  intros E. rewrite <- (Qred_correct (dval (level_price x))), E. apply Qred_correct.
Qed.
#[export] Instance Q_leibniz_dec : EqDecision Q.
Proof. intros [a b] [c e]. destruct (decide (a = c)), (decide (b = e)); (left; congruence) || (right; congruence). Defined.

(** No two levels have one price. *)
Definition distinct l : Prop := NoDup (level_key <$> l).
(** The size at a price. *)
Definition level_at l p : option dec := level_size ∘ snd <$> list_find (at_price p) l.

Lemma level_at_spec l p s : distinct l ->
  level_at l p = Some s <-> exists x, x ∈ l /\ level_key x = price_key p /\ level_size x = s.
Proof.
  intros Hd. unfold level_at. rewrite fmap_Some. split.
  - intros ([i x] & (Hx & Hp & _)%list_find_Some & ->). exists x. rewrite <- at_price_key.
    split; [by eapply list_elem_of_lookup_2|done].
  - intros (x & Hx & Hp & <-). apply at_price_key in Hp. apply list_elem_of_lookup_1 in Hx as [i Hi].
    assert (exists j y, list_find (at_price p) l = Some (j, y)) as (j & y & E).
    { destruct (list_find_elem_of (at_price p) l x) as [[j y] E]; [by eapply list_elem_of_lookup_2|done|].
      by exists j, y. }
    exists (j, y). split; [done|]. apply list_find_Some in E as (Hj & Hy & _). cbn.
    assert (i = j) as ->; [|congruence]. apply at_price_key in Hp, Hy.
    apply (NoDup_lookup (level_key <$> l) i j (price_key p)); [exact Hd| |];
      rewrite list_lookup_fmap, ?Hi, ?Hj; cbn; congruence.
Qed.
Lemma level_at_perm l l' p : l ≡ₚ l' -> distinct l -> level_at l' p = level_at l p.
Proof.
  intros Hl Hd. assert (distinct l') as Hd' by (unfold distinct; by rewrite <- Hl).
  apply option_eq. intros s. rewrite !level_at_spec by done. by setoid_rewrite Hl.
Qed.

Definition not_at p (x : PriceLevel) : Prop := level_key x <> price_key p.
Lemma level_at_none l p : level_at l p = None <-> Forall (not_at p) l.
Proof.
  unfold level_at. rewrite fmap_None, list_find_None. apply Forall_proper; [|done].
  intros x. unfold not_at. by rewrite at_price_key.
Qed.

(** [change_level] writes one price. *)
Definition written s : option dec := if (s >? ZERO)%dec then Some s else None.

Lemma level_split l p i x : list_find (at_price p) l = Some (i, x) ->
  exists a b, l = a ++ x :: b /\ i = length a /\ level_key x = price_key p.
Proof.
  intros (Hi & Hx & _)%list_find_Some. apply list_elem_of_split_length in Hi as (a & b & E & Ei).
  exists a, b. split; [done|]. split; [done|by apply at_price_key].
Qed.
Lemma alter_middle (f : PriceLevel -> PriceLevel) a x b : alter f (length a) (a ++ x :: b) = a ++ f x :: b.
Proof. induction a; cbn; [done|]. f_equal. done. Qed.

Inductive changed_level l p s : list PriceLevel -> Prop :=
| changed_removed a x b : l = a ++ x :: b -> level_key x = price_key p -> written s = None ->
    changed_level l p s (a ++ b)
| changed_resized a x b : l = a ++ x :: b -> level_key x = price_key p -> written s = Some s ->
    changed_level l p s (a ++ set_size s x :: b)
| changed_added : Forall (not_at p) l -> written s = Some s ->
    changed_level l p s (l ++ [{| level_price := p; level_size := s |}])
| changed_kept : Forall (not_at p) l -> written s = None -> changed_level l p s l.
Lemma change_level_cases l p s : changed_level l p s (change_level l p s).
Proof.
  unfold change_level. assert ((s <=? ZERO)%dec = negb (s >? ZERO)%dec) as E.
  { destruct (s >? ZERO)%dec eqn:E; cbn.
    - apply dec_leb_gt. by apply dec_ltb_lt.
    - apply dec_leb_le. by apply dec_ltb_ge. }
  destruct (list_find _ l) as [[i x]|] eqn:Ef.
  - apply level_split in Ef as (a & b & -> & -> & Ex). rewrite E. destruct (s >? ZERO)%dec eqn:Es; cbn.
    + rewrite alter_middle. eapply changed_resized; [done|done|]. unfold written. by rewrite Es.
    + rewrite delete_middle. eapply changed_removed; [done|done|]. unfold written. by rewrite Es.
  - assert (Forall (not_at p) l) as H by (apply level_at_none; unfold level_at; by rewrite Ef).
    destruct (s >? ZERO)%dec eqn:Es; [apply changed_added|apply changed_kept]; try done;
      unfold written; by rewrite Es.
Qed.

Lemma key_set_size s x : level_key (set_size s x) = level_key x.
Proof. done. Qed.
Lemma distinct_middle a x b : distinct (a ++ x :: b) -> distinct (a ++ b) /\
  forall y, y ∈ a ++ b -> level_key y <> level_key x.
Proof.
  unfold distinct. rewrite fmap_app, fmap_cons. rewrite <- Permutation_middle, NoDup_cons, <- fmap_app. intros [Hx Hd]. split; [done|].
  intros y Hy E. apply Hx. rewrite <- E. by apply list_elem_of_fmap_2.
Qed.
Lemma changed_distinct l p s l' : changed_level l p s l' -> distinct l -> distinct l'.
Proof.
  intros [a x b -> _ _|a x b -> _ _|Hn _|_ _] Hd; try done.
  - by apply distinct_middle in Hd as [? _].
  - unfold distinct in *. by rewrite fmap_app, fmap_cons, key_set_size, <- fmap_cons, <- fmap_app.
  - unfold distinct. rewrite fmap_app. apply NoDup_app. split; [done|]. split; [|apply NoDup_singleton].
    intros k (x & -> & Hx)%list_elem_of_fmap E%list_elem_of_singleton.
    rewrite Forall_forall in Hn. by apply (Hn x).
Qed.
Lemma changed_level_at l p s l' q : changed_level l p s l' -> distinct l ->
  level_at l' q = if decide (price_key q = price_key p) then written s else level_at l q.
Proof.
  intros H Hd. pose proof (changed_distinct _ _ _ _ H Hd) as Hd'. case_decide as Eq.
  - destruct H as [a x b -> Ex ->|a x b -> Ex ->|_ ->|Hn ->].
    + apply distinct_middle in Hd as [_ Hd]. apply level_at_none, Forall_forall. intros y Hy.
      unfold not_at. rewrite Eq, <- Ex. by apply Hd.
    + apply level_at_spec; [done|]. exists (set_size s x). split; [|split; [by rewrite key_set_size, Eq|done]].
      apply elem_of_app. right. by left.
    + apply level_at_spec; [done|]. eexists. split; [apply elem_of_app; right; by left|]. by rewrite Eq.
    + apply level_at_none. eapply Forall_impl; [exact Hn|]. intros y. unfold not_at. by rewrite Eq.
  - apply option_eq. intros v. rewrite !level_at_spec by done.
    destruct H as [a x b -> Ex _|a x b -> Ex _|_ _|_ _]; [| | |done];
      setoid_rewrite elem_of_app; try setoid_rewrite elem_of_cons; split; intros (y & Hy & Ey & <-); exists y;
      (split; [|done]).
    + naive_solver.
    + destruct Hy as [?|[->|?]]; [by left| |by right]. congruence.
    + destruct Hy as [?|[->|?]]; [by left| |by right; right]. rewrite key_set_size in Ey. congruence.
    + destruct Hy as [?|[->|?]]; [by left| |by right; right]. congruence.
    + destruct Hy as [?|[->|[]%not_elem_of_nil]]; [done|]. by contradict Eq.
    + by left.
Qed.

#[export] Instance better_total d : Total (better d).
Proof.
  intros x y. unfold better. destruct d.
  - destruct (level_price y <=? level_price x)%dec eqn:E; [by left|right].
    apply dec_leb_gt in E. apply dec_leb_le. by apply Qlt_le_weak.
  - destruct (level_price x <=? level_price y)%dec eqn:E; [by left|right].
    apply dec_leb_gt in E. apply dec_leb_le. by apply Qlt_le_weak.
Qed.
#[export] Instance better_trans d : Transitive (better d).
Proof.
  intros x y z. unfold better. destruct d; rewrite !dec_leb_le; intros H1 H2; eapply Qle_trans; eauto.
Qed.

(** A side in order, without two levels of one price. *)
Record side_ok d l : Prop := { sd_distinct : distinct l; sd_ordered : StronglySorted (better d) l }.

Lemma upsert_perm l p s d : upsert_level l p s d ≡ₚ change_level l p s.
Proof. apply merge_sort_Permutation. Qed.
Lemma upsert_distinct l p s d : distinct l -> distinct (upsert_level l p s d).
Proof.
  intros Hd. unfold distinct. rewrite upsert_perm.
  eapply changed_distinct; [apply change_level_cases|done].
Qed.
Lemma upsert_ordered l p s d : StronglySorted (better d) (upsert_level l p s d).
Proof. apply StronglySorted_merge_sort; apply _. Qed.
Lemma upsert_level_at l p s d q : distinct l ->
  level_at (upsert_level l p s d) q = if decide (price_key q = price_key p) then written s else level_at l q.
Proof.
  intros Hd. pose proof (change_level_cases l p s) as H. rewrite <- (changed_level_at _ _ _ _ q H Hd).
  apply level_at_perm; [by rewrite upsert_perm|]. by eapply changed_distinct.
Qed.
End Levels.

(** ** Books and their writes *)

Section Books.
Context `{DO : DecimalOps} `{CO : ChronoOps} {DS : DecimalSpec} `{TO : !TimestampOps} `{WD : WsDecoder}.
Implicit Types (books : gmap string OrderBook) (u : OrderBookUpdate) (asset : string) (d : bool).

Definition side_of d (b : OrderBook) : list PriceLevel := if d then bids b else asks b.
Definition update_side d u : list PriceLevel := if d then bu_bids u else bu_asks u.
Definition book_side asset d books : list PriceLevel := default [] (side_of d <$> books !! asset).

(** What a message says: a book as a whole, or the size at a price. *)
Inductive BookWrite : Type :=
| WroteBook (u : OrderBookUpdate) | WroteLevel (asset : string) (d : bool) (price size : dec).
Definition change_writes (c : WsPriceChange) : list BookWrite :=
  match dec_parse (wc_price c), dec_parse (wc_size c) with
  | Some price, Some size =>
      if eq_ignore_case (wc_side c) "BUY" then [WroteLevel (wc_asset_id c) true price size]
      else if eq_ignore_case (wc_side c) "SELL" then [WroteLevel (wc_asset_id c) false price size]
      else []
  | _, _ => []
  end.
Fixpoint item_writes (clock : nat -> datetime) (items : list ws_value) : list BookWrite :=
  match items with
  | [] => []
  | v :: items => (WroteBook <$> option_list (parse_ws_book_from_value v (clock 0)))
                    ++ item_writes (fun i => clock (S i)) items
  end.
Definition value_writes (clock : nat -> datetime) (v : ws_value) : list BookWrite :=
  match ws_shape v with
  | WsArray items => item_writes clock items
  | WsObject => match parse_ws_book_from_value v (clock 0) with
                | Some u => [WroteBook u]
                | None => from_option (fun e => we_price_changes e ≫= change_writes) [] (ws_event_of v)
                end
  | WsScalar => []
  end.
Definition is_control (text : string) : bool :=
  eq_ignore_case text "PING" || eq_ignore_case text "PONG" || eq_ignore_case text "INVALID OPERATION".
Definition text_writes (clock : nat -> datetime) (text : string) : list BookWrite :=
  let text := string_trim text in
  if is_control text then [] else from_option (value_writes clock) [] (ws_from_str text).

(** A write to one side. *)
Definition side_write asset d (l : list PriceLevel) (w : BookWrite) : list PriceLevel :=
  match w with
  | WroteBook u => if decide (bu_asset_id u = asset) then update_side d u else l
  | WroteLevel a d' price size => if decide (a = asset /\ d' = d) then upsert_level l price size d else l
  end.
(** An update that the receiver stores. *)
Definition side_received asset d (l : list PriceLevel) u : list PriceLevel :=
  if decide (bu_asset_id u = asset) then update_side d u else l.
Definition keyed books : Prop := forall asset b, books !! asset = Some b -> ob_outcome_id b = asset.

(** Writes and updates that lead from some books to others. *)
Record written_to books (ws : list BookWrite) (us : list OrderBookUpdate) books' : Prop := {
  wt_keyed : keyed books';
  wt_written : forall asset d, book_side asset d books' = foldl (side_write asset d) (book_side asset d books) ws;
  wt_received : forall asset d, book_side asset d books' = foldl (side_received asset d) (book_side asset d books) us;
}.
Lemma written_none books : keyed books -> written_to books [] [] books.
Proof. by split. Qed.
Lemma written_app books ws us books1 ws' us' books2 : written_to books ws us books1 ->
  written_to books1 ws' us' books2 -> written_to books (ws ++ ws') (us ++ us') books2.
Proof. intros [_ H1 H2] [Hk H3 H4]. split; [done| |]; intros a d; rewrite foldl_app, <- ?H1, <- ?H2; auto. Qed.

Lemma book_side_insert asset b books a d :
  book_side a d (<[asset := b]> books) = if decide (asset = a) then side_of d b else book_side a d books.
Proof.
  unfold book_side. case_decide as E; [subst; by rewrite lookup_insert_eq|by rewrite lookup_insert_ne].
Qed.
Lemma keyed_insert b books : keyed books -> keyed (<[ob_outcome_id b := b]> books).
Proof. intros Hk a b'. rewrite lookup_insert_Some. intros [[E ->]|[_ H]]; [done|by apply Hk]. Qed.
Lemma keyed_empty : keyed ∅.
Proof. intros a b H. by rewrite lookup_empty in H. Qed.

Lemma store_written u books : keyed books -> written_to books [WroteBook u] [u] (store_update u books).
Proof.
  intros Hk. split; [by apply (keyed_insert (update_to_orderbook u))| |]; intros a d; unfold store_update;
    rewrite book_side_insert; cbn; unfold side_received; by destruct d.
Qed.

Lemma touched_key market t asset books : keyed books ->
  ob_outcome_id (touched_book market t asset books) = asset.
Proof.
  intros Hk. unfold touched_book. destruct (books !! asset) as [b|] eqn:E; cbn; [by apply Hk|done].
Qed.
Lemma touched_side market t asset books d :
  side_of d (touched_book market t asset books) = book_side asset d books.
Proof. unfold touched_book, book_side. destruct (books !! asset), d; done. Qed.

Lemma update_side_book d b : update_side d (orderbook_to_update b) = side_of d b.
Proof. by destruct d. Qed.
Lemma level_written asset x price size b books : keyed books -> ob_outcome_id b = asset ->
  (forall d, side_of d b = if decide (x = d) then upsert_level (book_side asset d books) price size d
                           else book_side asset d books) ->
  written_to books [WroteLevel asset x price size] [orderbook_to_update b] (<[asset := b]> books).
Proof.
  intros Hk Hb Hside. split; [rewrite <- Hb; by apply keyed_insert| |]; intros a d; rewrite book_side_insert; cbn;
    unfold side_received; rewrite ?update_side_book; cbn; rewrite ?Hb; destruct (decide (asset = a)) as [<-|Hne].
  - rewrite Hside. destruct (decide (x = d)); [by rewrite decide_True|by rewrite decide_False by tauto].
  - by rewrite decide_False by tauto.
  - done.
  - done.
Qed.
Lemma change_written market t c books books' (u : option OrderBookUpdate) : keyed books ->
  apply_price_change market t c books = (books', u) -> written_to books (change_writes c) (option_list u) books'.
Proof.
  intros Hk. unfold apply_price_change, change_writes. destruct (dec_parse (wc_price c)) as [price|];
    [|intros [= <- <-]; by apply written_none]. destruct (dec_parse (wc_size c)) as [size|];
    [|intros [= <- <-]; by apply written_none]. cbv zeta.
  pose proof (touched_key market t (wc_asset_id c) _ Hk) as Hb.
  pose proof (touched_side market t (wc_asset_id c) books) as Hside.
  set (b := touched_book market t (wc_asset_id c) books) in *.
  destruct (eq_ignore_case _ "BUY"); [|destruct (eq_ignore_case _ "SELL")]; intros [= <- <-].
  - apply level_written; [done|done|]. intros []; [apply (f_equal (fun l => upsert_level l _ _ _)), (Hside true)|apply (Hside false)].
  - apply level_written; [done|done|]. intros []; [apply (Hside true)|apply (f_equal (fun l => upsert_level l _ _ _)), (Hside false)].
  - split; [rewrite <- Hb; by apply keyed_insert| |]; intros a d; rewrite book_side_insert; cbn;
      (case_decide as E; [by rewrite <- E|done]).
Qed.
Lemma changes_written market t cs books books' us : keyed books ->
  apply_changes market t cs books = (books', us) -> written_to books (cs ≫= change_writes) us books'.
Proof.
  revert books us. induction cs as [|c cs IH]; cbn; intros books us Hk; [intros [= <- <-]; by apply written_none|].
  destruct (apply_price_change _ _ _ _) as [books1 u] eqn:E. destruct (apply_changes _ _ _ _) as [books2 us2] eqn:E2.
  intros [= <- <-]. apply change_written in E; [|done]. eapply written_app; [exact E|]. apply IH; [apply E|done].
Qed.
Lemma snapshots_written clock items books books' us : keyed books ->
  snapshots clock items books = (books', us) -> written_to books (item_writes clock items) us books'.
Proof.
  revert clock books us. induction items as [|v items IH]; cbn; intros clock books us Hk;
    [intros [= <- <-]; by apply written_none|].
  destruct (snapshots _ _ _) as [books2 us2] eqn:E2. intros [= <- <-].
  destruct (parse_ws_book_from_value v (clock 0)) as [u|]; cbn in *.
  - eapply (written_app _ [_] [u]); [by apply store_written|]. apply IH; [by apply store_written|done].
  - by apply IH.
Qed.
Lemma text_written clock text books books' p : keyed books ->
  parse_ws_message clock text books = (books', p) ->
  written_to books (text_writes clock text) (pm_updates p) books'.
Proof.
  intros Hk. unfold parse_ws_message, text_writes, is_control. cbv zeta.
  destruct (eq_ignore_case _ "PING"); [intros [= <- <-]; by apply written_none|].
  destruct (eq_ignore_case _ "PONG"); [intros [= <- <-]; by apply written_none|].
  destruct (eq_ignore_case _ "INVALID OPERATION"); [intros [= <- <-]; by apply written_none|]. cbn.
  destruct (ws_from_str _) as [v|]; [|intros [= <- <-]; by apply written_none]. cbn. unfold value_writes.
  destruct (ws_shape v) as [items| |].
  - destruct (snapshots _ _ _) as [books1 us] eqn:E. intros [= <- <-]. by apply snapshots_written.
  - destruct (parse_ws_book_from_value _ _) as [u|]; [intros [= <- <-]; by apply store_written|].
    destruct (ws_event_of v) as [e|]; [|intros [= <- <-]; by apply written_none]. unfold apply_price_changes. cbv zeta.
    destruct (apply_changes _ _ _ _) as [books1 us] eqn:E. intros [= <- <-]. by apply changes_written in E.
  - intros [= <- <-]. by apply written_none.
Qed.

(** ** A connection *)

Definition event_writes (e : WsEvent) : list BookWrite :=
  match e with OnFrame en (TextFrame text) => text_writes (fe_clock en) text | _ => [] end.
(** What a run has written, and sent to its receiver. *)
Definition run_writes (events : list WsEvent) : list BookWrite := events ≫= event_writes.

Lemma delivered_all en us sent : delivered en us = (sent, true) -> sent = us.
Proof. unfold delivered. repeat case_match; by intros [= <-]. Qed.
Lemma turn_written e c c' : keyed (wn_books c) -> ws_turn e c = (c', None) -> exists us,
  wn_sent c' = wn_sent c ++ us /\ written_to (wn_books c) (event_writes e) us (wn_books c').
Proof.
  intros Hk. assert (written_to (wn_books c) [] [] (wn_books c)) as H0 by by apply written_none.
  destruct e as [w| |en f]; cbn; [intros H; exists []; rewrite app_nil_r|done|destruct f as [text| | | | | |]; cbn].
  - by injection H as <- _.
  - unfold on_text. destruct (parse_ws_message _ _ _) as [books p] eqn:E.
    destruct (delivered en (pm_updates p)) as [sent []] eqn:Ed; [|done]. intros [= <-].
    apply delivered_all in Ed as ->. exists (pm_updates p). split; [done|]. by apply text_written in E.
  - intros H. exists []. rewrite app_nil_r. by injection H as <- _.
  - intros [= <-]. exists []. by rewrite app_nil_r.
  - done.
  - intros [= <-]. exists []. by rewrite app_nil_r.
  - done.
  - done.
Qed.
Lemma run_written events c c' : keyed (wn_books c) -> ws_run events c = (c', None) -> exists us,
  wn_sent c' = wn_sent c ++ us /\ written_to (wn_books c) (run_writes events) us (wn_books c').
Proof.
  revert c. induction events as [|e events IH]; cbn; intros c Hk.
  { intros [= <-]. exists []. rewrite app_nil_r. split; [done|by apply written_none]. }
  destruct (ws_turn e c) as [c1 [r|]] eqn:E; [done|]. intros H. apply turn_written in E as (us & Es & Hw); [|done].
  apply IH in H as (us' & Es' & Hw'); [|by apply Hw]. exists (us ++ us'). rewrite Es', Es, app_assoc.
  split; [done|]. by eapply written_app.
Qed.

(** What the writes say about a price: the last write of it stands. *)
Definition write_at asset d (p : dec) (known : option dec) (w : BookWrite) : option dec :=
  match w with
  | WroteBook u => if decide (bu_asset_id u = asset) then level_at (update_side d u) p else known
  | WroteLevel a d' price size =>
      if decide (a = asset /\ d' = d /\ price_key p = price_key price) then written size else known
  end.
Definition quoted asset d (p : dec) (ws : list BookWrite) : option dec := foldl (write_at asset d p) None ws.

(** The exchange sends whole books without two levels of one price. *)
Definition write_distinct (w : BookWrite) : Prop :=
  match w with WroteBook u => distinct (bu_bids u) /\ distinct (bu_asks u) | WroteLevel _ _ _ _ => True end.
Lemma update_side_distinct d u : write_distinct (WroteBook u) -> distinct (update_side d u).
Proof. intros [? ?]. by destruct d. Qed.

Lemma side_writes_at asset d ws l p known : Forall write_distinct ws -> distinct l -> level_at l p = known ->
  distinct (foldl (side_write asset d) l ws) /\
  level_at (foldl (side_write asset d) l ws) p = foldl (write_at asset d p) known ws.
Proof.
  intros Hw. revert l known. induction Hw as [|w ws Hw _ IH]; intros l known Hd Hl; [done|]. cbn.
  apply IH; destruct w as [u|a d' price size]; unfold side_write, write_at.
  - case_decide; [by apply update_side_distinct|done].
  - case_decide; [by apply upsert_distinct|done].
  - by case_decide.
  - destruct (decide (a = asset /\ d' = d)) as [[-> ->]|Hn]; [|by rewrite decide_False by tauto].
    rewrite upsert_level_at by done. destruct (decide (price_key p = price_key price)) as [E|E].
    + by rewrite decide_True.
    + by rewrite decide_False by tauto.
Qed.

(** C34. Over every run of a connection each price of each book has the size that the
    exchange wrote last, in a whole book or in a change. *)
Theorem books_are_last_writes events c c' asset d p :
  wn_books c = ∅ -> Forall write_distinct (run_writes events) -> ws_run events c = (c', None) ->
  level_at (book_side asset d (wn_books c')) p = quoted asset d p (run_writes events).
Proof.
  intros H0 Hw H. apply run_written in H as (us & _ & [_ Hb _]); [|rewrite H0; apply keyed_empty].
  rewrite Hb, H0. apply side_writes_at; [done|constructor|done].
Qed.

Definition best_first d (l : list PriceLevel) : Prop := StronglySorted (better d) l.
Definition write_ordered (w : BookWrite) : Prop :=
  match w with WroteBook u => best_first true (bu_bids u) /\ best_first false (bu_asks u) | _ => True end.
Lemma side_writes_ordered asset d ws l : Forall write_ordered ws -> best_first d l ->
  best_first d (foldl (side_write asset d) l ws).
Proof.
  intros Hw. revert l. induction Hw as [|w ws Hw _ IH]; intros l Hl; [done|]. cbn. apply IH.
  destruct w as [u|a d' price size]; cbn; case_decide; try done; [by destruct d, Hw|apply upsert_ordered].
Qed.
Lemma best_first_head d x l y : best_first d (x :: l) -> y ∈ x :: l -> better d x y.
Proof.
  intros H. inversion H as [|? ? _ Hf]; subst. intros [->|Hy]%elem_of_cons; [|by rewrite Forall_forall in Hf; apply Hf].
  unfold better. destruct d; apply dec_leb_le, Qle_refl.
Qed.

(** If the exchange sends its books best level first they stay so over every
    run: the best bid and ask are those of the book. *)
Theorem books_stay_ordered events c c' asset b :
  wn_books c = ∅ -> Forall write_ordered (run_writes events) -> ws_run events c = (c', None) ->
  wn_books c' !! asset = Some b ->
  (forall p x, best_bid b = Some p -> x ∈ bids b -> (level_price x <=? p)%dec = true) /\
  (forall p x, best_ask b = Some p -> x ∈ asks b -> (p <=? level_price x)%dec = true).
Proof.
  intros H0 Hw H Hb. apply run_written in H as (us & _ & [_ Hs _]); [|rewrite H0; apply keyed_empty].
  assert (forall d, best_first d (side_of d b)) as Ho.
  { intros d. specialize (Hs asset d). unfold book_side in Hs at 1. rewrite Hb in Hs. cbn in Hs. rewrite Hs, H0.
    apply side_writes_ordered; [done|constructor]. }
  split; intros p x Hp Hx; [specialize (Ho true)|specialize (Ho false)]; cbn in Ho;
    unfold best_bid, best_ask in Hp; [destruct (bids b) as [|y l]|destruct (asks b) as [|y l]]; try done;
    injection Hp as <-; by apply (best_first_head _ _ l x) in Ho.
Qed.

(** The receiver that stores the updates it gets has the books of the
    connection. *)
Theorem receiver_has_books events c c' asset d :
  wn_books c = ∅ -> wn_sent c = [] -> ws_run events c = (c', None) ->
  book_side asset d (wn_books c') = foldl (side_received asset d) [] (wn_sent c').
Proof.
  intros H0 Hs H. apply run_written in H as (us & Es & [_ _ Hr]); [|rewrite H0; apply keyed_empty].
  by rewrite Hr, Es, Hs, H0.
Qed.
End Books.

(** ** The timers of a connection *)

Section Timers.
Context `{DO : DecimalOps} `{CO : ChronoOps} `{TO : !TimestampOps} `{WD : WsDecoder}.
Variable fires : (WsBranch -> option Z) -> WsBranch -> Z -> Prop.
Variable next_deadline : Z -> Z -> Z.
Variables period read_timeout turn_time : Z.
Context {SS : SelectSpec fires} {IS : IntervalSpec next_deadline period}.
Local Open Scope Z_scope.

Definition framed (e : WsEvent) : bool := match ws_branch e with WFrame => true | _ => false end.
(** Pings that could be written. *)
Definition pinged (e : WsEvent) : bool := match e with OnPingTick true => true | _ => false end.

Lemma first_end e events c r : snd (ws_turn e c) = Some r -> snd (ws_run (e :: events) c) = Some r.
Proof. cbn. destruct (ws_turn e c) as [c' o]. cbn. by intros ->. Qed.
Lemma ping_turn events c : snd (ws_run (OnPingTick true :: events) c) = snd (ws_run events c).
Proof. done. Qed.

(** As long as nothing arrives each turn is a ping that is a period after the
    one before, none of them past the deadline by more than the time the turns
    have taken. *)
Lemma silence_ends slack t events c :
  0 <= turn_time < period -> events <> [] -> wt_now t <= wt_deadline t + slack -> 0 <= slack ->
  ws_timed fires next_deadline read_timeout turn_time t events -> Forall (fun e => framed e = false) events ->
  wt_deadline t + slack - wt_ping t < (Z.of_nat (length events) - 1) * (period - turn_time) ->
  snd (ws_run events c) = Some (Err ReadTimedOut) \/ snd (ws_run events c) = Some (Err NotWritten).
Proof.
  intros Hw. revert slack t. induction events as [|e events IH]; intros slack t Hne Hn Hs Ht Hf Hlen; [done|].
  inversion Ht as [|? ? ? arrival fired reset later Hfire Hr1 Hr2 Hr3 Ht']; subst. apply Forall_cons in Hf as [He Hf].
  destruct e as [[]| |en f]; [|right; by apply first_end|left; by apply first_end|done]. rewrite ping_turn. cbn in Hfire, Ht'.
  destruct (fires_ready _ _ _ Hfire) as (at_ & E & Hat). injection E as <-.
  pose proof (fires_first _ _ _ WDeadline _ Hfire eq_refl) as Hd.
  pose proof (deadline_after (wt_ping t) fired ltac:(lia)) as Hp. cbn [length] in Hlen.
  apply (IH (slack + turn_time) _) in Ht'; cbn; try done; try lia. destruct events; [cbn in Hlen; lia|done].
Qed.

(** A connection on which nothing arrives ends: at the latest with the ping
    after the deadline. *)
Theorem silent_connection_ends t events c :
  0 <= turn_time < period -> wt_now t <= wt_deadline t ->
  ws_timed fires next_deadline read_timeout turn_time t events -> Forall (fun e => framed e = false) events ->
  (Z.max (wt_deadline t - wt_ping t) 0) / (period - turn_time) + 1 < Z.of_nat (length events) ->
  snd (ws_run events c) = Some (Err ReadTimedOut) \/ snd (ws_run events c) = Some (Err NotWritten).
Proof.
  intros Hw Hn Ht Hf Hlen. assert (0 < period - turn_time) as Hpos by lia.
  pose proof (Z.mul_succ_div_gt (Z.max (wt_deadline t - wt_ping t) 0) _ Hpos) as Hdiv.
  pose proof (Z.div_pos (Z.max (wt_deadline t - wt_ping t) 0) _ ltac:(lia) Hpos).
  apply (silence_ends 0 t); try done; try lia; [by destruct events; [cbn in Hlen; lia|]|]. nia.
Qed.

(** ** Pings that are answered *)

(** Runs whose turns take no time and in which each ping is answered within
    [lag]; [pending]: by when the next frame arrives. *)
Inductive answered (lag : Z) : option Z -> WsTimers -> list WsEvent -> Prop :=
| answered_nil pending t : answered lag pending t []
| answered_cons pending t e events arrival fired :
    (forall by_, pending = Some by_ -> exists a, arrival = Some a /\ a <= by_) ->
    fires (ws_ready arrival t) (ws_branch e) fired ->
    answered lag (match ws_branch e with
                  | WPing => Some (default (fired + lag) pending)
                  | WFrame => None
                  | WDeadline => pending
                  end) (ws_rearm next_deadline read_timeout (ws_branch e) fired fired fired t) events ->
    answered lag pending t (e :: events).

(** The next ping or the next frame comes before the deadline. *)
Record on_time lag (pending : option Z) (t : WsTimers) : Prop := {
  ot_now : wt_now t <= wt_deadline t - read_timeout + period + lag;
  ot_ping : pending = None -> wt_ping t <= wt_deadline t - read_timeout + period /\
    wt_now t <= wt_deadline t - read_timeout + period;
  ot_pending : forall by_, pending = Some by_ -> wt_now t <= by_ <= wt_deadline t - read_timeout + period + lag;
  ot_tick : wt_ping t <= wt_now t + period;
}.
Lemma answered_never_times_out lag pending t events : 0 <= lag -> 0 <= period -> period + lag < read_timeout ->
  on_time lag pending t -> answered lag pending t events -> Forall (fun e => ws_branch e <> WDeadline) events.
Proof.
  intros Hlag Hper Hto Hot Ha. induction Ha as [|pending t e events arrival fired Hp Hf _ IH]; [constructor|].
  destruct (fires_ready _ _ _ Hf) as (at_ & E & Hat).
  assert (fired <= wt_deadline t - read_timeout + period + lag) as Hle.
  { destruct Hot as [Hn Hping Hpend Htick]. destruct pending as [by_|].
    - destruct (Hp by_ eq_refl) as (a & -> & Ha). specialize (Hpend by_ eq_refl).
      pose proof (fires_first _ _ _ WFrame _ Hf eq_refl). lia.
    - destruct (Hping eq_refl). pose proof (fires_first _ _ _ WPing _ Hf eq_refl). lia. }
  assert (ws_branch e <> WDeadline) as Hb.
  { intros Eb. rewrite Eb in E. injection E as <-. lia. }
  constructor; [done|]. apply IH. destruct Hot as [Hn Hping Hpend Htick]. destruct (ws_branch e); [|done|].
  - injection E as <-. pose proof (deadline_within (wt_ping t) fired ltac:(lia)) as Hd.
    split; cbn; try done; try lia. intros by_ [= <-]. destruct pending as [by_|]; cbn.
    + destruct (Hp by_ eq_refl) as (a & -> & Ha). specialize (Hpend by_ eq_refl).
      pose proof (fires_first _ _ _ WFrame _ Hf eq_refl). lia.
    + destruct (Hping eq_refl). pose proof (fires_first _ _ _ WPing _ Hf eq_refl). lia.
  - destruct arrival as [a|]; [|done]. injection E as <-. split; cbn; try done; lia.
Qed.

(** A ping that is written, or its answer. *)
Definition ping_or_pong (e : WsEvent) : bool :=
  match e with
  | OnPingTick writes => writes
  | OnFrame _ PongFrame => true
  | OnFrame _ (TextFrame text) => eq_ignore_case (string_trim text) "PONG"
  | _ => false
  end.
Lemma pong_is_not_ping text : eq_ignore_case text "PONG" = true -> eq_ignore_case text "PING" = false.
Proof.
  unfold eq_ignore_case. intros H%bool_decide_eq_true. apply bool_decide_eq_false. rewrite H. done.
Qed.
Lemma delivered_nil en : delivered en [] = ([], true).
Proof. unfold delivered. destruct (fe_gone_after en); [|done]. by case_decide as H; [cbn in H; lia|]. Qed.
Lemma ping_or_pong_turn e c : ping_or_pong e = true -> exists c',
  ws_turn e c = (c', None) /\ wn_books c' = wn_books c /\ wn_sent c' = wn_sent c.
Proof.
  destruct e as [[]| |en [text| | | | | |]]; try done; intros H; [by exists c| |by eexists].
  cbn in *. unfold on_text, parse_ws_message. cbv zeta. rewrite pong_is_not_ping, H by done.
  cbn [parsed pm_updates]. rewrite delivered_nil. eexists. split; [done|]. split; [done|]. apply app_nil_r.
Qed.

(** If each ping is answered in time the connection is never ended for silence,
    however long it has carried nothing but these answers: no book changes and
    the receiver gets nothing. *)
Theorem answered_pings_hide_silence lag t events c :
  0 <= lag -> period + lag < read_timeout ->
  wt_now t + read_timeout = wt_deadline t -> wt_ping t <= wt_now t + period -> 0 <= period ->
  answered lag None t events ->
  Forall (fun e => ws_branch e <> WDeadline -> ping_or_pong e = true) events ->
  exists c', ws_run events c = (c', None) /\ wn_books c' = wn_books c /\ wn_sent c' = wn_sent c.
Proof.
  intros Hlag Hto Hn Hp Hper Ha Hq. assert (on_time lag None t) as Hot by (split; try done; lia).
  pose proof (answered_never_times_out lag None t events Hlag Hper Hto Hot Ha) as Hd. clear Ha Hot.
  revert c. induction Hq as [|e events He _ IH]; cbn; intros c; [by exists c|].
  apply Forall_cons in Hd as [Hde Hd]. destruct (ping_or_pong_turn e c (He Hde)) as (c1 & -> & E1 & E2).
  destruct (IH Hd c1) as (c' & E & E3 & E4). exists c'. split; [done|]. split; congruence.
Qed.

(** ** Pauses between connections *)

(** The pause before the [n]-th reconnection depends on [n] only, not on how the
    connections before it went. *)
Theorem reconnect_pauses asset_ids xs stats n pause :
  snd (subscribe_orderbook asset_ids xs stats) !! n = Some pause -> Z.of_nat n <= u32_max ->
  pause = Z.min (2 ^ Z.of_nat n) 60.
Proof.
  unfold subscribe_orderbook. rewrite <- (Z.add_0_l (Z.of_nat n)).
  assert (0 <= 0) as H0 by lia. revert H0. generalize 0 at 2 3 4 5. generalize (stats, @nil OrderBookUpdate).
  revert n. induction xs as [|x xs IH]; cbn; intros n p k Hk; [done|].
  destruct (ws_loop asset_ids x p) as [p1 [r|]]; [|done]. destruct (wx_closed x); [done|].
  destruct (ws_loop_with_reconnect asset_ids (u32_sat_succ k) xs p1) as [p2 pauses] eqn:E. cbn.
  destruct n as [|n]; cbn [lookup list_lookup].
  - intros [= <-] _. unfold backoff_secs, u64_max. rewrite Z.add_0_r. lia.
  - intros Hl Hn. specialize (IH n p1 (u32_sat_succ k)). rewrite E in IH. cbn in IH.
    unfold u32_sat_succ in IH. replace (k + Z.of_nat (S n)) with (Z.min (k + 1) u32_max + Z.of_nat n) by lia.
    apply IH; [lia|done|lia].
Qed.
End Timers.
