(* ===== verification/MarketSelection.v ===== *)
(** * The selection of the markets to monitor

    Models the scoring and the selection of [crates/arb-monitor/src/monitor.rs]:
    the weights of a profile, the score of a market as a core and as an
    exploration candidate, and [select_market_ids].  The natural logarithm is
    the argument [ln] (the precision of [f64::ln] is not specified).  [sort_by]
    is stable, so it is [merge_sort] by "does not score less", as long as no
    score is NaN; the order of a [HashSet] is the class [HashOps]. *)

From stdpp Require Import sorting.
From S2P Require Import Prelude F64 FloatParse Platform Market Position PositionRepo PositionTracker.

(** ** Profiles and weights *)

Inductive AggressivenessProfile : Type := Stable | Balanced | Discovery.
#[export] Instance AggressivenessProfile_eq_dec : EqDecision AggressivenessProfile.
Proof. solve_decision. Defined.

Definition profile_from_env (env : string -> option string) : AggressivenessProfile :=
  let v := string_lower (default "balanced" (env "ARB_MONITOR_AGGRESSIVENESS")) in
  if bool_decide (v = "stable") || bool_decide (v = "conservative") then Stable
  else if bool_decide (v = "discovery") || bool_decide (v = "aggressive") then Discovery
  else Balanced.
Definition default_exploration_slots (p : AggressivenessProfile) : Z :=
  match p with Stable => 2 | Balanced => 5 | Discovery => 8 end.
Definition profile_from_level (level : f64) : AggressivenessProfile :=
  if f64_leb level (f64_lit 5 10) then Stable
  else if f64_leb (f64_lit 15 10) level then Discovery else Balanced.

Record ScoringWeights : Type := {
  selection_baseline_weight : f64;
  selection_quality_weight : f64;
  selection_hit_rate_weight : f64;
  selection_freshness_weight : f64;
  selection_sticky_bonus : f64;
  exploration_baseline_weight : f64;
  exploration_novelty_weight : f64;
  exploration_rotation_weight : f64;
  exploration_upside_weight : f64;
  exploration_unseen_bonus : f64;
}.
Definition weights_for_profile (p : AggressivenessProfile) : ScoringWeights :=
  match p with
  | Stable => {|
      selection_baseline_weight := f64_lit 120 100; selection_quality_weight := f64_lit 70 100;
      selection_hit_rate_weight := f64_one; selection_freshness_weight := f64_lit 50 100;
      selection_sticky_bonus := f64_lit 35 100; exploration_baseline_weight := f64_lit 70 100;
      exploration_novelty_weight := f64_lit 55 100; exploration_rotation_weight := f64_lit 60 100;
      exploration_upside_weight := f64_lit 30 100; exploration_unseen_bonus := f64_lit 75 100 |}
  | Balanced => {|
      selection_baseline_weight := f64_one; selection_quality_weight := f64_lit 95 100;
      selection_hit_rate_weight := f64_lit 80 100; selection_freshness_weight := f64_one;
      selection_sticky_bonus := f64_lit 20 100; exploration_baseline_weight := f64_lit 55 100;
      exploration_novelty_weight := f64_lit 110 100; exploration_rotation_weight := f64_lit 90 100;
      exploration_upside_weight := f64_lit 45 100; exploration_unseen_bonus := f64_lit 140 100 |}
  | Discovery => {|
      selection_baseline_weight := f64_lit 80 100; selection_quality_weight := f64_lit 125 100;
      selection_hit_rate_weight := f64_lit 60 100; selection_freshness_weight := f64_lit 120 100;
      selection_sticky_bonus := f64_lit 10 100; exploration_baseline_weight := f64_lit 40 100;
      exploration_novelty_weight := f64_lit 145 100; exploration_rotation_weight := f64_lit 120 100;
      exploration_upside_weight := f64_lit 80 100; exploration_unseen_bonus := f64_lit 190 100 |}
  end.

(** ** Markets and their scores *)

Record MarketProfile : Type := { mp_liquidity : f64; mp_volume : f64 }.

Record RankedMarket : Type := {
  rk_market_id : string;
  rk_total_score : f64;
  rk_baseline_score : f64;
  rk_opportunity_score : f64;
  rk_hit_rate_score : f64;
  rk_freshness_score : f64;
  rk_sticky_score : f64;
  rk_novelty_score : option f64;
  rk_rotation_score : option f64;
  rk_upside_score : option f64;
}.

(** [RuntimeMarketInsight]: a ranked market and its tier. *)
Record RuntimeMarketInsight : Type := {
  mi_tier : string;
  mi_ranked : RankedMarket;
}.

Record MarketSelectionResult : Type := {
  selected_ids : list string;
  insights : list RuntimeMarketInsight;
  core_count : nat;
  exploration_count : nat;
  exploration_ids : list string;
}.

(** [compare_f64_desc] of the total scores: [a] stays before [b]. *)
Definition not_outranked (a b : RankedMarket) : Prop :=
  f64_ltb (rk_total_score a) (rk_total_score b) = false.
#[export] Instance not_outranked_dec : RelDecision not_outranked.
Proof. intros a b. unfold not_outranked. apply _. Defined.
Definition rank (l : list RankedMarket) : list RankedMarket := merge_sort not_outranked l.

(** [collect] into a [HashMap]: the last entry of a key stays. *)
Definition collect_ranked (l : list RankedMarket) : gmap string RankedMarket :=
  foldl (fun m r => <[rk_market_id r := r]> m) ∅ l.
(** [retain(|id| seen.insert(id))]. *)
Fixpoint retain_first (seen : gset string) (l : list string) : list string :=
  match l with
  | [] => []
  | id :: l => if decide (id ∈ seen) then retain_first seen l
               else id :: retain_first ({[id]} ∪ seen) l
  end.
Definition unused (used : gset string) (l : list RankedMarket) : list RankedMarket :=
  filter (fun r => rk_market_id r ∉ used) l.

(** The cursor moves past the candidate it returns. *)
Fixpoint scan_ranked (l : list RankedMarket) (cursor : nat) (used : gset string)
    : nat * option RankedMarket :=
  match l with
  | [] => (cursor, None)
  | c :: l => if decide (rk_market_id c ∈ used) then scan_ranked l (S cursor) used
              else (S cursor, Some c)
  end.
Definition next_available_ranked (ranked : list RankedMarket) (cursor : nat) (used : gset string)
    : nat * option RankedMarket := scan_ranked (drop cursor ranked) cursor used.

Section Selection.
Context `{DO : DecimalOps} `{CO : ChronoOps} `{HO : HashOps}.
Variable ln : f64 -> f64.

Record MarketOpportunityStats : Type := {
  ms_evaluated_books : Z;
  ms_profitable_books : Z;
  ms_signaled_books : Z;
  ewma_net_profit : f64;
  last_seen_at : option datetime;
  last_signal_at : option datetime;
  last_selected_at : option datetime;
}.
Definition default_market_stats : MarketOpportunityStats := {|
  ms_evaluated_books := 0; ms_profitable_books := 0; ms_signaled_books := 0;
  ewma_net_profit := f64_zero; last_seen_at := None; last_signal_at := None;
  last_selected_at := None |}.

Definition baseline_profile_score (profile : option MarketProfile) : f64 :=
  match profile with
  | None => f64_zero
  | Some p =>
      let liquidity := f64_max (mp_liquidity p) f64_zero in
      let volume := f64_max (mp_volume p) f64_zero in
      f64_add (f64_mul (ln (f64_add liquidity f64_one)) (f64_lit 65 100))
        (f64_mul (ln (f64_add volume f64_one)) (f64_lit 35 100))
  end.

Definition recency_bonus (last_seen : option datetime) (now : datetime) : f64 :=
  match last_seen with
  | None => f64_zero
  | Some t =>
      let age := Z.max (secs_since now t) 0 in
      if (age <=? 60)%Z then f64_lit 35 100
      else if (age <=? 300)%Z then f64_lit 18 100
      else if (age <=? 900)%Z then f64_lit 8 100 else f64_zero
  end.

Definition incumbent_is_held (stats : gmap string MarketOpportunityStats) (market_id : string)
    (now : datetime) (hold_secs : Z) : bool :=
  match stats !! market_id ≫= last_selected_at with
  | None => false
  | Some last => (secs_since now last <? hold_secs)%Z
  end.

(** What every score is computed from. *)
Section Ranking.
Variable profiles : gmap string MarketProfile.
Variable stats : gmap string MarketOpportunityStats.
Variable currently_eligible : gset string.
Variable weights : ScoringWeights.
Variable min_profit_threshold : dec.
Variable now : datetime.

Definition profit_unit : f64 :=
  f64_max (default (f64_lit 5 1000) (dec_to_f64 min_profit_threshold)) (f64_lit 1 10000).
Definition hit_rate (s : MarketOpportunityStats) : f64 :=
  if (0 <? ms_profitable_books s)%Z
  then f64_div (f64_of_Z (ms_signaled_books s)) (f64_of_Z (ms_profitable_books s)) else f64_zero.

Definition market_selection_ranked (market_id : string) : RankedMarket :=
  let baseline := baseline_profile_score (profiles !! market_id) in
  let sticky := if decide (market_id ∈ currently_eligible) then selection_sticky_bonus weights
                else f64_zero in
  let baseline_component := f64_mul baseline (selection_baseline_weight weights) in
  match stats !! market_id with
  | None => {|
      rk_market_id := market_id; rk_total_score := f64_add baseline_component sticky;
      rk_baseline_score := baseline_component; rk_opportunity_score := f64_zero;
      rk_hit_rate_score := f64_zero; rk_freshness_score := f64_zero; rk_sticky_score := sticky;
      rk_novelty_score := None; rk_rotation_score := None; rk_upside_score := None |}
  | Some s =>
      let quality := f64_clamp (f64_div (ewma_net_profit s) profit_unit) f64_zero (f64_of_Z 4) in
      let confidence := f64_min (f64_div (f64_of_Z (ms_evaluated_books s)) (f64_of_Z 220)) f64_one in
      let opportunity := f64_mul quality (selection_quality_weight weights) in
      let hit := f64_mul (f64_mul (hit_rate s) confidence) (selection_hit_rate_weight weights) in
      let freshness := f64_mul (recency_bonus (last_seen_at s) now)
                         (selection_freshness_weight weights) in
      {| rk_market_id := market_id;
         rk_total_score :=
           f64_add (f64_add (f64_add (f64_add baseline_component opportunity) hit) freshness) sticky;
         rk_baseline_score := baseline_component; rk_opportunity_score := opportunity;
         rk_hit_rate_score := hit; rk_freshness_score := freshness; rk_sticky_score := sticky;
         rk_novelty_score := None; rk_rotation_score := None; rk_upside_score := None |}
  end.

Definition rotation_of (s : MarketOpportunityStats) : f64 :=
  match last_selected_at s with
  | None => f64_one
  | Some last => f64_min (f64_div (f64_of_Z (Z.max (secs_since now last) 0))
                            (f64_mul (f64_of_Z 30) (f64_of_Z 60))) f64_one
  end.
(** A core score scaled to an exploration score. *)
Definition scaled (base : RankedMarket) (total : f64) (novelty rotation upside : f64)
    : RankedMarket :=
  let w := exploration_baseline_weight weights in
  {| rk_market_id := rk_market_id base; rk_total_score := total;
     rk_baseline_score := f64_mul (rk_baseline_score base) w;
     rk_opportunity_score := f64_mul (rk_opportunity_score base) w;
     rk_hit_rate_score := f64_mul (rk_hit_rate_score base) w;
     rk_freshness_score := f64_mul (rk_freshness_score base) w;
     rk_sticky_score := f64_mul (rk_sticky_score base) w;
     rk_novelty_score := Some novelty; rk_rotation_score := Some rotation;
     rk_upside_score := Some upside |}.
Definition market_exploration_ranked (market_id : string) : RankedMarket :=
  let base := market_selection_ranked market_id in
  let scaled_base := f64_mul (rk_total_score base) (exploration_baseline_weight weights) in
  match stats !! market_id with
  | None => scaled base (f64_add scaled_base (exploration_unseen_bonus weights))
              (exploration_unseen_bonus weights) f64_zero f64_zero
  | Some s =>
      let novelty := f64_mul (f64_div f64_one (f64_add f64_one
                       (f64_div (f64_of_Z (ms_evaluated_books s)) (f64_of_Z 70))))
                       (exploration_novelty_weight weights) in
      let rotation := f64_mul (rotation_of s) (exploration_rotation_weight weights) in
      let upside := f64_mul (f64_mul (f64_clamp (f64_div (ewma_net_profit s) profit_unit)
                       f64_zero (f64_of_Z 3)) (f64_lit 45 100)) (exploration_upside_weight weights) in
      scaled base (f64_add (f64_add (f64_add scaled_base novelty) rotation) upside)
        novelty rotation upside
  end.

(** ** The selection *)

Section Select.
Variable current_exploration_markets : gset string.
Variable exploration_hold_secs : Z.
Variable exploration_swap_min_score_delta : f64.

(** The exploration candidates, best first: those that hold a slot and those
    that do not. *)
Definition exploration_pool (ranked : list RankedMarket) (core : gset string) : list RankedMarket :=
  rank ((fun r => market_exploration_ranked (rk_market_id r)) <$> unused core ranked).
Definition incumbents_of (pool : list RankedMarket) : list RankedMarket :=
  rank (omap (fun id => collect_ranked pool !! id)
          (hash_keys (gset_to_gmap tt current_exploration_markets))).
Definition challengers_of (pool : list RankedMarket) : list RankedMarket :=
  unused current_exploration_markets pool.

(** The candidate a slot takes. *)
Definition choose (incumbent challenger : option RankedMarket) : option RankedMarket :=
  match incumbent, challenger with
  | Some i, Some c =>
      if incumbent_is_held stats (rk_market_id i) now exploration_hold_secs
         && f64_ltb (rk_total_score c) (f64_add (rk_total_score i) exploration_swap_min_score_delta)
      then Some i
      else if f64_ltb (rk_total_score i) (rk_total_score c) then Some c else Some i
  | Some i, None => Some i
  | None, c => c
  end.
Fixpoint pick_exploration (slots : nat) (incumbents challengers : list RankedMarket)
    (used : gset string) (ii ci : nat) : list RankedMarket :=
  match slots with
  | O => []
  | S slots =>
      let '(ii, i) := next_available_ranked incumbents ii used in
      let '(ci, c) := next_available_ranked challengers ci used in
      match choose i c with
      | None => []
      | Some chosen => chosen :: pick_exploration slots incumbents challengers
                                   ({[rk_market_id chosen]} ∪ used) ii ci
      end
  end.

Definition id_set (l : list RankedMarket) : gset string := list_to_set (rk_market_id <$> l).

(** What the slots take, what fills up the selection, and the insights. *)
Definition explored (ranked core : list RankedMarket) (slots : nat) : list RankedMarket :=
  match slots with
  | O => []
  | _ => let pool := exploration_pool ranked (id_set core) in
         pick_exploration slots (incumbents_of pool) (challengers_of pool) (id_set core) 0 0
  end.
Definition filled_up (ranked selected : list RankedMarket) (active_count : nat) : list RankedMarket :=
  if decide (length selected < active_count)%nat
  then take (active_count - length selected) (unused (id_set selected) ranked) else [].
Definition insights_of (ids : list string) (selected : list RankedMarket) (cores : nat)
    : list RuntimeMarketInsight :=
  omap (fun '(idx, id) =>
      r ← collect_ranked selected !! id;
      Some {| mi_tier := if decide (idx < cores)%nat then "core" else "exploration"; mi_ranked := r |})
    (imap pair (take 12 ids)).

Definition select_market_ids (ordered_market_ids : list string)
    (active_count requested_exploration_slots : nat) : MarketSelectionResult :=
  if decide (active_count = 0 \/ ordered_market_ids = [])%nat
  then {| selected_ids := []; insights := []; core_count := 0; exploration_count := 0;
          exploration_ids := [] |}
  else
    let ranked := rank (market_selection_ranked <$> ordered_market_ids) in
    let slots := (requested_exploration_slots `min` (active_count - 1))%nat in
    let core := take (active_count - slots) ranked in
    let cores := length core in
    let selected := core ++ explored ranked core slots in
    let selected := selected ++ filled_up ranked selected active_count in
    let ids := retain_first ∅ (rk_market_id <$> selected) in
    let explorations := (slots `min` (active_count - cores))%nat in
    {| selected_ids := ids;
       insights := insights_of ids selected cores;
       core_count := cores;
       exploration_count := explorations;
       exploration_ids := take explorations (drop cores ids) |}.
End Select.
End Ranking.
End Selection.
