(* ===== verification/MarketSelectionFacts.v ===== *)
(** * Properties of the selection of the markets to monitor

    What [MarketSelection.select_market_ids] selects: as many different listed
    markets as asked for, the best scores as the core; and what the
    exploration slots do with candidates that hold one. *)

From stdpp Require Import sorting.
From S2P Require Import Prelude F64 FloatParse Platform Market Position PositionRepo PositionTracker.
From S2P Require Import MarketSelection.

Local Open Scope nat_scope.

(** ** Ranking *)

Lemma rank_perm l : rank l ≡ₚ l.
Proof. apply merge_sort_Permutation. Qed.
Lemma rank_ids l : rk_market_id <$> rank l ≡ₚ rk_market_id <$> l.
Proof. by rewrite rank_perm. Qed.

#[export] Instance not_outranked_total : Total not_outranked.
Proof.
  intros a b. unfold not_outranked. destruct (f64_ltb (rk_total_score a) _) eqn:E; [|by left].
  right. by apply f64_ltb_asym.
Qed.

(** The score is a number. *)
Definition scored (r : RankedMarket) : Prop := f64_is_nan (rk_total_score r) = false.

Lemma sorted_strongly l : Forall scored l -> Sorted not_outranked l -> StronglySorted not_outranked l.
Proof. apply strongly_sorted_on. intros a b c. unfold scored, not_outranked. apply f64_nlt_trans. Qed.

(** Whoever is among the first is not outscored by those that are not. *)
Lemma rank_best l n a b : Forall scored l -> a ∈ take n (rank l) -> b ∈ drop n (rank l) ->
  f64_ltb (rk_total_score a) (rk_total_score b) = false.
Proof.
  intros Hl. apply (StronglySorted_app_1_elem_of not_outranked). rewrite take_drop.
  apply sorted_strongly; [by rewrite rank_perm|]. apply (Sorted_merge_sort not_outranked).
Qed.

(** ** Candidates *)

Lemma elem_of_unused used l r : r ∈ unused used l <-> rk_market_id r ∉ used /\ r ∈ l.
Proof. unfold unused. by rewrite list_elem_of_filter. Qed.
Lemma unused_nodup used l : NoDup (rk_market_id <$> l) -> NoDup (rk_market_id <$> unused used l).
Proof.
  intros H. eapply sublist_NoDup; [exact H|]. apply fmap_sublist. unfold unused. apply sublist_filter.
Qed.
Lemma elem_of_ids l id : id ∈ id_set l <-> exists r, r ∈ l /\ rk_market_id r = id.
Proof. unfold id_set. rewrite elem_of_list_to_set, list_elem_of_fmap. naive_solver. Qed.

Lemma collect_lookup l id r : collect_ranked l !! id = Some r -> r ∈ l /\ rk_market_id r = id.
Proof.
  unfold collect_ranked. induction l as [|a l IH] using rev_ind; [done|].
  rewrite foldl_app. cbn. rewrite lookup_insert_Some, elem_of_app, list_elem_of_singleton. naive_solver.
Qed.

(** ** Filling the slots *)

Lemma scan_some l n used n' c : scan_ranked l n used = (n', Some c) -> c ∈ l /\ rk_market_id c ∉ used.
Proof.
  revert n. induction l as [|a l IH]; cbn; intros n; [done|]. case_decide as Ha.
  - intros [? ?]%IH. split; [by right|done].
  - intros [= _ <-]. split; [by left|done].
Qed.
Lemma next_some l n used n' c : next_available_ranked l n used = (n', Some c) ->
  c ∈ l /\ rk_market_id c ∉ used.
Proof.
  intros [H ?]%scan_some. split; [|done]. rewrite <- (take_drop n l). apply elem_of_app. by right.
Qed.
Lemma next_at pre c l used : rk_market_id c ∉ used ->
  next_available_ranked (pre ++ c :: l) (length pre) used = (S (length pre), Some c).
Proof. intros H. unfold next_available_ranked. rewrite drop_app_length. cbn. by rewrite decide_False. Qed.
Lemma next_end l used : next_available_ranked l (length l) used = (length l, None).
Proof. unfold next_available_ranked. by rewrite drop_all. Qed.

Lemma retain_nodup seen l : NoDup l -> (forall id, id ∈ l -> id ∉ seen) -> retain_first seen l = l.
Proof.
  revert seen. induction l as [|id l IH]; cbn; intros seen Hn Hs; [done|].
  apply NoDup_cons in Hn as [Hid Hn]. rewrite decide_False by (apply Hs; by left). f_equal.
  apply IH; [done|]. intros id' H'. apply not_elem_of_union. split; [|apply Hs; by right].
  intros ->%elem_of_singleton. done.
Qed.

(** What is not selected yet fills up the rest. *)
Lemma rest_length sel ranked : NoDup (rk_market_id <$> ranked) -> NoDup (rk_market_id <$> sel) ->
  (forall r, r ∈ sel -> rk_market_id r ∈ rk_market_id <$> ranked) ->
  length ranked = length sel + length (unused (id_set sel) ranked).
Proof.
  intros Hr Hs Hin. rewrite <- !(length_fmap rk_market_id), <- length_app. apply Permutation_length.
  assert (forall id, id ∈ rk_market_id <$> unused (id_set sel) ranked -> id ∉ rk_market_id <$> sel) as Hd.
  { intros id (r & -> & [Hn _]%elem_of_unused)%list_elem_of_fmap. contradict Hn.
    unfold id_set. by apply elem_of_list_to_set. }
  apply NoDup_Permutation; [done|apply NoDup_app; split; [done|split; [|by apply unused_nodup]]|].
  { intros id H1 H2. by apply (Hd id). }
  intros id. rewrite elem_of_app. split.
  - intros Hid. destruct (decide (id ∈ rk_market_id <$> sel)) as [|Hn]; [by left|right].
    apply list_elem_of_fmap in Hid as (r & -> & Hid). apply list_elem_of_fmap. exists r. split; [done|].
    apply elem_of_unused. split; [|done]. unfold id_set. by rewrite elem_of_list_to_set.
  - intros [(r & -> & H)%list_elem_of_fmap|(r & -> & [_ H]%elem_of_unused)%list_elem_of_fmap].
    + by apply Hin.
    + apply list_elem_of_fmap. by exists r.
Qed.

Section Facts.
Context `{DO : DecimalOps} `{CO : ChronoOps} `{HO : HashOps} {HS : HashSpec}.
Variable ln : f64 -> f64.
Variable profiles : gmap string MarketProfile.
Variable stats : gmap string MarketOpportunityStats.
Variable eligible : gset string.
Variable weights : ScoringWeights.
Variable threshold : dec.
Variable now : datetime.
Variable current : gset string.
Variable hold : Z.
Variable delta : f64.

#[local] Abbreviation core_score := (market_selection_ranked ln profiles stats eligible weights threshold now).
#[local] Abbreviation exploration_score :=
  (market_exploration_ranked ln profiles stats eligible weights threshold now).
#[local] Abbreviation pick := (pick_exploration stats now hold delta).
#[local] Abbreviation chosen_of := (choose stats now hold delta).
#[local] Abbreviation pool_of := (exploration_pool ln profiles stats eligible weights threshold now).
#[local] Abbreviation explored_of :=
  (explored ln profiles stats eligible weights threshold now current hold delta).
#[local] Abbreviation select :=
  (select_market_ids ln profiles stats eligible weights threshold now current hold delta).

Lemma core_id id : rk_market_id (core_score id) = id.
Proof. unfold market_selection_ranked. by destruct (stats !! id). Qed.
Lemma exploration_id id : rk_market_id (exploration_score id) = id.
Proof. unfold market_exploration_ranked. destruct (stats !! id); apply core_id. Qed.

Lemma choose_one i c r : chosen_of i c = Some r -> i = Some r \/ c = Some r.
Proof. destruct i, c; cbn; split_cases; naive_solver. Qed.

(** What the slots take is listed, unused and taken once. *)
Lemma pick_spec slots incs chals used ii ci :
  let l := pick slots incs chals used ii ci in
  NoDup (rk_market_id <$> l) /\ length l <= slots /\
  forall r, r ∈ l -> (r ∈ incs \/ r ∈ chals) /\ rk_market_id r ∉ used.
Proof.
  revert used ii ci. induction slots as [|n IH]; cbn; intros used ii ci.
  { split; [constructor|]. split; [lia|]. intros r Hr. by apply not_elem_of_nil in Hr. }
  destruct (next_available_ranked incs ii used) as [ii' i] eqn:Ei.
  destruct (next_available_ranked chals ci used) as [ci' c] eqn:Ec.
  destruct (chosen_of i c) as [r|] eqn:E.
  2: { split; [constructor|]. split; [cbn; lia|]. intros r Hr. by apply not_elem_of_nil in Hr. }
  assert ((r ∈ incs \/ r ∈ chals) /\ rk_market_id r ∉ used) as Hr.
  { apply choose_one in E as [-> | ->]; [apply next_some in Ei|apply next_some in Ec]; naive_solver. }
  destruct (IH ({[rk_market_id r]} ∪ used) ii' ci') as (Hn & Hlen & Hin). cbn. split; [|split].
  - constructor; [|done]. intros (r' & E' & H')%list_elem_of_fmap. apply Hin in H' as [_ H']. set_solver.
  - lia.
  - intros r' [->|H']%elem_of_cons; [done|]. apply Hin in H' as [? H']. split; [done|set_solver].
Qed.

Lemma pool_nodup ranked core : NoDup (rk_market_id <$> ranked) -> NoDup (rk_market_id <$> pool_of ranked core).
Proof.
  intros H. unfold exploration_pool. rewrite rank_ids, <- list_fmap_compose.
  rewrite (list_fmap_ext _ rk_market_id); [by apply unused_nodup|]. intros ? r _. apply exploration_id.
Qed.
Lemma elem_of_pool ranked core r : r ∈ pool_of ranked core ->
  rk_market_id r ∉ core /\ rk_market_id r ∈ rk_market_id <$> ranked.
Proof.
  unfold exploration_pool. rewrite rank_perm. intros (r' & -> & [? ?]%elem_of_unused)%list_elem_of_fmap.
  rewrite exploration_id. split; [done|]. apply list_elem_of_fmap. by exists r'.
Qed.
Lemma elem_of_incumbents pool r : r ∈ incumbents_of current pool -> r ∈ pool /\ rk_market_id r ∈ current.
Proof.
  unfold incumbents_of. rewrite rank_perm. intros (id & Hid & [? E]%collect_lookup)%list_elem_of_omap.
  split; [done|]. rewrite hash_keys_perm in Hid. apply list_elem_of_fmap in Hid as ([id' []] & -> & H').
  apply elem_of_map_to_list, lookup_gset_to_gmap_Some in H' as [? _]. by rewrite E.
Qed.

Lemma explored_spec ranked core slots :
  let l := explored_of ranked core slots in
  NoDup (rk_market_id <$> l) /\ length l <= slots /\
  forall r, r ∈ l -> rk_market_id r ∉ id_set core /\ rk_market_id r ∈ rk_market_id <$> ranked.
Proof.
  destruct slots as [|n]; cbn zeta.
  { split; [constructor|]. split; [cbn; lia|]. intros r Hr. by apply not_elem_of_nil in Hr. }
  unfold explored. cbv zeta. match goal with |- context [pick _ ?i ?c ?u ?a ?b] =>
    destruct (pick_spec (S n) i c u a b) as (Hn & Hlen & Hin) end.
  split; [done|]. split; [done|]. intros r Hr. apply Hin in Hr as [[H|H] Hu]; split; try done.
  - apply elem_of_incumbents in H as [H _]. by apply elem_of_pool in H as [_ ?].
  - apply elem_of_unused in H as [_ H]. by apply elem_of_pool in H as [_ ?].
Qed.

(** What a selection promises: [ranked] are the listed markets by their core
    score. *)
Record selection_ok (ordered : list string) (active slots : nat) (r : MarketSelectionResult) : Prop := {
  so_nodup : NoDup (selected_ids r);
  so_listed : forall id, id ∈ selected_ids r -> id ∈ ordered;
  so_length : length (selected_ids r) = active `min` length ordered;
  so_core : take (core_count r) (selected_ids r) =
    take (active - slots) (rk_market_id <$> rank (core_score <$> ordered));
  so_core_count : core_count r = (active - slots) `min` length ordered;
  so_explorations : exploration_ids r = drop (core_count r) (selected_ids r);
}.

Lemma selected_split ranked active slots : NoDup (rk_market_id <$> ranked) -> slots <= active ->
  let core := take (active - slots) ranked in
  let sel := core ++ explored_of ranked core slots in
  let all := sel ++ filled_up ranked sel active in
  NoDup (rk_market_id <$> all) /\ length all = active `min` length ranked /\
  forall r, r ∈ all -> rk_market_id r ∈ rk_market_id <$> ranked.
Proof.
  intros Hn Hle core sel all. destruct (explored_spec ranked core slots) as (Hen & Hel & Hein).
  assert (forall r, r ∈ core -> r ∈ ranked) as Hc.
  { intros r Hr. rewrite <- (take_drop (active - slots) ranked). apply elem_of_app. by left. }
  assert (NoDup (rk_market_id <$> core)) as Hcn.
  { unfold core. rewrite fmap_take. rewrite <- (take_drop (active - slots) (rk_market_id <$> ranked)) in Hn.
    by apply NoDup_app in Hn as [? _]. }
  assert (NoDup (rk_market_id <$> sel)) as Hsn.
  { unfold sel. rewrite fmap_app. apply NoDup_app. split; [done|]. split; [|done].
    intros id H1 (r & -> & [H2 _]%Hein)%list_elem_of_fmap. apply H2. unfold id_set.
    by apply elem_of_list_to_set. }
  assert (forall r, r ∈ sel -> rk_market_id r ∈ rk_market_id <$> ranked) as Hsin.
  { intros r [H%Hc|[_ H]%Hein]%elem_of_app; [|done]. apply list_elem_of_fmap. by exists r. }
  pose proof (rest_length sel ranked Hn Hsn Hsin) as Hrest.
  assert (length sel <= active) as Hsel.
  { unfold sel. rewrite length_app. assert (length core <= active - slots) by (unfold core; rewrite length_take; lia).
    lia. }
  assert (filled_up ranked sel active = take (active - length sel) (unused (id_set sel) ranked)) as Hf.
  { unfold filled_up. case_decide; [done|]. by replace (active - length sel) with 0 by lia. }
  assert (forall r, r ∈ filled_up ranked sel active -> r ∈ ranked /\ rk_market_id r ∉ id_set sel) as Hfin.
  { intros r. rewrite Hf. intros H. assert (r ∈ unused (id_set sel) ranked) as H'.
    { rewrite <- (take_drop (active - length sel)). apply elem_of_app. by left. }
    apply elem_of_unused in H'. naive_solver. }
  split; [|split].
  - unfold all. rewrite fmap_app. apply NoDup_app. split; [done|]. split.
    + intros id H1 (r & -> & [_ H2]%Hfin)%list_elem_of_fmap. apply H2. unfold id_set.
      by apply elem_of_list_to_set.
    + rewrite Hf, fmap_take. apply (unused_nodup (id_set sel)) in Hn.
      rewrite <- (take_drop (active - length sel)) in Hn. by apply NoDup_app in Hn as [? _].
  - unfold all. rewrite length_app, Hf, length_take, Hrest. lia.
  - intros r [H|[H _]%Hfin]%elem_of_app; [by apply Hsin|]. apply list_elem_of_fmap. by exists r.
Qed.

(** The slots that the core leaves. *)
Abbreviation slots_of requested active := (requested `min` (active - 1)).

#[local] Abbreviation ranking ordered := (rank (core_score <$> ordered)).

Lemma ranking_ids ordered : rk_market_id <$> ranking ordered ≡ₚ ordered.
Proof.
  rewrite rank_ids, <- list_fmap_compose. rewrite (list_fmap_ext _ id); [by rewrite list_fmap_id|].
  intros ? ? _. apply core_id.
Qed.
Lemma ranking_length ordered : length (ranking ordered) = length ordered.
Proof. rewrite <- (length_fmap rk_market_id). apply Permutation_length, ranking_ids. Qed.
Lemma elem_of_ranking ordered r : r ∈ ranking ordered -> r = core_score (rk_market_id r).
Proof. rewrite rank_perm. intros (id & -> & _)%list_elem_of_fmap. by rewrite core_id. Qed.

Lemma select_ok ordered active requested : NoDup ordered ->
  selection_ok ordered active (slots_of requested active) (select ordered active requested).
Proof.
  intros Ho. unfold select_market_ids. cbv zeta. destruct (decide (active = 0 \/ ordered = [])) as [H0|H0].
  { split; cbn; try done; [constructor|by intros ? ?%not_elem_of_nil| | |].
    - destruct H0 as [-> | ->]; cbn; lia.
    - destruct H0 as [-> | ->]; [done|]. cbn. by destruct (active - _).
    - destruct H0 as [-> | ->]; cbn; lia. }
  set (ranked := ranking ordered). set (slots := slots_of requested active).
  assert (NoDup (rk_market_id <$> ranked)) as Hn by (unfold ranked; by rewrite ranking_ids).
  assert (length ranked = length ordered) as Hlen by apply ranking_length.
  destruct (selected_split ranked active slots Hn ltac:(unfold slots; lia)) as (Hsn & Hsl & Hsin).
  set (core := take (active - slots) ranked) in *.
  set (rest := explored_of ranked core slots) in *.
  set (all := (core ++ rest) ++ filled_up ranked (core ++ rest) active) in *.
  assert (length core = (active - slots) `min` length ordered) as Hcore.
  { unfold core. by rewrite length_take, Hlen. }
  assert (retain_first ∅ (rk_market_id <$> all) = rk_market_id <$> all) as Hret.
  { apply retain_nodup; [done|]. intros ? _. apply not_elem_of_empty. }
  split; cbn; rewrite ?Hret; try done.
  - intros id (r & -> & Hr%Hsin)%list_elem_of_fmap. unfold ranked in Hr. by rewrite ranking_ids in Hr.
  - by rewrite length_fmap, Hsl, Hlen.
  - unfold all. rewrite <- app_assoc, fmap_app, <- (length_fmap rk_market_id core), take_app_length.
    unfold core. by rewrite fmap_take.
  - rewrite take_ge; [done|]. rewrite length_drop, length_fmap, Hsl, Hcore, Hlen. lia.
Qed.

(** C38. The selection has as many different listed markets as asked for; its core
    is the best by score, and none that is left out of it scores higher. *)
Theorem selection_is_exact ordered active requested : NoDup ordered ->
  let r := select ordered active requested in
  selection_ok ordered active (slots_of requested active) r /\
  (Forall (fun id => scored (core_score id)) ordered ->
   forall a b, a ∈ take (core_count r) (selected_ids r) -> b ∈ ordered ->
     b ∉ take (core_count r) (selected_ids r) ->
     f64_ltb (rk_total_score (core_score a)) (rk_total_score (core_score b)) = false).
Proof.
  intros Ho r. pose proof (select_ok ordered active requested Ho) as Hok. fold r in Hok. split; [done|].
  rewrite (so_core _ _ _ _ Hok), <- fmap_take. set (n := active - slots_of requested active).
  intros Hsc a b (ra & -> & Hra)%list_elem_of_fmap Hb Hnb.
  assert (core_score b ∈ drop n (ranking ordered)) as Hrb.
  { assert (core_score b ∈ ranking ordered) as H by (rewrite rank_perm; by apply list_elem_of_fmap_2).
    rewrite <- (take_drop n (ranking ordered)) in H. apply elem_of_app in H as [H|H]; [|done].
    contradict Hnb. apply list_elem_of_fmap. exists (core_score b). by rewrite core_id. }
  rewrite <- (elem_of_ranking ordered ra).
  - apply (rank_best (core_score <$> ordered) n); [by apply Forall_fmap|done|done].
  - rewrite <- (take_drop n (ranking ordered)). apply elem_of_app. by left.
Qed.

(** ** Held slots *)

Lemma held_picks slots pre incs pre' chals used :
  NoDup (rk_market_id <$> incs ++ chals) ->
  (forall r, r ∈ incs ++ chals -> rk_market_id r ∉ used) ->
  (forall i, i ∈ incs -> incumbent_is_held stats (rk_market_id i) now hold = true) ->
  (forall i c, i ∈ incs -> c ∈ chals ->
     f64_ltb (rk_total_score c) (f64_add (rk_total_score i) delta) = true) ->
  pick slots (pre ++ incs) (pre' ++ chals) used (length pre) (length pre') =
    take slots incs ++ take (slots - length incs) (drop (length incs) chals).
Proof.
  revert pre incs pre' chals used. induction slots as [|n IH]; intros pre incs pre' chals used Hn Hu Hh Hd.
  { by rewrite !take_0. }
  destruct incs as [|i incs]; cbn.
  - rewrite app_nil_r, next_end. destruct chals as [|c chals].
    + rewrite app_nil_r, next_end. done.
    + rewrite next_at by (apply Hu; by left). cbn in Hn |- *. f_equal.
      apply NoDup_cons in Hn as [Hc Hn].
      specialize (IH pre [] (pre' ++ [c]) chals ({[rk_market_id c]} ∪ used) Hn).
      rewrite length_app, Nat.add_comm, <- app_assoc, app_nil_r in IH. cbn in IH.
      rewrite Nat.sub_0_r, drop_0, take_nil in IH. cbn in IH. apply IH; [|by intros ? ?%not_elem_of_nil|by intros ? ? ?%not_elem_of_nil].
      intros r Hr. apply not_elem_of_union. split; [|apply Hu; by right].
      intros E%elem_of_singleton. apply Hc, list_elem_of_fmap. by exists r.
  - rewrite next_at by (apply Hu; by left).
    cbn in Hn. apply NoDup_cons in Hn as [Hi Hn].
    assert (forall used' chals', chals' ⊆ chals -> used' = {[rk_market_id i]} ∪ used ->
      forall r, r ∈ incs ++ chals' -> rk_market_id r ∉ used') as Hu'.
    { intros ? chals' Hsub -> r Hr. assert (r ∈ incs ++ chals) as Hr' by set_solver.
      apply not_elem_of_union. split; [|apply Hu; cbn; by right].
      intros E%elem_of_singleton. apply Hi. rewrite <- E. apply list_elem_of_fmap. by exists r. }
    specialize (IH (pre ++ [i]) incs). rewrite length_app, Nat.add_comm, <- app_assoc in IH. cbn in IH.
    destruct chals as [|c chals].
    + rewrite app_nil_r, next_end. cbn. f_equal. specialize (IH pre' [] ({[rk_market_id i]} ∪ used)).
      rewrite !app_nil_r, drop_nil in IH. rewrite app_nil_r in Hn. apply IH; try done.
      * intros r Hr. apply (Hu' _ [] ltac:(done) eq_refl). by rewrite app_nil_r.
      * intros; apply Hh; by right.
      * by intros ? ? ? ?%not_elem_of_nil.
    + rewrite next_at by (apply Hu; apply elem_of_app; right; by left). cbn.
      rewrite Hh, Hd by (try by left). cbn. f_equal.
      specialize (IH (pre' ++ [c]) chals). rewrite length_app, Nat.add_comm, <- app_assoc in IH. cbn in IH.
      apply IH; [|eapply Hu'; [set_solver|done]|intros; apply Hh; by right|intros; apply Hd; by right].
      rewrite fmap_app in *. cbn in Hn. apply NoDup_app in Hn as (H1 & H2 & H3). apply NoDup_cons in H3 as [_ H3].
      apply NoDup_app. split; [done|]. split; [|done]. set_solver.
Qed.

Lemma collected_nodup (m : gmap string RankedMarket) keys : NoDup keys ->
  (forall id r, m !! id = Some r -> rk_market_id r = id) ->
  NoDup (rk_market_id <$> omap (fun id => m !! id) keys).
Proof.
  intros Hk Hm. induction Hk as [|id keys Hid Hk IH]; cbn; [constructor|].
  destruct (m !! id) as [r|] eqn:E; [|done]. cbn. constructor; [|done].
  intros (r' & E' & (id' & Hid' & Er')%list_elem_of_omap)%list_elem_of_fmap.
  apply Hm in E, Er'. congruence.
Qed.
Lemma incumbents_nodup pool : NoDup (rk_market_id <$> incumbents_of current pool).
Proof.
  unfold incumbents_of. rewrite rank_ids. apply collected_nodup.
  - rewrite hash_keys_perm. apply NoDup_fst_map_to_list.
  - intros id r E. by apply collect_lookup in E as [_ ?].
Qed.

(** When every market that holds an exploration slot is still held and no
    challenger beats it by the required edge, all of them keep their slots. *)
Theorem held_incumbents_keep_slots ranked core slots :
  NoDup (rk_market_id <$> ranked) ->
  let pool := pool_of ranked (id_set core) in
  let incumbents := incumbents_of current pool in
  let challengers := challengers_of current pool in
  (forall i, i ∈ incumbents -> incumbent_is_held stats (rk_market_id i) now hold = true) ->
  (forall i c, i ∈ incumbents -> c ∈ challengers ->
     f64_ltb (rk_total_score c) (f64_add (rk_total_score i) delta) = true) ->
  explored_of ranked core slots = take slots incumbents ++
    take (slots - length incumbents) (drop (length incumbents) challengers).
Proof.
  intros Hr pool incs chals Hh Hd. destruct slots as [|n]; [by rewrite !take_0|].
  assert (forall r, r ∈ incs ++ chals -> r ∈ pool) as Hin.
  { intros r [H|H]%elem_of_app; [by apply elem_of_incumbents in H as [? _]|by apply elem_of_unused in H as [_ ?]]. }
  apply (held_picks (S n) [] incs [] chals); try done.
  - rewrite fmap_app. apply NoDup_app. split; [apply incumbents_nodup|]. split.
    + intros id (i & -> & [_ Hi]%elem_of_incumbents)%list_elem_of_fmap
        (c & E & [Hc _]%elem_of_unused)%list_elem_of_fmap. congruence.
    + by apply unused_nodup, pool_nodup.
  - intros r Hr'%Hin. by apply elem_of_pool in Hr' as [? _].
Qed.
End Facts.

(** ** Witnesses *)

Module SelectionSample.
Import Concrete.
#[local] Existing Instance decimal.
#[local] Existing Instance chrono.
#[local] Instance hash : HashOps := {| hash_keys A m := (map_to_list m).*1 |}.
#[local] Instance hash_spec : HashSpec.
Proof. by split. Defined.

(** In place of the logarithm. *)
Definition ln (x : f64) : f64 := f64_sub x f64_one.

Definition balanced : ScoringWeights := weights_for_profile Balanced.
Definition sample_profiles : gmap string MarketProfile :=
  {[ "core" := {| mp_liquidity := f64_of_Z 10; mp_volume := f64_zero |};
     "best" := {| mp_liquidity := f64_one; mp_volume := f64_zero |} ]}.
(** Selected a minute ago. *)
Definition sample_stats : gmap string MarketOpportunityStats :=
  {[ "held" := {| default_market_stats with last_selected_at := Some (at_minute 9) |} ]}.
Definition listed : list string := ["core"; "held"; "best"; "next"].

Definition sample_score : string -> RankedMarket :=
  market_selection_ranked ln sample_profiles sample_stats {["core"; "held"]} balanced (d 5 3) (at_minute 10).
Definition sample_selection : MarketSelectionResult :=
  select_market_ids ln sample_profiles sample_stats {["core"; "held"]} balanced (d 5 3) (at_minute 10)
    {["held"]} 600 (f64_lit 75 100) listed 3 2.

(** The held market keeps its slot; the other free slot goes to the second
    best challenger, because the best one was tried against the held one. *)
Example best_challenger_skipped :
  selected_ids sample_selection = ["core"; "held"; "next"] /\
  f64_ltb (rk_total_score (sample_score "next")) (rk_total_score (sample_score "best")) = true.
Proof. vm_compute. by split. Qed.

Lemma listed_nodup : NoDup listed.
Proof. refine (bool_decide_unpack _ _). vm_compute. exact I. Qed.

Lemma selection_is_exact_witness :
  NoDup listed /\ Forall (fun id => scored (sample_score id)) listed /\
  length (selected_ids sample_selection) = 3 /\
  f64_ltb (rk_total_score (sample_score "core")) (rk_total_score (sample_score "best")) = false.
Proof.
  assert (Forall (fun id => scored (sample_score id)) listed) as Hs by (repeat constructor; vm_compute; done).
  destruct (selection_is_exact ln sample_profiles sample_stats {["core"; "held"]} balanced (d 5 3)
    (at_minute 10) {["held"]} 600 (f64_lit 75 100) listed 3 2 listed_nodup) as [H1 H2].
  refine (conj listed_nodup (conj Hs (conj _ _))).
  - exact (so_length _ _ _ _ _ _ _ _ _ _ _ H1).
  - apply (H2 Hs); [|by repeat constructor|]; refine (bool_decide_unpack _ _); vm_compute; exact I.
Defined.

Definition sample_ranked : list RankedMarket := rank (sample_score <$> listed).
Definition sample_pool : list RankedMarket :=
  exploration_pool ln sample_profiles sample_stats {["core"; "held"]} balanced (d 5 3) (at_minute 10)
    sample_ranked (id_set (take 1 sample_ranked)).

Lemma held_incumbents_keep_slots_witness :
  rk_market_id <$> explored ln sample_profiles sample_stats {["core"; "held"]} balanced (d 5 3)
    (at_minute 10) {["held"]} 600 (f64_lit 75 100) sample_ranked (take 1 sample_ranked) 2 = ["held"; "next"].
Proof.
  rewrite (held_incumbents_keep_slots ln sample_profiles sample_stats {["core"; "held"]} balanced (d 5 3)
    (at_minute 10) {["held"]} 600 (f64_lit 75 100) sample_ranked (take 1 sample_ranked) 2).
  - vm_compute. reflexivity.
  - refine (bool_decide_unpack _ _). vm_compute. exact I.
  - assert (Forall (fun i => incumbent_is_held sample_stats (rk_market_id i) (at_minute 10) 600 = true)
      (incumbents_of {["held"]} sample_pool)) as H
      by (refine (bool_decide_unpack _ _); vm_compute; exact I).
    rewrite Forall_forall in H. exact H.
  - assert (Forall (fun i => Forall (fun c => f64_ltb (rk_total_score c)
        (f64_add (rk_total_score i) (f64_lit 75 100)) = true) (challengers_of {["held"]} sample_pool))
      (incumbents_of {["held"]} sample_pool)) as H
      by (refine (bool_decide_unpack _ _); vm_compute; exact I).
    intros i c Hi Hc. rewrite Forall_forall in H. specialize (H i Hi). rewrite Forall_forall in H.
    exact (H c Hc).
Defined.
End SelectionSample.
