(* ===== verification/Monitor.v ===== *)
(** * The arbitrage monitor

    Models [ArbMonitor] of [crates/arb-monitor/src/monitor.rs] and what
    [signals.rs] publishes for it: start, updates of its configuration, the
    rebuild of the selection, an order-book update from the book to the entry
    signal, the minute's statistics, and the loop as turns over the events
    that wake it.  An [Err] that ends the process is a [MonitorError]; alerts
    and logs are left out. *)

From stdpp Require Import sorting.
From S2P Require Import Prelude F64 FloatParse Platform Handler Market CircuitBreaker Position.
From S2P Require Import PositionRepo PositionTracker Executor Signal Trading StrategyRisk ArbExecutor.
From S2P Require Import QuantExecutor DynamicConfig BookStream MarketSelection.

Definition SIGNAL_COOLDOWN_SECS : Z := 60.
Definition STALE_CHECK_INTERVAL : Z := 500.
Definition OPPORTUNITY_EWMA_ALPHA : f64 := f64_lit 25 100.

(** ** Telemetry *)

(** [ArbTelemetryCounters]. *)
Record ArbTelemetryCounters : Type := {
  evaluated_books : Z;
  profitable_books : Z;
  eligible_profitable_books : Z;
  filtered_by_selection : Z;
  filtered_by_profit : Z;
  filtered_by_depth : Z;
  filtered_by_cooldown : Z;
  entry_signals : Z;
  near_miss_under_1bp : Z;
  near_miss_under_5bps : Z;
  near_miss_under_25bps : Z;
  near_miss_under_50bps : Z;
  gross_positive_but_net_negative : Z;
  best_gross_profit_bps : f64;
  best_net_profit_bps : f64;
  best_eligible_gross_profit_bps : f64;
  best_eligible_net_profit_bps : f64;
  best_fee_drag_bps : f64;
  closest_threshold_gap_bps : option f64;
}.
Definition default_telemetry : ArbTelemetryCounters := {|
  evaluated_books := 0; profitable_books := 0; eligible_profitable_books := 0;
  filtered_by_selection := 0; filtered_by_profit := 0; filtered_by_depth := 0;
  filtered_by_cooldown := 0; entry_signals := 0; near_miss_under_1bp := 0;
  near_miss_under_5bps := 0; near_miss_under_25bps := 0; near_miss_under_50bps := 0;
  gross_positive_but_net_negative := 0; best_gross_profit_bps := f64_zero;
  best_net_profit_bps := f64_zero; best_eligible_gross_profit_bps := f64_zero;
  best_eligible_net_profit_bps := f64_zero; best_fee_drag_bps := f64_zero;
  closest_threshold_gap_bps := None |}.

(** [ArbTelemetryRuntimeStats]: the counters of a minute as floats. *)
Record ArbTelemetryRuntimeStats : Type := {
  evaluated_books_per_minute : f64;
  profitable_books_per_minute : f64;
  eligible_profitable_books_per_minute : f64;
  filtered_by_selection_per_minute : f64;
  filtered_by_profit_per_minute : f64;
  filtered_by_depth_per_minute : f64;
  filtered_by_cooldown_per_minute : f64;
  entry_signals_per_minute : f64;
  near_miss_under_1bp_per_minute : f64;
  near_miss_under_5bps_per_minute : f64;
  near_miss_under_25bps_per_minute : f64;
  near_miss_under_50bps_per_minute : f64;
  gross_positive_but_net_negative_per_minute : f64;
  best_gross_profit_bps_per_minute : f64;
  best_net_profit_bps_per_minute : f64;
  best_eligible_gross_profit_bps_per_minute : f64;
  best_eligible_net_profit_bps_per_minute : f64;
  best_fee_drag_bps_per_minute : f64;
  closest_threshold_gap_bps_per_minute : option f64;
}.
Definition as_runtime_stats (c : ArbTelemetryCounters) : ArbTelemetryRuntimeStats := {|
  evaluated_books_per_minute := f64_of_Z (evaluated_books c);
  profitable_books_per_minute := f64_of_Z (profitable_books c);
  eligible_profitable_books_per_minute := f64_of_Z (eligible_profitable_books c);
  filtered_by_selection_per_minute := f64_of_Z (filtered_by_selection c);
  filtered_by_profit_per_minute := f64_of_Z (filtered_by_profit c);
  filtered_by_depth_per_minute := f64_of_Z (filtered_by_depth c);
  filtered_by_cooldown_per_minute := f64_of_Z (filtered_by_cooldown c);
  entry_signals_per_minute := f64_of_Z (entry_signals c);
  near_miss_under_1bp_per_minute := f64_of_Z (near_miss_under_1bp c);
  near_miss_under_5bps_per_minute := f64_of_Z (near_miss_under_5bps c);
  near_miss_under_25bps_per_minute := f64_of_Z (near_miss_under_25bps c);
  near_miss_under_50bps_per_minute := f64_of_Z (near_miss_under_50bps c);
  gross_positive_but_net_negative_per_minute := f64_of_Z (gross_positive_but_net_negative c);
  best_gross_profit_bps_per_minute := best_gross_profit_bps c;
  best_net_profit_bps_per_minute := best_net_profit_bps c;
  best_eligible_gross_profit_bps_per_minute := best_eligible_gross_profit_bps c;
  best_eligible_net_profit_bps_per_minute := best_eligible_net_profit_bps c;
  best_fee_drag_bps_per_minute := best_fee_drag_bps c;
  closest_threshold_gap_bps_per_minute := closest_threshold_gap_bps c |}.

Inductive SelectionRebuildReason : Type := Startup | DynamicConfigChange | PeriodicRerank.
#[export] Instance SelectionRebuildReason_eq_dec : EqDecision SelectionRebuildReason.
Proof. solve_decision. Defined.

Record SelectionRebuildOutcome : Type := {
  so_applied : bool;
  so_changed : bool;
  so_suppressed : bool;
  so_market_delta : nat;
  so_asset_delta : nat;
}.
Definition default_outcome : SelectionRebuildOutcome := {|
  so_applied := false; so_changed := false; so_suppressed := false; so_market_delta := 0;
  so_asset_delta := 0 |}.

Inductive MonitorError : Type := EntryNotPublished | ExitCheckFailed | MarketsNotLoaded
| NotReconciled | NotSubscribed.

Section Monitor.
Context `{DO : DecimalOps} `{CO : ChronoOps} `{UO : UuidOps} `{JO : !JsonOps} `{HO : HashOps}.
Context `{MJ : MetricsJson} `{NO : !NumericOps}.
Variable ln : f64 -> f64.

(** [RuntimeStats]; the rates of the stream and those of the telemetry are
    records of their own. *)
Record WebSocketRates : Type := {
  ws_text_messages_per_minute : f64;
  ws_orderbook_updates_per_minute : f64;
  ws_parse_misses_per_minute : f64;
  ws_snapshot_messages_per_minute : f64;
  ws_price_change_messages_per_minute : f64;
}.
Record RuntimeStats : Type := {
  rt_updates_per_minute : f64;
  rt_stalls_last_minute : f64;
  rt_resets_last_minute : f64;
  rt_ws_rates : WebSocketRates;
  rt_monitored_markets : f64;
  rt_monitored_assets : f64;
  rt_telemetry : ArbTelemetryRuntimeStats;
  selection_refreshes_applied_per_minute : f64;
  selection_refreshes_suppressed_per_minute : f64;
  rt_last_selection_market_delta : f64;
  rt_last_selection_asset_delta : f64;
  rt_core_markets : f64;
  rt_exploration_markets : f64;
  rt_last_rerank_at : option datetime;
  rt_last_resubscribe_at : option datetime;
  rt_ws : WebSocketRuntimeStatsSnapshot;
  selected_markets : list RuntimeMarketInsight;
}.

(** What has been published: entry signals, statistics, and the latest
    statistics under their key. *)
Record SignalPublisher : Type := {
  sp_entries : list ArbOpportunity;
  sp_stats : list RuntimeStats;
  sp_latest : option RuntimeStats;
}.
(** The executor measures the age of a signal from the decision. *)
Definition publish_entry_signal (arb : ArbOpportunity) (observed_at : datetime) (p : SignalPublisher)
    : SignalPublisher :=
  {| p with sp_entries := sp_entries p ++ [{| arb with arb_timestamp := observed_at |}] |}.
(** [set_ok], [publish_ok]: the SET and the PUBLISH succeed. *)
Definition publish_runtime_stats (set_ok publish_ok : bool) (s : RuntimeStats) (p : SignalPublisher)
    : SignalPublisher :=
  if negb set_ok then p
  else if negb publish_ok then {| p with sp_latest := Some s |}
  else {| p with sp_latest := Some s; sp_stats := sp_stats p ++ [s] |}.

(** [DynamicConfigUpdate] of monitor.rs. *)
Record MonitorUpdate : Type := { mu_key : string; mu_value : dec; mu_source : string }.
Definition monitor_update (u : DynamicConfigUpdate) : MonitorUpdate :=
  {| mu_key := du_key u; mu_value := du_value u; mu_source := du_source u |}.

Abbreviation Bounds := (gmap string (dec * dec)).

(** ** The monitor *)

Record ArbMonitor : Type := {
  am_position_tracker : PositionTracker;
  am_signal_publisher : SignalPublisher;
  am_order_books : gmap (string * string) OrderBook;
  am_market_outcomes : gmap string (string * string);
  am_min_profit_threshold : dec;
  am_min_book_depth : dec;
  am_last_signal_time : gmap string datetime;
  am_aggressiveness_profile : AggressivenessProfile;
  am_scoring_weights : ScoringWeights;
  am_max_markets_cap : option Z;
  am_all_market_ids : list string;
  am_market_profiles : gmap string MarketProfile;
  am_market_fees_enabled : gmap string bool;
  am_market_stats : gmap string MarketOpportunityStats;
  am_eligible_markets : gset string;
  am_selection_snapshot : list RuntimeMarketInsight;
  am_core_market_count : nat;
  am_exploration_market_count : nat;
  am_current_exploration_markets : gset string;
  am_last_rerank_at : option datetime;
  am_last_selection_apply_at : option datetime;
  am_last_resubscribe_at : option datetime;
  am_exploration_slots : Z;
  selection_resubscribe_min_market_delta : Z;
  selection_resubscribe_min_delta_ratio : f64;
  selection_force_refresh_secs : Z;
  am_exploration_hold_secs : Z;
  am_exploration_swap_min_score_delta : f64;
  am_dynamic_bounds : Bounds;
  am_allowed_dynamic_sources : gset string;
}.

(** ** Bounds of the dynamic keys *)

Definition monitor_bounds_for_key (key : string) : option (dec * dec) :=
  if bool_decide (key = KEY_ARB_MIN_PROFIT_THRESHOLD) then Some (dec_new 2 3, dec_new 5 3)
  else if bool_decide (key = KEY_ARB_MONITOR_MAX_MARKETS) then Some (dec_new 25 0, dec_new 1500 0)
  else if bool_decide (key = KEY_ARB_MONITOR_EXPLORATION_SLOTS) then Some (dec_new 1 0, dec_new 500 0)
  else if bool_decide (key = KEY_ARB_MONITOR_AGGRESSIVENESS_LEVEL) then Some (ZERO, dec_new 2 0)
  else None.
Definition monitor_keys : list string :=
  [KEY_ARB_MIN_PROFIT_THRESHOLD; KEY_ARB_MONITOR_MAX_MARKETS; KEY_ARB_MONITOR_EXPLORATION_SLOTS;
   KEY_ARB_MONITOR_AGGRESSIVENESS_LEVEL].
Definition monitor_fallback_bounds : Bounds :=
  list_to_map (omap (fun key => (fun b => (key, b)) <$> monitor_bounds_for_key key) monitor_keys).
(** [io]: the query succeeds. *)
Definition monitor_load_bounds (io : bool) (t : ConfigTable) : Bounds :=
  if io then
    let bounds := (fun r => (dc_min_value r, dc_max_value r)) <$> enabled_rows t in
    if bool_decide (bounds = ∅) then monitor_fallback_bounds else bounds
  else monitor_fallback_bounds.
Definition load_dynamic_values (io : bool) (t : ConfigTable) : gmap string dec :=
  if io then dc_current_value <$> enabled_rows t else ∅.
Definition monitor_clamp (key : string) (value : dec) (bounds : Bounds) : option dec :=
  '(lo, hi) ← (match bounds !! key with Some b => Some b | None => monitor_bounds_for_key key end);
  Some (dec_min (dec_max value lo) hi).
Definition decimal_to_cap (value : dec) : option Z :=
  n ← dec_to_u64 value; if (0 <? n)%Z then Some n else None.

(** ** The selection *)

Definition mark_markets_selected (ids : gset string) (at_ : datetime)
    (stats : gmap string MarketOpportunityStats) : gmap string MarketOpportunityStats :=
  set_fold (alter (fun s => {| s with last_selected_at := Some at_ |})) stats ids.

Definition assets_of (outcomes : gmap string (string * string)) (ids : gset string) : gset string :=
  set_fold (fun id assets => match outcomes !! id with
                             | None => assets
                             | Some (yes_id, no_id) => {[yes_id; no_id]} ∪ assets
                             end) ∅ ids.
Definition symmetric_difference (a b : gset string) : gset string := (a ∖ b) ∪ (b ∖ a).
Definition selection_asset_delta (outcomes : gmap string (string * string))
    (previous next : gset string) : nat :=
  size (symmetric_difference (assets_of outcomes previous) (assets_of outcomes next)).

Definition active_subscription_asset_ids (m : ArbMonitor) : gset string :=
  assets_of (am_market_outcomes m) (list_to_set (am_all_market_ids m) ∩ am_eligible_markets m).

(** How many markets the cap leaves, and the selection it gets (more
    exploration slots than markets make no difference). *)
Definition active_count (m : ArbMonitor) : nat :=
  match am_max_markets_cap m with
  | None => length (am_all_market_ids m)
  | Some cap => Z.to_nat (Z.min cap (Z.of_nat (length (am_all_market_ids m))))
  end.
Definition selection_of (m : ArbMonitor) (now : datetime) : MarketSelectionResult :=
  select_market_ids ln (am_market_profiles m) (am_market_stats m) (am_eligible_markets m)
    (am_scoring_weights m) (am_min_profit_threshold m) now (am_current_exploration_markets m)
    (am_exploration_hold_secs m) (am_exploration_swap_min_score_delta m)
    (am_all_market_ids m) (active_count m)
    (Z.to_nat (Z.min (am_exploration_slots m) (Z.of_nat (active_count m)))).
(** The selected markets, and those of the open positions. *)
Definition next_markets (m : ArbMonitor) (selected : MarketSelectionResult) : gset string :=
  list_to_set (selected_ids selected)
  ∪ list_to_set (pos_market_id <$> get_active_positions (am_position_tracker m)).

Definition material_delta (m : ArbMonitor) (market_delta : nat) : bool :=
  let ratio_threshold := f64_ceil_usize (f64_mul (f64_of_Z (Z.of_nat (size (am_eligible_markets m))))
                                           (selection_resubscribe_min_delta_ratio m)) in
  (Z.max (selection_resubscribe_min_market_delta m) (Z.max ratio_threshold 1)
     <=? Z.of_nat market_delta)%Z.
Definition hold_expired (m : ArbMonitor) (now : datetime) : bool :=
  match am_last_selection_apply_at m with
  | None => true
  | Some last => (selection_force_refresh_secs m <=? secs_since now last)%Z
  end.

Definition mark_eligible (now : datetime) (m : ArbMonitor) : ArbMonitor :=
  {| m with am_market_stats := mark_markets_selected (am_eligible_markets m) now (am_market_stats m) |}.
Definition reranked (now : datetime) (m : ArbMonitor) : ArbMonitor :=
  {| m with am_last_rerank_at := Some now |}.
Definition take_selection (selected : MarketSelectionResult) (next : gset string) (now : datetime)
    (m : ArbMonitor) : ArbMonitor :=
  {| m with am_eligible_markets := next; am_selection_snapshot := insights selected;
            am_core_market_count := core_count selected;
            am_exploration_market_count := exploration_count selected;
            am_current_exploration_markets := list_to_set (exploration_ids selected);
            am_last_selection_apply_at := Some now |}.

Definition rebuild_eligible_markets (reason : SelectionRebuildReason) (now : datetime) (m : ArbMonitor)
    : ArbMonitor * SelectionRebuildOutcome :=
  let previous := am_eligible_markets m in
  let selected := selection_of m now in
  let next := next_markets m selected in
  let m := reranked now m in
  if decide (next = previous) then (mark_eligible now m, default_outcome)
  else
    let market_delta := size (symmetric_difference previous next) in
    let asset_delta := selection_asset_delta (am_market_outcomes m) previous next in
    if negb (bool_decide (reason = PeriodicRerank)) || material_delta m market_delta
       || hold_expired m now
    then (mark_eligible now (take_selection selected next now m),
          {| so_applied := true; so_changed := true; so_suppressed := false;
             so_market_delta := market_delta; so_asset_delta := asset_delta |})
    else (mark_eligible now m,
          {| so_applied := false; so_changed := true; so_suppressed := true;
             so_market_delta := market_delta; so_asset_delta := asset_delta |}).

(** ** An update of the configuration *)

Definition apply_dynamic_update (u : MonitorUpdate) (now : datetime) (m : ArbMonitor)
    : ArbMonitor * SelectionRebuildOutcome :=
  if decide (mu_source u ∉ am_allowed_dynamic_sources m) then (m, default_outcome)
  else match monitor_clamp (mu_key u) (mu_value u) (am_dynamic_bounds m) with
  | None => (m, default_outcome)
  | Some value =>
      if bool_decide (mu_key u = KEY_ARB_MIN_PROFIT_THRESHOLD) then
        if (am_min_profit_threshold m =? value)%dec then (m, default_outcome)
        else ({| m with am_min_profit_threshold := value |}, default_outcome)
      else if bool_decide (mu_key u = KEY_ARB_MONITOR_MAX_MARKETS) then
        let cap := decimal_to_cap value in
        if bool_decide (am_max_markets_cap m = cap) then (m, default_outcome)
        else rebuild_eligible_markets DynamicConfigChange now {| m with am_max_markets_cap := cap |}
      else if bool_decide (mu_key u = KEY_ARB_MONITOR_EXPLORATION_SLOTS) then
        let slots := default (Z.max (am_exploration_slots m) 1) (decimal_to_cap value) in
        if bool_decide (am_exploration_slots m = slots) then (m, default_outcome)
        else rebuild_eligible_markets DynamicConfigChange now {| m with am_exploration_slots := slots |}
      else if bool_decide (mu_key u = KEY_ARB_MONITOR_AGGRESSIVENESS_LEVEL) then
        let profile := profile_from_level (default f64_one (dec_to_f64 value)) in
        if bool_decide (am_aggressiveness_profile m = profile) then (m, default_outcome)
        else rebuild_eligible_markets DynamicConfigChange now
               {| m with am_aggressiveness_profile := profile;
                         am_scoring_weights := weights_for_profile profile |}
      else (m, default_outcome)
  end.

(** ** An order-book update *)

Definition change_stats (market_id : string) (f : MarketOpportunityStats -> MarketOpportunityStats)
    (m : ArbMonitor) : ArbMonitor :=
  {| m with am_market_stats := <[market_id := f (default default_market_stats (am_market_stats m !! market_id))]>
                                 (am_market_stats m) |}.
Definition track_market_evaluation (market_id : string) (now : datetime) : ArbMonitor -> ArbMonitor :=
  change_stats market_id (fun s =>
    {| s with ms_evaluated_books := u64_sat_add (ms_evaluated_books s) 1; last_seen_at := Some now |}).
Definition track_market_opportunity (market_id : string) (net_profit : dec) (now : datetime)
    : ArbMonitor -> ArbMonitor :=
  change_stats market_id (fun s =>
    let count := u64_sat_add (ms_profitable_books s) 1 in
    let profit := f64_max (default f64_zero (dec_to_f64 net_profit)) f64_zero in
    {| s with ms_profitable_books := count; last_seen_at := Some now;
              ewma_net_profit :=
                if (count <=? 1)%Z then profit
                else f64_add (f64_mul (ewma_net_profit s) (f64_sub f64_one OPPORTUNITY_EWMA_ALPHA))
                       (f64_mul profit OPPORTUNITY_EWMA_ALPHA) |}).
Definition track_market_signal (market_id : string) (now : datetime) : ArbMonitor -> ArbMonitor :=
  change_stats market_id (fun s =>
    {| s with ms_signaled_books := u64_sat_add (ms_signaled_books s) 1; last_signal_at := Some now |}).

Definition bps (d : dec) : f64 := f64_mul (default f64_zero (dec_to_f64 d)) (f64_of_Z 10000).
Definition bump (c : bool) (n : Z) : Z := if c then u64_sat_add n 1 else n.

(** How near to the threshold an eligible book of enough depth comes. *)
Definition observe_gap (gap : f64) (c : ArbTelemetryCounters) : ArbTelemetryCounters :=
  if f64_ltb f64_zero gap then
    {| c with closest_threshold_gap_bps :=
                Some (match closest_threshold_gap_bps c with None => gap | Some prev => f64_min prev gap end);
              near_miss_under_1bp := bump (f64_leb gap f64_one) (near_miss_under_1bp c);
              near_miss_under_5bps := bump (f64_leb gap (f64_of_Z 5)) (near_miss_under_5bps c);
              near_miss_under_25bps := bump (f64_leb gap (f64_of_Z 25)) (near_miss_under_25bps c);
              near_miss_under_50bps := bump (f64_leb gap (f64_of_Z 50)) (near_miss_under_50bps c) |}
  else c.
Definition observe_profits (candidate : bool) (threshold : dec) (arb : ArbOpportunity)
    (c : ArbTelemetryCounters) : ArbTelemetryCounters :=
  let gross := bps (gross_profit arb) in
  let net := bps (net_profit arb) in
  let c := {| c with best_gross_profit_bps := f64_max (best_gross_profit_bps c) gross;
                     best_net_profit_bps := f64_max (best_net_profit_bps c) net;
                     best_fee_drag_bps := f64_max (best_fee_drag_bps c) (bps (fee_drag arb)) |} in
  if candidate then
    observe_gap (bps (dec_max (threshold - net_profit arb)%dec ZERO))
      {| c with best_eligible_gross_profit_bps := f64_max (best_eligible_gross_profit_bps c) gross;
                best_eligible_net_profit_bps := f64_max (best_eligible_net_profit_bps c) net |}
  else c.

Definition count_profitable (arb : ArbOpportunity) (c : ArbTelemetryCounters) : ArbTelemetryCounters :=
  if is_profitable arb then {| c with profitable_books := u64_sat_add (profitable_books c) 1 |}
  else {| c with gross_positive_but_net_negative :=
                   bump (gross_profit arb >? ZERO)%dec (gross_positive_but_net_negative c) |}.

(** What becomes of a profitable book. *)
Inductive Verdict : Type := NotProfitable | NotSelected | BelowThreshold | TooShallow | CoolingDown | Signalled.
Definition cooled_down (m : ArbMonitor) (market_id : string) (now : datetime) : bool :=
  match am_last_signal_time m !! market_id with
  | None => true
  | Some last => (SIGNAL_COOLDOWN_SECS <=? secs_since now last)%Z
  end.
Definition verdict (m : ArbMonitor) (eligible has_depth : bool) (arb : ArbOpportunity) (now : datetime)
    : Verdict :=
  if negb (is_profitable arb) then NotProfitable
  else if negb eligible then NotSelected
  else if (net_profit arb <? am_min_profit_threshold m)%dec then BelowThreshold
  else if negb has_depth then TooShallow
  else if cooled_down m (arb_market_id arb) now then Signalled else CoolingDown.
Definition count_verdict (v : Verdict) (c : ArbTelemetryCounters) : ArbTelemetryCounters :=
  let c := match v with
           | NotProfitable | NotSelected => c
           | _ => {| c with eligible_profitable_books := u64_sat_add (eligible_profitable_books c) 1 |}
           end in
  match v with
  | NotProfitable => c
  | NotSelected => {| c with filtered_by_selection := u64_sat_add (filtered_by_selection c) 1 |}
  | BelowThreshold => {| c with filtered_by_profit := u64_sat_add (filtered_by_profit c) 1 |}
  | TooShallow => {| c with filtered_by_depth := u64_sat_add (filtered_by_depth c) 1 |}
  | CoolingDown => {| c with filtered_by_cooldown := u64_sat_add (filtered_by_cooldown c) 1 |}
  | Signalled => {| c with entry_signals := u64_sat_add (entry_signals c) 1 |}
  end.

(** The clock, and what fails, while an update is processed. *)
Record UpdateEnv : Type := {
  ue_observed_at : datetime;
  ue_publish : bool;
  ue_exit_clock : datetime;
  ue_io : Uuid -> bool;
  ue_pnl_clock : datetime;
}.

Definition handle_arb_opportunity (en : UpdateEnv) (arb : ArbOpportunity) (book : BinaryMarketBook)
    (m : ArbMonitor) : ArbMonitor * result unit MonitorError :=
  if negb (ue_publish en) then (m, Err EntryNotPublished)
  else
    let m := {| m with am_signal_publisher :=
                  publish_entry_signal arb (ue_observed_at en) (am_signal_publisher m) |} in
    let '(tk, r) := check_exit_opportunities (ue_io en) (ue_exit_clock en) (arb_market_id arb) book
                      (am_position_tracker m) in
    ({| m with am_position_tracker := tk |}, if is_ok r then Ok tt else Err ExitCheckFailed).

Definition store_book (u : OrderBookUpdate) (m : ArbMonitor) : ArbMonitor :=
  {| m with am_order_books :=
       <[(bu_market_id u, bu_asset_id u) := update_to_orderbook u]> (am_order_books m) |}.
(** Both sides of the market, if they are known. *)
Definition paired_book (m : ArbMonitor) (market_id : string) (at_ : datetime) : option BinaryMarketBook :=
  '(yes_id, no_id) ← am_market_outcomes m !! market_id;
  yes ← am_order_books m !! (market_id, yes_id);
  no ← am_order_books m !! (market_id, no_id);
  Some {| bmb_market_id := market_id; bmb_timestamp := at_; yes_book := yes; no_book := no |}.

Definition fees_of (m : ArbMonitor) (market_id : string) : bool :=
  default false (am_market_fees_enabled m !! market_id).

(** The opportunity of a book, from its telemetry to its signal. *)
Definition judge_opportunity (en : UpdateEnv) (eligible has_depth : bool) (arb : ArbOpportunity)
    (book : BinaryMarketBook) (m : ArbMonitor) (c : ArbTelemetryCounters)
    : ArbMonitor * ArbTelemetryCounters * result unit MonitorError :=
  let now := ue_observed_at en in
  let c := count_profitable arb
             (observe_profits (eligible && has_depth) (am_min_profit_threshold m) arb c) in
  let m := if is_profitable arb && has_depth
           then track_market_opportunity (arb_market_id arb) (net_profit arb) now m else m in
  let v := verdict m eligible has_depth arb now in
  let c := count_verdict v c in
  match v with
  | Signalled =>
      let m := {| m with am_last_signal_time := <[arb_market_id arb := now]> (am_last_signal_time m) |} in
      let '(m, r) := handle_arb_opportunity en arb book (track_market_signal (arb_market_id arb) now m) in
      (m, c, r)
  | _ => (m, c, Ok tt)
  end.

Definition process_update (en : UpdateEnv) (u : OrderBookUpdate) (m : ArbMonitor)
    (c : ArbTelemetryCounters) : ArbMonitor * ArbTelemetryCounters * result unit MonitorError :=
  let market_id := bu_market_id u in
  let eligible := bool_decide (market_id ∈ am_eligible_markets m) in
  let m := store_book u m in
  match paired_book m market_id (bu_timestamp u) with
  | None => (m, c, Ok tt)
  | Some book =>
      let has_depth := bool_decide (is_Some (entry_cost_with_depth book (am_min_book_depth m))) in
      let m := track_market_evaluation market_id (ue_observed_at en) m in
      let c := {| c with evaluated_books := u64_sat_add (evaluated_books c) 1 |} in
      let '(m, c, r) := match calculate_with_fees_enabled book (fees_of m market_id) with
                        | None => (m, c, Ok tt)
                        | Some arb => judge_opportunity en eligible has_depth arb book m c
                        end in
      match r with
      | Err e => (m, c, Err e)
      | Ok _ => ({| m with am_position_tracker :=
                      update_market_positions (ue_pnl_clock en) market_id book (am_position_tracker m) |},
                 c, Ok tt)
      end
  end.

(** ** The loop *)

(** The local variables of [run]; [ml_subscribed] are the assets of the stream
    it reads. *)
Record MonitorLoop : Type := {
  ml_monitor : ArbMonitor;
  ml_telemetry : ArbTelemetryCounters;
  ml_health_tick : Z;
  ml_updates : Z;
  ml_stalls : Z;
  ml_resets : Z;
  ml_selection_applied : Z;
  ml_selection_suppressed : Z;
  ml_market_delta : nat;
  ml_asset_delta : nat;
  ml_resubscribe_requested : bool;
  ml_ws_prev : WebSocketRuntimeStatsSnapshot;
  ml_subscribed : gset string;
}.

Definition MAX_RESUBSCRIBE_RETRIES : nat := 10.
(** The pause after a failed attempt, in seconds; the last attempt has none. *)
Definition resubscribe_delay (attempt : nat) : Z :=
  Z.min (Z.min (3 * Z.min (2 ^ (Z.of_nat attempt - 1)) u64_max) u64_max) 60.

(** The stream is subscribed again, at a time. *)
Definition resubscribed (t : datetime) (m : ArbMonitor) : ArbMonitor :=
  {| m with am_last_resubscribe_at := Some t |}.
Definition subscribed_at (t : datetime) (l : MonitorLoop) : MonitorLoop :=
  {| l with ml_subscribed := active_subscription_asset_ids (ml_monitor l);
            ml_resets := u64_add (ml_resets l) 1;
            ml_monitor := resubscribed t (ml_monitor l) |}.
(** A request to subscribe again, with the answers of the attempts: the time of
    success, or a failure. *)
Definition resubscribe (answers : list (option datetime)) (l : MonitorLoop) : MonitorLoop :=
  match head (omap id (take MAX_RESUBSCRIBE_RETRIES answers)) with
  | None => l
  | Some t => subscribed_at t {| l with ml_resubscribe_requested := false |}
  end.

(** What the outcome of a rebuild leaves in the loop's variables. *)
Definition note_deltas (o : SelectionRebuildOutcome) (l : MonitorLoop) : MonitorLoop :=
  {| l with ml_market_delta := so_market_delta o; ml_asset_delta := so_asset_delta o |}.
Definition on_config (u : option MonitorUpdate) (now : datetime) (l : MonitorLoop) : MonitorLoop :=
  match u with
  | None => l
  | Some u =>
      let '(m, o) := apply_dynamic_update u now (ml_monitor l) in
      let l := {| l with ml_monitor := m;
                    ml_selection_applied := bump (so_applied o) (ml_selection_applied l);
                    ml_selection_suppressed := bump (so_suppressed o) (ml_selection_suppressed l);
                    ml_resubscribe_requested := so_applied o || ml_resubscribe_requested l |} in
      if so_changed o then note_deltas o l else l
  end.

(** The minute's statistics. *)
Record StatsEnv : Type := {
  sn_ws : WebSocketRuntimeStatsSnapshot;
  sn_set : bool;
  sn_publish : bool;
  sn_evict_clock : datetime;
  sn_rerank_clock : datetime;
}.
(** [a.saturating_sub(b) as f64]. *)
Definition rate (a b : Z) : f64 := f64_of_Z (Z.max (a - b) 0).
Definition ws_rates (now prev : WebSocketRuntimeStatsSnapshot) : WebSocketRates := {|
  ws_text_messages_per_minute :=
    rate (text_messages_received_total now) (text_messages_received_total prev);
  ws_orderbook_updates_per_minute :=
    rate (orderbook_updates_emitted_total now) (orderbook_updates_emitted_total prev);
  ws_parse_misses_per_minute := rate (parse_misses_total now) (parse_misses_total prev);
  ws_snapshot_messages_per_minute := rate (snapshot_messages_total now) (snapshot_messages_total prev);
  ws_price_change_messages_per_minute :=
    rate (price_change_messages_total now) (price_change_messages_total prev) |}.
Definition nat_f64 (n : nat) : f64 := f64_of_Z (Z.of_nat n).
Definition runtime_stats (ws : WebSocketRuntimeStatsSnapshot) (l : MonitorLoop) : RuntimeStats :=
  let m := ml_monitor l in {|
  rt_updates_per_minute := f64_of_Z (ml_updates l);
  rt_stalls_last_minute := f64_of_Z (ml_stalls l);
  rt_resets_last_minute := f64_of_Z (ml_resets l);
  rt_ws_rates := ws_rates ws (ml_ws_prev l);
  rt_monitored_markets := nat_f64 (size (am_eligible_markets m));
  rt_monitored_assets := nat_f64 (size (active_subscription_asset_ids m));
  rt_telemetry := as_runtime_stats (ml_telemetry l);
  selection_refreshes_applied_per_minute := f64_of_Z (ml_selection_applied l);
  selection_refreshes_suppressed_per_minute := f64_of_Z (ml_selection_suppressed l);
  rt_last_selection_market_delta := nat_f64 (ml_market_delta l);
  rt_last_selection_asset_delta := nat_f64 (ml_asset_delta l);
  rt_core_markets := nat_f64 (am_core_market_count m);
  rt_exploration_markets := nat_f64 (am_exploration_market_count m);
  rt_last_rerank_at := am_last_rerank_at m;
  rt_last_resubscribe_at := am_last_resubscribe_at m;
  rt_ws := ws;
  selected_markets := am_selection_snapshot m |}.
(** What the tuner reads of them: [ArbRuntimeStats] of dynamic_tuner.rs. *)
Definition stats_for_tuner (s : RuntimeStats) : ArbRuntimeStats := {|
  st_updates_per_minute := rt_updates_per_minute s; stalls_last_minute := rt_stalls_last_minute s;
  resets_last_minute := rt_resets_last_minute s; monitored_markets := rt_monitored_markets s |}.

(** Signals twice the cooldown old are forgotten, and the books of markets
    that are not selected. *)
Definition evict (now : datetime) (m : ArbMonitor) : ArbMonitor :=
  {| m with
     am_last_signal_time :=
       filter (fun kt => dt_ltb (add_minutes now (- (SIGNAL_COOLDOWN_SECS * 2 / 60))) (snd kt) = true)
         (am_last_signal_time m);
     am_order_books := filter (fun kb => fst (fst kb) ∈ am_eligible_markets m) (am_order_books m) |}.
Definition new_minute (ws : WebSocketRuntimeStatsSnapshot) (l : MonitorLoop) : MonitorLoop :=
  {| l with ml_ws_prev := ws; ml_updates := 0; ml_stalls := 0; ml_resets := 0;
            ml_telemetry := default_telemetry; ml_selection_applied := 0; ml_selection_suppressed := 0;
            ml_market_delta := 0; ml_asset_delta := 0 |}.
Definition on_stats (en : StatsEnv) (l : MonitorLoop) : MonitorLoop :=
  let m := ml_monitor l in
  let m := {| m with am_signal_publisher :=
                publish_runtime_stats (sn_set en) (sn_publish en) (runtime_stats (sn_ws en) l)
                  (am_signal_publisher m) |} in
  let l := new_minute (sn_ws en) l in
  let '(m, o) := rebuild_eligible_markets PeriodicRerank (sn_rerank_clock en)
                   (evict (sn_evict_clock en) m) in
  let l := {| l with ml_monitor := m |} in
  if so_applied o then
    note_deltas o {| l with ml_selection_applied := u64_sat_add (ml_selection_applied l) 1;
                            ml_resubscribe_requested := true |}
  else if so_suppressed o then
    note_deltas o {| l with ml_selection_suppressed := u64_sat_add (ml_selection_suppressed l) 1 |}
  else l.

Definition on_update (en : UpdateEnv) (stale_io : Uuid -> bool) (stale_clock : datetime)
    (u : OrderBookUpdate) (l : MonitorLoop) : MonitorLoop * result unit MonitorError :=
  let l := {| l with ml_updates := u64_add (ml_updates l) 1 |} in
  let '(m, c, r) := process_update en u (ml_monitor l) (ml_telemetry l) in
  let l := {| l with ml_monitor := m; ml_telemetry := c |} in
  match r with
  | Err e => (l, Err e)
  | Ok _ =>
      let tick := u64_add (ml_health_tick l) 1 in
      let l := {| l with ml_health_tick := tick |} in
      if (tick mod STALE_CHECK_INTERVAL =? 0)%Z then
        let tk := fst (check_stale_positions stale_io stale_clock (am_position_tracker m)) in
        ({| l with ml_monitor := {| m with am_position_tracker := tk |} |}, Ok tt)
      else (l, Ok tt)
  end.

(** What wakes the loop; subscribing again is tried until it succeeds, at
    [Some] time or never. *)
Inductive MonitorEvent : Type :=
| OnConfig (u : option MonitorUpdate) (now : datetime)
| OnHeartbeat
| OnStats (en : StatsEnv)
| OnUpdate (en : UpdateEnv) (stale_io : Uuid -> bool) (stale_clock : datetime) (u : OrderBookUpdate)
| OnStalled (again : option datetime)
| OnClosed (again : option datetime).

(** One turn: a requested resubscription with its answers, then an event;
    [None] waits forever. *)
Definition handle_event (e : MonitorEvent) (l : MonitorLoop)
    : option (MonitorLoop * result unit MonitorError) :=
  match e with
  | OnConfig u now => Some (on_config u now l, Ok tt)
  | OnHeartbeat => Some (l, Ok tt)
  | OnStats en => Some (on_stats en l, Ok tt)
  | OnUpdate en stale_io stale_clock u => Some (on_update en stale_io stale_clock u l)
  | OnStalled again => t ← again;
      Some (subscribed_at t {| l with ml_stalls := u64_add (ml_stalls l) 1 |}, Ok tt)
  | OnClosed again => t ← again; Some (subscribed_at t l, Ok tt)
  end.
Definition monitor_turn (answers : list (option datetime)) (e : MonitorEvent) (l : MonitorLoop)
    : option (MonitorLoop * result unit MonitorError) :=
  handle_event e (if ml_resubscribe_requested l then resubscribe answers l else l).
Fixpoint monitor_loop (turns : list (list (option datetime) * MonitorEvent)) (l : MonitorLoop)
    : option (MonitorLoop * result unit MonitorError) :=
  match turns with
  | [] => Some (l, Ok tt)
  | (answers, e) :: turns =>
      '(l, r) ← monitor_turn answers e l;
      match r with Err e => Some (l, Err e) | Ok _ => monitor_loop turns l end
  end.

(** ** The timers of the loop

    The branches of its [select!].  In nanoseconds; [fires ready b t]: with the
    branches ready at [ready], [select!] completes at [t] with [b];
    [next_deadline due t]: when an [interval] of [TICK_PERIOD] whose tick was
    due at [due] and taken at [t] ticks again. *)

Inductive Branch : Type := BConfig | BHeartbeat | BStats | BUpdate | BTimeout.
Definition branch_of (e : MonitorEvent) : Branch :=
  match e with
  | OnConfig _ _ => BConfig
  | OnHeartbeat => BHeartbeat
  | OnStats _ => BStats
  | OnUpdate _ _ _ _ | OnClosed _ => BUpdate
  | OnStalled _ => BTimeout
  end.
Definition TICK_PERIOD : Z := 60 * 1000000000.

Section Timing.
Variable fires : (Branch -> option Z) -> Branch -> Z -> Prop.
Variable next_deadline : Z -> Z -> Z.

Record Timers : Type := { tm_now : Z; tm_heartbeat : Z; tm_stats : Z }.
(** The timeout around the next update starts anew with each turn. *)
Definition ready_at (timeout_secs : Z) (config update : option Z) (t : Timers) (b : Branch) : option Z :=
  match b with
  | BConfig => Z.max (tm_now t) <$> config
  | BHeartbeat => Some (Z.max (tm_now t) (tm_heartbeat t))
  | BStats => Some (Z.max (tm_now t) (tm_stats t))
  | BUpdate => Z.max (tm_now t) <$> update
  | BTimeout => Some (tm_now t + timeout_secs * 1000000000)%Z
  end.
(** The tick that was taken is armed again; the turn ends at [later]. *)
Definition rearm (b : Branch) (fired later : Z) (t : Timers) : Timers :=
  match b with
  | BHeartbeat => {| tm_now := later; tm_heartbeat := next_deadline (tm_heartbeat t) fired; tm_stats := tm_stats t |}
  | BStats => {| tm_now := later; tm_heartbeat := tm_heartbeat t; tm_stats := next_deadline (tm_stats t) fired |}
  | _ => {| tm_now := later; tm_heartbeat := tm_heartbeat t; tm_stats := tm_stats t |}
  end.

(** The turns a run of the loop can take. *)
Inductive timed (timeout_secs : Z) : Timers -> list (list (option datetime) * MonitorEvent) -> Prop :=
| timed_nil t : timed timeout_secs t []
| timed_cons t answers e turns config update fired later :
    fires (ready_at timeout_secs config update t) (branch_of e) fired ->
    (fired <= later)%Z ->
    timed timeout_secs (rearm (branch_of e) fired later t) turns ->
    timed timeout_secs t ((answers, e) :: turns).
End Timing.

(** ** Start *)

Definition or_else {A} (a b : option A) : option A := match a with Some _ => a | None => b end.
Definition positive_i64 (env : string -> option string) (key : string) (d : Z) : Z :=
  default d (v ← env key ≫= parse_i64; if (0 <? v)%Z then Some v else None).
Definition finite_f64 (env : string -> option string) (key : string) (d : f64) : f64 :=
  default d (v ← env key ≫= FloatParse.parse_f64;
             if f64_is_finite v && f64_leb f64_zero v then Some v else None).

(** [new], from the environment and the table of the configuration;
    [bounds_io] and [values_io] say whether its queries succeed. *)
Definition monitor_new (env : string -> option string) (bounds_io values_io : bool) (t : ConfigTable)
    (positions : Table) : ArbMonitor :=
  let bounds := monitor_load_bounds bounds_io t in
  let values := load_dynamic_values values_io t in
  let dynamic key := v ← values !! key; monitor_clamp key v bounds in
  let min_profit_env := env_dec env KEY_ARB_MIN_PROFIT_THRESHOLD (dec_new 5 3) in
  let profile := default (profile_from_env env)
    (v ← dynamic KEY_ARB_MONITOR_AGGRESSIVENESS_LEVEL; level ← dec_to_f64 v;
     Some (profile_from_level level)) in {|
  am_position_tracker := tracker_new (env "ARB_EXIT_THRESHOLD" ≫= dec_parse) positions;
  am_signal_publisher := {| sp_entries := []; sp_stats := []; sp_latest := None |};
  am_order_books := ∅;
  am_market_outcomes := ∅;
  am_min_profit_threshold :=
    default min_profit_env
      (monitor_clamp KEY_ARB_MIN_PROFIT_THRESHOLD
         (default min_profit_env (values !! KEY_ARB_MIN_PROFIT_THRESHOLD)) bounds);
  am_min_book_depth :=
    default (dec_new 100 0)
      (or_else (env "ARB_MONITOR_MIN_BOOK_DEPTH") (env "ARB_MIN_BOOK_DEPTH") ≫= dec_parse);
  am_last_signal_time := ∅;
  am_aggressiveness_profile := profile;
  am_scoring_weights := weights_for_profile profile;
  am_max_markets_cap := or_else (dynamic KEY_ARB_MONITOR_MAX_MARKETS ≫= decimal_to_cap)
                          (env KEY_ARB_MONITOR_MAX_MARKETS ≫= parse_u64);
  am_all_market_ids := [];
  am_market_profiles := ∅;
  am_market_fees_enabled := ∅;
  am_market_stats := ∅;
  am_eligible_markets := ∅;
  am_selection_snapshot := [];
  am_core_market_count := 0;
  am_exploration_market_count := 0;
  am_current_exploration_markets := ∅;
  am_last_rerank_at := None;
  am_last_selection_apply_at := None;
  am_last_resubscribe_at := None;
  am_exploration_slots :=
    default (default_exploration_slots profile)
      (or_else (dynamic KEY_ARB_MONITOR_EXPLORATION_SLOTS ≫= decimal_to_cap)
         (env KEY_ARB_MONITOR_EXPLORATION_SLOTS ≫= parse_u64));
  selection_resubscribe_min_market_delta :=
    default 8%Z (env "ARB_SELECTION_RESUBSCRIBE_MIN_MARKET_DELTA" ≫= parse_u64);
  selection_resubscribe_min_delta_ratio :=
    finite_f64 env "ARB_SELECTION_RESUBSCRIBE_MIN_DELTA_RATIO" (f64_lit 8 100);
  selection_force_refresh_secs := positive_i64 env "ARB_SELECTION_FORCE_REFRESH_SECS" 600;
  am_exploration_hold_secs := positive_i64 env "ARB_EXPLORATION_HOLD_SECS" 600;
  am_exploration_swap_min_score_delta :=
    finite_f64 env "ARB_EXPLORATION_SWAP_MIN_SCORE_DELTA" (f64_lit 75 100);
  am_dynamic_bounds := bounds;
  am_allowed_dynamic_sources := list_to_set (load_allowed_update_sources env) |}.

(** The binary markets of the exchange. *)
Definition binary_markets (markets : list Market) : list Market :=
  List.filter (fun m => Nat.eqb (length (outcomes m)) 2) markets.
Definition market_profile (mk : Market) : MarketProfile := {|
  mp_liquidity := default f64_zero (dec_to_f64 (liquidity mk));
  mp_volume := default f64_zero (dec_to_f64 (volume mk)) |}.
(** (yes, no): the first outcome is YES if its name says so. *)
Definition outcome_pair (mk : Market) : option (string * string) :=
  match outcomes mk with
  | [a; b] => if string_contains "yes" (string_lower (Market.outcome_name a))
              then Some (token_id a, token_id b) else Some (token_id b, token_id a)
  | _ => None
  end.

Definition by_baseline (profiles : gmap string MarketProfile) (a b : string) : Prop :=
  f64_ltb (baseline_profile_score ln (profiles !! a)) (baseline_profile_score ln (profiles !! b)) = false.
#[local] Instance by_baseline_dec profiles : RelDecision (by_baseline profiles).
Proof. intros a b. unfold by_baseline. apply _. Defined.

Definition load_market (mk : Market) (m : ArbMonitor) : ArbMonitor :=
  {| m with am_market_profiles := <[mkt_id mk := market_profile mk]> (am_market_profiles m);
            am_market_fees_enabled := <[mkt_id mk := fees_enabled mk]> (am_market_fees_enabled m) |}.
Definition list_markets (markets : list Market) (m : ArbMonitor) : ArbMonitor :=
  {| m with am_all_market_ids := merge_sort (by_baseline (am_market_profiles m)) (mkt_id <$> markets) |}.
Definition map_outcomes (markets : list Market) (m : ArbMonitor) : ArbMonitor :=
  {| m with am_market_outcomes := foldl (fun o mk => match outcome_pair mk with
       | None => o | Some ids => <[mkt_id mk := ids]> o end) (am_market_outcomes m) markets |}.

(** What the start of [run] meets: the markets or a failure, the queries of
    the reconciliation, the subscription at a time or its failure. *)
Record StartEnv : Type := {
  sv_markets : option (list Market);
  sv_read : bool;
  sv_io : Uuid -> bool;
  sv_reconcile_clock : datetime;
  sv_rebuild_clock : datetime;
  sv_subscribed : option datetime;
  sv_ws : WebSocketRuntimeStatsSnapshot;
}.
Definition start_loop (ws : WebSocketRuntimeStatsSnapshot) (t : datetime) (m : ArbMonitor) : MonitorLoop := {|
  ml_monitor := resubscribed t m; ml_telemetry := default_telemetry; ml_health_tick := 0;
  ml_updates := 0; ml_stalls := 0; ml_resets := 0; ml_selection_applied := 0;
  ml_selection_suppressed := 0; ml_market_delta := 0; ml_asset_delta := 0;
  ml_resubscribe_requested := false; ml_ws_prev := ws;
  ml_subscribed := active_subscription_asset_ids m |}.
Definition reconcile_tracker (en : StartEnv) (m : ArbMonitor) : ArbMonitor * bool :=
  let '(tk, r) := reconcile_on_startup (sv_read en) (sv_io en) (sv_reconcile_clock en)
                    (am_position_tracker m) in
  ({| m with am_position_tracker := tk |}, is_ok r).
Definition monitor_start (en : StartEnv) (m : ArbMonitor) : result MonitorLoop MonitorError :=
  match sv_markets en with
  | None => Err MarketsNotLoaded
  | Some markets =>
      let markets := binary_markets markets in
      let m := list_markets markets (foldl (fun m mk => load_market mk m) m markets) in
      let '(m, reconciled) := reconcile_tracker en m in
      if negb reconciled then Err NotReconciled
      else
        let m := map_outcomes markets (fst (rebuild_eligible_markets Startup (sv_rebuild_clock en) m)) in
        match sv_subscribed en with
        | None => Err NotSubscribed
        | Some t => Ok (start_loop (sv_ws en) t m)
        end
  end.
(** The process: the start, then the loop; an error ends it. *)
Definition monitor_run (en : StartEnv) (turns : list (list (option datetime) * MonitorEvent))
    (m : ArbMonitor) : option (result MonitorLoop MonitorError) :=
  match monitor_start en m with
  | Err e => Some (Err e)
  | Ok l => '(l, r) ← monitor_loop turns l; Some (match r with Err e => Err e | Ok _ => Ok l end)
  end.
End Monitor.
