(* ===== verification/MonitorFacts.v ===== *)
(** * Properties of the arbitrage monitor

    Which updates of a book signal an entry, how far apart the signals of a
    market are, what the counters of a minute add up to, which assets the
    stream is subscribed to, and how long a selected market is held. *)

From stdpp Require Import sorting.
From S2P Require Import Prelude F64 FloatParse Platform Handler Market CircuitBreaker Position.
From S2P Require Import PositionRepo PositionTracker Executor Signal Trading StrategyRisk ArbExecutor.
From S2P Require Import QuantExecutor DynamicConfig DynamicTuner BookStream MarketSelection MarketSelectionFacts Monitor.

Local Open Scope Z_scope.

Section Facts.
Context `{DO : DecimalOps} `{CO : ChronoOps} `{UO : UuidOps} `{JO : !JsonOps} `{HO : HashOps}.
Context `{MJ : MetricsJson} `{NO : !NumericOps}.
Variable ln : f64 -> f64.
Implicit Types (m : ArbMonitor) (c : ArbTelemetryCounters) (l : MonitorLoop) (id : string).

(** ** What an update leaves alone *)

(** A monitor without what updates of books change. *)
Definition settings m : ArbMonitor :=
  {| m with am_position_tracker := tracker_new None ∅;
            am_signal_publisher := {| sp_entries := []; sp_stats := []; sp_latest := None |};
            am_order_books := ∅; am_last_signal_time := ∅; am_market_stats := ∅ |}.
Lemma settings_field {A} (f : ArbMonitor -> A) m m' :
  (forall m, f m = f (settings m)) -> settings m' = settings m -> f m' = f m.
Proof. intros Hf E. by rewrite (Hf m), (Hf m'), E. Qed.

(** The signal an update of a book is due, if any. *)
Definition signal_due m (u : OrderBookUpdate) (now : datetime) : option (ArbOpportunity * BinaryMarketBook) :=
  book ← paired_book (store_book u m) (bu_market_id u) (bu_timestamp u);
  arb ← calculate_with_fees_enabled book (fees_of m (bu_market_id u));
  if decide (bu_market_id u ∈ am_eligible_markets m /\ is_profitable arb = true /\
             (net_profit arb <? am_min_profit_threshold m)%dec = false /\
             is_Some (entry_cost_with_depth book (am_min_book_depth m)) /\
             cooled_down m (bu_market_id u) now = true)
  then Some (arb, book) else None.

(** The same but for the statistics of markets. *)
Definition but_stats m : ArbMonitor := {| m with am_market_stats := ∅ |}.
Lemma change_stats_but id f m : but_stats (change_stats id f m) = but_stats m.
Proof. done. Qed.

Lemma arb_of_book book fees arb : calculate_with_fees_enabled book fees = Some arb ->
  arb_market_id arb = bmb_market_id book.
Proof.
  unfold calculate_with_fees_enabled. intros H. inv_bind. destruct p as [[ya na] total].
  destruct (total <=? ZERO)%dec; [done|]. by injection H as <-.
Qed.
Lemma paired_market m id at_ book : paired_book m id at_ = Some book -> bmb_market_id book = id.
Proof.
  unfold paired_book. intros H. inv_bind. destruct p as [y n]. inv_bind. done.
Qed.

(** What judging an opportunity does to the monitor. *)
Record judged en (arb : ArbOpportunity) book (signals : bool) m m' (r : result unit MonitorError) : Prop := {
  jd_settings : settings m' = settings m;
  jd_books : am_order_books m' = am_order_books m;
  jd_rest : signals = false -> r = Ok tt /\ but_stats m' = but_stats m;
  jd_signal : signals = true ->
    am_last_signal_time m' = <[arb_market_id arb := ue_observed_at en]> (am_last_signal_time m) /\
    if ue_publish en then
      am_signal_publisher m' = publish_entry_signal arb (ue_observed_at en) (am_signal_publisher m) /\
      let '(tk, ready) := check_exit_opportunities (ue_io en) (ue_exit_clock en) (arb_market_id arb) book
                            (am_position_tracker m) in
      am_position_tracker m' = tk /\ r = if is_ok ready then Ok tt else Err ExitCheckFailed
    else r = Err EntryNotPublished /\ am_signal_publisher m' = am_signal_publisher m /\
         am_position_tracker m' = am_position_tracker m;
}.

Lemma handle_judged en arb book m m' r :
  handle_arb_opportunity en arb book (track_market_signal (arb_market_id arb) (ue_observed_at en)
    {| m with am_last_signal_time :=
         <[arb_market_id arb := ue_observed_at en]> (am_last_signal_time m) |}) = (m', r) ->
  judged en arb book true m m' r.
Proof.
  unfold handle_arb_opportunity. destruct (ue_publish en) eqn:Ep; cbn [negb]; intros H.
  - cbn [am_position_tracker track_market_signal change_stats] in H.
    destruct (check_exit_opportunities _ _ _ _ _) as [tk ready] eqn:E. injection H as <- <-.
    split; try done. intros _. rewrite Ep, E. done.
  - injection H as <- <-. split; try done. intros _. by rewrite Ep.
Qed.

Definition signals_of (v : Verdict) : bool := match v with Signalled => true | _ => false end.
Lemma judge_spec en eligible deep arb book m c m' c' r :
  judge_opportunity en eligible deep arb book m c = (m', c', r) ->
  let v := verdict m eligible deep arb (ue_observed_at en) in
  judged en arb book (signals_of v) m m' r /\
  c' = count_verdict v (count_profitable arb
         (observe_profits (eligible && deep) (am_min_profit_threshold m) arb c)).
Proof.
  unfold judge_opportunity. cbv zeta.
  set (m1 := if is_profitable arb && deep then _ else m).
  assert (but_stats m1 = but_stats m) as E1 by (unfold m1; by destruct (_ && _)).
  assert (verdict m1 eligible deep arb (ue_observed_at en) = verdict m eligible deep arb (ue_observed_at en))
    as -> by (unfold m1; by destruct (_ && _)).
  assert (forall b m' r, judged en arb book b m1 m' r -> judged en arb book b m m' r) as Hj.
  { intros b m2 r2 [J1 J2 J3 J4].
    assert (forall A (f : ArbMonitor -> A), (forall m, f m = f (but_stats m)) -> f m1 = f m) as Hf
      by (intros A f Hf; rewrite (Hf m1), (Hf m), E1; done).
    rewrite (Hf _ settings), (Hf _ am_order_books), (Hf _ am_last_signal_time), (Hf _ am_signal_publisher),
      (Hf _ am_position_tracker) in * by done. split; try done. by rewrite <- E1. }
  destruct (verdict m eligible deep arb (ue_observed_at en)); cbn [signals_of]; intros H;
    try (injection H as <- <- <-; split; [apply Hj; by split|done]).
  destruct (handle_arb_opportunity _ _ _ _) as [m2 r2] eqn:E. injection H as <- <- <-.
  split; [|done]. by apply Hj, handle_judged.
Qed.

(** What an update of a book does, counters apart. *)
Record updated en (u : OrderBookUpdate) m m' (r : result unit MonitorError) : Prop := {
  up_settings : settings m' = settings m;
  up_quiet : signal_due m u (ue_observed_at en) = None ->
    r = Ok tt /\ am_last_signal_time m' = am_last_signal_time m /\
    am_signal_publisher m' = am_signal_publisher m /\
    am_position_tracker m' =
      match paired_book (store_book u m) (bu_market_id u) (bu_timestamp u) with
      | None => am_position_tracker m
      | Some book => update_market_positions (ue_pnl_clock en) (bu_market_id u) book (am_position_tracker m)
      end;
  up_signal : forall arb book, signal_due m u (ue_observed_at en) = Some (arb, book) ->
    am_last_signal_time m' = <[bu_market_id u := ue_observed_at en]> (am_last_signal_time m) /\
    if ue_publish en then
      am_signal_publisher m' = publish_entry_signal arb (ue_observed_at en) (am_signal_publisher m) /\
      let '(tk, ready) := check_exit_opportunities (ue_io en) (ue_exit_clock en) (bu_market_id u) book
                            (am_position_tracker m) in
      if is_ok ready
      then r = Ok tt /\ am_position_tracker m' = update_market_positions (ue_pnl_clock en) (bu_market_id u) book tk
      else r = Err ExitCheckFailed /\ am_position_tracker m' = tk
    else r = Err EntryNotPublished /\ am_signal_publisher m' = am_signal_publisher m /\
         am_position_tracker m' = am_position_tracker m;
}.

Lemma due_verdict m u now book arb :
  paired_book (store_book u m) (bu_market_id u) (bu_timestamp u) = Some book ->
  calculate_with_fees_enabled book (fees_of m (bu_market_id u)) = Some arb ->
  let v := verdict m (bool_decide (bu_market_id u ∈ am_eligible_markets m))
             (bool_decide (is_Some (entry_cost_with_depth book (am_min_book_depth m)))) arb now in
  signal_due m u now = if signals_of v then Some (arb, book) else None.
Proof.
  intros Hb Ha. unfold signal_due. rewrite Hb. cbn [mbind option_bind]. rewrite Ha. cbn [mbind option_bind].
  unfold verdict. rewrite (arb_of_book _ _ _ Ha), (paired_market _ _ _ _ Hb).
  destruct (is_profitable arb); cbn [negb]; [|by rewrite decide_False by naive_solver].
  destruct (bool_decide_reflect (bu_market_id u ∈ am_eligible_markets m)); cbn [negb];
    [|by rewrite decide_False by naive_solver].
  destruct (net_profit arb <? am_min_profit_threshold m)%dec; [by rewrite decide_False by naive_solver|].
  destruct (bool_decide_reflect (is_Some (entry_cost_with_depth book (am_min_book_depth m)))); cbn [negb];
    [|by rewrite decide_False by naive_solver].
  destruct (cooled_down m (bu_market_id u) now); [by rewrite decide_True|by rewrite decide_False by naive_solver].
Qed.

Lemma process_update_spec en u m c m' c' r :
  process_update en u m c = (m', c', r) -> updated en u m m' r.
Proof.
  unfold process_update. cbv zeta.
  destruct (paired_book (store_book u m) _ _) as [book|] eqn:Hb.
  2: { intros H. injection H as <- _ <-. split; [done| |].
       - intros _. by rewrite Hb.
       - intros arb book. unfold signal_due. by rewrite Hb. }
  set (m1 := track_market_evaluation _ _ _). set (c1 := {| c with evaluated_books := _ |}).
  change (fees_of m1 (bu_market_id u)) with (fees_of m (bu_market_id u)).
  destruct (calculate_with_fees_enabled book (fees_of m (bu_market_id u))) as [arb|] eqn:Ha.
  2: { intros H. injection H as <- _ <-. split; [done| |].
       - intros _. by rewrite Hb.
       - intros arb book'. unfold signal_due. rewrite Hb. cbn. by rewrite Ha. }
  destruct (judge_opportunity _ _ _ _ _ _ _) as [[m2 c2] r2] eqn:Hj.
  apply judge_spec in Hj as [[Js _ Jr Jg] _].
  change (am_min_book_depth (store_book u m)) with (am_min_book_depth m) in *.
  change (verdict m1) with (verdict m) in *. rewrite (arb_of_book _ _ _ Ha), (paired_market _ _ _ _ Hb) in Jg.
  pose proof (due_verdict m u (ue_observed_at en) book arb Hb Ha) as Hdue. cbv zeta in Hdue.
  destruct (signals_of _).
  - specialize (Jg eq_refl) as [Jl Jp]. intros H. split; [|by rewrite Hdue|].
    + destruct r2; injection H as <- _ <-; exact Js.
    + intros arb' book' E. rewrite Hdue in E. injection E as <- <-.
      split; [destruct r2; injection H as <- _ <-; exact Jl|].
      destruct (ue_publish en).
      * destruct Jp as [Jp Jt]. change (am_position_tracker m1) with (am_position_tracker m) in Jt.
        destruct (check_exit_opportunities _ _ _ _ _) as [tk ready]. destruct Jt as [<- ->].
        split; [destruct (is_ok ready); injection H as <- _ <-; exact Jp|].
        destruct (is_ok ready); injection H as <- _ <-; done.
      * destruct Jp as (-> & Jp & Jt). injection H as <- _ <-. done.
  - specialize (Jr eq_refl) as [-> Jr]. intros H. injection H as <- _ <-. split; [exact Js| |by rewrite Hdue].
    intros _. rewrite Hb. cbn.
    rewrite (f_equal am_last_signal_time Jr : am_last_signal_time m2 = am_last_signal_time m),
      (f_equal am_signal_publisher Jr : am_signal_publisher m2 = am_signal_publisher m),
      (f_equal am_position_tracker Jr : am_position_tracker m2 = am_position_tracker m). done.
Qed.

(** ** What a rebuild and the other events leave alone *)

Record rebuilt m m' (o : SelectionRebuildOutcome) : Prop := {
  rb_publisher : am_signal_publisher m' = am_signal_publisher m;
  rb_signals : am_last_signal_time m' = am_last_signal_time m;
  rb_tracker : am_position_tracker m' = am_position_tracker m;
  rb_outcomes : am_market_outcomes m' = am_market_outcomes m;
  rb_listed : am_all_market_ids m' = am_all_market_ids m;
  rb_depth : am_min_book_depth m' = am_min_book_depth m;
  rb_eligible : so_applied o = false -> am_eligible_markets m' = am_eligible_markets m;
}.
Lemma rebuilt_refl m : rebuilt m m default_outcome.
Proof. by split. Qed.

Lemma rebuild_spec reason now m m' o :
  rebuild_eligible_markets ln reason now m = (m', o) -> rebuilt m m' o.
Proof.
  unfold rebuild_eligible_markets. cbv zeta. case_decide; [intros [= <- <-]; by split|].
  destruct (negb _ || _ || _); intros [= <- <-]; by split.
Qed.
Lemma dynamic_update_spec u now m m' o : apply_dynamic_update ln u now m = (m', o) -> rebuilt m m' o.
Proof.
  unfold apply_dynamic_update. case_decide; [intros [= <- <-]; apply rebuilt_refl|].
  destruct (monitor_clamp _ _ _) as [v|]; [|intros [= <- <-]; apply rebuilt_refl].
  repeat case_match; try (intros [= <- <-]; by split);
    intros [R1 R2 R3 R4 R5 R6 R7]%rebuild_spec; by split.
Qed.

(** ** A turn of the loop *)

Definition tracking (tk : PositionTracker) m : ArbMonitor := {| m with am_position_tracker := tk |}.
Definition publishing (p : SignalPublisher) m : ArbMonitor := {| m with am_signal_publisher := p |}.

Lemma published_entries set_ok publish_ok st p :
  sp_entries (publish_runtime_stats set_ok publish_ok st p) = sp_entries p.
Proof. unfold publish_runtime_stats. by destruct set_ok, publish_ok. Qed.

Lemma on_stats_rebuilds en l : exists m' o,
  rebuild_eligible_markets ln PeriodicRerank (sn_rerank_clock en) (evict (sn_evict_clock en)
    (publishing (publish_runtime_stats (sn_set en) (sn_publish en) (runtime_stats (sn_ws en) l)
                   (am_signal_publisher (ml_monitor l))) (ml_monitor l))) = (m', o) /\
  ml_monitor (on_stats ln en l) = m' /\ ml_subscribed (on_stats ln en l) = ml_subscribed l /\
  ml_resubscribe_requested (on_stats ln en l) = so_applied o || ml_resubscribe_requested l /\
  ml_telemetry (on_stats ln en l) = default_telemetry /\ ml_stalls (on_stats ln en l) = 0.
Proof.
  unfold on_stats. cbv zeta. unfold publishing.
  destruct (rebuild_eligible_markets _ _ _ _) as [m' o] eqn:E. exists m', o. split; [done|].
  destruct (so_applied o); [done|]. by destruct (so_suppressed o).
Qed.

(** What a turn does, from the loop as a requested resubscription leaves it. *)
Lemma turn_cases answers e l l' r : monitor_turn ln answers e l = Some (l', r) -> exists l1,
  (l1 = l \/ exists t, l1 = subscribed_at t {| l with ml_resubscribe_requested := false |}) /\
  match e with
  | OnConfig u now => l' = on_config ln u now l1
  | OnHeartbeat => l' = l1
  | OnStats en => l' = on_stats ln en l1
  | OnUpdate en _ _ u => exists m c r' tk, process_update en u (ml_monitor l1) (ml_telemetry l1) = (m, c, r') /\
      (ml_monitor l' = m \/ ml_monitor l' = tracking tk m) /\ ml_telemetry l' = c /\
      ml_stalls l' = ml_stalls l1 /\ ml_subscribed l' = ml_subscribed l1 /\
      ml_resubscribe_requested l' = ml_resubscribe_requested l1
  | OnStalled again => exists t, l' = subscribed_at t {| l1 with ml_stalls := u64_add (ml_stalls l1) 1 |}
  | OnClosed again => exists t, l' = subscribed_at t l1
  end.
Proof.
  unfold monitor_turn. set (l1 := if ml_resubscribe_requested l then _ else l). intros H. exists l1. split.
  { unfold l1, resubscribe. destruct (ml_resubscribe_requested l); [|by left].
    destruct (head _) as [t|]; [right; by exists t|by left]. }
  clearbody l1. destruct e as [u now| |en|en sio snow u|again|again]; cbn [handle_event] in H.
  - by injection H.
  - by injection H.
  - by injection H.
  - injection H as E%(f_equal fst). cbn in E. revert E. unfold on_update. cbv zeta. cbn [ml_monitor ml_telemetry].
    destruct (process_update _ _ _ _) as [[m c] r']. intros E.
    exists m, c, r', (fst (check_stale_positions sio snow (am_position_tracker m))). split; [done|].
    destruct r'; [destruct (_ =? 0)|]; subst l'; cbn; by auto 10.
  - destruct again as [t|]; [|done]. exists t. by injection H.
  - destruct again as [t|]; [|done]. exists t. by injection H.
Qed.

(** ** Signals of a market are a cooldown apart *)

Section Pace.
Context {CS : ChronoSpec}.

Definition cooldown : Z := SIGNAL_COOLDOWN_SECS * 1000000000.
Definition spaced (entries : list ArbOpportunity) : Prop := forall i j a b, (i < j)%nat ->
  entries !! i = Some a -> entries !! j = Some b -> arb_market_id a = arb_market_id b ->
  instant (arb_timestamp a) + cooldown <= instant (arb_timestamp b).

(** As of [T], every published signal is remembered or a cooldown old. *)
Record paced (T : Z) m : Prop := {
  pc_spaced : spaced (sp_entries (am_signal_publisher m));
  pc_known : forall a, a ∈ sp_entries (am_signal_publisher m) ->
    (exists t, am_last_signal_time m !! arb_market_id a = Some t /\ instant (arb_timestamp a) <= instant t)
    \/ instant (arb_timestamp a) + cooldown <= T;
}.

Lemma paced_same T T' m m' : T <= T' ->
  sp_entries (am_signal_publisher m') = sp_entries (am_signal_publisher m) ->
  am_last_signal_time m' = am_last_signal_time m -> paced T m -> paced T' m'.
Proof.
  intros HT E1 E2 [H1 H2]. split; rewrite E1; [done|]. intros a Ha. rewrite E2.
  destruct (H2 a Ha); [by left|right; lia].
Qed.
Lemma paced_rebuilt T m m' o : rebuilt m m' o -> paced T m -> paced T m'.
Proof. intros [E1 E2 _ _ _ _ _]. apply paced_same; [lia|by rewrite E1|done]. Qed.

Lemma spaced_snoc entries arb : spaced entries ->
  (forall a, a ∈ entries -> arb_market_id a = arb_market_id arb ->
     instant (arb_timestamp a) + cooldown <= instant (arb_timestamp arb)) ->
  spaced (entries ++ [arb]).
Proof.
  intros Hs Ha i j a b Hij Hi Hj E. assert (j < length (entries ++ [arb]))%nat as Hl by by eapply lookup_lt_Some.
  rewrite length_app in Hl. cbn in Hl. destruct (decide (j < length entries)%nat) as [Hlt|].
  - rewrite lookup_app_l in Hi, Hj by lia. by apply (Hs i j).
  - assert (j = length entries) as -> by lia. rewrite lookup_app_l in Hi by lia.
    rewrite lookup_app_r, Nat.sub_diag in Hj by lia. injection Hj as <-.
    apply Ha; [by apply list_elem_of_lookup_2 in Hi|done].
Qed.

Lemma cooled_past T m id now a : paced T m -> T <= instant now -> cooled_down m id now = true ->
  a ∈ sp_entries (am_signal_publisher m) -> arb_market_id a = id ->
  instant (arb_timestamp a) + cooldown <= instant now.
Proof.
  intros Hp HT Hc Ha <-. unfold cooled_down in Hc.
  destruct (pc_known _ _ Hp a Ha) as [(t & E & Ht)|]; [|lia]. rewrite E in Hc.
  rewrite secs_since_spec in Hc. unfold cooldown, SIGNAL_COOLDOWN_SECS in *. apply Z.leb_le in Hc.
  Z.to_euclidean_division_equations. lia.
Qed.

Lemma due_cooled m u now arb book : signal_due m u now = Some (arb, book) ->
  arb_market_id arb = bu_market_id u /\ cooled_down m (bu_market_id u) now = true.
Proof.
  unfold signal_due. intros H.
  destruct (paired_book _ _ _) as [book'|] eqn:Eb; [|done]. cbn in H.
  destruct (calculate_with_fees_enabled _ _) as [arb'|] eqn:Ea; [|done]. cbn in H.
  case_decide as Hc; [|done]. injection H as <- <-.
  rewrite (arb_of_book _ _ _ Ea), (paired_market _ _ _ _ Eb). naive_solver.
Qed.

Lemma paced_update T en u m m' r : updated en u m m' r -> T <= instant (ue_observed_at en) -> paced T m ->
  paced (instant (ue_observed_at en)) m'.
Proof.
  intros [_ Hq Hs] HT Hp. destruct (signal_due m u (ue_observed_at en)) as [[arb book]|] eqn:E.
  2: { destruct (Hq eq_refl) as (_ & E1 & E2 & _). apply (paced_same T _ m); [done|by rewrite E2|done|done]. }
  specialize (Hs arb book eq_refl) as [El He]. apply due_cooled in E as [Em Ec].
  assert (forall a, a ∈ sp_entries (am_signal_publisher m) ->
    (exists t, am_last_signal_time m' !! arb_market_id a = Some t /\ instant (arb_timestamp a) <= instant t) \/
    instant (arb_timestamp a) + cooldown <= instant (ue_observed_at en)) as Hold.
  { intros a Ha. destruct (decide (arb_market_id a = bu_market_id u)) as [Ei|Ei].
    - right. by apply (cooled_past T m (bu_market_id u)).
    - destruct (pc_known _ _ Hp a Ha) as [|]; [left|right; lia]. by rewrite El, lookup_insert_ne. }
  destruct (ue_publish en).
  - destruct He as [He%(f_equal sp_entries) _]. cbn in He. split; rewrite He.
    + apply spaced_snoc; [apply (pc_spaced _ _ Hp)|]. intros a Ha Ea. cbn in *.
      apply (cooled_past T m (bu_market_id u)); congruence.
    + intros a [Ha| ->%list_elem_of_singleton]%elem_of_app; [by apply Hold|]. left.
      exists (ue_observed_at en). cbn. rewrite Em, El, lookup_insert_eq. done.
  - destruct He as (_ & He & _). split; rewrite He; [apply (pc_spaced _ _ Hp)|exact Hold].
Qed.

Lemma paced_evict T now m : T <= instant now -> paced T m -> paced (instant now) (evict now m).
Proof.
  intros HT [H1 H2]. split; [done|]. intros a Ha. cbn. destruct (H2 a Ha) as [(t & E & Ht)|]; [|right; lia].
  destruct (dt_ltb (add_minutes now (- (SIGNAL_COOLDOWN_SECS * 2 / 60))) t) eqn:Ec.
  - left. exists t. split; [|done]. by apply map_lookup_filter_Some.
  - right. unfold dt_ltb in Ec. rewrite dt_cmp_instant, instant_add_minutes in Ec.
    unfold cooldown, SIGNAL_COOLDOWN_SECS in *. change (- (60 * 2 / 60)) with (- 2) in Ec.
    destruct (Z.compare_spec (instant now + - 2 * 60000000000) (instant t)); try done; lia.
Qed.

(** The clocks that signals and their eviction read. *)
Definition event_clock (e : MonitorEvent) : option datetime :=
  match e with
  | OnUpdate en _ _ _ => Some (ue_observed_at en)
  | OnStats en => Some (sn_evict_clock en)
  | _ => None
  end.
Fixpoint clocked (T : Z) (turns : list (list (option datetime) * MonitorEvent)) : Prop :=
  match turns with
  | [] => True
  | (_, e) :: turns =>
      match event_clock e with
      | None => clocked T turns
      | Some t => T <= instant t /\ clocked (instant t) turns
      end
  end.
Definition next_clock (T : Z) (e : MonitorEvent) : Z := default T (instant <$> event_clock e).

(** An invariant of the monitor, at a time, that every event keeps. *)
Record kept (P : Z -> ArbMonitor -> Prop) : Prop := {
  k_resubscribed : forall T t m, P T m -> P T (resubscribed t m);
  k_tracking : forall T tk m, P T m -> P T (tracking tk m);
  k_config : forall T u now m m' o, apply_dynamic_update ln u now m = (m', o) -> P T m -> P T m';
  k_update : forall T en u m c m' c' r, process_update en u m c = (m', c', r) ->
    T <= instant (ue_observed_at en) -> P T m -> P (instant (ue_observed_at en)) m';
  k_stats : forall T p en m m' o, sp_entries p = sp_entries (am_signal_publisher m) ->
    rebuild_eligible_markets ln PeriodicRerank (sn_rerank_clock en)
      (evict (sn_evict_clock en) (publishing p m)) = (m', o) ->
    T <= instant (sn_evict_clock en) -> P T m -> P (instant (sn_evict_clock en)) m';
}.

Lemma event_keeps P T answers e l l' r : kept P -> T <= next_clock T e -> P T (ml_monitor l) ->
  monitor_turn ln answers e l = Some (l', r) -> P (next_clock T e) (ml_monitor l').
Proof.
  intros HP HT H0 (l1 & Hl & H)%turn_cases.
  assert (P T (ml_monitor l1)) as H1 by (destruct Hl as [-> | [t ->]]; [done|by apply (k_resubscribed _ HP)]).
  destruct e as [u now| |en|en sio snow u|again|again].
  - subst l'. unfold on_config. destruct u as [u|]; [|done].
    destruct (apply_dynamic_update _ _ _ _) as [m o] eqn:E. apply (k_config _ HP _ _ _ _ _ _ E) in H1.
    by destruct (so_changed o).
  - by subst l'.
  - destruct (on_stats_rebuilds en l1) as (m' & o & E & Em & _). rewrite H, Em.
    eapply (k_stats _ HP); [|exact E|exact HT|exact H1]. by rewrite published_entries.
  - destruct H as (m & c & r' & tk & E & Hm & _). apply (k_update _ HP T) in E; [|exact HT|exact H1].
    destruct Hm as [-> | ->]; [exact E|by apply (k_tracking _ HP)].
  - destruct H as [t ->]. by apply (k_resubscribed _ HP).
  - destruct H as [t ->]. by apply (k_resubscribed _ HP).
Qed.

Lemma run_keeps P T turns l l' r : kept P -> clocked T turns -> P T (ml_monitor l) ->
  monitor_loop ln turns l = Some (l', r) -> exists T', P T' (ml_monitor l').
Proof.
  intros HP. revert T l. induction turns as [|[answers e] turns IH]; cbn; intros T l Hc H0.
  { intros [= <- _]. by exists T. }
  assert (T <= next_clock T e /\ clocked (next_clock T e) turns) as [HT Hc'].
  { unfold next_clock. destruct (event_clock e); cbn; [done|]. split; [lia|done]. }
  destruct (monitor_turn _ _ _ _) as [[l1 r1]|] eqn:E; [|done]. cbn.
  apply (event_keeps P T) in E; [|done|done|done].
  destruct r1; [by apply (IH (next_clock T e))|]. intros [= <- _]. by eexists.
Qed.

Lemma paced_kept : kept paced.
Proof.
  split.
  - intros T t m. by apply paced_same.
  - intros T tk m. by apply paced_same.
  - intros T u now m m' o H. by eapply paced_rebuilt, dynamic_update_spec.
  - intros T en u m c m' c' r H. by eapply paced_update, process_update_spec.
  - intros T p en m m' o E H HT Hp. eapply paced_rebuilt; [by eapply rebuild_spec|].
    apply (paced_evict T); [done|]. by apply (paced_same T _ m).
Qed.

(** ** Selected markets stay held *)

Definition selected_at m id : option datetime := am_market_stats m !! id ≫= last_selected_at.
(** A selected market that was marked was marked by the last rebuild. *)
Definition renewed m : Prop := forall id, id ∈ am_eligible_markets m ->
  selected_at m id = None \/ selected_at m id = am_last_rerank_at m.

Lemma change_stats_selected id f m i : (forall s, last_selected_at (f s) = last_selected_at s) ->
  selected_at (change_stats id f m) i = selected_at m i.
Proof.
  intros Hf. unfold selected_at. cbn. destruct (decide (i = id)) as [->|Hi].
  - rewrite lookup_insert_eq. cbn. rewrite Hf. by destruct (am_market_stats m !! id).
  - by rewrite lookup_insert_ne.
Qed.

Lemma process_update_selected en u m c m' c' r i :
  process_update en u m c = (m', c', r) -> selected_at m' i = selected_at m i.
Proof.
  unfold process_update. cbv zeta. destruct (paired_book _ _ _); [|by intros [= <- _ _]].
  set (m1 := track_market_evaluation _ _ _).
  assert (selected_at m1 i = selected_at m i) as E1 by (unfold m1, track_market_evaluation; by rewrite change_stats_selected).
  destruct (calculate_with_fees_enabled _ _) as [arb|]; [|intros [= <- _ _]; exact E1].
  unfold judge_opportunity. cbv zeta. set (m2 := if is_profitable arb && _ then _ else m1).
  assert (selected_at m2 i = selected_at m i) as E2.
  { unfold m2. destruct (_ && _); [|done]. unfold track_market_opportunity. by rewrite change_stats_selected. }
  destruct (verdict _ _ _ _ _); try (intros [= <- _ _]; exact E2).
  unfold handle_arb_opportunity. set (m3 := track_market_signal _ _ _).
  assert (selected_at m3 i = selected_at m i) as E3.
  { unfold m3, track_market_signal. rewrite change_stats_selected by done. exact E2. }
  destruct (negb _); [intros [= <- _ _]; exact E3|].
  destruct (check_exit_opportunities _ _ _ _ _) as [tk [ready|e]]; cbn [is_ok]; intros [= <- _ _]; exact E3.
Qed.

Lemma marked_lookup ids at_ (stats : gmap string MarketOpportunityStats) id :
  mark_markets_selected ids at_ stats !! id =
    if decide (id ∈ ids) then (fun s => {| s with last_selected_at := Some at_ |}) <$> stats !! id
    else stats !! id.
Proof.
  unfold mark_markets_selected. revert id.
  refine (set_fold_ind_L (fun (st : gmap string MarketOpportunityStats) (X : gset string) => forall id,
    st !! id = if decide (id ∈ X) then (fun s => {| s with last_selected_at := Some at_ |}) <$> stats !! id
               else stats !! id) _ _ _ _ ids).
  - intros id. by rewrite decide_False by set_solver.
  - intros x X st Hx IH id. specialize (IH id). destruct (decide (id = x)) as [->|Hne].
    + rewrite lookup_alter_eq, IH, decide_False by done. by rewrite decide_True by set_solver.
    + rewrite lookup_alter_ne, IH by done. by destruct (decide (id ∈ X)), (decide (id ∈ {[x]} ∪ X)); set_solver.
Qed.

Lemma marked_renewed now m : am_last_rerank_at m = Some now -> renewed (mark_eligible now m).
Proof.
  intros E id Hid. unfold selected_at, mark_eligible. cbn. cbn in Hid.
  rewrite marked_lookup, decide_True, E by done. destruct (am_market_stats m !! id); [by right|by left].
Qed.
Lemma rebuild_renewed reason now m m' o :
  rebuild_eligible_markets ln reason now m = (m', o) -> renewed m'.
Proof.
  unfold rebuild_eligible_markets. cbv zeta. case_decide; [|destruct (_ || _)];
    intros [= <- _]; by apply marked_renewed.
Qed.

Lemma renewed_kept : kept (fun _ => renewed).
Proof.
  split; try done.
  - intros _ u now m m' o H Hm. unfold apply_dynamic_update in H. revert H.
    case_decide; [by intros [= <- _]|]. destruct (monitor_clamp _ _ _) as [v|]; [|by intros [= <- _]].
    repeat case_match; try (by intros [= <- _]); apply rebuild_renewed.
  - intros _ en u m c m' c' r H _ Hm id. rewrite (process_update_selected _ _ _ _ _ _ _ id H).
    apply process_update_spec in H as [E _ _].
    rewrite (settings_field am_eligible_markets m m'), (settings_field am_last_rerank_at m m') by done. apply Hm.
  - intros _ p en m m' o _ H _ _. by apply rebuild_renewed in H.
Qed.

(** Over every run of the loop a market that is selected, and was marked so,
    counts as held while the last rerank is less than the hold period old,
    however long ago it was selected: every rerank marks it again. *)
Theorem hold_never_lapses T turns l l' r now last id :
  clocked T turns -> renewed (ml_monitor l) -> monitor_loop ln turns l = Some (l', r) ->
  let m := ml_monitor l' in
  am_last_rerank_at m = Some last -> secs_since now last < am_exploration_hold_secs m ->
  id ∈ am_eligible_markets m -> is_Some (selected_at m id) ->
  incumbent_is_held (am_market_stats m) id now (am_exploration_hold_secs m) = true.
Proof.
  intros Hc Hl H m Hlast Hsecs Hid Hsel. apply (run_keeps _ T _ _ _ _ renewed_kept) in H as [_ H]; [|done|done].
  fold m in H. unfold incumbent_is_held. change (am_market_stats m !! id ≫= last_selected_at) with (selected_at m id).
  destruct (H id Hid) as [E|E]; rewrite E in *; [by destruct Hsel|]. rewrite Hlast. by apply Z.ltb_lt.
Qed.

(** C37. Over every run of the loop two entry signals of a market are at least the
    cooldown apart, evictions of old signals included, as long as the clock does
    not go back. *)
Theorem signals_spaced T turns l l' r :
  clocked T turns -> sp_entries (am_signal_publisher (ml_monitor l)) = [] ->
  monitor_loop ln turns l = Some (l', r) -> spaced (sp_entries (am_signal_publisher (ml_monitor l'))).
Proof.
  intros Hc H0 H. apply (run_keeps _ T _ _ _ _ paced_kept) in H as [T' H]; [by apply (pc_spaced T')|done|].
  split; rewrite H0; [intros i j a b _ Hi; by rewrite lookup_nil in Hi|by intros a ?%not_elem_of_nil].
Qed.
End Pace.

(** ** The stream follows the selection *)

Definition in_step l : Prop := ml_resubscribe_requested l = false ->
  ml_subscribed l = active_subscription_asset_ids (ml_monitor l).

Lemma same_assets m m' : am_market_outcomes m' = am_market_outcomes m ->
  am_all_market_ids m' = am_all_market_ids m -> am_eligible_markets m' = am_eligible_markets m ->
  active_subscription_asset_ids m' = active_subscription_asset_ids m.
Proof. intros E1 E2 E3. unfold active_subscription_asset_ids. by rewrite E1, E2, E3. Qed.
Lemma rebuilt_assets m m' o : rebuilt m m' o -> so_applied o = false ->
  active_subscription_asset_ids m' = active_subscription_asset_ids m.
Proof. intros [_ _ _ E1 E2 _ E3] Ho. apply same_assets; auto. Qed.

Lemma turn_in_step answers e l l' r : in_step l -> monitor_turn ln answers e l = Some (l', r) -> in_step l'.
Proof.
  intros H0 (l1 & Hl & H)%turn_cases. assert (in_step l1) as H1 by by destruct Hl as [-> | [t ->]].
  destruct e as [u now| |en|en sio snow u|again|again].
  - subst l'. unfold on_config. destruct u as [u|]; [|done].
    destruct (apply_dynamic_update _ _ _ _) as [m o] eqn:E. apply dynamic_update_spec in E.
    intros Hr. assert (so_applied o = false /\ ml_resubscribe_requested l1 = false) as [Ho Hr1].
    { apply orb_false_iff. by destruct (so_changed o). }
    specialize (H1 Hr1). apply rebuilt_assets in E; [|done]. destruct (so_changed o); cbn in *; congruence.
  - by subst l'.
  - destruct (on_stats_rebuilds en l1) as (m' & o & E & E1 & E2 & E3 & _).
    unfold in_step. rewrite H, E1, E2, E3. intros [Ho Hr]%orb_false_iff. rewrite (H1 Hr).
    symmetry. by apply rebuild_spec, rebuilt_assets in E.
  - destruct H as (m & c & r' & tk & E & Hm & _ & _ & Es & Er). apply process_update_spec in E as [E _ _].
    intros Hr. rewrite Er in Hr. rewrite Es, (H1 Hr). symmetry. transitivity (active_subscription_asset_ids m).
    + by destruct Hm as [-> | ->].
    + apply same_assets; by apply settings_field.
  - by destruct H as [t ->].
  - by destruct H as [t ->].
Qed.

Lemma loop_in_step turns l l' r : in_step l -> monitor_loop ln turns l = Some (l', r) -> in_step l'.
Proof.
  revert l. induction turns as [|[answers e] turns IH]; cbn; intros l H0; [by intros [= <- _]|].
  destruct (monitor_turn _ _ _ _) as [[l1 r1]|] eqn:E; [|done]. cbn. apply turn_in_step in E; [|done].
  destruct r1; [by apply IH|]. by intros [= <- _].
Qed.

Lemma start_in_step en m l : monitor_start ln en m = Ok l -> in_step l.
Proof.
  unfold monitor_start. destruct (sv_markets en); [|done]. cbv zeta.
  destruct (reconcile_tracker _ _) as [m' []]; [|done]. cbn [negb].
  destruct (sv_subscribed en); [|done]. by intros [= <-].
Qed.

(** From the start of the process on, whenever no resubscription is requested,
    the stream is subscribed to exactly the assets of the selected markets. *)
Theorem stream_follows_selection en turns m l0 l r :
  monitor_start ln en m = Ok l0 -> monitor_loop ln turns l0 = Some (l, r) ->
  ml_resubscribe_requested l = false -> ml_subscribed l = active_subscription_asset_ids (ml_monitor l).
Proof. intros H0%start_in_step H. by apply (loop_in_step turns l0 l r). Qed.

(** ** The counters of a minute *)

(** Every profitable book is counted once by what became of it. *)
Record accounted c : Prop := {
  ac_profitable : profitable_books c =
    filtered_by_selection c + filtered_by_profit c + filtered_by_depth c + filtered_by_cooldown c + entry_signals c;
  ac_eligible : eligible_profitable_books c =
    filtered_by_profit c + filtered_by_depth c + filtered_by_cooldown c + entry_signals c;
  ac_evaluated : profitable_books c <= evaluated_books c;
  ac_positive : 0 <= filtered_by_selection c /\ 0 <= filtered_by_profit c /\ 0 <= filtered_by_depth c /\
    0 <= filtered_by_cooldown c /\ 0 <= entry_signals c;
}.
Lemma accounted_default : accounted default_telemetry.
Proof. split; cbn; lia. Qed.

(** The counters of books apart from the rest. *)
Definition counts c : Z * Z * Z * Z * Z * Z * Z * Z :=
  (evaluated_books c, profitable_books c, eligible_profitable_books c, filtered_by_selection c,
   filtered_by_profit c, filtered_by_depth c, filtered_by_cooldown c, entry_signals c).
Lemma counts_accounted c c' : counts c' = counts c -> accounted c -> accounted c'.
Proof. intros [= ? ? ? ? ? ? ? ?] [? ? ? ?]. split; lia. Qed.
Lemma observe_counts candidate threshold arb c : counts (observe_profits candidate threshold arb c) = counts c.
Proof. unfold observe_profits, observe_gap. cbv zeta. destruct candidate; [|done]. by destruct (f64_ltb _ _). Qed.

Lemma judged_counts m eligible deep arb now c :
  accounted c -> profitable_books c < u64_max -> profitable_books c < evaluated_books c ->
  let c' := count_verdict (verdict m eligible deep arb now) (count_profitable arb c) in
  accounted c' /\ evaluated_books c' = evaluated_books c.
Proof.
  intros [H1 H2 H3 H4] Hm Hlt. unfold verdict, count_profitable. cbv zeta.
  destruct (is_profitable arb); cbn [negb];
    [|destruct (gross_profit arb >? ZERO)%dec; split; [split| |split|]; cbn; done || lia].
  destruct (negb eligible), (net_profit arb <? am_min_profit_threshold m)%dec, (negb deep), (cooled_down m (arb_market_id arb) now);
    cbn [andb negb count_verdict]; (split; [split; cbn -[u64_sat_add Z.add]; unfold u64_sat_add; lia|done]).
Qed.

Lemma process_update_accounted en u m c m' c' r :
  process_update en u m c = (m', c', r) -> accounted c -> evaluated_books c < u64_max ->
  accounted c' /\ evaluated_books c' <= evaluated_books c + 1.
Proof.
  intros H Hc Hm. revert H. unfold process_update. cbv zeta.
  destruct (paired_book _ _ _); [|intros [= _ <- _]; split; [done|lia]].
  set (c1 := {| c with evaluated_books := _ |}).
  assert (accounted c1 /\ evaluated_books c1 = evaluated_books c + 1) as [Hc1 He].
  { unfold c1, u64_sat_add. destruct Hc as [? ? ? ?]. split; [split; cbn -[Z.min u64_max Z.add]; lia|cbn -[Z.min u64_max Z.add]; lia]. }
  destruct (calculate_with_fees_enabled _ _) as [arb|]; [|intros [= _ <- _]; split; [done|lia]].
  destruct (judge_opportunity _ _ _ _ _ _ _) as [[m2 c2] r2] eqn:Hj. apply judge_spec in Hj as [_ ->].
  intros H. assert (c' = count_verdict (verdict (track_market_evaluation (bu_market_id u) (ue_observed_at en)
    (store_book u m)) (bool_decide (bu_market_id u ∈ am_eligible_markets m))
    (bool_decide (is_Some (entry_cost_with_depth b (am_min_book_depth (store_book u m))))) arb (ue_observed_at en))
    (count_profitable arb (observe_profits (bool_decide (bu_market_id u ∈ am_eligible_markets m) &&
       bool_decide (is_Some (entry_cost_with_depth b (am_min_book_depth (store_book u m)))))
       (am_min_profit_threshold (track_market_evaluation (bu_market_id u) (ue_observed_at en) (store_book u m)))
       arb c1))) as -> by (by destruct r2; injection H).
  set (c3 := observe_profits _ _ _ c1). assert (counts c3 = counts c1) as E by apply observe_counts.
  pose proof (counts_accounted _ _ E Hc1) as Hc3. assert (evaluated_books c3 = evaluated_books c + 1) as E1 by (rewrite <- He; by injection E).
  assert (profitable_books c3 = profitable_books c) as E2 by by injection E.
  assert (profitable_books c <= evaluated_books c) as Hp by exact (ac_evaluated _ Hc).
  edestruct judged_counts as [H1 H2]; [exact Hc3|lia|lia|].
  split; [exact H1|]. rewrite H2. lia.
Qed.

Lemma turn_accounted answers e l l' r n : monitor_turn ln answers e l = Some (l', r) ->
  accounted (ml_telemetry l) -> 0 <= n -> evaluated_books (ml_telemetry l) + (n + 1) <= u64_max ->
  accounted (ml_telemetry l') /\ evaluated_books (ml_telemetry l') + n <= u64_max.
Proof.
  intros (l1 & Hl & H)%turn_cases. assert (ml_telemetry l1 = ml_telemetry l) as <- by by destruct Hl as [-> | [t ->]].
  intros Hc Hn Hm. destruct e as [u now| |en|en sio snow u|again|again].
  - subst l'. unfold on_config. destruct u as [u|]; [|split; [done|lia]].
    destruct (apply_dynamic_update _ _ _ _) as [m o]. destruct (so_changed o); (split; [done|cbn; lia]).
  - subst l'. split; [done|lia].
  - destruct (on_stats_rebuilds en l1) as (m' & o & _ & _ & _ & _ & E & _). rewrite H, E.
    split; [apply accounted_default|]. destruct Hc as [? ? ? ?]. cbn. lia.
  - destruct H as (m & c & r' & tk & E & _ & -> & _). apply process_update_accounted in E as [H1 H2]; [|done|lia].
    split; [exact H1|lia].
  - destruct H as [t ->]. split; [done|cbn; lia].
  - destruct H as [t ->]. split; [done|cbn; lia].
Qed.

(** Over every run of the loop the counters of a minute add up: a profitable
    book is filtered by exactly one rule or signalled. *)
Theorem telemetry_adds_up turns l l' r :
  accounted (ml_telemetry l) -> evaluated_books (ml_telemetry l) + Z.of_nat (length turns) <= u64_max ->
  monitor_loop ln turns l = Some (l', r) -> accounted (ml_telemetry l').
Proof.
  revert l. induction turns as [|[answers e] turns IH]; cbn [monitor_loop length]; intros l Hc Hm.
  { by intros [= <- _]. }
  destruct (monitor_turn _ _ _ _) as [[l1 r1]|] eqn:E; [|done]. cbn.
  apply (turn_accounted _ _ _ _ _ (Z.of_nat (length turns))) in E as [H1 H2]; [|done|lia|lia].
  destruct r1; [by apply IH|]. by intros [= <- _].
Qed.

(** ** Stalls *)

Lemma process_update_stats en u m c m' c' r : process_update en u m c = (m', c', r) ->
  sp_stats (am_signal_publisher m') = sp_stats (am_signal_publisher m) /\
  sp_latest (am_signal_publisher m') = sp_latest (am_signal_publisher m).
Proof.
  intros [_ Hq Hs]%process_update_spec. destruct (signal_due m u (ue_observed_at en)) as [[arb book]|].
  - specialize (Hs arb book eq_refl) as [_ Hs]. destruct (ue_publish en); [destruct Hs as [-> _]; done|].
    by destruct Hs as (_ & -> & _).
  - specialize (Hq eq_refl) as (_ & _ & -> & _). done.
Qed.

Section Stalls.
Variable fires : (Branch -> option Z) -> Branch -> Z -> Prop.
Variable next_deadline : Z -> Z -> Z.
Context {SS : SelectSpec fires} {IS : IntervalSpec next_deadline TICK_PERIOD}.

Lemma timed_never_times_out timeout_secs t turns : 60 < timeout_secs -> tm_stats t <= tm_now t + TICK_PERIOD ->
  timed fires next_deadline timeout_secs t turns -> Forall (fun ae => branch_of (snd ae) <> BTimeout) turns.
Proof.
  intros Hto. intros Hs Ht. induction Ht as [|t answers e turns config update fired later Hf Hl _ IH]; constructor.
  - cbn. intros Eb. destruct (fires_ready (fires := fires) _ _ _ Hf) as (at_ & E & Hle). rewrite Eb in E. injection E as <-.
    pose proof (fires_first (fires := fires) _ _ _ BStats _ Hf eq_refl) as Hle'. unfold TICK_PERIOD in *. lia.
  - apply IH. destruct (fires_ready (fires := fires) _ _ _ Hf) as (at_ & E & Hle).
    assert (tm_now t <= at_) as Hn.
    { destruct (branch_of e); cbn in E; [destruct config| | |destruct update|]; try done; injection E as <-; lia. }
    destruct (branch_of e); cbn in E |- *; try lia. injection E as <-.
    pose proof (deadline_within (next_deadline := next_deadline) (tm_stats t) fired ltac:(lia)). lia.
Qed.

(** No stall has been seen or reported. *)
Definition unstalled l : Prop := ml_stalls l = 0 /\
  (forall st, st ∈ sp_stats (am_signal_publisher (ml_monitor l)) -> rt_stalls_last_minute st = f64_of_Z 0) /\
  (forall st, sp_latest (am_signal_publisher (ml_monitor l)) = Some st -> rt_stalls_last_minute st = f64_of_Z 0).
Lemma unstalled_same l l' : unstalled l -> ml_stalls l' = ml_stalls l ->
  sp_stats (am_signal_publisher (ml_monitor l')) = sp_stats (am_signal_publisher (ml_monitor l)) ->
  sp_latest (am_signal_publisher (ml_monitor l')) = sp_latest (am_signal_publisher (ml_monitor l)) -> unstalled l'.
Proof. intros (H1 & H2 & H3) E1 E2 E3. unfold unstalled. by rewrite E1, E2, E3. Qed.

Lemma turn_unstalled answers e l l' r : branch_of e <> BTimeout -> unstalled l ->
  monitor_turn ln answers e l = Some (l', r) -> unstalled l'.
Proof.
  intros Hb H0 (l1 & Hl & H)%turn_cases. assert (unstalled l1) as H1 by by destruct Hl as [-> | [t ->]].
  destruct e as [u now| |en|en sio snow u|again|again]; try done.
  - subst l'. unfold on_config. destruct u as [u|]; [|done].
    destruct (apply_dynamic_update _ _ _ _) as [m o] eqn:E. apply dynamic_update_spec in E as [E _ _ _ _ _ _].
    apply (unstalled_same l1); [done| | |]; destruct (so_changed o); cbn; by rewrite ?E.
  - by subst l'.
  - destruct (on_stats_rebuilds en l1) as (m' & o & E & Em & _ & _ & _ & Es). subst l'.
    apply rebuild_spec in E as [E _ _ _ _ _ _]. unfold unstalled. rewrite Es, Em, E. cbn.
    destruct H1 as (S1 & S2 & S3).
    assert (rt_stalls_last_minute (runtime_stats (sn_ws en) l1) = f64_of_Z 0) as Hst by (cbn; by rewrite S1).
    split; [done|]. unfold publish_runtime_stats. destruct (sn_set en), (sn_publish en); cbn; split; try done.
    + intros st [Hin| ->%list_elem_of_singleton]%elem_of_app; [by apply S2|done].
    + by intros st [= <-].
    + by intros st [= <-].
  - destruct H as (m & c & r' & tk & E & Hm & _ & Es & _). apply process_update_stats in E as [E1 E2].
    apply (unstalled_same l1); [done|done| |]; destruct Hm as [-> | ->]; done.
  - by destruct H as [t ->].
Qed.

(** If [select!] completes when its first branch is ready and an interval
    ticks again within its period, a timeout of more than a minute never fires,
    and the stalls that the tuner reads are always zero. *)
Theorem stalls_never_reported timeout_secs t turns l l' r :
  60 < timeout_secs -> tm_stats t <= tm_now t + TICK_PERIOD ->
  timed fires next_deadline timeout_secs t turns ->
  ml_stalls l = 0 -> am_signal_publisher (ml_monitor l) = {| sp_entries := []; sp_stats := []; sp_latest := None |} ->
  monitor_loop ln turns l = Some (l', r) ->
  forall st, st ∈ sp_stats (am_signal_publisher (ml_monitor l')) ->
    saturate (stalls_last_minute (stats_for_tuner st)) = f64_zero.
Proof.
  intros Hto Hs Ht H0 Hp H st Hst. pose proof (timed_never_times_out _ _ _ Hto Hs Ht) as Hf. clear Ht Hs.
  assert (unstalled l) as Hu.
  { unfold unstalled. rewrite Hp. split; [done|]. split; [by intros ? ?%not_elem_of_nil|done]. }
  assert (unstalled l') as (_ & Hl & _).
  { clear Hst st Hp H0. revert l Hu H. induction Hf as [|[answers e] turns He _ IH]; cbn; intros l Hu; [by intros [= <- _]|].
    destruct (monitor_turn _ _ _ _) as [[l1 r1]|] eqn:E; [|done]. cbn. apply turn_unstalled in E; [|done|done].
    destruct r1; [by apply IH|]. by intros [= <- _]. }
  cbn. by rewrite (Hl st Hst).
Qed.
End Stalls.

(** ** Signals, and the selection *)

(** C36. An update of a book signals an entry exactly when the market is selected,
    both sides of its book are known and deep enough, the opportunity pays, by
    at least the threshold, and the last signal is a cooldown ago; exits are
    checked only then. *)
Theorem entry_signals_exact en u m c :
  let '(m', _, r) := process_update en u m c in updated en u m m' r.
Proof.
  destruct (process_update en u m c) as [[m' c'] r] eqn:E. by eapply process_update_spec.
Qed.

(** No update of the configuration and no event changes the depth that a book
    must have. *)
Lemma depth_gate_is_fixed answers e l l' r : monitor_turn ln answers e l = Some (l', r) ->
  am_min_book_depth (ml_monitor l') = am_min_book_depth (ml_monitor l).
Proof.
  intros (l1 & Hl & H)%turn_cases.
  assert (am_min_book_depth (ml_monitor l1) = am_min_book_depth (ml_monitor l)) as <- by by destruct Hl as [-> | [t ->]].
  destruct e as [u now| |en|en sio snow u|again|again].
  - subst l'. unfold on_config. destruct u as [u|]; [|done].
    destruct (apply_dynamic_update _ _ _ _) as [m o] eqn:E. apply dynamic_update_spec in E as [_ _ _ _ _ E _].
    by destruct (so_changed o).
  - by subst l'.
  - destruct (on_stats_rebuilds en l1) as (m' & o & E & Em & _). rewrite H, Em.
    by apply rebuild_spec in E as [_ _ _ _ _ -> _].
  - destruct H as (m & c & r' & tk & E & Hm & _). apply process_update_spec in E as [E _ _].
    transitivity (am_min_book_depth m); [by destruct Hm as [-> | ->]|by apply settings_field].
  - by destruct H as [t ->].
  - by destruct H as [t ->].
Qed.

Context {HS : HashSpec}.

Lemma size_ids (ids : list string) : (size (list_to_set ids : gset string) <= length ids)%nat.
Proof.
  induction ids as [|id ids IH]; cbn; [by rewrite size_empty|]. rewrite size_union_alt, size_singleton.
  assert (size ((list_to_set ids : gset string) ∖ {[id]}) <= size (list_to_set ids : gset string))%nat
    by (apply subseteq_size; set_solver). lia.
Qed.

(** A rebuild that the configuration or the start forces selects listed markets
    and those of open positions only, all of the latter, and of the former as
    many as the cap allows. *)
Theorem forced_rebuild_within_cap reason now m : NoDup (am_all_market_ids m) -> reason <> PeriodicRerank ->
  let m' := fst (rebuild_eligible_markets ln reason now m) in
  let open := get_active_positions (am_position_tracker m) in
  (forall id, id ∈ am_eligible_markets m' -> id ∈ am_all_market_ids m \/ id ∈ pos_market_id <$> open) /\
  (forall p, p ∈ open -> pos_market_id p ∈ am_eligible_markets m') /\
  (Nat.min (active_count m) (length (am_all_market_ids m)) <= size (am_eligible_markets m') <=
     active_count m + length open)%nat.
Proof.
  intros Hn Hr m' open. set (sel := selection_of ln m now).
  assert (am_eligible_markets m' = next_markets m sel) as ->.
  { unfold m', rebuild_eligible_markets. cbv zeta. fold sel. case_decide as E; [by symmetry|].
    rewrite bool_decide_eq_false_2 by done. done. }
  destruct (select_ok ln (am_market_profiles m) (am_market_stats m) (am_eligible_markets m) (am_scoring_weights m)
    (am_min_profit_threshold m) now (am_current_exploration_markets m) (am_exploration_hold_secs m)
    (am_exploration_swap_min_score_delta m) (am_all_market_ids m) (active_count m)
    (Z.to_nat (Z.min (am_exploration_slots m) (Z.of_nat (active_count m)))) Hn) as [S1 S2 S3 _ _ _].
  fold (selection_of ln m now) in *. fold sel in S1, S2, S3. unfold next_markets. split; [|split].
  - intros id. rewrite elem_of_union, !elem_of_list_to_set. intros [H|H]; [left; by apply S2|by right].
  - intros p Hp. apply elem_of_union_r, elem_of_list_to_set, list_elem_of_fmap. by exists p.
  - split.
    + rewrite <- S3, <- (size_list_to_set (C := gset string)) by done. apply subseteq_size. set_solver.
    + rewrite size_union_alt. pose proof (size_ids (selected_ids sel)) as H1. rewrite S3 in H1.
      pose proof (size_ids (pos_market_id <$> open)) as H2. rewrite length_fmap in H2.
      assert (size ((list_to_set (pos_market_id <$> open) : gset string) ∖ list_to_set (selected_ids sel)) <=
        size (list_to_set (pos_market_id <$> open) : gset string))%nat by (apply subseteq_size; set_solver).
      fold open. lia.
Qed.
End Facts.
