(* ===== verification/MonitorRuns.v ===== *)
(** * Concrete runs of the arbitrage monitor

    One binary market from the start of the process over a minute of updates
    of its books, and the theorems about the monitor at those runs. *)

From S2P Require Import Prelude F64 FloatParse Platform Handler Market CircuitBreaker Position.
From S2P Require Import PositionRepo PositionRepoFacts PositionTracker Executor Signal Trading StrategyRisk.
From S2P Require Import ArbExecutor QuantExecutor DynamicConfig DynamicTuner.
From S2P Require Import BookStream MarketSelection MarketSelectionFacts Monitor MonitorFacts.

Local Open Scope Z_scope.

Module MonitorSample.
#[local] Existing Instance Concrete.decimal.
#[local] Existing Instance Concrete.decimal_spec.
#[local] Existing Instance Concrete.chrono.
#[local] Existing Instance Concrete.chrono_spec.
#[local] Existing Instance Concrete.uuid.
#[local] Existing Instance ConcreteJson.json.
#[local] Existing Instance ConcreteConfig.metrics_json.
#[local] Existing Instance ConcreteConfig.numeric_ops.
#[local] Existing Instance SelectionSample.hash.
#[local] Existing Instance SelectionSample.hash_spec.
Abbreviation d := Concrete.d.
Abbreviation ln := SelectionSample.ln.

Definition at_second (s : Z) : @datetime Concrete.chrono := s * 1000000000.

(** ** A market, its books, and the process *)

Definition sample_outcome (name token : string) : Outcome := {|
  outcome_id := token; Market.outcome_name := name; token_id := token; outcome_price := None; winner := None |}.
Definition sample_market : Market := {|
  mkt_id := "m"; question := ""; description := None;
  outcomes := [sample_outcome "No" "n"; sample_outcome "Yes" "y"];
  volume := d 1000 0; liquidity := d 1000 0; end_date := None; resolved := false; resolution := None;
  category := None; tags := []; fees_enabled := false; fee_type := None |}.

Definition no_env (_ : string) : option string := None.
Definition fresh : ArbMonitor := monitor_new no_env true true ∅ ∅.
Abbreviation quiet_ws := default_ws_stats.
Definition start_env : StartEnv := {|
  sv_markets := Some [sample_market]; sv_read := true; sv_io := fun _ => true;
  sv_reconcile_clock := at_second 0; sv_rebuild_clock := at_second 0;
  sv_subscribed := Some (at_second 0); sv_ws := quiet_ws |}.
Definition started : result MonitorLoop MonitorError := monitor_start ln start_env fresh.
Definition looping (r : result MonitorLoop MonitorError) : MonitorLoop :=
  match r with Ok l => l | Err _ => start_loop quiet_ws (at_second 0) fresh end.
Definition l0 : MonitorLoop := looping started.

Definition env_at (s : Z) : UpdateEnv := {|
  ue_observed_at := at_second s; ue_publish := true; ue_exit_clock := at_second s;
  ue_io := fun _ => true; ue_pnl_clock := at_second s |}.
(** 500 shares on either side. *)
Definition book_update (token : string) (s price : Z) : OrderBookUpdate := {|
  bu_market_id := "m"; bu_asset_id := token; bu_timestamp := at_second s;
  bu_bids := [{| level_price := d (price - 1) 2; level_size := d 500 0 |}];
  bu_asks := [{| level_price := d price 2; level_size := d 500 0 |}] |}.
Abbreviation Turn := (list (option datetime) * MonitorEvent)%type.
Definition update_turn (token : string) (s price : Z) : Turn :=
  ([], OnUpdate (env_at s) (fun _ => true) (at_second s) (book_update token s price)).
Definition stats_turn (s : Z) : Turn :=
  ([], OnStats {| sn_ws := quiet_ws; sn_set := true; sn_publish := true; sn_evict_clock := at_second s;
                  sn_rerank_clock := at_second s |}).

(** The books come at seconds 1 and 2, again at 30, after the statistics at 62
    and at 63. *)
Definition turns : list Turn :=
  [update_turn "y" 1 45; update_turn "n" 2 50; update_turn "y" 30 44; stats_turn 60; ([], OnHeartbeat); update_turn "y" 62 45;
   update_turn "n" 63 60].
Abbreviation ran := (monitor_loop ln turns l0).
Definition l1 : MonitorLoop := default l0 (fst <$> ran).
Definition res : result unit MonitorError := default (Ok tt) (snd <$> ran).

Lemma ok_loop r : is_ok r = true -> r = Ok (looping r).
Proof. by destruct r. Qed.
Lemma some_pair (o : option (MonitorLoop * result unit MonitorError)) l :
  bool_decide (is_Some o) = true -> o = Some (default l (fst <$> o), default (Ok tt) (snd <$> o)).
Proof. intros H%bool_decide_eq_true. destruct o as [[? ?]|]; [done|]. by destruct H. Qed.
Lemma monitor_started : monitor_start ln start_env fresh = Ok l0.
Proof. apply ok_loop. vm_compute. reflexivity. Qed.
Lemma ran_ok : ran = Some (l1, res).
Proof. unfold l1, res. apply some_pair. vm_compute. reflexivity. Qed.

(** The first pair of books is signalled, the next update waits for the
    cooldown, the one at second 62 is signalled again, the last does not pay;
    the minute that the statistics report had three updates and one signal. *)
Example two_signals :
  (arb_timestamp <$> sp_entries (am_signal_publisher (ml_monitor l1)),
   am_market_outcomes (ml_monitor l1) !! "m",
   (fun st => (rt_updates_per_minute st, entry_signals_per_minute (rt_telemetry st),
               filtered_by_cooldown_per_minute (rt_telemetry st))) <$> sp_stats (am_signal_publisher (ml_monitor l1)),
   bool_decide (ml_subscribed l1 = {["y"; "n"]})) =
  ([at_second 2; at_second 62], Some ("y", "n"),
   [(f64_of_Z 3, f64_of_Z 1, f64_of_Z 1)], true).
Proof. vm_compute. reflexivity. Qed.

(** ** The theorems at these runs *)

Lemma turns_clocked : clocked 0 turns.
Proof. cbn. repeat split; vm_compute; discriminate. Qed.

Lemma no_signals : sp_entries (am_signal_publisher (ml_monitor l0)) = [].
Proof. apply nil_length_inv. vm_compute. reflexivity. Qed.
Lemma publisher_fresh : am_signal_publisher (ml_monitor l0) = {| sp_entries := []; sp_stats := []; sp_latest := None |}.
Proof.
  assert (match am_signal_publisher (ml_monitor l0) with
          | {| sp_entries := []; sp_stats := []; sp_latest := None |} => true | _ => false end = true) as H
    by (vm_compute; reflexivity).
  destruct (am_signal_publisher (ml_monitor l0)) as [[|] [|] []]; done.
Qed.
Lemma signals_spaced_witness : clocked 0 turns /\ ran = Some (l1, res) /\
  spaced (sp_entries (am_signal_publisher (ml_monitor l1))).
Proof.
  refine (conj turns_clocked (conj ran_ok _)).
  exact (signals_spaced ln 0 turns l0 l1 res turns_clocked no_signals ran_ok).
Defined.

Lemma stream_follows_selection_witness : ml_resubscribe_requested l1 = false /\
  ml_subscribed l1 = active_subscription_asset_ids (ml_monitor l1).
Proof.
  assert (ml_resubscribe_requested l1 = false) as H by (vm_compute; reflexivity).
  exact (conj H (stream_follows_selection ln start_env turns fresh l0 l1 res monitor_started ran_ok H)).
Defined.

Lemma telemetry_adds_up_witness : accounted (ml_telemetry l0) /\ accounted (ml_telemetry l1).
Proof.
  assert (ml_telemetry l0 = default_telemetry) as E by (vm_compute; reflexivity).
  assert (accounted (ml_telemetry l0)) as H by (rewrite E; apply accounted_default).
  refine (conj H (telemetry_adds_up ln turns l0 l1 res H _ ran_ok)). vm_compute. discriminate.
Defined.

Definition hold_secs : Z := am_exploration_hold_secs (ml_monitor l1).
Lemma renewed_l0 : renewed (ml_monitor l0).
Proof.
  change (set_Forall (fun id => selected_at (ml_monitor l0) id = None \/
    selected_at (ml_monitor l0) id = am_last_rerank_at (ml_monitor l0)) (am_eligible_markets (ml_monitor l0))).
  refine (bool_decide_unpack _ _). vm_compute. exact I.
Qed.
(** Ten minutes after its selection the market is still held, by the rerank of
    the last minute. *)
Lemma hold_never_lapses_witness :
  incumbent_is_held (am_market_stats (ml_monitor l1)) "m" (at_second 650) hold_secs = true.
Proof.
  apply (hold_never_lapses ln 0 turns l0 l1 res (at_second 650) (at_second 60) "m" turns_clocked renewed_l0 ran_ok).
  - vm_compute. reflexivity.
  - vm_compute. reflexivity.
  - refine (bool_decide_unpack _ _). vm_compute. exact I.
  - refine (bool_decide_unpack _ _). vm_compute. exact I.
Defined.

(** The tokio of the witnesses. *)
#[local] Existing Instance Concrete.first_ready_spec.
#[local] Existing Instance Concrete.every_spec.
Definition timers0 : Timers := {| tm_now := 0; tm_heartbeat := TICK_PERIOD; tm_stats := TICK_PERIOD |}.

Local Ltac turn_at s :=
  eapply timed_cons with (config := None) (update := Some (s * 1000000000))
    (fired := s * 1000000000) (later := s * 1000000000);
    [split; [reflexivity|intros [] at_ H; vm_compute in H; try discriminate H; injection H as <-; vm_compute; discriminate]|lia|].
Lemma turns_timed : timed Concrete.first_ready (Concrete.every TICK_PERIOD) 120 timers0 turns.
Proof.
  unfold turns, update_turn, stats_turn.
  turn_at 1. turn_at 2. turn_at 30. turn_at 60. turn_at 60. turn_at 62. turn_at 63. constructor.
Qed.

Lemma stalls_never_reported_witness :
  (fun st => saturate (stalls_last_minute (stats_for_tuner st))) <$>
    sp_stats (am_signal_publisher (ml_monitor l1)) = [f64_zero].
Proof.
  assert (forall st, st ∈ sp_stats (am_signal_publisher (ml_monitor l1)) ->
    saturate (stalls_last_minute (stats_for_tuner st)) = f64_zero) as H.
  { apply (stalls_never_reported ln Concrete.first_ready (Concrete.every TICK_PERIOD)) with (timeout_secs := 120) (t := timers0)
      (turns := turns) (l := l0) (r := res).
    - lia.
    - vm_compute. discriminate.
    - apply turns_timed.
    - vm_compute. reflexivity.
    - apply publisher_fresh.
    - exact ran_ok. }
  assert (length (sp_stats (am_signal_publisher (ml_monitor l1))) = 1%nat) as El by (vm_compute; reflexivity).
  destruct (sp_stats (am_signal_publisher (ml_monitor l1))) as [|st [|]]; try done.
  cbn [fmap list_fmap]. by rewrite (H st (list_elem_of_here _ _)).
Defined.

Lemma forced_rebuild_within_cap_witness :
  NoDup (am_all_market_ids (ml_monitor l0)) /\
  size (am_eligible_markets (fst (rebuild_eligible_markets ln DynamicConfigChange (at_second 64) (ml_monitor l0)))) = 1%nat.
Proof.
  assert (NoDup (am_all_market_ids (ml_monitor l0))) as Hn by (refine (bool_decide_unpack _ _); vm_compute; exact I).
  split; [exact Hn|].
  destruct (forced_rebuild_within_cap ln DynamicConfigChange (at_second 64) (ml_monitor l0) Hn
    ltac:(discriminate)) as (_ & _ & H1 & H2).
  assert (Nat.min (active_count (ml_monitor l0)) (length (am_all_market_ids (ml_monitor l0))) = 1%nat) as E1
    by (vm_compute; reflexivity).
  assert (active_count (ml_monitor l0) + length (get_active_positions (am_position_tracker (ml_monitor l0))) = 1)%nat
    as E2 by (vm_compute; reflexivity).
  rewrite E1 in H1. rewrite E2 in H2. apply Nat.le_antisymm; [exact H2|exact H1].
Defined.
End MonitorSample.
