(* ===== verification/MonitorStream.v ===== *)
(** * From the exchange to the monitor

    The books of the monitor are those of its connection; concrete messages and
    the theorems about the stream at them. *)

From stdpp Require Import sorting.
From S2P Require Import Prelude F64 FloatParse Platform Handler Market CircuitBreaker Position.
From S2P Require Import PositionRepo PositionRepoFacts PositionTracker Executor Signal Trading StrategyRisk.
From S2P Require Import ArbExecutor QuantExecutor DynamicConfig DynamicTuner.
From S2P Require Import BookStream BookStreamFacts MarketSelection MarketSelectionFacts Monitor MonitorFacts MonitorRuns.

Section Composition.
Context `{DO : DecimalOps} `{CO : ChronoOps} `{UO : UuidOps} `{JO : !JsonOps} `{HO : HashOps}.
Context `{MJ : MetricsJson} `{NO : !NumericOps} {DS : DecimalSpec} `{TO : !TimestampOps} `{WD : WsDecoder}.
Variable ln : f64 -> f64.

Lemma process_update_books en u m c m' c' r : process_update en u m c = (m', c', r) ->
  am_order_books m' = am_order_books (store_book u m).
Proof.
  unfold process_update. cbv zeta. destruct (paired_book _ _ _) as [book|]; [|by intros [= <- _ _]].
  set (m1 := track_market_evaluation _ _ _). change (fees_of m1 (bu_market_id u)) with (fees_of m (bu_market_id u)).
  destruct (calculate_with_fees_enabled _ _) as [arb|]; [|by intros [= <- _ _]].
  destruct (judge_opportunity _ _ _ _ _ _ _) as [[m2 c2] r2] eqn:Hj. apply judge_spec in Hj as [[_ Jb _ _] _].
  by destruct r2; intros [= <- _ _].
Qed.

(** A turn of the monitor that takes an update from its stream. *)
Definition takes (u : OrderBookUpdate) (turn : list (option datetime) * MonitorEvent) : Prop :=
  match snd turn with OnUpdate _ _ _ u' => u' = u | _ => False end.
Lemma takes_books u turn l l' r : takes u turn -> monitor_turn ln turn.1 turn.2 l = Some (l', r) ->
  am_order_books (ml_monitor l') = <[(bu_market_id u, bu_asset_id u) := update_to_orderbook u]>
                                     (am_order_books (ml_monitor l)).
Proof.
  destruct turn as [answers e]. cbn. intros Hu (l1 & Hl & H)%turn_cases.
  assert (am_order_books (ml_monitor l1) = am_order_books (ml_monitor l)) as <- by by destruct Hl as [-> | [t ->]].
  destruct e; try done. cbn in Hu. subst. destruct H as (m & c & r' & tk & E & Hm & _).
  apply process_update_books in E. destruct Hm as [-> | ->]; exact E.
Qed.
Definition store_all (us : list OrderBookUpdate) (books : gmap (string * string) OrderBook) :=
  foldl (fun books u => <[(bu_market_id u, bu_asset_id u) := update_to_orderbook u]> books) books us.
Lemma turns_store us turns l l' : Forall2 takes us turns -> monitor_loop ln turns l = Some (l', Ok tt) ->
  am_order_books (ml_monitor l') = store_all us (am_order_books (ml_monitor l)).
Proof.
  intros Ht. revert l. induction Ht as [|u [answers e] us turns Hu _ IH]; cbn; intros l; [by intros [= <-]|].
  destruct (monitor_turn _ _ _ _) as [[l1 r]|] eqn:E; [|done]. cbn.
  apply (takes_books u (answers, e)) in E; [|done]. destruct r; [|done]. intros H%IH. by rewrite H, E.
Qed.

Lemma update_side_stored d u : side_of d (update_to_orderbook u) = update_side d u.
Proof. by destruct d. Qed.
Lemma stored_side us books market asset d l :
  (forall u, u ∈ us -> bu_asset_id u = asset -> bu_market_id u = market) ->
  default [] (side_of d <$> books !! (market, asset)) = l ->
  default [] (side_of d <$> store_all us books !! (market, asset)) = foldl (side_received asset d) l us.
Proof.
  unfold store_all. revert books l. induction us as [|u us IH]; cbn; intros books l Hm Hl; [done|].
  apply IH; [intros; apply Hm; [by right|done]|]. unfold side_received. case_decide as E.
  - rewrite <- E, <- (Hm u) by (by left || done). by rewrite lookup_insert_eq, <- update_side_stored.
  - rewrite lookup_insert_ne; [done|]. intros [= _ E']. by symmetry in E'.
Qed.

End Composition.

(** ** Concrete messages *)

Module StreamSample.
#[local] Existing Instance Concrete.decimal.
#[local] Existing Instance Concrete.decimal_spec.
#[local] Existing Instance Concrete.chrono.
#[local] Existing Instance Concrete.chrono_spec.
#[local] Existing Instance Concrete.uuid.
#[local] Existing Instance ConcreteJson.json.
#[local] Existing Instance ConcreteConfig.metrics_json.
#[local] Existing Instance ConcreteConfig.numeric_ops.
#[local] Existing Instance SelectionSample.hash.
#[local] Existing Instance Concrete.first_ready_spec.
#[local] Existing Instance Concrete.every_spec.
Abbreviation d := Concrete.d.

(** JSON as far as the messages use it, and the fields that serde reads: a
    missing list is empty, a key and its alias together are refused. *)
Inductive Json : Type := JStr (s : string) | JArr (items : list Json) | JObj (fields : list (string * Json)).
Definition field (key : string) (v : Json) : option Json :=
  match v with
  | JObj fields => snd <$> (list_find (fun kv => fst kv = key) fields ≫= fun x => Some (snd x))
  | _ => None
  end.
Definition str_of (v : Json) : option string := match v with JStr s => Some s | _ => None end.
Definition text_field (key : string) (v : Json) : option string := field key v ≫= str_of.
Definition level_of (v : Json) : option ClobPriceLevel :=
  price ← text_field "price" v; size ← text_field "size" v; Some {| cl_price := price; cl_size := size |}.
Definition items_of (v : Json) : option (list Json) := match v with JArr items => Some items | _ => None end.
Definition list_field {A} (read : Json -> option A) (key alias : string) (v : Json) : option (list A) :=
  match field key v, field alias v with
  | Some _, Some _ => None
  | Some l, None | None, Some l => items_of l ≫= mapM read
  | None, None => Some []
  end.
Definition read_book (v : Json) : option WsBook :=
  market ← text_field "market" v; asset ← text_field "asset_id" v;
  bids ← list_field level_of "bids" "buys" v; asks ← list_field level_of "asks" "sells" v;
  t ← text_field "timestamp" v;
  Some {| wb_market := market; wb_asset_id := asset; wb_bids := bids; wb_asks := asks; wb_timestamp := t |}.
Definition read_change (v : Json) : option WsPriceChange :=
  asset ← text_field "asset_id" v; price ← text_field "price" v; size ← text_field "size" v;
  side ← text_field "side" v;
  Some {| wc_asset_id := asset; wc_price := price; wc_size := size; wc_side := side |}.
Definition read_event (v : Json) : option WsPriceChangeEvent :=
  market ← text_field "market" v; changes ← list_field read_change "price_changes" "" v;
  Some {| we_market := market; we_price_changes := changes; we_timestamp := text_field "timestamp" v |}.

(** The messages of the samples, by name. *)
Definition level_json (price size : string) : Json := JObj [("price", JStr price); ("size", JStr size)].
Definition heading (asset : string) : list (string * Json) :=
  [("market", JStr "m"); ("asset_id", JStr asset); ("timestamp", JStr "1000")].
Definition book_json (asset : string) (buys sells : list Json) : Json :=
  JObj (heading asset ++ [("bids", JArr buys); ("asks", JArr sells)]).
Definition change_json (asset price size side : string) : Json :=
  JObj [("asset_id", JStr asset); ("price", JStr price); ("size", JStr size); ("side", JStr side)].
Definition messages : list (string * Json) :=
  [("books", JArr [book_json "y" [level_json "0.44" "500"] [level_json "0.45" "500"; level_json "0.46" "100"];
                   book_json "n" [level_json "0.49" "500"] [level_json "0.50" "500"]]);
   ("changes", JObj [("market", JStr "m"); ("timestamp", JStr "2000");
      ("price_changes", JArr [change_json "y" "0.45" "0" "SELL"; change_json "n" "0.48" "10" "buy"])]);
   ("trade", JObj (("event_type", JStr "last_trade_price") :: heading "y" ++ [("price", JStr "0.46")]));
   ("broken", book_json "y" [] [level_json "0.45" "500"; level_json "?" "500"])].
#[local] Instance decoder : WsDecoder := {|
  ws_value := Json;
  ws_from_str text := snd <$> (list_find (fun kv => fst kv = text) messages ≫= fun x => Some (snd x));
  ws_shape v := match v with JStr _ => WsScalar | JArr items => WsArray items | JObj _ => WsObject end;
  ws_book_of := read_book;
  ws_event_of := read_event |}.
#[local] Instance timestamps : TimestampOps := {|
  from_timestamp_millis ms := Some (ms * 1000000)%Z : option (@datetime Concrete.chrono);
  dt_parse _ := None |}.

Definition fresh_connection : WsConnection := {| wn_books := ∅; wn_stats := default_ws_stats; wn_sent := [] |}.
Definition text_event (text : string) : WsEvent :=
  OnFrame {| fe_clock := fun _ => 0%Z : @datetime Concrete.chrono; fe_now := 0%Z : @datetime Concrete.chrono;
             fe_gone_after := None; fe_writes := true |} (TextFrame text).
Definition after (texts : list string) : WsConnection := fst (ws_run (text_event <$> texts) fresh_connection).
Definition sides (asset : string) (c : WsConnection) : list (Q * Q) * list (Q * Q) :=
  let view := fmap (M := list) (fun l : PriceLevel => (level_price l : Q, level_size l : Q)) in
  (view (book_side asset true (wn_books c)), view (book_side asset false (wn_books c))).

(** Whole books, then an ask that is gone and a bid that is new. *)
Example books_and_changes :
  sides "y" (after ["books"; "changes"]) = ([((11 # 25), 500 # 1)], [((23 # 50), 100 # 1)])%Q /\
  fst (sides "n" (after ["books"; "changes"])) = [((49 # 100), 500 # 1); ((12 # 25), 10 # 1)]%Q.
Proof. vm_compute. by split. Qed.
(** An object with the three fields of a heading is taken for a whole book,
    whatever its type: a trade empties the book. *)
Example trade_empties_book : sides "y" (after ["books"; "trade"]) = ([], []).
Proof. vm_compute. reflexivity. Qed.
(** A price that does not parse is an ask at 0, the best one after a change. *)
Example broken_price_is_best :
  head (snd (sides "y" (after ["broken"; "changes"]))) = Some (0 # 1, 500 # 1)%Q.
Proof. vm_compute. reflexivity. Qed.

(** ** The theorems about the stream at these messages *)

Definition sample_events : list WsEvent := text_event <$> ["books"; "changes"].
Definition sample_end : WsConnection := fst (ws_run sample_events fresh_connection).
Lemma still_runs (x : WsTurn) : bool_decide (is_Some (snd x)) = false -> x = (fst x, None).
Proof. destruct x as [c [r|]]; [done|]. done. Qed.
Lemma sample_runs : ws_run sample_events fresh_connection = (sample_end, None).
Proof. unfold sample_end. apply still_runs. vm_compute. reflexivity. Qed.

Definition write_good (w : BookWrite) : bool :=
  match w with
  | WroteBook u => bool_decide (NoDup (level_key <$> bu_bids u)) && bool_decide (NoDup (level_key <$> bu_asks u))
  | WroteLevel _ _ _ _ => true
  end.
Lemma writes_distinct ws : forallb write_good ws = true -> Forall write_distinct ws.
Proof.
  rewrite forallb_forall, Forall_forall. intros H w Hw%list_elem_of_In%H.
  destruct w as [u|]; [|done]. apply andb_true_iff in Hw as [H1 H2].
  split; by eapply bool_decide_eq_true.
Qed.
Lemma books_are_last_writes_witness :
  level_at (book_side "y" false (wn_books sample_end)) (d 46 2) =
    quoted "y" false (d 46 2) (run_writes sample_events).
Proof.
  apply (books_are_last_writes sample_events fresh_connection); [reflexivity| |exact sample_runs].
  apply writes_distinct. vm_compute. reflexivity.
Defined.

Fixpoint ordered_b (b : bool) (l : list PriceLevel) : bool :=
  match l with [] => true | x :: l => bool_decide (Forall (better b x) l) && ordered_b b l end.
Lemma ordered_b_spec b l : ordered_b b l = true -> best_first b l.
Proof.
  induction l as [|x l IH]; cbn; [constructor|]. intros [H1%bool_decide_eq_true H2]%andb_true_iff.
  constructor; [by apply IH|done].
Qed.
Lemma writes_ordered ws :
  forallb (fun w => match w with WroteBook u => ordered_b true (bu_bids u) && ordered_b false (bu_asks u)
                               | _ => true end) ws = true -> Forall write_ordered ws.
Proof.
  rewrite forallb_forall, Forall_forall. intros H w Hw%list_elem_of_In%H.
  destruct w as [u|]; [|done]. apply andb_true_iff in Hw as [H1 H2].
  split; by apply ordered_b_spec.
Qed.
Lemma books_stay_ordered_witness : exists b, wn_books sample_end !! "y" = Some b /\
  (forall x, x ∈ asks b -> (d 46 2 <=? level_price x)%dec = true).
Proof.
  destruct (wn_books sample_end !! "y") as [b|] eqn:E.
  2: { assert (bool_decide (is_Some (wn_books sample_end !! "y")) = true) as H by (vm_compute; reflexivity).
       rewrite E in H. discriminate H. }
  exists b. split; [reflexivity|].
  destruct (books_stay_ordered sample_events fresh_connection sample_end "y" b eq_refl) as [_ H];
    [apply writes_ordered; vm_compute; reflexivity|exact sample_runs|exact E|].
  intros x Hx. apply (H (d 46 2) x); [|exact Hx].
  assert (best_ask <$> wn_books sample_end !! "y" = Some (Some (d 46 2))) as Hb by (vm_compute; reflexivity).
  rewrite E in Hb. by injection Hb.
Defined.
Lemma receiver_has_books_witness : book_side "n" true (wn_books sample_end) =
  foldl (side_received "n" true) [] (wn_sent sample_end).
Proof. exact (receiver_has_books sample_events fresh_connection sample_end "n" true eq_refl eq_refl sample_runs). Defined.

(** Pings every ten seconds against a deadline of two minutes. *)
Local Open Scope Z_scope.
Definition second : Z := 1000000000.
Definition connected : WsTimers := {| wt_now := 0; wt_ping := 10 * second; wt_deadline := 120 * second |}.
Abbreviation timed_run := (ws_timed Concrete.first_ready (Concrete.every (10 * second)) (120 * second) 0).
Definition pings : list WsEvent := replicate 12 (OnPingTick true) ++ [OnReadDeadline].
Definition pinged_times (k : Z) : WsTimers :=
  {| wt_now := k * 10 * second; wt_ping := (k + 1) * 10 * second; wt_deadline := 120 * second |}.
Lemma pings_timed_from n k : (0 <= k)%Z -> (k + Z.of_nat n = 12)%Z ->
  timed_run (pinged_times k) (replicate n (OnPingTick true) ++ [OnReadDeadline]).
Proof.
  unfold second. revert k. induction n as [|n IH]; cbn [replicate app]; intros k Hk Hn.
  - eapply ws_timed_cons with (arrival := None) (fired := 120 * second) (reset := 120 * second)
      (later := 120 * second); [|lia|lia|lia|constructor]. unfold second.
    split; [cbn; unfold second; f_equal; lia|]. intros [] at_; cbn; unfold second; intros [= <-]; lia.
  - eapply ws_timed_cons with (arrival := None) (fired := (k + 1) * 10 * second)
      (reset := (k + 1) * 10 * second) (later := (k + 1) * 10 * second); [|lia|lia|lia|]; unfold second.
    + split; [cbn; unfold second; f_equal; lia|]. intros [] at_; cbn; unfold second; intros [= <-]; lia.
    + assert (ws_rearm (Concrete.every (10 * second)) (120 * second) WPing ((k + 1) * 10 * second)
        ((k + 1) * 10 * second) ((k + 1) * 10 * second) (pinged_times k) = pinged_times (k + 1)) as E.
      { unfold pinged_times, ws_rearm, Concrete.every, second. cbn. f_equal; lia. }
      unfold second in E. cbn [ws_branch]. rewrite E. apply IH; lia.
Qed.
Lemma pings_timed : timed_run connected pings.
Proof. apply (pings_timed_from 12 0); lia. Qed.
Lemma silent_connection_ends_witness :
  snd (ws_run pings fresh_connection) = Some (Err ReadTimedOut) \/
  snd (ws_run pings fresh_connection) = Some (Err NotWritten).
Proof.
  apply (silent_connection_ends Concrete.first_ready (Concrete.every (10 * second)) (10 * second) (120 * second) 0
    connected); [vm_compute; split; [discriminate|reflexivity]|vm_compute; discriminate|exact pings_timed| |].
  - repeat (constructor; [reflexivity|]). constructor.
  - vm_compute. reflexivity.
Defined.

(** The branch is ready at that time and no other is before. *)
Definition first_of (ready : WsBranch -> option Z) (b : WsBranch) (t : Z) : bool :=
  bool_decide (ready b = Some t) &&
  forallb (fun b' => match ready b' with Some at_ => t <=? at_ | None => true end) [WPing; WDeadline; WFrame].
Lemma first_of_spec ready b t : first_of ready b t = true -> Concrete.first_ready ready b t.
Proof.
  unfold first_of. rewrite andb_true_iff, forallb_forall. intros [Hb%bool_decide_eq_true Hall]. split; [done|].
  intros b' at_ E. specialize (Hall b'). rewrite E in Hall. apply Z.leb_le, Hall. destruct b'; cbn; auto.
Qed.

(** Each ping is answered a second later. *)
Definition pong : WsEvent :=
  OnFrame {| fe_clock := fun _ => 0%Z : @datetime Concrete.chrono; fe_now := 0%Z : @datetime Concrete.chrono;
             fe_gone_after := None; fe_writes := true |} (TextFrame "PONG").
Definition answers : list WsEvent := [OnPingTick true; pong; OnPingTick true; pong].
Abbreviation answered_run :=
  (answered Concrete.first_ready (Concrete.every (10 * second)) (120 * second) second).
Lemma answered_step pending t e events arrival fired :
  (forall by_, pending = Some by_ -> exists a, arrival = Some a /\ a <= by_) ->
  first_of (ws_ready arrival t) (ws_branch e) fired = true ->
  answered_run (match ws_branch e with
                | WPing => Some (default (fired + second) pending)
                | WFrame => None
                | WDeadline => pending
                end) (ws_rearm (Concrete.every (10 * second)) (120 * second) (ws_branch e) fired fired fired t) events ->
  answered_run pending t (e :: events).
Proof.
  intros Hp Hf. apply answered_cons with (arrival := arrival); [exact Hp|]. by apply first_of_spec.
Qed.
Lemma no_arrival_due (arrival : option Z) by_ : None = Some by_ -> exists a, arrival = Some a /\ a <= by_.
Proof. done. Qed.
Lemma arrives_at a by_ : (a <=? by_) = true -> forall by', Some by_ = Some by' -> exists a', Some a = Some a' /\ a' <= by'.
Proof. intros H%Z.leb_le by' [= <-]. by exists a. Qed.
Lemma answers_timed : answered_run None connected answers.
Proof.
  apply (answered_step _ _ _ _ None (10 * second)); [apply no_arrival_due|reflexivity|].
  apply (answered_step _ _ _ _ (Some (11 * second)) (11 * second)); [by apply arrives_at|reflexivity|].
  apply (answered_step _ _ _ _ None (20 * second)); [apply no_arrival_due|reflexivity|].
  apply (answered_step _ _ _ _ (Some (21 * second)) (21 * second)); [by apply arrives_at|reflexivity|].
  constructor.
Qed.
Lemma answered_pings_hide_silence_witness : exists c', ws_run answers fresh_connection = (c', None) /\
  wn_books c' = ∅ /\ wn_sent c' = [].
Proof.
  apply (answered_pings_hide_silence Concrete.first_ready (Concrete.every (10 * second)) (10 * second) (120 * second)
    second connected answers fresh_connection).
  - discriminate.
  - reflexivity.
  - reflexivity.
  - apply Z.le_refl.
  - discriminate.
  - exact answers_timed.
  - repeat (constructor; [intros _; reflexivity|]). constructor.
Defined.

(** Seven connections that time out: the last pause is a minute. *)
Definition short : WsSession := {| wx_connects := true; wx_subscribes := true; wx_events := [OnReadDeadline]; wx_closed := false |}.
Lemma reconnect_pauses_witness :
  snd (subscribe_orderbook ["y"] (replicate 7 short) default_ws_stats) !! 6%nat = Some 60%Z /\
  60%Z = Z.min (2 ^ 6) 60.
Proof.
  assert (snd (subscribe_orderbook ["y"] (replicate 7 short) default_ws_stats) !! 6%nat = Some 60%Z) as H
    by (vm_compute; reflexivity).
  split; [exact H|]. exact (reconnect_pauses ["y"] (replicate 7 short) default_ws_stats 6 60 H ltac:(vm_compute; discriminate)).
Defined.

(** The monitor of [MonitorRuns] takes the updates. *)
Definition update_event (u : OrderBookUpdate) : list (option datetime) * MonitorEvent :=
  ([], OnUpdate (MonitorSample.env_at 1) (fun _ => true) (MonitorSample.at_second 1) u).
Definition sample_turns := update_event <$> wn_sent sample_end.
Lemma takes_all us : Forall2 takes us (update_event <$> us).
Proof. induction us; cbn; by constructor. Qed.
Abbreviation monitored := (monitor_loop MonitorSample.ln sample_turns MonitorSample.l0).
Definition ran_well (o : option (MonitorLoop * result unit MonitorError)) : bool :=
  match o with Some (_, Ok _) => true | _ => false end.
Lemma well_ran o l : ran_well o = true -> o = Some (fst (default (l, Ok tt) o), Ok tt).
Proof. by destruct o as [[l' [[]|]]|]. Qed.
Definition monitor_end : MonitorLoop := fst (default (MonitorSample.l0, Ok tt) monitored).
Lemma monitor_takes : monitored = Some (monitor_end, Ok tt).
Proof. unfold monitor_end. apply well_ran. vm_compute. reflexivity. Qed.
Lemma no_books : am_order_books (ml_monitor MonitorSample.l0) = ∅.
Proof.
  apply map_size_empty_inv. vm_compute. reflexivity.
Qed.
End StreamSample.
