(* ===== verification/Signing.v ===== *)
(** * Orders for the exchange and their signatures

    Models [crates/polymarket-core/src/signing]: the amounts of an order in base
    units ([order_types.rs]), the EIP-712 domains ([domain.rs]) and what is
    hashed and signed ([signer.rs]).  A [U256] and an [Address] are integers, a
    [B256] is the list of its bytes.  Keccak, keys and the texts of addresses
    are the crates' ([SigningOps]); so are truncation, rounding and mantissa of a
    [Decimal] ([FixedOps]). *)

From stdpp Require Import pretty.
From S2P Require Import Prelude F64 Platform.

(** [Decimal::trunc_with_scale], [round_dp_with_strategy(.., ToPositiveInfinity)],
    [normalize().scale()] and [mantissa]. *)
Class FixedOps `{DO : DecimalOps} : Type := {
  trunc_with_scale : dec -> Z -> dec;
  round_dp_up : dec -> Z -> dec;
  decimal_places : dec -> Z;
  mantissa : dec -> Z;
}.

Section FixedSpec.
Local Open Scope Q_scope.
(** 10 to a scale that is not negative. *)
Definition pow10 (s : Z) : Q := inject_Z (10 ^ s).

(** What the crate documents, for the scales a [Decimal] has; and that
    truncation to a scale sets this scale, which the tests of [order_types.rs]
    show, as far as the mantissa has room for it. *)
Class FixedSpec `{FO : FixedOps} {DS : DecimalSpec} : Prop := {
  dval_trunc : forall a s, (0 <= s < 28)%Z ->
    dval (trunc_with_scale a s) == inject_Z (Qtrunc (dval a * pow10 s)) / pow10 s;
  dval_round_up : forall a s, (0 <= s < 28)%Z ->
    dval (round_dp_up a s) == inject_Z (Qceiling (dval a * pow10 s)) / pow10 s;
  decimal_places_least : forall a s, (0 <= s < 28)%Z ->
    (decimal_places a <= s)%Z <-> exists n, dval a == inject_Z n / pow10 s;
  decimal_places_nonneg : forall a, (0 <= decimal_places a)%Z;
  mantissa_trunc : forall a s, (0 <= s < 28)%Z ->
    (Z.abs (Qtrunc (dval a * pow10 s)) < 2 ^ 96)%Z ->
    mantissa (trunc_with_scale a s) = Qtrunc (dval a * pow10 s);
}.
End FixedSpec.

(** ** Orders *)

Inductive OrderSide : Type := Buy | Sell.
#[export] Instance OrderSide_eq_dec : EqDecision OrderSide.
Proof. solve_decision. Defined.
Definition side_as_u8 (s : OrderSide) : Z := match s with Buy => 0 | Sell => 1 end.
Inductive SignatureType : Type := Eoa | Poly | PolyProxy.
Definition signature_as_u8 (t : SignatureType) : Z :=
  match t with Eoa => 0 | Poly => 1 | PolyProxy => 2 end.

Record OrderData : Type := {
  od_salt : Z;
  od_maker : Z;
  od_signer : Z;
  od_taker : Z;
  od_token_id : Z;
  od_maker_amount : Z;
  od_taker_amount : Z;
  od_expiration : Z;
  od_nonce : Z;
  od_fee_rate_bps : Z;
  od_side : Z;
  od_signature_type : Z;
}.

(** The clock in nanoseconds and the number of the process, down to the 53
    bits of a JSON number. *)
Definition rand_salt (nanos pid : Z) : Z :=
  let raw := (Z.lxor nanos (Z.shiftl pid 32) mod 2 ^ 64)%Z in
  Z.land raw (2 ^ 53 - 1).

(** The new order, with the salt [rand_salt] gives. *)
Definition order_new (salt maker token_id : Z) (side : OrderSide)
    (maker_amount taker_amount expiration_secs : Z) : OrderData := {|
  od_salt := salt; od_maker := maker; od_signer := maker; od_taker := 0; od_token_id := token_id;
  od_maker_amount := maker_amount; od_taker_amount := taker_amount;
  od_expiration := expiration_secs; od_nonce := 0; od_fee_rate_bps := 0;
  od_side := side_as_u8 side; od_signature_type := signature_as_u8 Eoa |}.

Section Amounts.
Context `{DO : DecimalOps} {FO : FixedOps}.

Definition USDC_DECIMALS : Z := 6.
Definition LOT_SIZE_SCALE : Z := 2.
Definition to_fixed_u128 (d : dec) (scale : Z) : Z :=
  Z.abs (mantissa (trunc_with_scale (trunc_with_scale d scale) USDC_DECIMALS)).

(** The maker and the taker amount. *)
Definition calculate_amounts (side : OrderSide) (price size : dec) : Z * Z :=
  let raw_cost := (size * price)%dec in
  let token_scale := LOT_SIZE_SCALE in
  let cost_scale := (LOT_SIZE_SCALE + LOT_SIZE_SCALE)%Z in
  match side with
  | Buy => (to_fixed_u128 raw_cost cost_scale, to_fixed_u128 size token_scale)
  | Sell => (to_fixed_u128 size token_scale, to_fixed_u128 raw_cost cost_scale)
  end.

Record OrderBuilder : Type := {
  bd_maker : option Z;
  bd_token_id : option Z;
  bd_side : OrderSide;
  bd_price : option dec;
  bd_size : option dec;
  bd_expiration_secs : option Z;
  bd_nonce : Z;
  bd_fee_rate_bps : Z;
}.
Definition builder_new : OrderBuilder := {|
  bd_maker := None; bd_token_id := None; bd_side := Buy; bd_price := None; bd_size := None;
  bd_expiration_secs := None; bd_nonce := 0; bd_fee_rate_bps := 0 |}.
Definition with_maker (maker : Z) (b : OrderBuilder) : OrderBuilder := {| b with bd_maker := Some maker |}.
Definition with_token_id (token_id : Z) (b : OrderBuilder) : OrderBuilder :=
  {| b with bd_token_id := Some token_id |}.
Definition with_side (side : OrderSide) (b : OrderBuilder) : OrderBuilder := {| b with bd_side := side |}.
Definition with_order_price (price : dec) (b : OrderBuilder) : OrderBuilder := {| b with bd_price := Some price |}.
Definition with_size (size : dec) (b : OrderBuilder) : OrderBuilder := {| b with bd_size := Some size |}.
Definition expires_in (now seconds : Z) (b : OrderBuilder) : OrderBuilder :=
  {| b with bd_expiration_secs := Some (u64_add now seconds) |}.
Definition expires_at (timestamp : Z) (b : OrderBuilder) : OrderBuilder :=
  {| b with bd_expiration_secs := Some timestamp |}.
Definition with_nonce (nonce : Z) (b : OrderBuilder) : OrderBuilder := {| b with bd_nonce := nonce |}.
Definition with_fee_rate_bps (fee_rate : Z) (b : OrderBuilder) : OrderBuilder :=
  {| b with bd_fee_rate_bps := fee_rate |}.
Definition set_order_fee (fee_rate : Z) (o : OrderData) : OrderData := {| o with od_fee_rate_bps := fee_rate |}.
Definition set_order_nonce (nonce : Z) (o : OrderData) : OrderData := {| o with od_nonce := nonce |}.
Definition build (salt : Z) (b : OrderBuilder) : option OrderData :=
  maker ← bd_maker b;
  token_id ← bd_token_id b;
  price ← bd_price b;
  size ← bd_size b;
  expiration ← bd_expiration_secs b;
  let '(maker_amount, taker_amount) := calculate_amounts (bd_side b) price size in
  let order := order_new salt maker token_id (bd_side b) maker_amount taker_amount expiration in
  Some (set_order_fee (bd_fee_rate_bps b) (set_order_nonce (bd_nonce b) order)).
End Amounts.

(** ** What is signed *)

Class SigningOps : Type := {
  keccak256 : list Z -> list Z;
  (** [PrivateKeySigner]: its address and its signature of a hash. *)
  PrivateKey : Type;
  key_address : PrivateKey -> Z;
  sign_hash : PrivateKey -> list Z -> result (list Z) string;
  sign_message : PrivateKey -> list Z -> result (list Z) string;
  (** [{}] and [{:?}] of an [Address], and [hex::encode]. *)
  show_address : Z -> string;
  debug_address : Z -> string;
  hex_encode : list Z -> string;
  (** [U256::from_str_radix(s, 10).ok()]. *)
  parse_u256 : string -> option Z;
}.
(** Every hash has 32 bytes. *)
Class SigningSpec `{SO : SigningOps} : Prop := {
  keccak256_length : forall bytes, length (keccak256 bytes) = 32%nat;
}.

Definition as_bytes (s : string) : list Z :=
  (fun c => Z.of_N (N_of_ascii c)) <$> String.list_ascii_of_string s.
(** The [n] last bytes of an integer, most significant first. *)
Fixpoint be_bytes (n : nat) (x : Z) : list Z :=
  match n with
  | O => []
  | S n => be_bytes n (x / 256)%Z ++ [(x mod 256)%Z]
  end.
Definition word (x : Z) : list Z := be_bytes 32 x.

Record Eip712Domain : Type := {
  dm_name : string;
  dm_version : string;
  dm_chain_id : Z;
  dm_verifying_contract : Z;
}.
Definition POLYGON_CHAIN_ID : Z := 137.
Definition CTF_EXCHANGE_ADDRESS : Z := 0x4bFb41d5B3570DeFd03C39a9A4D8dE6Bd8B8982E.
Definition NEG_RISK_CTF_EXCHANGE_ADDRESS : Z := 0xC5d563A36AE78145C45a50134d48A1215220f80a.
Definition ctf_exchange : Eip712Domain := {|
  dm_name := "Polymarket CTF Exchange"; dm_version := "1"; dm_chain_id := POLYGON_CHAIN_ID;
  dm_verifying_contract := CTF_EXCHANGE_ADDRESS |}.
Definition neg_risk_ctf_exchange : Eip712Domain := {|
  dm_name := "Polymarket CTF Exchange"; dm_version := "1"; dm_chain_id := POLYGON_CHAIN_ID;
  dm_verifying_contract := NEG_RISK_CTF_EXCHANGE_ADDRESS |}.

Section Signer.
Context `{DO : DecimalOps} {FO : FixedOps} `{SO : SigningOps}.

Definition DOMAIN_TYPE : string :=
  "EIP712Domain(string name,string version,uint256 chainId,address verifyingContract)".
Definition encode_domain (d : Eip712Domain) : list Z :=
  keccak256 (as_bytes DOMAIN_TYPE) ++ keccak256 (as_bytes (dm_name d)) ++
  keccak256 (as_bytes (dm_version d)) ++ word (dm_chain_id d) ++ word (dm_verifying_contract d).
Definition separator (d : Eip712Domain) : list Z := keccak256 (encode_domain d).

Definition ORDER_TYPE : string :=
  "Order(uint256 salt,address maker,address signer,address taker,uint256 tokenId,uint256 makerAmount,uint256 takerAmount,uint256 expiration,uint256 nonce,uint256 feeRateBps,uint8 side,uint8 signatureType)".
Definition order_words (o : OrderData) : list Z :=
  [od_salt o; od_maker o; od_signer o; od_taker o; od_token_id o; od_maker_amount o;
   od_taker_amount o; od_expiration o; od_nonce o; od_fee_rate_bps o; od_side o; od_signature_type o].
Definition encode_order (o : OrderData) : list Z :=
  keccak256 (as_bytes ORDER_TYPE) ++ concat (word <$> order_words o).
Definition struct_hash (o : OrderData) : list Z := keccak256 (encode_order o).

Definition compute_typed_data_hash (domain_separator hash : list Z) : list Z :=
  keccak256 ([0x19; 0x01] ++ domain_separator ++ hash)%Z.

(** The authentication message of the exchange. *)
Definition AUTH_DOMAIN_TYPE : string := "EIP712Domain(string name,string version,uint256 chainId)".
Definition auth_separator : list Z :=
  keccak256 (keccak256 (as_bytes AUTH_DOMAIN_TYPE) ++ keccak256 (as_bytes "ClobAuthDomain") ++
             keccak256 (as_bytes "1") ++ word POLYGON_CHAIN_ID).
Definition CLOB_AUTH_MSG : string := "This message attests that I control the given wallet".
Definition clob_auth_struct_hash (address timestamp nonce : Z) : list Z :=
  keccak256 (
    keccak256 (as_bytes "ClobAuth(address address,string timestamp,uint256 nonce,string message)") ++
    word address ++ keccak256 (as_bytes (pretty timestamp)) ++ word nonce ++
    keccak256 (as_bytes CLOB_AUTH_MSG)).

Record OrderSigner : Type := { sn_key : PrivateKey; sn_domain : Eip712Domain }.
Definition signer_new (key : PrivateKey) : OrderSigner := {| sn_key := key; sn_domain := ctf_exchange |}.
Definition new_neg_risk (key : PrivateKey) : OrderSigner :=
  {| sn_key := key; sn_domain := neg_risk_ctf_exchange |}.
Definition to_neg_risk (s : OrderSigner) : OrderSigner :=
  {| sn_key := sn_key s; sn_domain := neg_risk_ctf_exchange |}.
Definition signer_address (s : OrderSigner) : Z := key_address (sn_key s).
Definition order_builder (s : OrderSigner) : OrderBuilder := with_maker (signer_address s) builder_new.
Definition token_id_str (token_id : string) (b : OrderBuilder) : OrderBuilder :=
  with_token_id (default 0%Z (parse_u256 token_id)) b.

Definition signature_to_hex (signature : list Z) : string := "0x" +:+ hex_encode signature.
Definition order_digest (d : Eip712Domain) (o : OrderData) : list Z :=
  compute_typed_data_hash (separator d) (struct_hash o).
Definition signed_hash (s : OrderSigner) (digest : list Z) (context : string) : result string string :=
  match sign_hash (sn_key s) digest with
  | Ok signature => Ok (signature_to_hex signature)
  | Err _ => Err context
  end.
Definition sign_typed_data (s : OrderSigner) (o : OrderData) : result string string :=
  signed_hash s (order_digest (sn_domain s) o) "Failed to sign order".
Definition sign_clob_auth_message (s : OrderSigner) (timestamp nonce : Z) : result string string :=
  signed_hash s (compute_typed_data_hash auth_separator
    (clob_auth_struct_hash (signer_address s) timestamp nonce)) "Failed to sign CLOB auth message".

Record SignedOrder : Type := {
  so_salt : Z;
  so_maker : string;
  so_signer : string;
  so_taker : string;
  so_token_id : string;
  so_maker_amount : string;
  so_taker_amount : string;
  so_expiration : string;
  so_nonce : string;
  so_fee_rate_bps : string;
  so_side : string;
  so_signature_type : Z;
  so_signature : string;
}.
(** [None]: [salt.to::<u64>()] panics when the salt does not fit. *)
Definition from_order_data (o : OrderData) (signature : string) : option SignedOrder :=
  if (od_salt o <? 2 ^ 64)%Z then Some {|
    so_salt := od_salt o; so_maker := debug_address (od_maker o);
    so_signer := debug_address (od_signer o); so_taker := debug_address (od_taker o);
    so_token_id := pretty (od_token_id o); so_maker_amount := pretty (od_maker_amount o);
    so_taker_amount := pretty (od_taker_amount o); so_expiration := pretty (od_expiration o);
    so_nonce := pretty (od_nonce o); so_fee_rate_bps := pretty (od_fee_rate_bps o);
    so_side := if (od_side o =? 0)%Z then "BUY" else "SELL";
    so_signature_type := od_signature_type o; so_signature := signature |}
  else None.
Definition sign_order (s : OrderSigner) (o : OrderData) : option (result SignedOrder string) :=
  match sign_typed_data s o with
  | Ok signature => Ok <$> from_order_data o signature
  | Err e => Some (Err e)
  end.
End Signer.
