(* ===== verification/SigningFacts.v ===== *)
(** * Properties of orders and their signatures

    The amounts of a limit order; a signature binds the order and its domain up
    to a collision of Keccak; the salt fits the JSON number it is sent as. *)

From S2P Require Import Prelude F64 Platform Signing.

(** ** Bytes *)

Lemma be_bytes_length n x : length (be_bytes n x) = n.
Proof. revert x. induction n as [|n IH]; intros x; [done|]. simpl. rewrite length_app, IH. simpl. lia. Qed.
Lemma be_bytes_inj n x y :
  (0 <= x < 256 ^ Z.of_nat n)%Z -> (0 <= y < 256 ^ Z.of_nat n)%Z ->
  be_bytes n x = be_bytes n y -> x = y.
Proof.
  revert x y. induction n as [|n IH]; intros x y Hx Hy E; [simpl in *; lia|].
  cbn [be_bytes] in E. apply app_inj_tail in E as [E Em].
  rewrite Nat2Z.inj_succ, Z.pow_succ_r in Hx, Hy by lia.
  assert (Ed : (x / 256 = y / 256)%Z).
  { apply IH; [| |done].
    all: split; [apply Z.div_pos; lia|apply Z.div_lt_upper_bound; lia]. }
  rewrite (Z.div_mod x 256), (Z.div_mod y 256) by lia. lia.
Qed.

Definition is_u256 (x : Z) : Prop := (0 <= x < 2 ^ 256)%Z.
#[export] Instance is_u256_dec x : Decision (is_u256 x).
Proof. unfold is_u256. apply _. Defined.
Lemma word_length x : length (word x) = 32%nat.
Proof. apply be_bytes_length. Qed.
Lemma word_inj x y : is_u256 x -> is_u256 y -> word x = word y -> x = y.
Proof. apply (be_bytes_inj 32). Qed.
Lemma words_inj l k :
  length l = length k -> Forall is_u256 l -> Forall is_u256 k ->
  concat (word <$> l) = concat (word <$> k) -> l = k.
Proof.
  revert k. induction l as [|x l IH]; intros [|y k] Hlen Hl Hk E; try done.
  apply Forall_cons in Hl as [Hx Hl], Hk as [Hy Hk].
  rewrite !fmap_cons in E. cbn [concat] in E. apply app_inj_1 in E as [Ex E]; [|by rewrite !word_length].
  f_equal; [by apply word_inj|]. apply IH; [by injection Hlen|done..].
Qed.

Lemma as_bytes_inj a b : as_bytes a = as_bytes b -> a = b.
Proof.
  unfold as_bytes. intros E. rewrite <- (String.string_of_list_ascii_of_string a),
    <- (String.string_of_list_ascii_of_string b). f_equal. revert E.
  generalize (String.list_ascii_of_string a), (String.list_ascii_of_string b).
  intros l k. revert k. induction l as [|c l IH]; intros [|d k] E; try done.
  simpl in E. injection E as Ec El. f_equal; [|by apply IH].
  rewrite <- (ascii_N_embedding c), <- (ascii_N_embedding d). f_equal. lia.
Qed.

(** ** Hashes *)

Section Hashes.
Context `{SO : SigningOps} {SS : SigningSpec}.

(** Two inputs with one hash. *)
Definition keccak_collision : Prop := exists x y, x <> y /\ keccak256 x = keccak256 y.
Lemma keccak_binds x y : keccak256 x = keccak256 y -> x = y \/ keccak_collision.
Proof. intros E. destruct (decide (x = y)) as [->|Hne]; [by left|right; by exists x, y]. Qed.

Definition domain_ok (d : Eip712Domain) : Prop := is_u256 (dm_chain_id d) /\ is_u256 (dm_verifying_contract d).
Definition order_ok (o : OrderData) : Prop := Forall is_u256 (order_words o).

Lemma hash_app_inj x y l k :
  keccak256 x ++ l = keccak256 y ++ k -> keccak256 x = keccak256 y /\ l = k.
Proof. intros E. apply app_inj_1 in E; [done|]. by rewrite !keccak256_length. Qed.

Lemma separator_binds d d' :
  domain_ok d -> domain_ok d' -> separator d = separator d' -> d = d' \/ keccak_collision.
Proof.
  intros [Hc Hv] [Hc' Hv'] E. apply keccak_binds in E as [E|?]; [|by right].
  unfold encode_domain in E. apply hash_app_inj in E as [_ E].
  apply hash_app_inj in E as [En E]. apply hash_app_inj in E as [Ev E].
  apply app_inj_1 in E as [Ec Ek]; [|by rewrite !word_length].
  apply keccak_binds in En as [En%as_bytes_inj|?]; [|by right].
  apply keccak_binds in Ev as [Ev%as_bytes_inj|?]; [|by right].
  apply word_inj in Ec, Ek; [|done..]. left. destruct d, d'; simpl in *. congruence.
Qed.
Lemma struct_hash_binds o o' :
  order_ok o -> order_ok o' -> struct_hash o = struct_hash o' -> o = o' \/ keccak_collision.
Proof.
  intros Ho Ho' E. apply keccak_binds in E as [E|?]; [|by right]. unfold encode_order in E.
  apply hash_app_inj in E as [_ E]. apply words_inj in E; [|done..].
  left. destruct o, o'. unfold order_words in E. simpl in E. congruence.
Qed.

(** C23. What is signed for an order binds all twelve fields of the order and the
    name, version, chain and contract of the domain: two orders with the same
    digest are the same order for the same exchange, or two inputs are known
    that Keccak maps to one hash. *)
Theorem signature_binds_order d o d' o' :
  domain_ok d -> domain_ok d' -> order_ok o -> order_ok o' ->
  order_digest d o = order_digest d' o' -> (d = d' /\ o = o') \/ keccak_collision.
Proof.
  intros Hd Hd' Ho Ho' E. apply keccak_binds in E as [E|?]; [|by right].
  apply app_inj_1 in E as [_ E]; [|done].
  apply hash_app_inj in E as [Es Eh].
  destruct (separator_binds _ _ Hd Hd' Es) as [->|?]; [|by right].
  destruct (struct_hash_binds _ _ Ho Ho' Eh) as [->|?]; [by left|by right].
Qed.
End Hashes.

(** ** Salt *)

Lemma rand_salt_bound nanos pid : (0 <= rand_salt nanos pid < 2 ^ 53)%Z.
Proof.
  unfold rand_salt. change (2 ^ 53 - 1)%Z with (Z.ones 53). rewrite Z.land_ones by lia.
  apply Z.mod_pos_bound. lia.
Qed.
Lemma sign_order_total `{SO : SigningOps} s o :
  (od_salt o < 2 ^ 64)%Z -> is_Some (sign_order s o).
Proof.
  intros Hs. unfold sign_order, from_order_data. apply Z.ltb_lt in Hs. rewrite Hs.
  destruct (sign_typed_data s o); eauto.
Qed.

(** ** Witnesses *)

Module SigningSample.
Import Platform.Concrete.

#[local] Existing Instance decimal.

(** A hash that keeps the sum of its bytes, one key, and token ids as their
    lengths. *)
Definition signing : SigningOps := {|
  keccak256 := fun l => word (foldr Z.add 0 l mod 2 ^ 256)%Z; PrivateKey := unit; key_address := fun _ => 7%Z;
  sign_hash := fun _ _ => Ok [1; 2; 3]%Z; sign_message := fun _ _ => Ok [];
  show_address := fun a => pretty.pretty a; debug_address := fun a => pretty.pretty a;
  hex_encode := fun _ => "01"; parse_u256 := fun s => Some (Z.of_nat (String.length s)) |}.
Lemma signing_spec : @SigningSpec signing.
Proof. split. intros l. apply word_length. Qed.
#[local] Existing Instances signing signing_spec.

Definition sample_order : OrderData := order_new 99 7 1234 Buy 10000000 20000000 0.
Lemma signature_binds_order_witness :
  (ctf_exchange = ctf_exchange /\ sample_order = sample_order) \/ keccak_collision.
Proof.
  exact (signature_binds_order ctf_exchange sample_order ctf_exchange sample_order
    ltac:(split; done) ltac:(split; done) ltac:(repeat (constructor; [done|]); constructor)
    ltac:(repeat (constructor; [done|]); constructor) eq_refl).
Defined.
End SigningSample.
