(* ===== verification/ClobClient.v ===== *)
(** * The client of the exchange

    Models [ClobClient] and [AuthenticatedClobClient] of
    [crates/polymarket-core/src/api/clob.rs] (its websocket is [BookStream]).
    The exchange is a function of everything sent so far: what it answers, what
    the clocks read, how a signature comes out.  A method is a [handler] over the
    client and the log of its requests and pauses.  The JSON of serde, base64
    and HMAC are the crates' ([ClobCodec], [L2Ops]); texts of log lines are left
    out. *)

From stdpp Require Import pretty.
From S2P Require Import Prelude F64 Platform Handler Market BookStream Signing.

Local Open Scope handler_scope.

(** ** Requests *)

Record Request : Type := {
  rq_method : string;
  rq_url : string;
  rq_headers : list (string * string);
  rq_body : option string;
}.
Definition http_get (url : string) : Request := {|
  rq_method := "GET"; rq_url := url; rq_headers := []; rq_body := None |}.
Record Response : Type := { rs_status : Z; rs_body : string }.
Definition status_success (r : Response) : bool := ((200 <=? rs_status r) && (rs_status r <? 300))%Z.
Definition status_server_error (r : Response) : bool := ((500 <=? rs_status r) && (rs_status r <? 600))%Z.

(** What the client did: a request, or a pause in milliseconds. *)
Inductive Event : Type := Sent (r : Request) | Slept (millis : Z).

(** [polymarket_core::Error], as far as the client makes it. *)
Inductive ClobError : Type :=
| EApi (message : string) (status : option Z)
| EHttp (message : string)
| EAuth (message : string)
| ESigning (message : string)
| EOrder (message : string)
| EConfig (message : string).

(** ** Data of the exchange *)

Record ApiCredentials : Type := { api_key : string; api_secret : string; api_passphrase : string }.
Definition credentials_from_env (env : string -> option string) : result ApiCredentials ClobError :=
  match env "POLY_API_KEY" with
  | None => Err (EConfig "POLY_API_KEY environment variable not set")
  | Some key =>
      match env "POLY_API_SECRET" with
      | None => Err (EConfig "POLY_API_SECRET environment variable not set")
      | Some secret =>
          match env "POLY_API_PASSPHRASE" with
          | None => Err (EConfig "POLY_API_PASSPHRASE environment variable not set")
          | Some passphrase =>
              Ok {| api_key := key; api_secret := secret; api_passphrase := passphrase |}
          end
      end
  end.

Inductive OrderType : Type := Gtc | Fok | Gtd.
Record BalanceAllowanceResponse : Type := { ba_balance : string; ba_allowance : string }.
Record PostOrderResponse : Type := {
  pr_order_id : string; pr_status : string; pr_transaction_hash : option string }.
Definition is_filled (r : PostOrderResponse) : bool :=
  let s := string_lower (pr_status r) in
  bool_decide (s = "matched") || bool_decide (s = "live") || bool_decide (s = "delayed").
Definition is_unfilled (r : PostOrderResponse) : bool :=
  let s := string_lower (pr_status r) in
  bool_decide (s = "unmatched") || bool_decide (s = "rejected").
Record OpenOrder : Type := {
  oo_id : string; oo_asset_id : string; oo_market : string; oo_side : string; oo_price : string;
  oo_size : string; oo_status : string; oo_created_at : option string }.

Record ClobTrade : Type := {
  ct_transaction_hash : string;
  ct_wallet_address : string;
  ct_side : string;
  ct_asset_id : string;
  ct_condition_id : option string;
  ct_size : f64;
  ct_price : f64;
  ct_timestamp : Z;
  ct_title : option string;
  ct_slug : option string;
  ct_outcome : option string;
}.
Record ActivityEntry : Type := {
  ae_transaction_hash : option string;
  ae_id : option string;
  ae_proxy_wallet : option string;
  ae_side : option string;
  ae_asset : option string;
  ae_condition_id : option string;
  ae_usdc_size : option f64;
  ae_size : option f64;
  ae_price : option f64;
  ae_timestamp : option Z;
  ae_created_at : option string;
  ae_activity_type : option string;
  ae_title : option string;
  ae_slug : option string;
  ae_outcome : option string;
}.

Record ClobToken : Type := {
  tk_token_id : string; tk_outcome : string; tk_price : option f64; tk_winner : option bool }.
Record ClobMarket : Type := {
  cm_condition_id : string;
  cm_question : string;
  cm_description : option string;
  cm_tokens : list ClobToken;
  cm_volume : option string;
  cm_liquidity : option string;
  cm_end_date : option string;
  cm_closed : bool;
  cm_archived : bool;
  cm_accepting_orders : bool;
  cm_enable_order_book : bool;
  cm_active : bool;
}.
Record MarketsResponse : Type := { mp_data : list ClobMarket; mp_next_cursor : option string }.
Record ClobOrderBook : Type := {
  cb_market : string; cb_asset_id : string; cb_bids : list ClobPriceLevel;
  cb_asks : list ClobPriceLevel; cb_timestamp : string }.

Section Data.
Context `{DO : DecimalOps} `{CO : ChronoOps} {TO : TimestampOps}.
(** [DateTime::parse_from_rfc3339(s).ok()?.timestamp()]. *)
Variable rfc3339_secs : string -> option Z.

Definition nonempty (o : option string) : option string :=
  s ← o; if bool_decide (s = "") then None else Some s.
Definition or_first {A} (o o' : option A) : option A := match o with Some a => Some a | None => o' end.
(** Shares: dollars over the price, if the dollars are given. *)
Definition activity_size (e : ActivityEntry) (price : f64) : f64 :=
  match ae_usdc_size e with
  | Some usdc => if f64_ltb f64_zero price then f64_div usdc price else f64_zero
  | None => default f64_zero (ae_size e)
  end.
Definition activity_timestamp (e : ActivityEntry) : Z :=
  match ae_timestamp e with
  | Some t => t
  | None => default 0%Z (s ← ae_created_at e; rfc3339_secs s)
  end.
Definition into_clob_trade (e : ActivityEntry) : option ClobTrade :=
  if negb (eq_ignore_case (default "" (ae_activity_type e)) "TRADE") then None
  else
    transaction_hash ← nonempty (or_first (ae_transaction_hash e) (ae_id e));
    wallet_address ← nonempty (ae_proxy_wallet e);
    side ← nonempty (ae_side e);
    asset_id ← nonempty (ae_asset e);
    let price := default f64_zero (ae_price e) in
    Some {|
      ct_transaction_hash := transaction_hash; ct_wallet_address := wallet_address;
      ct_side := side; ct_asset_id := asset_id; ct_condition_id := ae_condition_id e;
      ct_size := activity_size e price; ct_price := price; ct_timestamp := activity_timestamp e;
      ct_title := ae_title e; ct_slug := ae_slug e; ct_outcome := ae_outcome e |}.

Definition outcome_of_token (t : ClobToken) : Outcome := {|
  outcome_id := tk_token_id t; outcome_name := tk_outcome t; token_id := tk_token_id t;
  outcome_price := p ← tk_price t; dec_from_f64_retain p; winner := tk_winner t |}.
Definition market_of_clob (m : ClobMarket) : Market := {|
  mkt_id := cm_condition_id m; question := cm_question m; description := cm_description m;
  outcomes := outcome_of_token <$> cm_tokens m;
  volume := default ZERO (v ← cm_volume m; dec_parse v);
  liquidity := default ZERO (v ← cm_liquidity m; dec_parse v);
  end_date := s ← cm_end_date m; dt_parse s;
  resolved := cm_closed m || cm_archived m
              || (negb (cm_accepting_orders m) && negb (cm_enable_order_book m) && negb (cm_active m));
  resolution := None; category := None; tags := []; fees_enabled := false; fee_type := None |}.
Definition order_book_of_clob (now : datetime) (b : ClobOrderBook) : OrderBook := {|
  ob_market_id := cb_market b; ob_outcome_id := cb_asset_id b;
  ob_timestamp := default now (dt_parse (cb_timestamp b));
  bids := parse_level <$> cb_bids b; asks := parse_level <$> cb_asks b |}.
End Data.

(** ** Amounts of a market order *)

Section MarketOrder.
Context `{DO : DecimalOps} {FO : FixedOps}.

Definition COLLATERAL_DECIMALS : Z := 6.
Definition MARKET_ORDER_SIZE_SCALE : Z := 2.
Definition allowance_needs_refresh (allowance : string) : bool :=
  let trimmed := string_trim allowance in
  bool_decide (trimmed = "") || bool_decide (trimmed = "0") || bool_decide (trimmed = "0.0")
  || match dec_parse trimmed with Some value => (value <=? ZERO)%dec | None => false end.

Definition market_price_scale (price : dec) : Z := Z.min (Z.max (decimal_places price) 1) 4.
Definition market_amount_scale (price_scale : Z) : Z := Z.min (price_scale + 2) u32_max.
Definition market_fixed_u128 (value : dec) (scale : Z) : Z :=
  Z.abs (mantissa (trunc_with_scale (trunc_with_scale value scale) COLLATERAL_DECIMALS)).
(** To the scale of amounts, towards zero unless a part in 10^4 of its last
    digit rounds it up. *)
Definition round_amount (raw : dec) (amount_scale : Z) : dec :=
  if (amount_scale <? decimal_places raw)%Z then
    let up := round_dp_up raw (amount_scale + 4) in
    if (amount_scale <? decimal_places up)%Z then trunc_with_scale up amount_scale else up
  else raw.
(** The outer [None]: the division by a price that rounds to zero panics. *)
Definition calculate_market_order_amounts (side : OrderSide) (amount price : dec)
    : option (result (Z * Z) ClobError) :=
  if (amount <=? ZERO)%dec || (price <=? ZERO)%dec
  then Some (Err (EOrder "Market order amount and price must be positive"))
  else
    let price_scale := market_price_scale price in
    let amount_scale := market_amount_scale price_scale in
    let raw_price := trunc_with_scale price price_scale in
    let raw_maker := trunc_with_scale amount MARKET_ORDER_SIZE_SCALE in
    if (raw_maker <=? ZERO)%dec
    then Some (Err (EOrder (match side with
                            | Buy => "Market BUY amount rounds down to zero"
                            | Sell => "Market SELL amount rounds down to zero"
                            end)))
    else
      raw_taker ← match side with
                  | Buy => dec_div raw_maker raw_price
                  | Sell => Some (raw_maker * raw_price)%dec
                  end;
      Some (Ok (market_fixed_u128 raw_maker MARKET_ORDER_SIZE_SCALE,
                market_fixed_u128 (round_amount raw_taker amount_scale) amount_scale)).
End MarketOrder.

(** ** The client *)

(** The JSON of the requests and the answers, and [reqwest]'s texts. *)
Class ClobCodec `{DO : DecimalOps} `{CO : ChronoOps} : Type := {
  decode_markets : string -> option MarketsResponse;
  decode_market : string -> option ClobMarket;
  decode_book : string -> option ClobOrderBook;
  decode_trades : string -> option (list ClobTrade);
  decode_activity : string -> option (list ActivityEntry);
  (** The key, the secret and the passphrase. *)
  decode_credentials : string -> option ApiCredentials;
  decode_neg_risk : string -> option bool;
  (** [fee] and [fee_rate_bps] of an object. *)
  decode_fee : string -> option (option Z * option Z);
  decode_balance : string -> option BalanceAllowanceResponse;
  decode_post : string -> option PostOrderResponse;
  decode_open_orders : string -> option (list OpenOrder);
  (** A [PostOrderRequest] without [post_only]: order, type and owner. *)
  encode_post : SignedOrder -> OrderType -> string -> string;
  (** The number of a trimmed text, quoted or not, and [s.parse::<usize>().ok()]. *)
  parse_fee : string -> option Z;
  parse_usize : string -> option Z;
  rfc3339_secs : string -> option Z;
  show_status : Z -> string;
  json_error : string;
}.
(** base64 and HMAC. *)
Class L2Ops : Type := {
  decode_url_safe : string -> option (list Z);
  decode_url_safe_no_pad : string -> option (list Z);
  decode_standard : string -> option (list Z);
  encode_url_safe : list Z -> string;
  hmac_sha256 : list Z -> list Z -> list Z;
}.

Section Client.
Context `{DO : DecimalOps} {FO : FixedOps} `{CO : ChronoOps} {TO : TimestampOps} `{SO : SigningOps}
  {CC : ClobCodec} {L2 : L2Ops}.

Record AuthenticatedClobClient : Type := {
  base_url : string;
  ac_signer : OrderSigner;
  neg_risk_signer : OrderSigner;
  credentials : option ApiCredentials;
  neg_risk_cache : gmap string bool;
  fee_rate_cache : gmap string Z;
}.
Definition DEFAULT_BASE_URL : string := "https://clob.polymarket.com".
Definition auth_client_new (url : option string) (s : OrderSigner) : AuthenticatedClobClient := {|
  base_url := default DEFAULT_BASE_URL url; ac_signer := s; neg_risk_signer := to_neg_risk s;
  credentials := None; neg_risk_cache := ∅; fee_rate_cache := ∅ |}.
Definition set_credentials (c : ApiCredentials) (a : AuthenticatedClobClient) : AuthenticatedClobClient :=
  {| a with credentials := Some c |}.
Definition client_with_credentials (url : option string) (s : OrderSigner) (c : ApiCredentials)
    : AuthenticatedClobClient := set_credentials c (auth_client_new url s).
Definition has_credentials (a : AuthenticatedClobClient) : bool :=
  match credentials a with Some _ => true | None => false end.
Definition cache_neg_risk (token_id : string) (b : bool) (a : AuthenticatedClobClient)
    : AuthenticatedClobClient := {| a with neg_risk_cache := <[token_id := b]> (neg_risk_cache a) |}.
Definition cache_fee_rate (token_id : string) (fee : Z) (a : AuthenticatedClobClient)
    : AuthenticatedClobClient := {| a with fee_rate_cache := <[token_id := fee]> (fee_rate_cache a) |}.
Definition client_address (a : AuthenticatedClobClient) : string :=
  show_address (signer_address (ac_signer a)).

Record Exchange : Type := {
  (** What [send] gives; an error is the transport's. *)
  xc_answer : list Event -> Request -> result Response string;
  (** [SystemTime::now] in nanoseconds since the epoch, [Utc::now], and the
      number of the process. *)
  xc_nanos : list Event -> Z;
  xc_now : list Event -> datetime;
  xc_pid : Z;
}.
Variable x : Exchange.

Record ClobWorld : Type := { cw_client : AuthenticatedClobClient; cw_log : list Event }.
Definition log_event (e : Event) (w : ClobWorld) : ClobWorld :=
  {| cw_client := cw_client w; cw_log := cw_log w ++ [e] |}.
Definition on_client (f : AuthenticatedClobClient -> AuthenticatedClobClient) (w : ClobWorld) : ClobWorld :=
  {| cw_client := f (cw_client w); cw_log := cw_log w |}.

Definition Method (A : Type) : Type := handler ClobWorld (result A ClobError) (result A ClobError).

Definition try_send {R} (r : Request) : handler ClobWorld R (result Response string) := fun w =>
  Some (log_event (Sent r) w, Go (xc_answer x (cw_log w) r)).
(** [send().await?]. *)
Definition send {A} (r : Request) : handler ClobWorld (result A ClobError) Response :=
  let! o := try_send r in
  propagate (match o with Ok response => Ok response | Err e => Err (EHttp e) end).
(** [response.json().await?]. *)
Definition json {A B} (o : option B) : handler ClobWorld (result A ClobError) B :=
  propagate (match o with Some b => Ok b | None => Err (EHttp json_error) end).
Definition current_timestamp {R} : handler ClobWorld R Z := fun w =>
  Some (w, Go (xc_nanos x (cw_log w) / 1000000000)%Z).
Definition new_salt {R} : handler ClobWorld R Z := fun w =>
  Some (w, Go (rand_salt (xc_nanos x (cw_log w)) (xc_pid x))).
Definition sleep {R} (millis : Z) : handler ClobWorld R unit := modify (log_event (Slept millis)).
Definition the_client {R} : handler ClobWorld R AuthenticatedClobClient :=
  let! w := get_state in ret (cw_client w).

(** *** Public requests *)

Definition MAX_RETRIES : Z := 3.
Definition retryable (r : Response) : bool := (rs_status r =? 429)%Z || status_server_error r.
Definition retry_error (r : Response) : ClobError :=
  EApi ((if (rs_status r =? 429)%Z then "Rate limited" else "Server error") +:+ ": "
        +:+ show_status (rs_status r)) (Some (rs_status r)).
Definition back_off {R} (unit_millis attempt : Z) : handler ClobWorld R unit :=
  when (attempt + 1 <? MAX_RETRIES)%Z (sleep (unit_millis * 2 ^ attempt)%Z).
(** The attempts from [attempt] on. *)
Fixpoint retry_from (tries : nat) (attempt : Z) (last_error : option ClobError) (url : string)
    : Method Response :=
  match tries with
  | O => return_ (Err (default (EApi "Max retries exceeded" None) last_error))
  | S tries =>
      let! o := try_send (http_get url) in
      match o with
      | Ok response =>
          if status_success response then ret (Ok response)
          else if retryable response then
            back_off (if (rs_status response =? 429)%Z then 2000 else 500) attempt ;;
            retry_from tries (attempt + 1) (Some (retry_error response)) url
          else return_ (Err (EApi ("API error: " +:+ show_status (rs_status response))
                                  (Some (rs_status response))))
      | Err e => back_off 500 attempt ;; retry_from tries (attempt + 1) (Some (EHttp e)) url
      end
  end.
Definition get_with_retry (url : string) : Method Response :=
  retry_from (Z.to_nat MAX_RETRIES) 0 None url.

Definition markets_url (base : string) (cursor : option string) : string :=
  match cursor with
  | Some c => base +:+ "/markets?active=true&next_cursor=" +:+ c
  | None => base +:+ "/markets?active=true"
  end.
(** [None]: not done after [fuel] pages. *)
Fixpoint get_markets_from (fuel : nat) (limit : Z) (cursor : option string) (all : list Market)
    : Method (option (list Market)) :=
  match fuel with
  | O => ret (Ok None)
  | S fuel =>
      let! a := the_client in
      let! response := try_call (get_with_retry (markets_url (base_url a) cursor)) in
      let! page := json (decode_markets (rs_body response)) in
      let all := all ++ (market_of_clob <$> mp_data page) in
      match nonempty (mp_next_cursor page) with
      | Some c =>
          if (limit <? Z.of_nat (length all))%Z then ret (Ok (Some all))
          else get_markets_from fuel limit (Some c) all
      | None => ret (Ok (Some all))
      end
  end.
Definition market_limit (env : string -> option string) : Z :=
  default 200000%Z (env "CLOB_MARKET_LIMIT" ≫= parse_usize).
Definition get_markets (fuel : nat) (env : string -> option string) : Method (option (list Market)) :=
  get_markets_from fuel (market_limit env) None [].
Definition get_market_by_id (condition_id : string) : Method Market :=
  let! a := the_client in
  let! response := try_call (get_with_retry (base_url a +:+ "/markets/" +:+ condition_id)) in
  let! m := json (decode_market (rs_body response)) in
  ret (Ok (market_of_clob m)).
Definition get_order_book (token_id : string) : Method OrderBook :=
  let! a := the_client in
  let! response := try_call (get_with_retry (base_url a +:+ "/book?token_id=" +:+ token_id)) in
  let! b := json (decode_book (rs_body response)) in
  let! w := get_state in
  ret (Ok (order_book_of_clob (xc_now x (cw_log w)) b)).

(** The first 500 bytes of a text that does not decode, for the log; [None]: the
    cut panics inside of a character. *)
Definition preview (text : string) : option string :=
  if (500 <? String.length text)%nat then
    c ← String.get 500 text;
    if ((128 <=? N_of_ascii c) && (N_of_ascii c <? 192))%N then None
    else Some (String.substring 0 500 text)
  else Some text.
Definition DATA_API_URL : string := "https://data-api.polymarket.com".
Definition get_recent_trades (limit : Z) : Method (list ClobTrade) :=
  let! response := try_call (get_with_retry (DATA_API_URL +:+ "/trades?limit=" +:+ pretty limit)) in
  match decode_trades (rs_body response) with
  | Some trades => ret (Ok trades)
  | None => attempt (preview (rs_body response)) ;;
            return_ (Err (EApi ("Data API response parse error: " +:+ json_error) None))
  end.
Definition activity_url (wallet : string) (limit : Z) : string :=
  DATA_API_URL +:+ "/activity?user=" +:+ wallet +:+ "&limit=" +:+ pretty limit +:+ "&type=TRADE".
Definition get_wallet_activity (wallet : string) (limit : Z) : Method (list ClobTrade) :=
  let! response := try_call (get_with_retry (activity_url wallet limit)) in
  match decode_activity (rs_body response) with
  | Some entries => ret (Ok (omap (into_clob_trade rfc3339_secs) entries))
  | None => attempt (preview (rs_body response)) ;;
            return_ (Err (EApi ("Wallet activity parse error: " +:+ json_error) None))
  end.
Fixpoint activity_pages (pages : nat) (wallet : string) (limit offset : Z) (all : list ClobTrade)
    : Method (list ClobTrade) :=
  match pages with
  | O => ret (Ok all)
  | S pages =>
      let! response := try_call (get_with_retry
        (activity_url wallet limit +:+ "&offset=" +:+ pretty offset)) in
      match decode_activity (rs_body response) with
      | Some entries =>
          let trades := omap (into_clob_trade rfc3339_secs) entries in
          if (Z.of_nat (length trades) <? limit)%Z then ret (Ok (all ++ trades))
          else activity_pages pages wallet limit (u64_add offset limit) (all ++ trades)
      | None => ret (Ok all)
      end
  end.
Definition get_wallet_activity_paginated (wallet : string) (limit : Z) (max_pages : nat)
    : Method (list ClobTrade) := activity_pages max_pages wallet limit 0 [].

(** *** Credentials *)

(** The signed request for an API key: [GET] derives one, [POST] creates one. *)
Definition api_key_request (a : AuthenticatedClobClient) (http_method path signature : string)
    (timestamp nonce : Z) : Request := {|
  rq_method := http_method; rq_url := base_url a +:+ path;
  rq_headers := [("POLY_ADDRESS", client_address a); ("POLY_SIGNATURE", signature);
                 ("POLY_TIMESTAMP", pretty timestamp); ("POLY_NONCE", pretty nonce)];
  rq_body := None |}.
Definition refused {A} (what : string) (r : Response) : result A ClobError :=
  Err (EApi (what +:+ ": " +:+ pretty (rs_status r) +:+ " - " +:+ rs_body r) (Some (rs_status r))).
(** The answer, unless its status is an error. *)
Definition accepted {A} (what : string) (r : Response) : handler ClobWorld (result A ClobError) unit :=
  when (negb (status_success r)) (return_ (refused what r)).
Definition request_api_key (http_method path what : string) : Method ApiCredentials :=
  let! a := the_client in
  let! timestamp := current_timestamp in
  let nonce := 0%Z in
  let! signature := propagate
    (match sign_clob_auth_message (ac_signer a) timestamp nonce with
     | Ok signature => Ok signature
     | Err e => Err (ESigning ("Failed to sign CLOB auth message: " +:+ e))
     end) in
  let! response := send (api_key_request a http_method path signature timestamp nonce) in
  accepted what response ;;
  let! c := json (decode_credentials (rs_body response)) in
  modify (on_client (set_credentials c)) ;;
  ret (Ok c).
Definition derive_api_key : Method ApiCredentials :=
  request_api_key "GET" "/auth/derive-api-key" "Failed to derive API key".
Definition create_api_key : Method ApiCredentials :=
  request_api_key "POST" "/auth/api-key" "Failed to create API key".
Definition create_or_derive_api_key : Method ApiCredentials :=
  let! r := call create_api_key in
  match r with Ok c => ret (Ok c) | Err _ => derive_api_key end.

(** *** What is asked about a token *)

Definition is_neg_risk (token_id : string) : Method bool :=
  let! a := the_client in
  match neg_risk_cache a !! token_id with
  | Some cached => ret (Ok cached)
  | None =>
      let! response := send (http_get (base_url a +:+ "/neg-risk?token_id=" +:+ token_id)) in
      if negb (status_success response) then ret (Ok true)
      else
        let! neg_risk := json (decode_neg_risk (rs_body response)) in
        modify (on_client (cache_neg_risk token_id neg_risk)) ;;
        ret (Ok neg_risk)
  end.
(** The fee an answer states: 0, if it states none. *)
Definition fee_of (text : string) : Z :=
  match decode_fee text with
  | Some (fee, fee_rate_bps) => default 0%Z (or_first fee_rate_bps fee)
  | None => default 0%Z (parse_fee (string_trim text))
  end.
Definition get_fee_rate_bps (token_id : string) : Method Z :=
  let! a := the_client in
  match fee_rate_cache a !! token_id with
  | Some cached => ret (Ok cached)
  | None =>
      let! response := send (http_get (base_url a +:+ "/fee-rate?token_id=" +:+ token_id)) in
      if negb (status_success response) then ret (Ok 0%Z)
      else
        let fee := fee_of (rs_body response) in
        modify (on_client (cache_fee_rate token_id fee)) ;;
        ret (Ok fee)
  end.

(** *** Signed requests *)

Definition sign_l2_request (c : ApiCredentials) (http_method path timestamp : string)
    (body : option string) : result string ClobError :=
  let message := timestamp +:+ http_method +:+ path +:+ default "" body in
  match or_first (decode_url_safe (api_secret c))
          (or_first (decode_url_safe_no_pad (api_secret c)) (decode_standard (api_secret c))) with
  | None => Err (ESigning "Invalid API secret encoding")
  | Some secret => Ok (encode_url_safe (hmac_sha256 secret (as_bytes message)))
  end.
Definition l2_headers (a : AuthenticatedClobClient) (c : ApiCredentials) (signature timestamp : string)
    : list (string * string) :=
  [("POLY_ADDRESS", client_address a); ("POLY_SIGNATURE", signature); ("POLY_TIMESTAMP", timestamp);
   ("POLY_API_KEY", api_key c); ("POLY_PASSPHRASE", api_passphrase c)].
(** A request to [path], with the query apart, which is not signed. *)
Definition l2_send {A} (missing : string) (http_method path query : string)
    (make_body : ApiCredentials -> option string)
    : handler ClobWorld (result A ClobError) Response :=
  let! a := the_client in
  let! c := propagate (match credentials a with Some c => Ok c | None => Err (EAuth missing) end) in
  let! now := current_timestamp in
  let timestamp := pretty now in
  let body := make_body c in
  let! signature := propagate (sign_l2_request c http_method path timestamp body) in
  send {| rq_method := http_method; rq_url := base_url a +:+ path +:+ query;
          rq_headers := l2_headers a c signature timestamp ++
            match body with Some _ => [("Content-Type", "application/json")] | None => [] end;
          rq_body := body |}.
Definition NO_CREDENTIALS : string := "API credentials not set".
Definition CREDENTIALS_FIRST : string := "API credentials not set - call derive_api_key() first".

Definition asset_query (asset_type : string) (token_id : option string) : string :=
  "?asset_type=" +:+ asset_type +:+ "&signature_type=0"
  +:+ match token_id with Some t => "&token_id=" +:+ t | None => "" end.
Definition get_balance_allowance (token_id : option string) (asset_type : string)
    : Method BalanceAllowanceResponse :=
  let! response := l2_send NO_CREDENTIALS "GET" "/balance-allowance"
                     (asset_query asset_type token_id) (fun _ => None) in
  accepted "Failed to get balance-allowance" response ;;
  let! b := json (decode_balance (rs_body response)) in
  ret (Ok b).
Definition update_balance_allowance_for_token (asset_type : string) (token_id : option string)
    : Method unit :=
  l2_send NO_CREDENTIALS "GET" "/balance-allowance/update" (asset_query asset_type token_id)
    (fun _ => None) ;;
  ret (Ok tt).
Definition update_balance_allowance (asset_type : string) : Method unit :=
  update_balance_allowance_for_token asset_type None.
Definition log_and_refresh_collateral_allowance {R} : handler ClobWorld R unit :=
  let! b := call (get_balance_allowance None "COLLATERAL") in
  match b with
  | Ok b =>
      if allowance_needs_refresh (ba_allowance b) then
        let! u := call (update_balance_allowance "COLLATERAL") in
        match u with
        | Ok _ => call (get_balance_allowance None "COLLATERAL") ;; ret tt
        | Err _ => ret tt
        end
      else ret tt
  | Err _ => ret tt
  end.

(** [r.unwrap_or(default)] of a method. *)
Definition or_default {A R} (d : A) (m : Method A) : handler ClobWorld R A :=
  let! r := call m in ret (match r with Ok a => a | Err _ => d end).
Definition signer_for (a : AuthenticatedClobClient) (neg_risk : bool) : OrderSigner :=
  if neg_risk then neg_risk_signer a else ac_signer a.
Definition signed (s : OrderSigner) (o : OrderData) : Method SignedOrder :=
  let! r := attempt (sign_order s o) in
  ret (match r with
       | Ok signed_order => Ok signed_order
       | Err e => Err (ESigning ("Failed to sign order: " +:+ e))
       end).
Definition create_order (token_id : string) (side : OrderSide) (price size : dec)
    (order_type : OrderType) : Method SignedOrder :=
  log_and_refresh_collateral_allowance ;;
  let! neg_risk := or_default true (is_neg_risk token_id) in
  let! fee_rate := or_default 0%Z (get_fee_rate_bps token_id) in
  let! a := the_client in
  let signer := signer_for a neg_risk in
  let! now := current_timestamp in
  let! salt := new_salt in
  let builder := with_fee_rate_bps fee_rate (with_size size (with_order_price price (with_side side
                   (token_id_str token_id (order_builder signer))))) in
  let builder := match order_type with
                 | Gtd => expires_in now 3600 builder
                 | _ => expires_at 0 builder
                 end in
  match build salt builder with
  | None => return_ (Err (EOrder "Failed to build order - missing required fields"))
  | Some order => signed signer order
  end.

Definition set_expiration (expiration : Z) (o : OrderData) : OrderData :=
  {| o with od_expiration := expiration |}.
Definition create_market_order (token_id : string) (side : OrderSide) (price amount : dec)
    (order_type : OrderType) : Method SignedOrder :=
  log_and_refresh_collateral_allowance ;;
  if (amount <=? ZERO)%dec then return_ (Err (EOrder "Market order amount must be positive"))
  else if (price <=? ZERO)%dec then return_ (Err (EOrder "Market order price must be positive"))
  else
    let! neg_risk := or_default true (is_neg_risk token_id) in
    let! a := the_client in
    let signer := signer_for a neg_risk in
    let! fee_rate := or_default 0%Z (get_fee_rate_bps token_id) in
    let! amounts := attempt (calculate_market_order_amounts side amount price) in
    let! amounts := propagate amounts in
    let! token := propagate (match parse_u256 token_id with
                             | Some t => Ok t
                             | None => Err (EOrder ("Invalid token id: " +:+ token_id))
                             end) in
    let! salt := new_salt in
    let! now := current_timestamp in
    let order := order_new salt (signer_address signer) token side (fst amounts) (snd amounts) 0 in
    let expiration := match order_type with Gtd => u64_add now 3600 | _ => 0%Z end in
    signed signer (set_expiration expiration (set_order_fee fee_rate order)).

Definition post_order (signed_order : SignedOrder) (order_type : OrderType) : Method PostOrderResponse :=
  let! response := l2_send CREDENTIALS_FIRST "POST" "/order" ""
                     (fun c => Some (encode_post signed_order order_type (api_key c))) in
  accepted "Failed to post order" response ;;
  let! r := json (decode_post (rs_body response)) in
  ret (Ok r).
Definition cancel_order (order_id : string) : Method unit :=
  let! response := l2_send CREDENTIALS_FIRST "DELETE" ("/order/" +:+ order_id) "" (fun _ => None) in
  accepted "Failed to cancel order" response ;;
  ret (Ok tt).
Definition get_open_orders (market : option string) : Method (list OpenOrder) :=
  let query := match market with Some m => "?market=" +:+ m | None => "" end in
  let! response := l2_send CREDENTIALS_FIRST "GET" "/orders" query (fun _ => None) in
  accepted "Failed to get open orders" response ;;
  let! l := json (decode_open_orders (rs_body response)) in
  ret (Ok l).
Definition cancel_all_orders : Method unit :=
  let! response := l2_send CREDENTIALS_FIRST "DELETE" "/orders" "" (fun _ => None) in
  accepted "Failed to cancel all orders" response ;;
  ret (Ok tt).
End Client.
