(* ===== verification/OrderAmountsFacts.v ===== *)
(** * Properties of the amounts of orders

    What a limit order and a market order offer and ask in base units, against
    the price and the size they are made from. *)

From Stdlib Require Import QArith Qround Lqa.
From S2P Require Import Prelude F64 Platform Signing SigningFacts Handler ClobClient.
Local Open Scope Q_scope.

(** ** Decimals on a grid *)

Section Fixed.
Context `{DO : DecimalOps} {FO : FixedOps} {DS : DecimalSpec} {FX : FixedSpec}.

Lemma pow10_pos s : (0 <= s)%Z -> 0 < pow10 s.
Proof. intros. unfold pow10. change 0 with (inject_Z 0). rewrite <- Zlt_Qlt. by apply Z.pow_pos_nonneg. Qed.
Lemma pow10_add s t : (0 <= s)%Z -> (0 <= t)%Z -> pow10 (s + t) == pow10 s * pow10 t.
Proof. intros. unfold pow10. by rewrite Z.pow_add_r, inject_Z_mult. Qed.
Lemma pow10_inv_le s : (0 <= s)%Z -> 1 / pow10 s <= 1.
Proof.
  intros Hs. apply Qle_shift_div_r; [by apply pow10_pos|]. rewrite Qmult_1_l. change 1 with (inject_Z 1).
  unfold pow10. rewrite <- Zle_Qle. assert (0 < 10 ^ s)%Z by (by apply Z.pow_pos_nonneg). lia.
Qed.
Lemma pow10_millionth s : (0 <= s)%Z -> 1 / pow10 (s + 6) * pow10 6 == 1 / pow10 s.
Proof.
  intros Hs. rewrite pow10_add by lia. pose proof (pow10_pos s Hs). pose proof (pow10_pos 6 ltac:(done)).
  field. lra.
Qed.
Lemma Qtrunc_floor q : 0 <= q -> Qtrunc q = Qfloor q.
Proof. intros Hq. unfold Qtrunc. apply Qle_bool_iff in Hq. by rewrite Hq. Qed.
Lemma Qfloor_integral q n : q == inject_Z n -> Qfloor q = n.
Proof. intros ->. apply Qfloor_Z. Qed.

(** A value on the grid of a scale. *)
Definition on_grid (s : Z) (q : Q) : Prop := exists n, q == inject_Z n / pow10 s.
#[export] Instance on_grid_proper s : Proper (Qeq ==> iff) (on_grid s).
Proof. intros q q' E. unfold on_grid. by setoid_rewrite E. Qed.
Lemma grid_mul s q n : (0 <= s)%Z -> q == inject_Z n / pow10 s -> q * pow10 s == inject_Z n.
Proof. intros Hs ->. pose proof (pow10_pos s Hs). field. lra. Qed.
Lemma grid_value s n : (0 <= s <= 28)%Z -> dval (dec_new n s) == inject_Z n / pow10 s.
Proof.
  intros Hs. rewrite dval_new by done. unfold pow10, Qeq, Qdiv, Qinv, Qmult, inject_Z. simpl.
  assert (0 < 10 ^ s)%Z by (apply Z.pow_pos_nonneg; lia).
  destruct (10 ^ s)%Z eqn:E; simpl; lia.
Qed.

Lemma floor_grid s q : (0 <= s)%Z ->
  inject_Z (Qfloor (q * pow10 s)) / pow10 s <= q /\ q < inject_Z (Qfloor (q * pow10 s)) / pow10 s + 1 / pow10 s.
Proof.
  intros Hs. pose proof (pow10_pos s Hs) as Hp.
  pose proof (Qfloor_le (q * pow10 s)). pose proof (Qlt_floor (q * pow10 s)) as H1.
  rewrite inject_Z_plus in H1. split.
  - apply Qle_shift_div_r; lra.
  - setoid_replace (inject_Z (Qfloor (q * pow10 s)) / pow10 s + 1 / pow10 s)
      with ((inject_Z (Qfloor (q * pow10 s)) + 1) / pow10 s) using relation Qeq by (field; lra).
    apply Qlt_shift_div_l; [done|]. exact H1.
Qed.
Lemma ceiling_grid s q : (0 <= s)%Z ->
  q <= inject_Z (Qceiling (q * pow10 s)) / pow10 s /\
  inject_Z (Qceiling (q * pow10 s)) / pow10 s < q + 1 / pow10 s.
Proof.
  intros Hs. pose proof (pow10_pos s Hs) as Hp.
  pose proof (Qle_ceiling (q * pow10 s)). pose proof (Qceiling_lt (q * pow10 s)) as H1.
  unfold Z.sub in H1. rewrite inject_Z_plus in H1. split.
  - apply Qle_shift_div_l; done.
  - apply Qlt_shift_div_r; [done|].
    setoid_replace ((q + 1 / pow10 s) * pow10 s) with (q * pow10 s + 1) using relation Qeq by (field; lra).
    change (inject_Z (-(1))) with (-(1)) in H1. lra.
Qed.

Lemma grid_lt s n m : (0 <= s)%Z -> inject_Z n / pow10 s < inject_Z m / pow10 s <-> (n < m)%Z.
Proof.
  intros Hs. pose proof (pow10_pos s Hs) as Hp. rewrite Zlt_Qlt. apply Qmult_lt_r.
  by apply Qinv_lt_0_compat.
Qed.
Lemma grid_le s n m : (0 <= s)%Z -> inject_Z n / pow10 s <= inject_Z m / pow10 s <-> (n <= m)%Z.
Proof.
  intros Hs. pose proof (pow10_pos s Hs) as Hp. rewrite Zle_Qle. apply Qmult_le_r.
  by apply Qinv_lt_0_compat.
Qed.
Lemma grid_zero s : 0 == inject_Z 0 / pow10 s.
Proof. unfold Qdiv. by rewrite Qmult_0_l. Qed.

(** Truncation and rounding up of a value that is not negative. *)
Lemma trunc_value a s : (0 <= s < 28)%Z -> 0 <= dval a ->
  dval (trunc_with_scale a s) == inject_Z (Qfloor (dval a * pow10 s)) / pow10 s.
Proof.
  intros Hs Ha. rewrite dval_trunc by done. rewrite Qtrunc_floor; [done|].
  assert (0 < pow10 s) by (apply pow10_pos; lia). nra.
Qed.
Lemma trunc_bounds a s : (0 <= s < 28)%Z -> 0 <= dval a ->
  0 <= dval (trunc_with_scale a s) /\ dval (trunc_with_scale a s) <= dval a /\
  dval a < dval (trunc_with_scale a s) + 1 / pow10 s.
Proof.
  intros Hs Ha. rewrite trunc_value by done. assert (Hp : 0 < pow10 s) by (apply pow10_pos; lia).
  destruct (floor_grid s (dval a)) as [H1 H2]; [lia|]. split; [|done].
  apply Qle_shift_div_l; [done|]. rewrite Qmult_0_l. change 0 with (inject_Z 0). rewrite <- Zle_Qle.
  change 0%Z with (Qfloor 0). apply Qfloor_resp_le. nra.
Qed.
Lemma trunc_on_grid a s : (0 <= s < 28)%Z -> on_grid s (dval (trunc_with_scale a s)).
Proof. intros Hs. eexists. by apply dval_trunc. Qed.
Lemma on_grid_finer s t q : (0 <= s <= t)%Z -> on_grid s q -> on_grid t q.
Proof.
  intros Hs [n Hq]. exists (n * 10 ^ (t - s))%Z. rewrite Hq, inject_Z_mult.
  fold (pow10 (t - s)). replace t with (s + (t - s))%Z at 2 by lia. rewrite pow10_add by lia.
  assert (0 < pow10 s) by (apply pow10_pos; lia). assert (0 < pow10 (t - s)) by (apply pow10_pos; lia).
  field. split; lra.
Qed.
Lemma trunc_id a s : (0 <= s < 28)%Z -> 0 <= dval a -> on_grid s (dval a) ->
  dval (trunc_with_scale a s) == dval a.
Proof.
  intros Hs Ha [n Hn]. rewrite trunc_value by done. rewrite (Qfloor_integral _ n); [by rewrite Hn|].
  apply grid_mul; [lia|done].
Qed.

(** [mantissa] of the two truncations, in millionths. *)
Lemma fixed_value a s : (0 <= s <= 6)%Z -> 0 <= dval a -> dval a * pow10 6 < inject_Z (2 ^ 96) ->
  inject_Z (Z.abs (mantissa (trunc_with_scale (trunc_with_scale a s) 6)))
    == dval (trunc_with_scale a s) * pow10 6.
Proof.
  intros Hs Ha Hlim. destruct (trunc_bounds a s) as (H0 & H1 & _); [lia|done|].
  destruct (on_grid_finer s 6 (dval (trunc_with_scale a s))) as [n Hn]; [lia|apply trunc_on_grid; lia|].
  apply (grid_mul 6) in Hn; [|done]. assert (Hp : 0 < pow10 6) by (by apply pow10_pos).
  assert (Hpos : 0 <= dval (trunc_with_scale a s) * pow10 6) by nra.
  assert (Ht : Qtrunc (dval (trunc_with_scale a s) * pow10 6) = n)
    by (rewrite Qtrunc_floor by done; by apply Qfloor_integral).
  rewrite Hn in Hpos. change 0 with (inject_Z 0) in Hpos. rewrite <- Zle_Qle in Hpos.
  assert (Hn96 : (n < 2 ^ 96)%Z).
  { rewrite Zlt_Qlt, <- Hn. nra. }
  rewrite mantissa_trunc; [|done|rewrite Ht; lia]. rewrite Ht, Z.abs_eq by done. by rewrite Hn.
Qed.

Lemma round_amount_spec e raw s : (0 <= s <= 20)%Z -> 0 <= e ->
  (forall c, e <= dval c -> dval raw <= dval c) -> (forall c, dval c <= e -> dval c <= dval raw) ->
  on_grid s (dval (round_amount raw s)) /\ 0 <= dval (round_amount raw s) /\
  dval (round_amount raw s) < e + 1 / pow10 (s + 4) /\ e < dval (round_amount raw s) + 1 / pow10 s.
Proof.
  intros Hs He Hup Hlow.
  set (top := Qceiling (e * pow10 (s + 4))). set (bot := Qfloor (e * pow10 s)).
  destruct (ceiling_grid (s + 4) e) as [Ht1 Ht2]; [lia|]. destruct (floor_grid s e) as [Hb1 Hb2]; [lia|].
  fold top in Ht1, Ht2. fold bot in Hb1, Hb2.
  assert (Hp : 0 < pow10 s) by (apply pow10_pos; lia).
  assert (Hp4 : 0 < pow10 (s + 4)) by (apply pow10_pos; lia).
  assert (Hr1 : dval raw <= inject_Z top / pow10 (s + 4)).
  { rewrite <- grid_value by lia. apply Hup. by rewrite grid_value by lia. }
  assert (Hr2 : inject_Z bot / pow10 s <= dval raw).
  { rewrite <- grid_value by lia. apply Hlow. by rewrite grid_value by lia. }
  assert (Hbot : 0 <= inject_Z bot / pow10 s).
  { apply Qle_shift_div_l; [done|]. rewrite Qmult_0_l. change 0 with (inject_Z 0). rewrite <- Zle_Qle.
    change 0%Z with (Qfloor 0). apply Qfloor_resp_le. nra. }
  assert (Hgoal : forall v, on_grid s v -> inject_Z bot / pow10 s <= v -> v <= inject_Z top / pow10 (s + 4) ->
    on_grid s v /\ 0 <= v /\ v < e + 1 / pow10 (s + 4) /\ e < v + 1 / pow10 s) by (intros; split_and!; [done|lra..]).
  unfold round_amount. destruct (s <? decimal_places raw)%Z eqn:Hd; [|apply Hgoal; [|done..]].
  2: { apply Z.ltb_ge in Hd. apply decimal_places_least in Hd; [exact Hd|lia]. }
  set (up := round_dp_up raw (s + 4)).
  assert (Hup1 : dval up <= inject_Z top / pow10 (s + 4)).
  { unfold up. rewrite dval_round_up by lia. apply Qle_shift_div_l; [done|].
    setoid_replace (inject_Z (Qceiling (dval raw * pow10 (s + 4))) / pow10 (s + 4) * pow10 (s + 4))
      with (inject_Z (Qceiling (dval raw * pow10 (s + 4)))) using relation Qeq by (field; lra).
    rewrite <- Zle_Qle, <- (Qceiling_Z top). apply Qceiling_resp_le.
    setoid_replace (inject_Z top) with (inject_Z top / pow10 (s + 4) * pow10 (s + 4)) using relation Qeq by (field; lra). nra. }
  assert (Hup2 : dval raw <= dval up)
    by (unfold up; rewrite dval_round_up by lia; apply ceiling_grid; lia).
  destruct (s <? decimal_places up)%Z eqn:Hd'.
  - apply Hgoal; [apply trunc_on_grid; lia| |].
    + rewrite trunc_value by (lia || lra). apply Qle_shift_div_l; [done|].
      setoid_replace (inject_Z bot / pow10 s * pow10 s) with (inject_Z bot) using relation Qeq by (field; lra).
      rewrite <- Zle_Qle, <- (Qfloor_Z bot). apply Qfloor_resp_le.
      setoid_replace (inject_Z bot) with (inject_Z bot / pow10 s * pow10 s) using relation Qeq by (field; lra). nra.
    + destruct (trunc_bounds up s) as (_ & H & _); [lia|lra|lra].
  - apply Hgoal; [|lra..]. apply Z.ltb_ge in Hd'. apply decimal_places_least in Hd'; [exact Hd'|lia].
Qed.

(** ** The theorems *)

(** The token and the cost part of the amounts. *)
Definition token_part (side : OrderSide) (amounts : Z * Z) : Z :=
  match side with Buy => snd amounts | Sell => fst amounts end.
Definition cost_part (side : OrderSide) (amounts : Z * Z) : Z :=
  match side with Buy => fst amounts | Sell => snd amounts end.

(** An amount in millionths: within a unit of the scale below the exact value. *)
Definition just_below (amount : Z) (exact : Q) (s : Z) : Prop :=
  on_grid s (inject_Z amount / pow10 6) /\
  inject_Z amount <= exact * pow10 6 < inject_Z amount + pow10 (6 - s).

Lemma fixed_just_below a s : (0 <= s <= 6)%Z -> 0 <= dval a -> dval a * pow10 6 < inject_Z (2 ^ 96) ->
  just_below (to_fixed_u128 a s) (dval a) s.
Proof.
  intros Hs Ha Hlim. assert (Hp : 0 < pow10 6) by (by apply pow10_pos).
  assert (H6 : 0 < pow10 s) by (apply pow10_pos; lia).
  pose proof (fixed_value a s Hs Ha Hlim) as E.
  unfold just_below, to_fixed_u128, USDC_DECIMALS. rewrite E. split.
  - destruct (trunc_on_grid a s) as [n Hn]; [lia|]. exists n. rewrite <- Hn. field. lra.
  - destruct (trunc_bounds a s) as (_ & H1 & H2); [lia|done|].
    split; [nra|]. replace 6%Z with ((6 - s) + s)%Z at 1 by lia.
    replace 6%Z with ((6 - s) + s)%Z at 2 by lia. rewrite pow10_add by lia.
    assert (0 < pow10 (6 - s)) by (apply pow10_pos; lia).
    setoid_replace (dval (trunc_with_scale a s) * (pow10 (6 - s) * pow10 s) + pow10 (6 - s))
      with ((dval (trunc_with_scale a s) + 1 / pow10 s) * (pow10 (6 - s) * pow10 s))
      using relation Qeq by (field; lra).
    apply Qmult_lt_compat_r; [nra|done].
Qed.
Lemma fixed_exact a s : (0 <= s <= 6)%Z -> 0 <= dval a -> dval a * pow10 6 < inject_Z (2 ^ 96) ->
  on_grid s (dval a) -> inject_Z (to_fixed_u128 a s) == dval a * pow10 6.
Proof.
  intros Hs Ha Hlim Hg. unfold to_fixed_u128, USDC_DECIMALS. rewrite fixed_value by done.
  by rewrite trunc_id by (lia || done).
Qed.

(** The amounts of a limit order, in millionths: the tokens are the size cut
    to hundredths, the cost is the product of size and price cut to
    ten-thousandths.  Where neither cuts anything off, cost and tokens are at
    exactly the price asked; the cost is cut on its own, though, so that a size
    with more than two decimals pays for the tokens it loses. *)
Theorem limit_order_amounts {EX : DecimalExact} side price size :
  0 <= dval price -> 0 <= dval size ->
  dval size * pow10 6 < inject_Z (2 ^ 96) -> dval size * dval price * pow10 6 < inject_Z (2 ^ 96) ->
  let amounts := calculate_amounts side price size in
  just_below (token_part side amounts) (dval size) 2 /\
  just_below (cost_part side amounts) (dval size * dval price) 4 /\
  (on_grid 2 (dval size) -> on_grid 4 (dval size * dval price) ->
   inject_Z (cost_part side amounts) == dval price * inject_Z (token_part side amounts)) /\
  (~ on_grid 2 (dval size) -> on_grid 4 (dval size * dval price) -> 0 < dval price ->
   dval price * inject_Z (token_part side amounts) < inject_Z (cost_part side amounts)).
Proof.
  intros Hp Hs Hlim Hlim'.
  assert (Hc : dval (size * price)%dec == dval size * dval price) by apply dval_mul.
  assert (Hc0 : 0 <= dval (size * price)%dec) by (rewrite Hc; nra).
  assert (Hclim : dval (size * price)%dec * pow10 6 < inject_Z (2 ^ 96)) by (by rewrite Hc).
  assert (Ht : token_part side (calculate_amounts side price size) = to_fixed_u128 size 2) by (by destruct side).
  assert (Hk : cost_part side (calculate_amounts side price size) = to_fixed_u128 (size * price)%dec 4)
    by (by destruct side).
  simpl. rewrite Ht, Hk. pose proof (fixed_just_below size 2 ltac:(lia) Hs Hlim) as Jt.
  pose proof (fixed_just_below (size * price)%dec 4 ltac:(lia) Hc0 Hclim) as Jc.
  split; [done|]. split.
  { unfold just_below in *. rewrite Hc in Jc. exact Jc. }
  assert (Hex : on_grid 4 (dval size * dval price) ->
    inject_Z (to_fixed_u128 (size * price)%dec 4) == dval size * dval price * pow10 6).
  { intros Hg. rewrite fixed_exact; [by rewrite Hc|lia|done..|]. destruct Hg as [n Hn]. exists n. by rewrite Hc. }
  split.
  - intros Hg Hg'. rewrite (Hex Hg'), (fixed_exact size 2) by (lia || done). ring.
  - intros Hg Hg' Hpos. rewrite (Hex Hg'). destruct Jt as [[n Hn] [H1 _]].
    assert (Hp6 : 0 < pow10 6) by (by apply pow10_pos).
    apply Qle_lteq in H1 as [H1|H1]; [nra|]. exfalso. apply Hg. exists n. rewrite <- Hn, H1. field. lra.
Qed.

(** *** Market orders *)

Lemma market_price_scale_range price : (1 <= market_price_scale price <= 4)%Z.
Proof. unfold market_price_scale. lia. Qed.
Lemma market_amount_scale_eq price :
  market_amount_scale (market_price_scale price) = (market_price_scale price + 2)%Z.
Proof. unfold market_amount_scale, u32_max. pose proof (market_price_scale_range price). lia. Qed.
(** The price of the order is the one asked, unless that has more than four
    decimals. *)
Lemma raw_price_spec price : 0 <= dval price ->
  let s := market_price_scale price in let p := dval (trunc_with_scale price s) in
  0 <= p /\ p <= dval price /\ dval price < p + 1 / pow10 s /\
  ((decimal_places price <= 4)%Z -> p == dval price).
Proof.
  intros Hp s p. pose proof (market_price_scale_range price) as Hs. fold s in Hs.
  destruct (trunc_bounds price s) as (H1 & H2 & H3); [lia|done|]. split; [done|]. split; [done|].
  split; [done|]. intros Hd. apply trunc_id; [lia|done|]. apply decimal_places_least; [lia|].
  unfold s, market_price_scale. lia.
Qed.
Lemma raw_price_zero price : 0 < dval price ->
  dval (trunc_with_scale price (market_price_scale price)) == 0 <-> dval price < 1 / pow10 4.
Proof.
  intros Hp. pose proof (market_price_scale_range price) as Hs.
  destruct (raw_price_spec price) as (H1 & H2 & H3 & H4); [lra|].
  destruct (decide (decimal_places price <= 4)%Z) as [Hd|Hd].
  - rewrite (H4 Hd). split; [lra|]. intros Hlt. exfalso.
    apply decimal_places_least in Hd as [n Hn]; [|lia]. rewrite Hn in Hp, Hlt.
    rewrite (grid_zero 4), grid_lt in Hp by done. change 1 with (inject_Z 1) in Hlt.
    rewrite grid_lt in Hlt by done. lia.
  - assert (Es : market_price_scale price = 4%Z) by (unfold market_price_scale; lia). rewrite Es in *.
    split; [intros E; rewrite E in H3; lra|]. intros Hlt. rewrite trunc_value by (lia || lra).
    assert (Hq : 0 < pow10 4) by (by apply pow10_pos).
    assert (Hf : Qfloor (dval price * pow10 4) = 0%Z).
    { apply Z.le_antisymm.
      - apply Z.lt_succ_r. rewrite Zlt_Qlt. eapply Qle_lt_trans; [apply Qfloor_le|].
        assert (E : 1 / pow10 4 * pow10 4 == 1) by (field; lra).
        change (inject_Z (Z.succ 0)) with 1. nra.
      - change 0%Z with (Qfloor 0). apply Qfloor_resp_le. nra. }
    rewrite Hf. unfold Qdiv. apply Qmult_0_l.
Qed.
Lemma raw_maker_positive amount : 0 < dval amount ->
  0 < dval (trunc_with_scale amount MARKET_ORDER_SIZE_SCALE) <-> 1 / pow10 2 <= dval amount.
Proof.
  intros Ha. assert (Hq : 0 < pow10 2) by (by apply pow10_pos).
  destruct (trunc_bounds amount 2) as (H1 & H2 & H3); [done|lra|].
  unfold MARKET_ORDER_SIZE_SCALE. split; intros H.
  - destruct (trunc_on_grid amount 2) as [n Hn]; [done|]. rewrite Hn in H, H2.
    rewrite (grid_zero 2), grid_lt in H by done. eapply Qle_trans; [|exact H2].
    change 1 with (inject_Z 1). rewrite grid_le by done. lia.
  - rewrite trunc_value by (lia || lra). rewrite (grid_zero 2), grid_lt by done.
    apply Z.lt_le_trans with 1%Z; [done|].
    change 1%Z with (Qfloor 1). apply Qfloor_resp_le.
    assert (E : 1 / pow10 2 * pow10 2 == 1) by (field; lra). nra.
Qed.

(** The amount asked, in millionths, from the exact one. *)
Lemma market_fixed_spec e raw s :
  (3 <= s <= 6)%Z -> 0 <= e -> e <= pow10 21 ->
  (forall c, e <= dval c -> dval raw <= dval c) -> (forall c, dval c <= e -> dval c <= dval raw) ->
  let taker := inject_Z (market_fixed_u128 (round_amount raw s) s) in
  on_grid s (taker / pow10 6) /\ 0 <= taker /\
  taker < (e + 1 / pow10 (s + 4)) * pow10 6 /\ e * pow10 6 < taker + pow10 (6 - s).
Proof.
  intros Hs He Hlim Hup Hlow taker. destruct (round_amount_spec e raw s) as (Hg & H0 & H1 & H2); [lia|done..|].
  assert (Hp6 : 0 < pow10 6) by (by apply pow10_pos). assert (Hps : 0 < pow10 s) by (apply pow10_pos; lia).
  pose proof (pow10_inv_le (s + 4) ltac:(lia)) as H4.
  assert (Et : taker == dval (round_amount raw s) * pow10 6).
  { apply fixed_exact; [lia|done| |done]. apply Qlt_trans with ((pow10 21 + 1) * pow10 6); [nra|by vm_compute]. }
  rewrite Et. split; [|split; [nra|split]].
  - destruct Hg as [n Hn]. exists n. rewrite <- Hn. field. lra.
  - apply Qmult_lt_compat_r; done.
  - replace 6%Z with ((6 - s) + s)%Z at 1 by lia. replace 6%Z with ((6 - s) + s)%Z at 2 by lia.
    rewrite pow10_add by lia. assert (0 < pow10 (6 - s)) by (apply pow10_pos; lia).
    setoid_replace (dval (round_amount raw s) * (pow10 (6 - s) * pow10 s) + pow10 (6 - s))
      with ((dval (round_amount raw s) + 1 / pow10 s) * (pow10 (6 - s) * pow10 s))
      using relation Qeq by (field; lra).
    apply Qmult_lt_compat_r; [nra|done].
Qed.
Lemma market_fixed_zero raw price :
  (forall c, 0 <= dval c -> dval raw <= dval c) -> (forall c, dval c <= 0 -> dval c <= dval raw) ->
  let s := market_amount_scale (market_price_scale price) in
  market_fixed_u128 (round_amount raw s) s = 0%Z.
Proof.
  intros Hup Hlow s. pose proof (market_price_scale_range price) as Hr.
  assert (Hs : s = (market_price_scale price + 2)%Z) by apply market_amount_scale_eq.
  destruct (market_fixed_spec 0 raw s) as (_ & H0 & H1 & _); [lia|lra|by vm_compute|done..|].
  set (t := market_fixed_u128 (round_amount raw s) s) in *.
  pose proof (pow10_inv_le (s - 2) ltac:(lia)) as H4. rewrite <- (pow10_millionth (s - 2)) in H4 by lia.
  replace (s - 2 + 6)%Z with (s + 4)%Z in H4 by lia.
  rewrite Qplus_0_l in H1. assert (Hlt : inject_Z t < inject_Z 1) by (change (inject_Z 1) with 1; lra).
  change 0 with (inject_Z 0) in H0. rewrite <- Zle_Qle in H0. rewrite <- Zlt_Qlt in Hlt. lia.
Qed.

(** C22. The checks of a market order let every positive price through, and then
    cut it to at most four decimals: an order to buy below a price of 0.0001
    panics on the division by zero, for any amount from a cent on and in no other
    case; an order to sell there asks nothing at all for the tokens. *)
Theorem tiny_prices_escape_checks side amount price :
  (calculate_market_order_amounts side amount price = None <->
   side = Buy /\ 0 < dval price /\ dval price < 1 / pow10 4 /\ 1 / pow10 2 <= dval amount) /\
  (side = Sell -> 0 < dval price -> dval price < 1 / pow10 4 -> 1 / pow10 2 <= dval amount ->
   exists tokens, calculate_market_order_amounts side amount price = Some (Ok (tokens, 0%Z))).
Proof.
  assert (Hq : 0 < 1 / pow10 2) by (apply Qlt_shift_div_l; [by apply pow10_pos|by vm_compute]).
  unfold calculate_market_order_amounts. destruct ((amount <=? ZERO)%dec || (price <=? ZERO)%dec) eqn:Hz.
  { assert (Hno : ~ (0 < dval price /\ 1 / pow10 2 <= dval amount)).
    { intros [H1 H2]. apply orb_true_iff in Hz as [Hz|Hz]; dec_to_Q; lra. }
    split; [split; [done|]|]; intros; exfalso; apply Hno; naive_solver. }
  apply orb_false_iff in Hz as [Ha Hp]. dec_to_Q.
  pose proof (raw_maker_positive amount Ha) as Hm. pose proof (raw_price_zero price Hp) as Hr.
  destruct (trunc_with_scale amount MARKET_ORDER_SIZE_SCALE <=? ZERO)%dec eqn:Hmz; dec_to_Q.
  { split; [split; [done|]|]; intros; exfalso; assert (1 / pow10 2 <= dval amount) as H3%Hm by naive_solver; lra. }
  apply Hm in Hmz as Hcent. destruct side.
  - split; [|done]. destruct (Qeq_dec (dval (trunc_with_scale price (market_price_scale price))) 0) as [E|E].
    + rewrite (dec_div_zero _ _ E). simpl. split; [|done]. intros _. split; [done|]. split; [done|].
      split; [by apply Hr|done].
    + destruct (dec_div_some (trunc_with_scale amount MARKET_ORDER_SIZE_SCALE) _ E) as [t ->]. simpl.
      split; [done|]. intros (_ & _ & H & _). by apply Hr in H.
  - split; [split; [done|intros [? _]; done]|]. intros _ _ Hlt _. simpl. apply Hr in Hlt.
    eexists. do 3 f_equal. apply market_fixed_zero; intros c Hc.
    + apply dec_mul_upper. rewrite Hlt. lra.
    + apply dec_mul_lower. rewrite Hlt. lra.
Qed.

(** The price of an order is at least the smallest one, unless it is zero. *)
Lemma raw_price_least price : let p := dval (trunc_with_scale price (market_price_scale price)) in
  0 < p -> 1 / pow10 4 <= p.
Proof.
  intros p Hpos. pose proof (market_price_scale_range price) as Hs.
  destruct (on_grid_finer (market_price_scale price) 4 p) as [n Hn];
    [lia|apply trunc_on_grid; lia|].
  rewrite Hn in Hpos |- *. rewrite (grid_zero 4), grid_lt in Hpos by done.
  change 1 with (inject_Z 1). rewrite grid_le by done. lia.
Qed.
(** The quotient or the product is what the amount is rounded from. *)
Lemma raw_taker_spec side m price t :
  0 <= dval m -> dval m <= pow10 17 -> 0 <= dval price -> dval price <= 1 ->
  let raw := trunc_with_scale price (market_price_scale price) in
  let e := match side with Buy => dval m / dval raw | Sell => dval m * dval raw end in
  match side with Buy => dec_div m raw | Sell => Some (m * raw)%dec end = Some t ->
  0 <= e /\ e <= pow10 21 /\ (side = Buy -> 0 < dval raw) /\
  (forall c, e <= dval c -> dval t <= dval c) /\ (forall c, dval c <= e -> dval c <= dval t).
Proof.
  intros Hm Hlim Hp Hprob raw e Et. destruct (raw_price_spec price Hp) as (Hp0 & Hp1 & _).
  fold raw in Hp0, Hp1. destruct side.
  - assert (Hpos : 0 < dval raw).
    { apply Qle_lteq in Hp0 as [?|E]; [done|]. symmetry in E. by rewrite (dec_div_zero _ _ E) in Et. }
    pose proof (raw_price_least price Hpos) as Hmin. fold raw in Hmin.
    split; [apply Qle_shift_div_l; [done|lra]|]. split; [|split; [done|]].
    + apply Qle_shift_div_r; [done|]. apply Qle_trans with (pow10 21 * (1 / pow10 4)).
      * apply Qle_trans with (pow10 17); [done|by vm_compute].
      * assert (0 < pow10 21) by (by apply pow10_pos). nra.
    + split; intros c Hc; [by eapply dec_div_upper|by eapply dec_div_lower].
  - injection Et as <-. unfold e. split; [nra|].
    split; [apply Qle_trans with (pow10 17); [nra|by vm_compute]|]. split; [done|].
    split; intros c Hc; [by apply dec_mul_upper|by apply dec_mul_lower].
Qed.

(** C21. The amounts of a market order, in millionths.  The amount given is cut to
    hundredths; the amount asked is on the grid of the price's decimals plus two,
    less than a unit of this grid below the exact quotient or product, and above
    it by less than a millionth: the order is at the price asked, which is cut to
    four decimals. *)
Theorem market_order_amounts side amount price maker taker :
  dval amount <= pow10 17 -> dval price <= 1 ->
  calculate_market_order_amounts side amount price = Some (Ok (maker, taker)) ->
  let s := market_price_scale price in let p := dval (trunc_with_scale price s) in
  let exact := match side with Buy => inject_Z maker / p | Sell => inject_Z maker * p end in
  0 < dval amount /\ 0 < dval price /\ p <= dval price /\ dval price < p + 1 / pow10 s /\
  ((decimal_places price <= 4)%Z -> p == dval price) /\
  just_below maker (dval amount) 2 /\
  on_grid (s + 2) (inject_Z taker / pow10 6) /\
  inject_Z taker < exact + 1 / pow10 s /\ exact < inject_Z taker + pow10 (4 - s).
Proof.
  intros Hlim Hprob H s p exact. unfold calculate_market_order_amounts in H.
  destruct ((amount <=? ZERO)%dec || (price <=? ZERO)%dec) eqn:Hz; [done|].
  apply orb_false_iff in Hz as [Ha Hp]. dec_to_Q.
  destruct (trunc_with_scale amount MARKET_ORDER_SIZE_SCALE <=? ZERO)%dec eqn:Hm; [done|]. dec_to_Q.
  rewrite market_amount_scale_eq in H.
  pose proof (market_price_scale_range price) as Hs. fold s in Hs, H.
  destruct (raw_price_spec price) as (Hp0 & Hp1 & Hp2 & Hp3); [lra|]. fold s in Hp0, Hp1, Hp2, Hp3. fold p in Hp0, Hp1, Hp2, Hp3.
  set (m := trunc_with_scale amount MARKET_ORDER_SIZE_SCALE) in *.
  assert (Hp6 : 0 < pow10 6) by (by apply pow10_pos).
  assert (Halim : dval amount * pow10 6 < inject_Z (2 ^ 96))
    by (apply Qle_lt_trans with (pow10 17 * pow10 6); [nra|by vm_compute]).
  assert (Hm1 : dval m <= dval amount) by (apply trunc_bounds; [done|lra]).
  assert (Hmk : inject_Z (market_fixed_u128 m MARKET_ORDER_SIZE_SCALE) == dval m * pow10 6).
  { apply fixed_exact; [done|lra|nra|by apply trunc_on_grid]. }
  destruct (match side with Buy => dec_div m (trunc_with_scale price s)
                          | Sell => Some (m * trunc_with_scale price s)%dec end) as [t|] eqn:Eraw; [|done].
  simpl in H. injection H as Em Et.
  destruct (raw_taker_spec side m price t) as (He & Helim & Hbuy & Hup & Hlow); [lra|lra|lra|done|done|].
  fold s p in He, Helim, Hbuy, Hup, Hlow.
  set (e := match side with Buy => dval m / p | Sell => dval m * p end) in *.
  assert (Eexact : exact == e * pow10 6).
  { unfold exact, e. rewrite <- Em. destruct side; rewrite Hmk; [field; specialize (Hbuy eq_refl); lra|ring]. }
  destruct (market_fixed_spec e t (s + 2)) as (Hg & Ht0 & Ht1 & Ht2); [lia|done..|].
  rewrite Et in Hg, Ht0, Ht1, Ht2.
  split; [done|]. split; [done|]. split; [done|]. split; [done|]. split; [done|]. split.
  { assert (E : maker = to_fixed_u128 amount 2).
    { apply inject_Z_injective. rewrite <- Em, Hmk. symmetry. apply fixed_value; [done|lra|done]. }
    rewrite E. apply fixed_just_below; [done|lra|done]. }
  split; [done|]. rewrite Eexact. split.
  - rewrite Qmult_plus_distr_l in Ht1. replace (s + 2 + 4)%Z with (s + 6)%Z in Ht1 by lia.
    by rewrite pow10_millionth in Ht1 by lia.
  - by replace (6 - (s + 2))%Z with (4 - s)%Z in Ht2 by lia.
Qed.
End Fixed.

(** ** Witnesses *)

(** Decimals as fractions that keep the scale they were cut to. *)
Module FixedSample.
Import Platform.Concrete.

#[local] Existing Instances decimal decimal_spec decimal_exact.

Definition q_scaled (n s : Z) : Q := n # Z.to_pos (10 ^ s).
Definition q_on_grid (s : Z) (q : Q) : bool := ((Qnum q * 10 ^ s) mod Zpos (Qden q) =? 0)%Z.
Fixpoint q_places (tries : nat) (s : Z) (q : Q) : Z :=
  match tries with
  | O => s
  | S tries => if q_on_grid s q then s else q_places tries (s + 1) q
  end.
Definition fixed : @FixedOps decimal := @Build_FixedOps decimal
  (fun (q : Q) s => q_scaled (Qtrunc (q * pow10 s)) s)
  (fun (q : Q) s => q_scaled (Qceiling (q * pow10 s)) s)
  (fun q : Q => q_places 28 0 q)
  (fun q : Q => Qnum q).

Lemma q_scaled_value n s : (0 <= s)%Z -> q_scaled n s == inject_Z n / pow10 s.
Proof.
  intros Hs. unfold q_scaled, pow10, Qeq, Qdiv, Qinv, Qmult, inject_Z. simpl.
  assert (0 < 10 ^ s)%Z by (by apply Z.pow_pos_nonneg). destruct (10 ^ s)%Z eqn:E; simpl; lia.
Qed.
Lemma q_on_grid_spec s q : (0 <= s)%Z -> q_on_grid s q = true <-> on_grid s q.
Proof.
  intros Hs. unfold q_on_grid, on_grid. rewrite Z.eqb_eq. assert (H10 : (0 < 10 ^ s)%Z) by (by apply Z.pow_pos_nonneg).
  assert (Hiff : forall n, q == inject_Z n / pow10 s <-> (Qnum q * 10 ^ s = n * Zpos (Qden q))%Z).
  { intros n. rewrite <- q_scaled_value by done. unfold Qeq, q_scaled. simpl.
    rewrite Z2Pos.id by done. done. }
  split.
  - intros Hm. exists (Qnum q * 10 ^ s / Zpos (Qden q))%Z. apply Hiff.
    rewrite (Z.div_mod (Qnum q * 10 ^ s) (Zpos (Qden q))) at 1 by done. lia.
  - intros [n Hn]. apply Hiff in Hn. rewrite Hn. by apply Z.mod_mul.
Qed.
Lemma q_places_bounds tries s q : (s <= q_places tries s q <= s + Z.of_nat tries)%Z.
Proof.
  revert s. induction tries as [|tries IH]; intros s; cbn [q_places]; [lia|].
  case_match; [lia|]. specialize (IH (s + 1)%Z). lia.
Qed.
Lemma q_places_spec tries s0 q s : (0 <= s0)%Z -> (s0 <= s < s0 + Z.of_nat tries)%Z ->
  (forall t, (0 <= t < s0)%Z -> ~ on_grid t q) ->
  (q_places tries s0 q <= s)%Z <-> on_grid s q.
Proof.
  revert s0. induction tries as [|tries IH]; intros s0 H0 Hs Hno; [lia|]. cbn [q_places].
  destruct (q_on_grid s0 q) eqn:Hg.
  - apply q_on_grid_spec in Hg; [|done]. split; [|lia]. intros _. apply (on_grid_finer s0); [lia|exact Hg].
  - assert (Hg' : ~ on_grid s0 q) by (intros Ho; apply q_on_grid_spec in Ho; [congruence|lia]).
    destruct (decide (s = s0)) as [->|Hne].
    + pose proof (q_places_bounds tries (s0 + 1) q). split; [lia|done].
    + apply IH; [lia..|]. intros t Ht. destruct (decide (t = s0)) as [->|]; [done|]. apply Hno. lia.
Qed.
Lemma fixed_spec : @FixedSpec decimal fixed decimal_spec.
Proof.
  split; cbn [dval decimal_spec trunc_with_scale round_dp_up decimal_places mantissa fixed].
  - intros a s Hs. apply q_scaled_value. lia.
  - intros a s Hs. apply q_scaled_value. lia.
  - intros a s Hs. apply q_places_spec; lia.
  - intros a. apply q_places_bounds.
  - intros a s Hs _. done.
Qed.
#[local] Existing Instances fixed fixed_spec.

(** Twenty dollars at 0.037: 540.540540... shares, on the grid of five decimals. *)
Lemma market_order_amounts_witness :
  calculate_market_order_amounts Buy (d 2000 2) (d 37 3) = Some (Ok (20000000, 540540540)%Z) /\
  on_grid (market_price_scale (d 37 3) + 2) (inject_Z 540540540 / pow10 6) /\
  inject_Z 540540540 < inject_Z 20000000 / dval (trunc_with_scale (d 37 3) (market_price_scale (d 37 3)))
                       + 1 / pow10 (market_price_scale (d 37 3)).
Proof.
  assert (E : calculate_market_order_amounts Buy (d 2000 2) (d 37 3) = Some (Ok (20000000, 540540540)%Z))
    by computes.
  split; [exact E|].
  destruct (market_order_amounts Buy (d 2000 2) (d 37 3) 20000000 540540540
    ltac:(apply Qle_bool_iff; computes) ltac:(apply Qle_bool_iff; computes) E)
    as (_ & _ & _ & _ & _ & _ & Hg & Ht & _).
  exact (conj Hg Ht).
Defined.
(** Ten shares bought or sold at 0.00005. *)
Lemma tiny_prices_escape_checks_witness :
  calculate_market_order_amounts Buy (d 1000 2) (d 5 5) = None /\
  exists tokens, calculate_market_order_amounts Sell (d 1000 2) (d 5 5) = Some (Ok (tokens, 0%Z)).
Proof.
  assert (Hp : 0 < dval (d 5 5)) by (apply Qlt_alt; computes).
  assert (Hs : dval (d 5 5) < 1 / pow10 4) by (apply Qlt_alt; computes).
  assert (Ha : 1 / pow10 2 <= dval (d 1000 2)) by (apply Qle_bool_iff; computes).
  split.
  - exact (proj2 (proj1 (tiny_prices_escape_checks Buy (d 1000 2) (d 5 5)))
      (conj eq_refl (conj Hp (conj Hs Ha)))).
  - exact (proj2 (tiny_prices_escape_checks Sell (d 1000 2) (d 5 5)) eq_refl Hp Hs Ha).
Defined.
Lemma limit_order_amounts_witness :
  let amounts := calculate_amounts Buy (d 50 2) (d 100 0) in
  just_below (token_part Buy amounts) (dval (d 100 0)) 2.
Proof.
  exact (proj1 (limit_order_amounts Buy (d 50 2) (d 100 0) ltac:(apply Qle_bool_iff; computes)
    ltac:(apply Qle_bool_iff; computes) ltac:(apply Qlt_alt; computes) ltac:(apply Qlt_alt; computes))).
Defined.

(** The cost of 1.009 shares at 0.50, for one share. *)
Example cut_size_is_paid : calculate_amounts Buy (d 50 2) (d 1009 3) = (504500, 1000000)%Z.
Proof. computes. Qed.
(** A size below zero is an order like any other. *)
Example negative_size_is_sold : calculate_amounts Sell (d 50 2) (d (-100) 0) = (100000000, 50000000)%Z.
Proof. computes. Qed.
(** Half of the shares of a buy of 10.5 at 0.037: the amount is 0.38 instead of
    0.3885 dollars, which buys 10.27 shares, while the executor reports 10.5. *)
Example bought_less_than_asked :
  calculate_market_order_amounts Buy (d 105 1 * d 37 3)%dec (d 37 3) = Some (Ok (380000, 10270270)%Z).
Proof. computes. Qed.
End FixedSample.
