(* ===== verification/ClobClientFacts.v ===== *)
(** * Properties of the client of the exchange

    A public request ends after at most three attempts and returns what the
    last one was answered; the markets are read in finitely many pages, if no
    page is empty; the caches hold what the exchange answered, over all runs;
    and what a signed market order carries. *)

From stdpp Require Import pretty.
From S2P Require Import Prelude F64 Platform Handler Market BookStream Signing SigningFacts ClobClient.
From S2P Require OrderAmountsFacts.

Local Open Scope Z_scope.

Section ClientFacts.
Context `{DO : DecimalOps} {FO : FixedOps} `{CO : ChronoOps} {TO : TimestampOps} `{SO : SigningOps}
  {CC : ClobCodec} {L2 : L2Ops}.
Variable x : Exchange.
Implicit Types (w : ClobWorld) (l : list Event).

(** ** Retries *)

Definition add_events l w : ClobWorld := {| cw_client := cw_client w; cw_log := cw_log w ++ l |}.
Definition requests l : list Request := omap (fun e => match e with Sent r => Some r | Slept _ => None end) l.
Definition pauses l : Z := foldr Z.add 0 (omap (fun e => match e with Slept t => Some t | Sent _ => None end) l).
Lemma requests_app l k : requests (l ++ k) = requests l ++ requests k.
Proof. apply omap_app. Qed.
Lemma pauses_app l k : pauses (l ++ k) = pauses l + pauses k.
Proof.
  unfold pauses. rewrite omap_app. induction (omap _ l) as [|t ts IH]; simpl in *; [done|]. rewrite IH. lia.
Qed.
Lemma add_events_nil w : add_events [] w = w.
Proof. destruct w. unfold add_events. simpl. by rewrite app_nil_r. Qed.
Lemma add_events_app l k w : add_events k (add_events l w) = add_events (l ++ k) w.
Proof. unfold add_events. simpl. by rewrite app_assoc. Qed.

(** What an answer comes to, and whether another attempt is worth it. *)
Definition answer_verdict (o : result Response string) : result Response ClobError :=
  match o with
  | Ok r => if status_success r then Ok r
            else if retryable r then Err (retry_error r)
            else Err (EApi ("API error: " +:+ show_status (rs_status r)) (Some (rs_status r)))
  | Err e => Err (EHttp e)
  end.
Definition final_answer (o : result Response string) : bool :=
  match o with Ok r => status_success r || negb (retryable r) | Err _ => false end.

Lemma back_off_events {R} unit_millis attempt w : 0 <= attempt -> 0 <= unit_millis <= 2000 ->
  exists l, back_off (R := R) unit_millis attempt w = Some (add_events l w, Go tt) /\
    requests l = [] /\ 0 <= pauses l <= (if attempt + 1 <? MAX_RETRIES then 2000 * 2 ^ attempt else 0).
Proof.
  intros Ha Hu. unfold back_off, when, sleep, modify, ret. destruct (attempt + 1 <? MAX_RETRIES).
  - exists [Slept (unit_millis * 2 ^ attempt)]. split; [done|]. split; [done|].
    cbn. assert (0 < 2 ^ attempt) by (by apply Z.pow_pos_nonneg). nia.
  - exists []. split; [by rewrite add_events_nil|]. split; [done|]. done.
Qed.

(** The last attempt and those before it. *)
Definition tried (url : string) w (l : list Event) (r : result Response ClobError) : Prop :=
  exists before after, l = before ++ [Sent (http_get url)] ++ after /\ requests after = [] /\
    r = answer_verdict (xc_answer x (cw_log w ++ before) (http_get url)) /\
    (forall early rq late, before = early ++ Sent rq :: late ->
       rq = http_get url /\ final_answer (xc_answer x (cw_log w ++ early) rq) = false).
Lemma quiet_prefix l before early rq late :
  requests l = [] -> l ++ before = early ++ Sent rq :: late ->
  exists early', early = l ++ early' /\ before = early' ++ Sent rq :: late.
Proof.
  revert early. induction l as [|e l IH]; intros early Hq E; [by exists early|].
  destruct e as [r|t]; [done|]. destruct early as [|e early]; [done|]. injection E as -> E.
  destruct (IH early Hq E) as (early' & -> & ->). by exists early'.
Qed.
Lemma tried_once url w l :
  requests l = [] -> tried url w (Sent (http_get url) :: l) (answer_verdict (xc_answer x (cw_log w) (http_get url))).
Proof.
  intros Hl. exists [], l. rewrite app_nil_r. split; [done|]. split; [done|]. split; [done|].
  intros [|e early] rq late E; done.
Qed.
Lemma tried_again url w l l' r :
  final_answer (xc_answer x (cw_log w) (http_get url)) = false -> requests l = [] ->
  tried url (add_events (Sent (http_get url) :: l) w) l' r ->
  tried url w (Sent (http_get url) :: l ++ l') r.
Proof.
  intros Hf Hl (before & after & -> & Ha & Hr & Hearly). cbn [add_events cw_log] in Hr, Hearly.
  exists (Sent (http_get url) :: l ++ before), after.
  split; [by rewrite !app_assoc|]. split; [done|].
  split; [by rewrite Hr, <- app_assoc|]. intros [|e early] rq late E.
  { injection E as E1 _. rewrite <- E1, app_nil_r. by split. }
  injection E as <- E. destruct (quiet_prefix _ _ _ _ _ Hl E) as (early' & -> & E').
  destruct (Hearly _ _ _ E') as [-> Hf']. split; [done|]. by rewrite <- app_assoc in Hf'.
Qed.
(** One attempt: the last one, or one more. *)
Lemma retry_final tries attempt last url w :
  let o := xc_answer x (cw_log w) (http_get url) in
  final_answer o = true ->
  run_handler (retry_from x (S tries) attempt last url) w
    = Some (add_events [Sent (http_get url)] w, answer_verdict o).
Proof.
  intros o Hf. unfold run_handler. cbn [retry_from]. unfold bind, try_send. fold o.
  destruct o as [response|e]; [|done]. cbn [answer_verdict final_answer] in *.
  destruct (status_success response); [done|]. by destruct (retryable response).
Qed.
Definition last_error (o : result Response string) : ClobError :=
  match answer_verdict o with Err e => e | Ok _ => EHttp "" end.
Lemma retry_more tries attempt last url w : 0 <= attempt ->
  let o := xc_answer x (cw_log w) (http_get url) in
  final_answer o = false -> exists l,
  run_handler (retry_from x (S tries) attempt last url) w
    = run_handler (retry_from x tries (attempt + 1) (Some (last_error o)) url)
        (add_events (Sent (http_get url) :: l) w) /\
  requests l = [] /\ 0 <= pauses l <= (if attempt + 1 <? MAX_RETRIES then 2000 * 2 ^ attempt else 0).
Proof.
  intros Ha o Hf.
  assert (Hmore : exists unit_millis, 0 <= unit_millis <= 2000 /\
    run_handler (retry_from x (S tries) attempt last url) w
      = run_handler (bind (back_off (R := result Response ClobError) unit_millis attempt) (fun _ =>
          retry_from x tries (attempt + 1) (Some (last_error o)) url))
        (add_events [Sent (http_get url)] w)).
  { unfold run_handler, last_error. cbn [retry_from]. unfold bind at 1, try_send. fold o.
    destruct o as [response|e]; cbn [answer_verdict final_answer] in *; [|by exists 500].
    apply orb_false_iff in Hf as [-> Hf]. apply negb_false_iff in Hf. rewrite Hf.
    exists (if rs_status response =? 429 then 2000 else 500). split; [by destruct (_ =? _)|done]. }
  destruct Hmore as (unit_millis & Hu & ->).
  destruct (back_off_events (R := result Response ClobError) unit_millis attempt
    (add_events [Sent (http_get url)] w) Ha Hu) as (l & El & Hl & Hp).
  exists l. split; [|done]. unfold run_handler. by rewrite (bind_step _ _ _ _ _ El), add_events_app.
Qed.
Lemma requests_sent url l : requests (Sent (http_get url) :: l) = http_get url :: requests l.
Proof. done. Qed.
Lemma pauses_sent url l : pauses (Sent (http_get url) :: l) = pauses l.
Proof. done. Qed.

Lemma retry_from_spec tries attempt last url w :
  attempt + Z.of_nat tries = MAX_RETRIES -> 0 <= attempt -> (0 < tries)%nat ->
  exists l r, run_handler (retry_from x tries attempt last url) w = Some (add_events l w, r) /\
    tried url w l r /\ (0 < length (requests l) <= tries)%nat /\
    ((length (requests l) < tries)%nat -> exists before, l = before ++ [Sent (http_get url)] /\
       final_answer (xc_answer x (cw_log w ++ before) (http_get url)) = true) /\
    0 <= pauses l <= 2000 * (2 ^ (MAX_RETRIES - 1) - 2 ^ attempt).
Proof.
  revert attempt last w. induction tries as [|tries IH]; intros attempt last w Hn Ha Ht; [lia|].
  assert (Hpow : 0 <= 2 ^ (MAX_RETRIES - 1) - 2 ^ attempt)
    by (pose proof (Z.pow_le_mono_r 2 attempt (MAX_RETRIES - 1) ltac:(lia) ltac:(lia)); lia).
  destruct (final_answer (xc_answer x (cw_log w) (http_get url))) eqn:Hf.
  { rewrite retry_final by done. eexists [_], _. split; [done|]. split; [by apply tried_once|].
    split; [simpl; lia|]. split; [|rewrite pauses_sent; change (pauses []) with 0; lia].
    intros _. exists []. by rewrite app_nil_r. }
  destruct (retry_more tries attempt last url w Ha Hf) as (l & -> & Hl & Hp).
  destruct tries as [|tries].
  - exists (Sent (http_get url) :: l), (answer_verdict (xc_answer x (cw_log w) (http_get url))). split.
    { unfold last_error, run_handler. cbn. do 2 f_equal.
      destruct (xc_answer x (cw_log w) (http_get url)) as [response|e]; cbn [answer_verdict final_answer] in *; [|done].
      apply orb_false_iff in Hf as [-> Hf]. apply negb_false_iff in Hf. by rewrite Hf. }
    assert (E : attempt + 1 <? MAX_RETRIES = false) by (apply Z.ltb_ge; lia). rewrite E in Hp.
    split; [by apply tried_once|]. rewrite requests_sent, pauses_sent, Hl. split; [simpl; lia|].
    split; [simpl; lia|lia].
  - destruct (IH (attempt + 1) (Some (last_error (xc_answer x (cw_log w) (http_get url))))
      (add_events (Sent (http_get url) :: l) w)) as (l' & r & -> & Htried & Hlen & Hstop & Hpauses); [lia..|].
    exists (Sent (http_get url) :: l ++ l'), r. rewrite add_events_app. split; [done|].
    split; [by apply tried_again|].
    rewrite requests_sent, pauses_sent, requests_app, pauses_app, Hl. split; [simpl; lia|]. split.
    + intros Hlt. destruct Hstop as (before & -> & Hfin); [simpl in *; lia|].
      exists (Sent (http_get url) :: l ++ before). split; [cbn; by rewrite <- app_assoc|].
      cbn [add_events cw_log] in Hfin. by rewrite <- app_assoc in Hfin.
    + assert (E : attempt + 1 <? MAX_RETRIES = true) by (apply Z.ltb_lt; lia). rewrite E in Hp.
      rewrite Z.pow_add_r in Hpauses by lia. lia.
Qed.

Lemma get_with_retry_spec url w : exists l r,
  run_handler (get_with_retry x url) w = Some (add_events l w, r) /\
  tried url w l r /\ (0 < length (requests l) <= 3)%nat /\
  ((length (requests l) < 3)%nat -> exists before, l = before ++ [Sent (http_get url)] /\
     final_answer (xc_answer x (cw_log w ++ before) (http_get url)) = true) /\
  0 <= pauses l <= 6000.
Proof. apply (retry_from_spec 3 0 None url w); [done..|lia]. Qed.

(** C27. A public request asks at most three times and returns what the last
    attempt was answered: a success, a refusal, or the error it kept retrying
    on.  It stops before the third attempt exactly on an answer that is final,
    no earlier answer was, and it pauses six seconds at most. *)
Theorem retries_end_with_last_answer url w : exists l r,
  run_handler (get_with_retry x url) w = Some (add_events l w, r) /\
  tried url w l r /\ (0 < length (requests l) <= 3)%nat /\
  ((length (requests l) < 3)%nat -> exists before, l = before ++ [Sent (http_get url)] /\
     final_answer (xc_answer x (cw_log w ++ before) (http_get url)) = true) /\
  0 <= pauses l <= 6000.
Proof. apply get_with_retry_spec. Qed.

(** A fetched page, or an error that is passed on. *)
Lemma wp_fetch {B} url (Q : ClobWorld -> flow (result B ClobError) Response -> Prop) w :
  (forall l l' response, xc_answer x l' (http_get url) = Ok response -> Q (add_events l w) (Go response)) ->
  (forall l e, Q (add_events l w) (Return (Err e))) ->
  wp (try_call (get_with_retry x url)) Q w.
Proof.
  intros Hok Herr. destruct (get_with_retry_spec url w) as (l & r & E & (before & _ & _ & _ & Hr & _) & _).
  unfold try_call. apply wp_bind, (wp_try_update _ _ _ _ _ E). destruct r as [response|e].
  - apply (Hok l (cw_log w ++ before)). revert Hr. unfold answer_verdict.
    destruct (xc_answer x _ _) as [r|e]; [|done]. destruct (status_success r); [by intros [= ->]|].
    by destruct (retryable r).
  - apply Herr.
Qed.

(** ** Pages *)

(** The exchange never sends a page without a market. *)
Definition pages_nonempty : Prop := forall l rq response page,
  xc_answer x l rq = Ok response -> decode_markets (rs_body response) = Some page -> mp_data page <> [].

Lemma wp_pages fuel limit cursor all w :
  pages_nonempty -> limit + 1 < Z.of_nat (length all) + Z.of_nat fuel -> (0 < fuel)%nat ->
  wp (get_markets_from x fuel limit cursor all)
    (fun _ f => match f with Go r | Return r => r end <> Ok None) w.
Proof.
  intros Hpages. revert cursor all w. induction fuel as [|fuel IH]; intros cursor all w Hn Hf; [lia|].
  cbn [get_markets_from]. unfold the_client. repeat wp_step.
  apply wp_fetch; [intros l l' response Ha|by intros]. cbv beta iota. unfold json, propagate.
  wp_step. destruct (decode_markets (rs_body response)) as [page|] eqn:Ed; [|by wp_step]. wp_step.
  pose proof (Hpages _ _ _ _ Ha Ed) as Hne.
  assert (Hlen : (length all + 1 <= length (all ++ (market_of_clob <$> mp_data page)))%nat).
  { rewrite length_app, length_fmap. destruct (mp_data page); [done|]. simpl. lia. }
  destruct (nonempty (mp_next_cursor page)) as [c|]; [|by wp_step].
  destruct (limit <? _) eqn:El; [by wp_step|]. apply Z.ltb_ge in El. apply IH; lia.
Qed.

(** Reading the markets ends: if no page is empty, after at most two pages
    more than the limit has markets, whatever the cursors are. *)
Theorem market_pages_end env fuel w :
  pages_nonempty -> market_limit env + 1 < Z.of_nat fuel -> (0 < fuel)%nat ->
  exists w' r, run_handler (get_markets x fuel env) w = Some (w', r) /\ r <> Ok None.
Proof. intros Hp Hf H0. apply wp_run, wp_pages; [done|simpl; lia|done]. Qed.

(** ** What is known of tokens *)

(** A request of the log was answered by a success whose text is as [P] says. *)
Definition answered w (rq : Request) (P : string -> Prop) : Prop := exists l rest response,
  cw_log w = l ++ Sent rq :: rest /\ xc_answer x l rq = Ok response /\
  status_success response = true /\ P (rs_body response).
Lemma answered_later w w' l rq P :
  cw_log w' = cw_log w ++ l -> answered w rq P -> answered w' rq P.
Proof.
  intros E (l1 & rest & response & El & H). exists l1, (rest ++ l), response. split; [|done].
  by rewrite E, El, <- app_assoc.
Qed.

Section Invariant.
Variables (base : string) (s : OrderSigner).
Definition neg_risk_request (token_id : string) : Request :=
  http_get (base +:+ "/neg-risk?token_id=" +:+ token_id).
Definition fee_rate_request (token_id : string) : Request :=
  http_get (base +:+ "/fee-rate?token_id=" +:+ token_id).

(** The client is the one it was made as, and its caches hold answers. *)
Record sound w : Prop := {
  sound_base : base_url (cw_client w) = base;
  sound_signer : ac_signer (cw_client w) = s;
  sound_neg_risk_signer : neg_risk_signer (cw_client w) = to_neg_risk s;
  sound_neg_risk : forall t b, neg_risk_cache (cw_client w) !! t = Some b ->
    answered w (neg_risk_request t) (fun body => decode_neg_risk body = Some b);
  sound_fee_rate : forall t fee, fee_rate_cache (cw_client w) !! t = Some fee ->
    answered w (fee_rate_request t) (fun body => fee_of body = fee);
}.

Lemma sound_log e w : sound w -> sound (log_event e w).
Proof.
  intros [H1 H2 H3 H4 H5]. split; [done..| |]; intros t v Hv.
  - eapply (answered_later w _ [e]); [done|by apply H4].
  - eapply (answered_later w _ [e]); [done|by apply H5].
Qed.
Lemma sound_credentials c w : sound w -> sound (on_client (set_credentials c) w).
Proof. by intros []. Qed.

Lemma stays_try_send {R} rq : stays sound (try_send (R := R) x rq).
Proof. intros w w' f Hs [= <- _]. by apply sound_log. Qed.
Lemma stays_client {R} : stays sound (the_client (R := R)).
Proof. unfold the_client. repeat stays_step. Qed.
Lemma stays_timestamp {R} : stays sound (current_timestamp (R := R) x).
Proof. intros w w' f Hs [= <- _]. done. Qed.
Lemma stays_salt {R} : stays sound (new_salt (R := R) x).
Proof. intros w w' f Hs [= <- _]. done. Qed.
Lemma stays_json {A B} (o : option B) : stays sound (json (A := A) o).
Proof. unfold json. repeat stays_step. Qed.
Lemma stays_send {A} rq : stays sound (send (A := A) x rq).
Proof. unfold send. stays_step; [apply stays_try_send|]. repeat stays_step. Qed.
Lemma stays_accepted {A} what r : stays sound (accepted (A := A) what r).
Proof. unfold accepted. repeat stays_step. Qed.
Lemma stays_back_off {R} u a : stays sound (back_off (R := R) u a).
Proof. unfold back_off, sleep. repeat stays_step. by apply sound_log. Qed.
End Invariant.

Create HintDb clob.
#[local] Hint Resolve stays_try_send stays_client stays_timestamp stays_salt stays_json stays_send
  stays_accepted stays_back_off sound_log sound_credentials : clob.
(** A method step by step, with what is known of the methods it calls. *)
Ltac stays_clob :=
  repeat first [solve [eauto with clob] | apply stays_call | stays_step].
Lemma stays_retry base s tries attempt last url : stays (sound base s) (retry_from x tries attempt last url).
Proof.
  revert attempt last. induction tries as [|tries IH]; intros attempt last; cbn [retry_from]; stays_clob.
Qed.
Lemma stays_get_with_retry base s url : stays (sound base s) (get_with_retry x url).
Proof. apply stays_retry. Qed.
Lemma stays_fetch {B} base s url : stays (sound base s) (try_call (B := B) (get_with_retry x url)).
Proof. unfold try_call. apply stays_bind; [apply stays_call, stays_get_with_retry|]. intros r. repeat stays_step. Qed.
#[local] Hint Resolve stays_fetch : clob.

(** The two questions: their answers are remembered, and given again. *)
Lemma neg_risk_spec base s t w : sound base s w -> exists w' r l,
  run_handler (is_neg_risk x t) w = Some (w', r) /\ sound base s w' /\ cw_log w' = cw_log w ++ l /\
  (r = Ok false -> answered w' (neg_risk_request base t) (fun body => decode_neg_risk body = Some false)).
Proof.
  intros Hs. pose proof (sound_base _ _ _ Hs) as Hb.
  unfold run_handler, is_neg_risk, bind, the_client, get_state, ret. cbn.
  destruct (neg_risk_cache (cw_client w) !! t) as [b|] eqn:Ec.
  { exists w, (Ok b), []. split; [done|]. split; [done|]. split; [by rewrite app_nil_r|].
    intros [= ->]. by apply (sound_neg_risk _ _ _ Hs). }
  unfold send, bind, try_send. rewrite Hb. fold (neg_risk_request base t). set (rq := neg_risk_request base t).
  pose proof (sound_log base s (Sent rq) w Hs) as Hs'.
  destruct (xc_answer x (cw_log w) rq) as [response|e] eqn:Ea; cbn; [|by eexists _, _, [Sent rq]].
  destruct (status_success response) eqn:Eok; cbn; [|by eexists _, _, [Sent rq]].
  destruct (decode_neg_risk (rs_body response)) as [b|] eqn:Ed; cbn; [|by eexists _, _, [Sent rq]].
  eexists _, (Ok b), [Sent rq]. split; [done|].
  assert (Hans : answered (log_event (Sent rq) w) rq (fun body => decode_neg_risk body = Some b))
    by (exists (cw_log w), [], response; by split_and!).
  split; [|split; [done|by intros [= ->]]]. destruct Hs' as [H1 H2 H3 H4 H5]. split; [done..| |done].
  intros t' b'. cbn [on_client cw_client cache_neg_risk neg_risk_cache].
  rewrite lookup_insert. case_decide as Et; [|apply H4]. intros [= <-]. by subst t'.
Qed.
Lemma fee_rate_spec base s t w : sound base s w -> exists w' r l,
  run_handler (get_fee_rate_bps x t) w = Some (w', r) /\ sound base s w' /\ cw_log w' = cw_log w ++ l /\
  (forall fee, r = Ok fee -> fee <> 0 -> answered w' (fee_rate_request base t) (fun body => fee_of body = fee)).
Proof.
  intros Hs. pose proof (sound_base _ _ _ Hs) as Hb.
  unfold run_handler, get_fee_rate_bps, bind, the_client, get_state, ret. cbn.
  destruct (fee_rate_cache (cw_client w) !! t) as [b|] eqn:Ec.
  { exists w, (Ok b), []. split; [done|]. split; [done|]. split; [by rewrite app_nil_r|].
    intros fee [= ->] _. by apply (sound_fee_rate _ _ _ Hs). }
  unfold send, bind, try_send. rewrite Hb. fold (fee_rate_request base t). set (rq := fee_rate_request base t).
  pose proof (sound_log base s (Sent rq) w Hs) as Hs'.
  destruct (xc_answer x (cw_log w) rq) as [response|e] eqn:Ea; cbn; [|by eexists _, _, [Sent rq]].
  destruct (status_success response) eqn:Eok; cbn.
  2: { eexists _, _, [Sent rq]. split; [done|]. split; [done|]. split; [done|]. by intros fee [= <-]. }
  eexists _, (Ok (fee_of (rs_body response))), [Sent rq]. split; [done|].
  assert (Hans : answered (log_event (Sent rq) w) rq (fun body => fee_of body = fee_of (rs_body response)))
    by (exists (cw_log w), [], response; by split_and!).
  split; [|split; [done|by intros fee [= <-]]]. destruct Hs' as [H1 H2 H3 H4 H5]. split; [done..|].
  intros t' b'. cbn [on_client cw_client cache_fee_rate fee_rate_cache].
  rewrite lookup_insert. case_decide as Et; [|apply H5]. intros [= <-]. by subst t'.
Qed.
Lemma stays_is_neg_risk base s t : stays (sound base s) (is_neg_risk x t).
Proof.
  intros w w' f Hs E. destruct (neg_risk_spec base s t w Hs) as (w1 & r & l & Er & Hs1 & _).
  unfold run_handler in Er. rewrite E in Er. simpl in Er. by injection Er as -> _.
Qed.
Lemma stays_get_fee_rate base s t : stays (sound base s) (get_fee_rate_bps x t).
Proof.
  intros w w' f Hs E. destruct (fee_rate_spec base s t w Hs) as (w1 & r & l & Er & Hs1 & _).
  unfold run_handler in Er. rewrite E in Er. simpl in Er. by injection Er as -> _.
Qed.
#[local] Hint Resolve stays_is_neg_risk stays_get_fee_rate : clob.

(** *** Every method *)

Lemma stays_request_api_key base s m path what : stays (sound base s) (request_api_key x m path what).
Proof. unfold request_api_key. stays_clob. Qed.
Lemma stays_l2_send {A} base s missing m path query make_body :
  stays (sound base s) (l2_send (A := A) x missing m path query make_body).
Proof. unfold l2_send. stays_clob. Qed.
#[local] Hint Resolve stays_request_api_key stays_l2_send : clob.
Lemma stays_balance base s t asset : stays (sound base s) (get_balance_allowance x t asset).
Proof. unfold get_balance_allowance. stays_clob. Qed.
Lemma stays_update_balance base s t asset : stays (sound base s) (update_balance_allowance_for_token x asset t).
Proof. unfold update_balance_allowance_for_token. stays_clob. Qed.
#[local] Hint Resolve stays_balance stays_update_balance : clob.
Lemma stays_refresh {R} base s : stays (sound base s) (log_and_refresh_collateral_allowance (R := R) x).
Proof. unfold log_and_refresh_collateral_allowance, update_balance_allowance. stays_clob. Qed.
Lemma stays_or_default {A R} base s (d : A) m :
  stays (sound base s) m -> stays (sound base s) (or_default (R := R) d m).
Proof. intros Hm. unfold or_default. stays_clob. Qed.
Lemma stays_signed base s signer o : stays (sound base s) (signed signer o).
Proof. unfold signed. stays_clob. Qed.
#[local] Hint Resolve stays_refresh stays_or_default stays_signed : clob.
Lemma stays_get_markets base s fuel env : stays (sound base s) (get_markets x fuel env).
Proof.
  unfold get_markets. generalize (market_limit env), (@None string), (@nil Market).
  induction fuel as [|fuel IH]; intros limit cursor all; cbn [get_markets_from]; stays_clob.
Qed.
Lemma stays_activity_pages base s pages wallet limit offset all :
  stays (sound base s) (activity_pages x pages wallet limit offset all).
Proof.
  revert offset all. induction pages as [|pages IH]; intros offset all; cbn [activity_pages]; stays_clob.
Qed.

(** The methods of the client that talk to the exchange; the amounts of a market
    order are given ([OrderAmountsFacts.tiny_prices_escape_checks] says when). *)
Inductive clob_method : forall {A}, Method A -> Prop :=
| m_markets fuel env : clob_method (get_markets x fuel env)
| m_market id : clob_method (get_market_by_id x id)
| m_book id : clob_method (get_order_book x id)
| m_trades limit : clob_method (get_recent_trades x limit)
| m_activity wallet limit : clob_method (get_wallet_activity x wallet limit)
| m_pages wallet limit pages : clob_method (get_wallet_activity_paginated x wallet limit pages)
| m_derive : clob_method (derive_api_key x)
| m_create_key : clob_method (create_api_key x)
| m_create_or_derive : clob_method (create_or_derive_api_key x)
| m_neg_risk id : clob_method (is_neg_risk x id)
| m_fee id : clob_method (get_fee_rate_bps x id)
| m_balance id asset : clob_method (get_balance_allowance x id asset)
| m_update asset id : clob_method (update_balance_allowance_for_token x asset id)
| m_order id side price size t : clob_method (create_order x id side price size t)
| m_market_order id side price amount t :
    calculate_market_order_amounts side amount price <> None -> clob_method (create_market_order x id side price amount t)
| m_post o t : clob_method (post_order x o t)
| m_cancel id : clob_method (cancel_order x id)
| m_open market : clob_method (get_open_orders x market)
| m_cancel_all : clob_method (cancel_all_orders x).
Inductive clob_run : ClobWorld -> ClobWorld -> Prop :=
| run_done w : clob_run w w
| run_method {A} (m : Method A) w w1 r w2 :
    clob_method m -> run_handler m w = Some (w1, r) -> clob_run w1 w2 -> clob_run w w2
| run_credentials c w w2 : clob_run (on_client (set_credentials c) w) w2 -> clob_run w w2.

Lemma stays_method {A} base s (m : Method A) : clob_method m -> stays (sound base s) m.
Proof.
  intros [].
  - apply stays_get_markets.
  - unfold get_market_by_id. stays_clob.
  - unfold get_order_book. stays_clob.
  - unfold get_recent_trades. stays_clob.
  - unfold get_wallet_activity. stays_clob.
  - apply stays_activity_pages.
  - unfold derive_api_key. stays_clob.
  - unfold create_api_key. stays_clob.
  - unfold create_or_derive_api_key, create_api_key, derive_api_key. stays_clob.
  - stays_clob.
  - stays_clob.
  - stays_clob.
  - stays_clob.
  - unfold create_order. stays_clob.
  - unfold create_market_order. stays_clob.
  - unfold post_order. stays_clob.
  - unfold cancel_order. stays_clob.
  - unfold get_open_orders. stays_clob.
  - unfold cancel_all_orders. stays_clob.
Qed.

Definition client_start (url : option string) (s : OrderSigner) : ClobWorld :=
  {| cw_client := auth_client_new url s; cw_log := [] |}.
Lemma runs_sound base s w w' : sound base s w -> clob_run w w' -> sound base s w'.
Proof.
  intros Hs Hrun. induction Hrun as [w|A m w w1 r w2 Hm E Hrun IH|c w w2 Hrun IH]; [done| |].
  - apply IH. exact (stays_run _ m _ _ _ (stays_method base s m Hm) Hs E).
  - apply IH. by apply sound_credentials.
Qed.
Lemma start_sound url s : sound (default DEFAULT_BASE_URL url) s (client_start url s).
Proof. split; [done..| |]; intros t v Hv; cbn in Hv; by rewrite lookup_empty in Hv. Qed.

(** C25. Over any run of the client's methods, in any order and with any answers
    and refusals of the exchange, what the caches say of a token is what
    the exchange answered when it was asked about this token; the address and
    both signers stay the ones the client was made with. *)
Theorem caches_hold_answers url s w :
  clob_run (client_start url s) w -> sound (default DEFAULT_BASE_URL url) s w.
Proof. apply runs_sound, start_sound. Qed.

(** ** No panic *)

Definition no_panic {R A} (m : handler ClobWorld R A) : Prop := forall w, is_Some (m w).
Lemma no_panic_bind {R A B} (m : handler ClobWorld R A) (k : A -> handler ClobWorld R B) :
  no_panic m -> (forall a, no_panic (k a)) -> no_panic (bind m k).
Proof.
  intros Hm Hk w. unfold bind. destruct (Hm w) as [[w1 [a|r]] ->]; [apply Hk|by eexists].
Qed.
Lemma no_panic_call {R R'} (m : handler ClobWorld R' R') : no_panic m -> no_panic (call (R := R) m).
Proof.
  intros Hm w. unfold call, try_update, run_handler. destruct (Hm w) as [[w1 f] ->]. simpl. by eexists.
Qed.
Lemma no_panic_when {R} c (m : handler ClobWorld R unit) : no_panic m -> no_panic (when c m).
Proof. destruct c; [done|]. intros _ w. by eexists. Qed.
Lemma no_panic_salt {R A} (k : Z -> handler ClobWorld R A) :
  (forall salt, 0 <= salt < 2 ^ 53 -> no_panic (k salt)) -> no_panic (bind (new_salt x) k).
Proof. intros Hk w. unfold bind, new_salt. apply Hk, rand_salt_bound. Qed.
Lemma no_panic_signed signer o : od_salt o < 2 ^ 53 -> no_panic (signed signer o).
Proof.
  intros Ho w. unfold signed, attempt, bind.
  destruct (sign_order_total signer o) as [r ->]; [lia|]. simpl. by eexists.
Qed.
(** A piece that cannot panic, step by step. *)
Ltac no_panic_step :=
  lazymatch goal with
  | |- no_panic (bind (new_salt _) _) => apply no_panic_salt; intros ? ?
  | |- no_panic (bind _ _) => apply no_panic_bind; [|intros ?]
  | |- no_panic (call _) => apply no_panic_call
  | |- no_panic (when _ _) => apply no_panic_when
  | |- no_panic (propagate ?r) => unfold propagate; destruct r
  | |- no_panic (if ?c then _ else _) => destruct c
  | |- no_panic (match ?o with _ => _ end) => destruct o
  | |- no_panic (ret _) => intros ?; by eexists
  | |- no_panic (attempt (Some _)) => intros ?; by eexists
  | |- no_panic (return_ _) => intros ?; by eexists
  | |- no_panic (modify _) => intros ?; by eexists
  | |- no_panic get_state => intros ?; by eexists
  | |- no_panic (try_send _ _) => intros ?; by eexists
  | |- no_panic (current_timestamp _) => intros ?; by eexists
  | |- no_panic (the_client) => unfold the_client
  | |- no_panic (send _ _) => unfold send
  | |- no_panic (json _) => unfold json
  | |- no_panic (accepted _ _) => unfold accepted
  | |- no_panic (back_off _ _) => unfold back_off, sleep
  | |- no_panic (or_default _ _) => unfold or_default
  | |- no_panic (try_call _) => unfold try_call
  | |- no_panic (l2_send _ _ _ _ _ _) => unfold l2_send
  | |- no_panic (request_api_key _ _ _ _) => unfold request_api_key
  | |- no_panic (get_balance_allowance _ _ _) => unfold get_balance_allowance
  | |- no_panic (update_balance_allowance_for_token _ _ _) => unfold update_balance_allowance_for_token
  | |- no_panic (log_and_refresh_collateral_allowance _) =>
      unfold log_and_refresh_collateral_allowance, update_balance_allowance
  | |- no_panic (is_neg_risk _ _) => unfold is_neg_risk
  | |- no_panic (get_fee_rate_bps _ _) => unfold get_fee_rate_bps
  | |- no_panic (signed _ _) => apply no_panic_signed
  end; cbv beta iota zeta.

Lemma no_panic_get url : no_panic (get_with_retry x url).
Proof.
  intros w. destruct (get_with_retry_spec url w) as (l & r & E & _). unfold run_handler in E.
  destruct (get_with_retry x url w); [by eexists|done].
Qed.
#[local] Hint Resolve no_panic_get : clob.
Ltac no_panic_clob := repeat first [solve [eauto with clob] | no_panic_step].
(** The texts of the answers can be cut for the log. *)
Definition cut_answers : Prop := forall l rq response,
  xc_answer x l rq = Ok response -> preview (rs_body response) <> None.
Lemma no_panic_fetch {A} url (k : Response -> Method A) :
  (forall l response, xc_answer x l (http_get url) = Ok response -> no_panic (k response)) ->
  no_panic (bind (try_call (get_with_retry x url)) k).
Proof.
  intros Hk w. assert (H : wp (bind (try_call (get_with_retry x url)) k) (fun _ _ => True) w).
  { apply wp_bind, wp_fetch; [|done]. intros l l' response Ha. cbv beta iota. unfold wp.
    by destruct (Hk l' response Ha (add_events l w)) as [[w' f] ->]. }
  unfold wp in H. destruct (bind _ _ w); [by eexists|done].
Qed.
Lemma no_panic_get_markets fuel env : no_panic (get_markets x fuel env).
Proof.
  unfold get_markets. generalize (market_limit env), (@None string), (@nil Market).
  induction fuel as [|fuel IH]; intros limit cursor all; cbn [get_markets_from]; no_panic_clob.
Qed.
Lemma no_panic_activity_pages pages wallet limit offset all :
  no_panic (activity_pages x pages wallet limit offset all).
Proof.
  revert offset all. induction pages as [|pages IH]; intros offset all; cbn [activity_pages]; no_panic_clob.
Qed.
Lemma no_panic_market_order id side price amount t :
  calculate_market_order_amounts side amount price <> None ->
  no_panic (create_market_order x id side price amount t).
Proof.
  intros Hc. unfold create_market_order.
  destruct (calculate_market_order_amounts side amount price) as [r|]; [|done].
  no_panic_clob. cbn. lia.
Qed.
Lemma build_salt salt b o : build salt b = Some o -> od_salt o = salt.
Proof. unfold build. intros H. inv_bind. by case_match; simplify_eq. Qed.
Lemma no_panic_order id side price size t : no_panic (create_order x id side price size t).
Proof.
  unfold create_order.
  repeat first [match goal with |- no_panic (bind (new_salt _) _) => fail 2 end | no_panic_step].
  apply no_panic_salt. intros salt Hsalt. cbv zeta.
  destruct (build _ _) as [o|] eqn:Eb; [|no_panic_step].
  apply no_panic_signed. apply build_salt in Eb as ->. lia.
Qed.

Lemma no_panic_preview {A B} l rq response e (k : handler ClobWorld (result B ClobError) A) :
  cut_answers -> xc_answer x l rq = Ok response -> k = return_ (Err e) ->
  no_panic (bind (attempt (preview (rs_body response))) (fun _ => k)).
Proof.
  intros Hcut Ha -> w. unfold bind, attempt. specialize (Hcut _ _ _ Ha).
  destruct (preview (rs_body response)); [|done]. by eexists.
Qed.
Lemma no_panic_method {A} (m : Method A) : cut_answers -> clob_method m -> no_panic m.
Proof.
  intros Hcut [].
  - apply no_panic_get_markets.
  - unfold get_market_by_id. no_panic_clob.
  - unfold get_order_book. no_panic_clob.
  - apply no_panic_fetch. intros l response Ha. destruct (decode_trades _); [no_panic_step|].
    by eapply no_panic_preview.
  - apply no_panic_fetch. intros l response Ha. destruct (decode_activity _); [no_panic_step|].
    by eapply no_panic_preview.
  - apply no_panic_activity_pages.
  - unfold derive_api_key. no_panic_clob.
  - unfold create_api_key. no_panic_clob.
  - unfold create_or_derive_api_key, create_api_key, derive_api_key. no_panic_clob.
  - no_panic_clob.
  - no_panic_clob.
  - no_panic_clob.
  - no_panic_clob.
  - apply no_panic_order.
  - by apply no_panic_market_order.
  - unfold post_order. no_panic_clob.
  - unfold cancel_order. no_panic_clob.
  - unfold get_open_orders. no_panic_clob.
  - unfold cancel_all_orders. no_panic_clob.
Qed.


(** ** What a market order carries *)

Lemma call_goes {R R'} (m : handler ClobWorld R' R') w : no_panic m -> exists w' r,
  call (R := R) m w = Some (w', Go r) /\ run_handler m w = Some (w', r).
Proof.
  intros Hm. unfold call, try_update, run_handler. destruct (Hm w) as [[w' f] ->]. simpl. by eexists _, _.
Qed.
Lemma refresh_goes {R} base s w : sound base s w -> exists w',
  log_and_refresh_collateral_allowance (R := R) x w = Some (w', Go tt) /\ sound base s w'.
Proof.
  intros Hs. assert (H : exists w', log_and_refresh_collateral_allowance (R := R) x w = Some (w', Go tt)).
  { assert (Hb : no_panic (get_balance_allowance x None "COLLATERAL")) by no_panic_clob.
    assert (Hu : no_panic (update_balance_allowance x "COLLATERAL")) by (unfold update_balance_allowance; no_panic_clob).
    unfold log_and_refresh_collateral_allowance, bind. destruct (call_goes (R := R) _ w Hb) as (w1 & r & -> & _).
    destruct r as [b|e]; [|by eexists]. destruct (allowance_needs_refresh _); [|by eexists].
    destruct (call_goes (R := R) _ w1 Hu) as (w2 & r & -> & _). destruct r as [u|e]; [|by eexists].
    destruct (call_goes (R := R) _ w2 Hb) as (w3 & r & -> & _). by eexists. }
  destruct H as [w' E]. exists w'. split; [done|]. by eapply stays_refresh.
Qed.
Lemma or_default_goes {A R} (d : A) (m : Method A) w w' r :
  run_handler m w = Some (w', r) ->
  or_default (R := R) d m w = Some (w', Go (match r with Ok a => a | Err _ => d end)).
Proof. intros E. unfold or_default, bind, call, try_update. by rewrite E. Qed.

(** An order signed by a signer, as it is sent. *)
Definition sent_order (signer : OrderSigner) (o : OrderData) (so : SignedOrder) : Prop :=
  exists signature, sign_typed_data signer o = Ok signature /\ from_order_data o signature = Some so.
Lemma signed_order signer o so w w' :
  run_handler (signed signer o) w = Some (w', Ok so) -> w' = w /\ sent_order signer o so.
Proof.
  unfold run_handler, signed, bind, attempt, sign_order. intros H.
  destruct (sign_typed_data signer o) as [signature|e] eqn:Es; simpl in H; [|done].
  destruct (from_order_data o signature) as [so'|] eqn:Ef; simpl in H; [|done].
  injection H as -> ->. split; [done|]. by exists signature.
Qed.


(** A last attempt that is not needed: the first answer is final. *)
Lemma get_first_answer url w :
  let o := xc_answer x (cw_log w) (http_get url) in
  final_answer o = true ->
  run_handler (get_with_retry x url) w = Some (add_events [Sent (http_get url)] w, answer_verdict o).
Proof. intros o Hf. by apply retry_final. Qed.

(** The limit counts markets, not pages: an exchange that sends pages without
    markets, each with a cursor, is asked forever. *)
Lemma empty_pages_never_end limit fuel cursor all w :
  (forall l rq, exists response page c, xc_answer x l rq = Ok response /\ status_success response = true /\
     decode_markets (rs_body response) = Some page /\ mp_data page = [] /\
     nonempty (mp_next_cursor page) = Some c) ->
  Z.of_nat (length all) <= limit ->
  exists w', run_handler (get_markets_from x fuel limit cursor all) w = Some (w', Ok None).
Proof.
  intros Hx Hall. revert cursor all w Hall.
  induction fuel as [|fuel IH]; intros cursor all w Hall; [by exists w|].
  set (url := markets_url (base_url (cw_client w)) cursor).
  destruct (Hx (cw_log w) (http_get url)) as (response & page & c & Ha & Hok & Hd & Hempty & Hc).
  assert (E : try_call (B := option (list Market)) (get_with_retry x url) w
              = Some (add_events [Sent (http_get url)] w, Go response)).
  { unfold try_call, bind, call, try_update. rewrite get_first_answer; rewrite Ha; cbn; rewrite Hok; done. }
  unfold run_handler. cbn [get_markets_from]. rewrite (bind_step _ _ w w (cw_client w) eq_refl).
  fold url. rewrite (bind_step _ _ _ _ _ E). unfold json. rewrite Hd.
  rewrite (bind_step _ _ _ _ _ eq_refl). rewrite Hempty, Hc. cbn [fmap list_fmap]. rewrite app_nil_r.
  assert (Hl : limit <? Z.of_nat (length all) = false) by (apply Z.ltb_ge; lia). rewrite Hl.
  by apply IH.
Qed.

(** An answer that states no fee is remembered as a fee of 0. *)
Lemma unread_fee_is_remembered t w response :
  fee_rate_cache (cw_client w) !! t = None ->
  xc_answer x (cw_log w) (http_get (base_url (cw_client w) +:+ "/fee-rate?token_id=" +:+ t)) = Ok response ->
  status_success response = true -> decode_fee (rs_body response) = None ->
  parse_fee (string_trim (rs_body response)) = None ->
  exists w', run_handler (get_fee_rate_bps x t) w = Some (w', Ok 0) /\
    fee_rate_cache (cw_client w') !! t = Some 0.
Proof.
  intros Hc Ha Hok Hd Hp. assert (Hf : fee_of (rs_body response) = 0) by (unfold fee_of; by rewrite Hd, Hp).
  unfold run_handler, get_fee_rate_bps, bind, the_client, get_state, ret. cbn.
  rewrite Hc. unfold send, bind, try_send. rewrite Ha. cbn. rewrite Hok. cbn. rewrite Hf. eexists.
  split; [done|]. cbn. by rewrite lookup_insert_eq.
Qed.
End ClientFacts.

(** ** Witnesses *)

Module ClobSample.
Import Platform.Concrete OrderAmountsFacts.FixedSample SigningFacts.SigningSample.

#[local] Existing Instances decimal decimal_spec decimal_exact fixed chrono signing.

#[local] Instance times : @TimestampOps chrono := {|
  from_timestamp_millis := fun t => Some t; dt_parse := fun _ => None |}.
#[local] Instance l2 : L2Ops := {|
  decode_url_safe := fun _ => Some [1]; decode_url_safe_no_pad := fun _ => None;
  decode_standard := fun _ => None; encode_url_safe := fun _ => "mac"; hmac_sha256 := fun k _ => k |}.
Definition a_market : ClobMarket := {|
  cm_condition_id := "m"; cm_question := "?"; cm_description := None; cm_tokens := []; cm_volume := None;
  cm_liquidity := None; cm_end_date := None; cm_closed := false; cm_archived := false;
  cm_accepting_orders := true; cm_enable_order_book := true; cm_active := true |}.
#[local] Instance codec : @ClobCodec decimal chrono := {|
  decode_markets := fun _ => Some {| mp_data := [a_market]; mp_next_cursor := Some "more" |};
  decode_market := fun _ => None; decode_book := fun _ => None; decode_trades := fun _ => None;
  decode_activity := fun _ => None;
  decode_credentials := fun _ => Some {| api_key := "key"; api_secret := "secret"; api_passphrase := "pass" |};
  decode_neg_risk := fun _ => Some false; decode_fee := fun _ => Some (None, Some 25);
  decode_balance := fun _ => Some {| ba_balance := "10"; ba_allowance := "0" |};
  decode_post := fun _ => None; decode_open_orders := fun _ => None;
  encode_post := fun _ _ _ => "order"; parse_fee := fun _ => None; parse_usize := fun _ => Some 2;
  rfc3339_secs := fun _ => None; show_status := fun n => pretty n; json_error := "json" |}.

(** An exchange that answers everything. *)
Definition exchange : @Exchange chrono := {|
  xc_answer := fun _ _ => Ok {| rs_status := 200; rs_body := "" |};
  xc_nanos := fun l => Z.of_nat (length l) * 1000000000; xc_now := fun _ => 0; xc_pid := 42 |}.
Definition signer : OrderSigner := signer_new tt.
Definition start : ClobWorld := client_start None signer.
Definition keyed_world : ClobWorld :=
  on_client (set_credentials {| api_key := "key"; api_secret := "secret"; api_passphrase := "pass" |}) start.
Definition left_by {A} (m : Method A) (w : ClobWorld) : ClobWorld := default w (fst <$> run_handler m w).
Definition order : Method SignedOrder := create_market_order exchange "1234" Buy (d 50 2) (d 1000 2) Fok.

Lemma market_pages_end_witness : exists w' r,
  run_handler (get_markets exchange 4 (fun _ => Some "2")) start = Some (w', r) /\ r <> Ok None.
Proof.
  apply (market_pages_end exchange (fun _ => Some "2") 4 start); [|done|lia].
  intros l rq response page _ [= <-]. done.
Defined.
Lemma answers_cut : cut_answers exchange.
Proof. intros l rq response [= <-]. done. Qed.
Lemma order_amounts :
  match calculate_market_order_amounts Buy (d 1000 2) (d 50 2) with Some _ => true | None => false end = true.
Proof. computes. Qed.
Lemma order_method : clob_method exchange order.
Proof.
  apply m_market_order. pose proof order_amounts as H. intros E. rewrite E in H. discriminate H.
Qed.

Lemma start_is_sound : sound exchange DEFAULT_BASE_URL signer start.
Proof. apply (start_sound exchange None signer). Qed.
Definition ordered : option (ClobWorld * result SignedOrder ClobError) := run_handler order start.
Definition the_order : option SignedOrder := '(_, r) ← ordered; match r with Ok so => Some so | Err _ => None end.
Lemma order_runs : exists w' so, run_handler order start = Some (w', Ok so).
Proof.
  assert (H : match the_order with Some _ => true | None => false end = true) by computes.
  unfold the_order, ordered in H. destruct (run_handler order start) as [[w' [so|e]]|]; [|discriminate H..].
  by exists w', so.
Qed.
Lemma caches_hold_answers_witness : exists w',
  clob_run exchange start w' /\ sound exchange DEFAULT_BASE_URL signer w'.
Proof.
  destruct order_runs as (w' & so & E).
  assert (Hrun : clob_run exchange start w')
    by exact (run_method exchange order start w' (Ok so) w' order_method E (run_done exchange w')).
  exists w'. split; [exact Hrun|]. exact (caches_hold_answers exchange None signer w' Hrun).
Defined.

(** A text of 499 letters and one of two bytes is cut inside of the latter. *)
Definition long_text : string :=
  String.string_of_list_ascii (replicate 499 "a"%char ++ [ascii_of_N 195; ascii_of_N 164; "b"%char]).
Definition failing : @Exchange chrono := {|
  xc_answer := fun _ _ => Ok {| rs_status := 200; rs_body := long_text |};
  xc_nanos := fun _ => 0; xc_now := fun _ => 0; xc_pid := 42 |}.
Example long_errors_panic :
  match run_handler (get_recent_trades failing 100) start with Some _ => true | None => false end = false.
Proof. computes. Qed.
End ClobSample.
