(* ===== verification/PositionManager.v ===== *)
(** * The position manager and its limits

    Models [crates/trading-engine/src/position_manager.rs]: the managed
    positions in a concurrent map, the limits checked when one is added, and
    the totals.  [add_position] checks and then inserts without a lock over
    both: [pm_step] runs several additions with their two halves as separate
    steps. *)

From S2P Require Import Prelude F64 Platform Market Position.

Section Manager.
Context `{DO : DecimalOps} `{CO : ChronoOps} `{UO : UuidOps} `{DA : !DashOps}.

(** Source/strategy that originated a position. *)
Inductive PositionSource : Type := SrcManual | SrcArbitrage | SrcRecommendation (signal_id : Uuid).

#[export] Instance PositionSource_eq_dec : EqDecision PositionSource.
Proof. solve_decision. Defined.

(** Extended position with management metadata. *)
Record ManagedPosition : Type := {
  mp_position : Position;
  mp_source : PositionSource;
  mp_stop_loss_id : option Uuid;
  mp_tags : list string;
  mp_notes : option string;
  mp_updated_at : datetime;
}.

Definition managed_new (now : datetime) (p : Position) (source : PositionSource) : ManagedPosition := {|
  mp_position := p; mp_source := source; mp_stop_loss_id := None; mp_tags := []; mp_notes := None;
  mp_updated_at := now |}.
Definition with_stop_loss (id : Uuid) (p : ManagedPosition) : ManagedPosition :=
  {| p with mp_stop_loss_id := Some id |}.
Definition add_tag (tag : string) (p : ManagedPosition) : ManagedPosition :=
  {| p with mp_tags := mp_tags p ++ [tag] |}.
Definition set_notes (notes : string) (p : ManagedPosition) : ManagedPosition :=
  {| p with mp_notes := Some notes |}.
Definition managed_touch (now : datetime) (p : ManagedPosition) : ManagedPosition :=
  {| p with mp_updated_at := now |}.

Definition mp_id (p : ManagedPosition) : Uuid := pos_id (mp_position p).
Definition mp_market (p : ManagedPosition) : string := pos_market_id (mp_position p).
Definition mp_cost (p : ManagedPosition) : dec := position_cost (mp_position p).
Definition mp_active (p : ManagedPosition) : bool := is_active (mp_position p).

(** Configuration for position limits. *)
Record PositionLimits : Type := {
  max_total_positions : nat;
  max_per_market : nat;
  max_total_exposure : dec;
  max_market_exposure : dec;
  max_position_size : dec;
}.
Definition default_limits : PositionLimits := {|
  max_total_positions := 20; max_per_market := 2; max_total_exposure := dec_new 25000 0;
  max_market_exposure := dec_new 5000 0; max_position_size := dec_new 500 0 |}.

Record PositionManager : Type := {
  positions : gmap Uuid ManagedPosition;
  limits : PositionLimits;
  total_realized : dec;
}.
Definition position_manager_new (l : PositionLimits) : PositionManager := {|
  positions := ∅; limits := l; total_realized := ZERO |}.

Definition get_position (id : Uuid) (m : PositionManager) : option ManagedPosition := positions m !! id.
Definition all_positions (m : PositionManager) : list ManagedPosition := dash_values (positions m).
Definition active_managed (m : PositionManager) : list ManagedPosition :=
  List.filter mp_active (dash_values (positions m)).
Definition positions_for_market (market_id : string) (m : PositionManager) : list ManagedPosition :=
  List.filter (fun p => bool_decide (mp_market p = market_id)) (dash_values (positions m)).
Definition positions_by_source (s : PositionSource) (m : PositionManager) : list ManagedPosition :=
  List.filter (fun p => bool_decide (mp_source p = s)) (dash_values (positions m)).
Definition positions_with_tag (tag : string) (m : PositionManager) : list ManagedPosition :=
  List.filter (fun p => bool_decide (tag ∈ mp_tags p)) (dash_values (positions m)).

(** Calculate total exposure across all active positions. *)
Definition total_exposure (m : PositionManager) : dec := dec_sum (mp_cost <$> active_managed m).
Definition market_exposure (market_id : string) (m : PositionManager) : dec :=
  dec_sum (mp_cost <$> List.filter mp_active (positions_for_market market_id m)).
Definition active_market_count (market_id : string) (m : PositionManager) : nat :=
  count_if mp_active (positions_for_market market_id m).

(** The texts of the refusals, with what they show. *)
Inductive LimitError : Type :=
| TotalPositionsReached (max : nat)
| MarketPositionsReached (max : nat) (market_id : string)
| SizeExceeds (size max : dec)
| TotalExposureExceeds (max current size : dec)
| MarketExposureExceeds (max : dec) (market_id : string) (current size : dec)
| NewTotalExceeds (total max : dec)
| NewMarketExceeds (total max : dec).

(** The checks of [add_position]. *)
Definition check_limits (p : ManagedPosition) (m : PositionManager) : result unit LimitError :=
  let l := limits m in
  if (max_total_positions l <=? length (active_managed m))%nat
  then Err (TotalPositionsReached (max_total_positions l))
  else if (max_per_market l <=? active_market_count (mp_market p) m)%nat
  then Err (MarketPositionsReached (max_per_market l) (mp_market p))
  else if (mp_cost p >? max_position_size l)%dec
  then Err (SizeExceeds (mp_cost p) (max_position_size l))
  else if (total_exposure m + mp_cost p >? max_total_exposure l)%dec
  then Err (TotalExposureExceeds (max_total_exposure l) (total_exposure m) (mp_cost p))
  else if (market_exposure (mp_market p) m + mp_cost p >? max_market_exposure l)%dec
  then Err (MarketExposureExceeds (max_market_exposure l) (mp_market p)
              (market_exposure (mp_market p) m) (mp_cost p))
  else Ok tt.

Definition insert_position (p : ManagedPosition) (m : PositionManager) : PositionManager :=
  {| m with positions := <[mp_id p := p]> (positions m) |}.

(** Add a new position. *)
Definition add_position (p : ManagedPosition) (m : PositionManager)
    : PositionManager * result unit LimitError :=
  match check_limits p m with
  | Err e => (m, Err e)
  | Ok _ => (insert_position p m, Ok tt)
  end.

(** Check if a new position of given size would be allowed. *)
Definition can_open_position (market_id : string) (size : dec) (m : PositionManager)
    : result unit LimitError :=
  let l := limits m in
  if (max_total_positions l <=? length (active_managed m))%nat
  then Err (TotalPositionsReached (max_total_positions l))
  else if (max_per_market l <=? active_market_count market_id m)%nat
  then Err (MarketPositionsReached (max_per_market l) market_id)
  else if (size >? max_position_size l)%dec then Err (SizeExceeds size (max_position_size l))
  else
    let new_total := (total_exposure m + size)%dec in
    if (new_total >? max_total_exposure l)%dec then Err (NewTotalExceeds new_total (max_total_exposure l))
    else
      let new_market := (market_exposure market_id m + size)%dec in
      if (new_market >? max_market_exposure l)%dec
      then Err (NewMarketExceeds new_market (max_market_exposure l))
      else Ok tt.

(** Update a position. *)
Definition update_position (now : datetime) (id : Uuid) (f : ManagedPosition -> ManagedPosition)
    (m : PositionManager) : PositionManager * bool :=
  match positions m !! id with
  | Some p => ({| m with positions := <[id := managed_touch now (f p)]> (positions m) |}, true)
  | None => (m, false)
  end.

Definition remove_position (id : Uuid) (m : PositionManager) : PositionManager * option ManagedPosition :=
  ({| m with positions := delete id (positions m) |}, positions m !! id).

(** The position as the close leaves it, before the manager drops it. *)
Definition managed_close (now : datetime) (pnl : dec) (p : ManagedPosition) : ManagedPosition :=
  managed_touch now {| p with mp_position :=
    {| (mp_position p) with pos_state := Closed; realized_pnl := Some pnl; exit_timestamp := Some now |} |}.

(** Close a position and update P&L; [false]: not found. *)
Definition managed_close_position (now : datetime) (id : Uuid) (pnl : dec) (m : PositionManager)
    : PositionManager * bool :=
  match positions m !! id with
  | Some p =>
      let m := {| m with positions := <[id := managed_close now pnl p]> (positions m);
                         total_realized := (total_realized m + pnl)%dec |} in
      ({| m with positions := delete id (positions m) |}, true)
  | None => (m, false)
  end.

Definition update_limits (l : PositionLimits) (m : PositionManager) : PositionManager :=
  {| m with limits := l |}.

(** Summary statistics for position manager. *)
Record PositionManagerStats : Type := {
  ps_total_positions : nat;
  ps_active_positions : nat;
  ps_total_exposure : dec;
  ps_total_unrealized_pnl : dec;
  ps_total_realized_pnl : dec;
  ps_arbitrage_positions : nat;
  ps_manual_positions : nat;
}.
Definition manager_stats (m : PositionManager) : PositionManagerStats :=
  let l := all_positions m in
  let active := List.filter mp_active l in
  {| ps_total_positions := length l; ps_active_positions := length active;
     ps_total_exposure := total_exposure m;
     ps_total_unrealized_pnl := dec_sum ((fun p => unrealized_pnl (mp_position p)) <$> active);
     ps_total_realized_pnl := total_realized m;
     ps_arbitrage_positions := count_if (fun p => bool_decide (mp_source p = SrcArbitrage)) l;
     ps_manual_positions := count_if (fun p => bool_decide (mp_source p = SrcManual)) l |}.

(** ** Concurrent additions *)

(** A task that runs [add_position]: before its checks, between them and the
    insertion, or answered. *)
Inductive AddTask : Type :=
| ToCheck (p : ManagedPosition)
| ToInsert (p : ManagedPosition)
| Answered (r : result unit LimitError).

(** One step of one task. *)
Inductive pm_step : PositionManager * list AddTask -> PositionManager * list AddTask -> Prop :=
| step_check m ts ts' p :
    pm_step (m, ts ++ ToCheck p :: ts')
      (m, ts ++ match check_limits p m with
                | Ok _ => ToInsert p
                | Err e => Answered (Err e)
                end :: ts')
| step_insert m ts ts' p :
    pm_step (m, ts ++ ToInsert p :: ts') (insert_position p m, ts ++ Answered (Ok tt) :: ts').

End Manager.
