(* ===== verification/PositionManagerFacts.v ===== *)
(** * Properties of the position manager

    The limits hold over every sequential run, and what two interleaved
    additions do to them. *)

From S2P Require Import Prelude F64 Platform Market Position PositionManager.

Section Facts.
Context `{DO : DecimalOps} `{CO : ChronoOps} `{UO : UuidOps} `{DA : !DashOps}.
Context {DS : DecimalSpec} {EX : DecimalExact} {DP : DashSpec}.
Implicit Types (p q : ManagedPosition) (m : PositionManager).
Local Open Scope Q_scope.

(** The number and the cost of the positions with a property. *)
Definition holding (w : ManagedPosition -> bool) m : nat := count_if w (dash_values (positions m)).
Definition cost_if (w : ManagedPosition -> bool) p : Q := if w p then dval (mp_cost p) else 0.
Definition exposure (w : ManagedPosition -> bool) m : Q :=
  Qsum (map (cost_if w) (dash_values (positions m))).
Definition active_in (k : string) p : bool := bool_decide (mp_market p = k) && mp_active p.

Lemma filter_cost w l :
  Qsum (map dval (mp_cost <$> List.filter w l)) == Qsum (map (cost_if w) l).
Proof.
  induction l as [|p l IH]; simpl; [lra|]. unfold cost_if at 1. destruct (w p); simpl; rewrite IH; lra.
Qed.

Lemma filter_filter (w v : ManagedPosition -> bool) l :
  List.filter w (List.filter v l) = List.filter (fun p => v p && w p) l.
Proof.
  induction l as [|p l IH]; simpl; [done|]. destruct (v p); simpl; [|done].
  by destruct (w p); rewrite IH.
Qed.

Lemma total_exposure_sum m : dval (total_exposure m) == exposure mp_active m.
Proof. unfold total_exposure, active_managed. by rewrite dval_dec_sum, filter_cost. Qed.
Lemma market_exposure_sum k m : dval (market_exposure k m) == exposure (active_in k) m.
Proof.
  unfold market_exposure, positions_for_market. by rewrite filter_filter, dval_dec_sum, filter_cost.
Qed.
Lemma active_length m : length (active_managed m) = holding mp_active m.
Proof. done. Qed.
Lemma market_count k m : active_market_count k m = holding (active_in k) m.
Proof.
  unfold active_market_count, positions_for_market, holding, count_if. by rewrite filter_filter.
Qed.

(** ** Insertions and deletions *)

Definition with_positions (ps : gmap Uuid ManagedPosition) m : PositionManager :=
  {| m with positions := ps |}.

Lemma holding_insert w m id p :
  positions m !! id = None ->
  holding w (with_positions (<[id := p]> (positions m)) m) = ((if w p then 1 else 0) + holding w m)%nat.
Proof.
  intros Hn. unfold holding. simpl. rewrite (count_if_perm _ _ _ (dash_values_insert _ _ _ Hn)).
  apply count_if_cons.
Qed.
Lemma exposure_insert w m id p :
  positions m !! id = None ->
  exposure w (with_positions (<[id := p]> (positions m)) m) == cost_if w p + exposure w m.
Proof.
  intros Hn. unfold exposure. simpl. by rewrite (dash_values_insert _ _ p Hn).
Qed.
Lemma holding_delete w m id p :
  positions m !! id = Some p ->
  holding w m = ((if w p then 1 else 0) + holding w (with_positions (delete id (positions m)) m))%nat.
Proof.
  intros Hl. unfold holding. simpl. rewrite (count_if_perm _ _ _ (dash_values_delete _ _ _ Hl)).
  apply count_if_cons.
Qed.
Lemma exposure_delete w m id p :
  positions m !! id = Some p ->
  exposure w m == cost_if w p + exposure w (with_positions (delete id (positions m)) m).
Proof.
  intros Hl. unfold exposure. simpl. by rewrite (dash_values_delete _ _ p Hl).
Qed.

(** ** Within the limits *)

Record within m : Prop := {
  wi_total : (holding mp_active m <= max_total_positions (limits m))%nat;
  wi_market : forall k, (holding (active_in k) m <= max_per_market (limits m))%nat;
  wi_exposure : exposure mp_active m <= dval (max_total_exposure (limits m));
  wi_market_exposure : forall k, exposure (active_in k) m <= dval (max_market_exposure (limits m));
  wi_cost : forall id p, positions m !! id = Some p -> 0 <= dval (mp_cost p);
  wi_size : forall id p, positions m !! id = Some p -> mp_active p = true ->
    dval (mp_cost p) <= dval (max_position_size (limits m));
}.

Lemma cost_if_nonneg w p : 0 <= dval (mp_cost p) -> 0 <= cost_if w p.
Proof. unfold cost_if. destruct (w p); lra. Qed.

Lemma within_new l :
  0 <= dval (max_total_exposure l) -> 0 <= dval (max_market_exposure l) -> within (position_manager_new l).
Proof.
  intros H1 H2.
  assert (E : dash_values (positions (position_manager_new l)) = []).
  { simpl. unfold dash_values. apply Permutation_nil. by rewrite dash_iter_perm, map_to_list_empty. }
  split.
  - unfold holding. rewrite E. apply Nat.le_0_l.
  - intros k. unfold holding. rewrite E. apply Nat.le_0_l.
  - unfold exposure. by rewrite E.
  - intros k. unfold exposure. by rewrite E.
  - intros id p Hl. simpl in Hl. by rewrite lookup_empty in Hl.
  - intros id p Hl. simpl in Hl. by rewrite lookup_empty in Hl.
Qed.

(** Dropping a position. *)
Lemma within_delete m id : within m -> within (with_positions (delete id (positions m)) m).
Proof.
  intros Hw. destruct (positions m !! id) as [p|] eqn:E.
  - pose proof Hw as [H1 H2 H3 H4 H5 H6]. pose proof (fun w => cost_if_nonneg w p (H5 _ _ E)) as Hp. split.
    + pose proof (holding_delete mp_active _ _ _ E). simpl. lia.
    + intros k. pose proof (holding_delete (active_in k) _ _ _ E). specialize (H2 k). simpl. lia.
    + pose proof (exposure_delete mp_active _ _ _ E). specialize (Hp mp_active). simpl. lra.
    + intros k. pose proof (exposure_delete (active_in k) _ _ _ E). specialize (Hp (active_in k)).
      specialize (H4 k). simpl. lra.
    + intros i q Hq. simpl in Hq. apply lookup_delete_Some in Hq as [_ Hq]. by eapply H5.
    + intros i q Hq. simpl in Hq. apply lookup_delete_Some in Hq as [_ Hq]. by eapply H6.
  - unfold with_positions. rewrite delete_id by done. by destruct m.
Qed.

(** Adding one that passes the checks under a new key. *)
Lemma within_insert m p :
  within m -> positions m !! mp_id p = None -> 0 <= dval (mp_cost p) -> check_limits p m = Ok tt ->
  within (insert_position p m).
Proof.
  intros [H1 H2 H3 H4 H5 H6] Hn Hc Hok. change (insert_position p m) with
    (with_positions (<[mp_id p := p]> (positions m)) m).
  unfold check_limits in Hok. rewrite active_length, market_count in Hok.
  destruct (Nat.leb_spec (max_total_positions (limits m)) (holding mp_active m)); [done|].
  destruct (Nat.leb_spec (max_per_market (limits m)) (holding (active_in (mp_market p)) m)); [done|].
  destruct (max_position_size _ <? _)%dec eqn:Es; [done|].
  destruct (max_total_exposure _ <? _)%dec eqn:Et; [done|].
  destruct (max_market_exposure _ <? _)%dec eqn:Em; [done|]. dec_to_Q.
  rewrite dval_add, total_exposure_sum in Et. rewrite dval_add, market_exposure_sum in Em.
  assert (Hin : forall k, active_in k p = true -> k = mp_market p).
  { unfold active_in. intros k Hk. apply andb_prop in Hk as [Hk _]. symmetry. by apply bool_decide_eq_true in Hk. }
  assert (Hcost : forall w, cost_if w p <= dval (mp_cost p)).
  { intros w. unfold cost_if. destruct (w p); lra. }
  split.
  - rewrite holding_insert by done. simpl. destruct (mp_active p); lia.
  - intros k. rewrite holding_insert by done. simpl. specialize (H2 k).
    destruct (active_in k p) eqn:Ek; [apply Hin in Ek as ->|]; lia.
  - rewrite exposure_insert by done. simpl. specialize (Hcost mp_active). lra.
  - intros k. rewrite exposure_insert by done. simpl. specialize (H4 k).
    unfold cost_if. destruct (active_in k p) eqn:Ek; [apply Hin in Ek as ->|]; lra.
  - intros i q Hq. simpl in Hq. apply lookup_insert_Some in Hq as [[_ <-]|[_ Hq]]; [done|by eapply H5].
  - intros i q Hq Ha. simpl in Hq. apply lookup_insert_Some in Hq as [[_ <-]|[_ Hq]]; [done|by eapply H6].
Qed.

(** An update that neither moves, reprices nor revives a position. *)
Definition benign (f : ManagedPosition -> ManagedPosition) : Prop := forall p,
  mp_market (f p) = mp_market p /\ mp_cost (f p) = mp_cost p /\
  (mp_active (f p) = true -> mp_active p = true).

Lemma within_update m id p f :
  benign f -> within m -> positions m !! id = Some p ->
  within (with_positions (<[id := f p]> (positions m)) m).
Proof.
  intros Hf [H1 H2 H3 H4 H5 H6] Hl. destruct (Hf p) as (Fm & Fc & Fa).
  assert (Hact : forall k, active_in k (f p) = true -> active_in k p = true).
  { unfold active_in. intros k. rewrite Fm, !andb_true_iff. intuition. }
  assert (Hd : positions (with_positions (delete id (positions m)) m) !! id = None) by apply lookup_delete_eq.
  assert (E : with_positions (<[id := f p]> (positions m)) m =
    with_positions (<[id := f p]> (positions (with_positions (delete id (positions m)) m)))
      (with_positions (delete id (positions m)) m)).
  { unfold with_positions. simpl. by rewrite insert_delete_eq. }
  assert (Hhold : forall w, (w (f p) = true -> w p = true) ->
    (holding w (with_positions (<[id := f p]> (positions m)) m) <= holding w m)%nat).
  { intros w Hw. rewrite E, holding_insert by done. rewrite (holding_delete w m id p Hl).
    destruct (w (f p)), (w p); first [lia|by specialize (Hw eq_refl)]. }
  assert (Hexp : forall w, (w (f p) = true -> w p = true) ->
    exposure w (with_positions (<[id := f p]> (positions m)) m) <= exposure w m).
  { intros w Hw. rewrite E, exposure_insert by done. rewrite (exposure_delete w m id p Hl).
    specialize (H5 _ _ Hl). unfold cost_if. rewrite Fc.
    destruct (w (f p)), (w p); first [lra|by specialize (Hw eq_refl)]. }
  split; simpl.
  - specialize (Hhold _ Fa). lia.
  - intros k. specialize (Hhold _ (Hact k)). specialize (H2 k). lia.
  - specialize (Hexp _ Fa). lra.
  - intros k. specialize (Hexp _ (Hact k)). specialize (H4 k). lra.
  - intros i q Hq. apply lookup_insert_Some in Hq as [[_ <-]|[_ Hq]]; [|by eapply H5].
    rewrite Fc. by eapply H5.
  - intros i q Hq Ha. apply lookup_insert_Some in Hq as [[_ <-]|[_ Hq]]; [|by eapply H6].
    rewrite Fc. eapply H6; [done|]. by apply Fa.
Qed.

(** ** Runs *)

Inductive ManagerOp : Type :=
| MAdd (p : ManagedPosition)
| MRemove (id : Uuid)
| MClose (now : datetime) (id : Uuid) (pnl : dec)
| MUpdate (now : datetime) (id : Uuid) (f : ManagedPosition -> ManagedPosition).

Definition m_exec (op : ManagerOp) m : PositionManager :=
  match op with
  | MAdd p => fst (add_position p m)
  | MRemove id => fst (remove_position id m)
  | MClose now id pnl => fst (managed_close_position now id pnl m)
  | MUpdate now id f => fst (update_position now id f m)
  end.

(** New positions have a new identifier and do not have a negative cost. *)
Definition m_ok (op : ManagerOp) m : Prop :=
  match op with
  | MAdd p => positions m !! mp_id p = None /\ 0 <= dval (mp_cost p)
  | MUpdate _ _ f => benign f
  | _ => True
  end.

Inductive m_reach (m0 : PositionManager) : PositionManager -> Prop :=
| m_refl : m_reach m0 m0
| m_next m op : m_reach m0 m -> m_ok op m -> m_reach m0 (m_exec op m).

Lemma exec_limits op m : limits (m_exec op m) = limits m.
Proof.
  destruct op; simpl; unfold add_position, managed_close_position, update_position;
    repeat case_match; done.
Qed.

Lemma exec_within op m : m_ok op m -> within m -> within (m_exec op m).
Proof.
  intros Hok Hw. destruct op as [p|id|now id pnl|now id f]; cbn [m_exec].
  - destruct Hok as [Hn Hc]. unfold add_position. destruct (check_limits p m) as [[]|e] eqn:E; [|done].
    by apply within_insert.
  - by apply (within_delete m id).
  - unfold managed_close_position. destruct (positions m !! id) as [p|] eqn:E; [|done]. simpl.
    rewrite delete_insert_eq. by destruct (within_delete m id Hw).
  - unfold update_position. destruct (positions m !! id) as [p|] eqn:E; [|done].
    apply (within_update m id p (fun p => managed_touch now (f p))); [|done|done].
    intros x. apply (Hok x).
Qed.

Lemma can_open_add p m :
  is_ok (can_open_position (mp_market p) (mp_cost p) m) = is_ok (snd (add_position p m)).
Proof. unfold can_open_position, add_position, check_limits. repeat case_match; done. Qed.

(** ** Theorems *)

(** The limits hold in every sequential run: from a new manager with
    non-negative limits, additions of new positions, updates that neither
    move, reprice nor revive a position, removals and closes leave at most the
    allowed number of active positions, in all and per market, an exposure
    within both limits and no position above the maximal size; and
    [can_open_position] answers what [add_position] would. *)
Theorem limits_hold l m :
  0 <= dval (max_total_exposure l) -> 0 <= dval (max_market_exposure l) ->
  m_reach (position_manager_new l) m ->
  (length (active_managed m) <= max_total_positions l)%nat /\
  (forall k, (active_market_count k m <= max_per_market l)%nat) /\
  dval (total_exposure m) <= dval (max_total_exposure l) /\
  (forall k, dval (market_exposure k m) <= dval (max_market_exposure l)) /\
  (forall id p, positions m !! id = Some p -> mp_active p = true ->
     dval (mp_cost p) <= dval (max_position_size l)) /\
  forall p, is_ok (can_open_position (mp_market p) (mp_cost p) m) = is_ok (snd (add_position p m)).
Proof.
  intros H1 H2 Hr. assert (Hw : within m /\ limits m = l).
  { induction Hr as [|m op _ [IH El] Hok]; [split; [by apply within_new|done]|].
    split; [by apply exec_within|by rewrite exec_limits]. }
  destruct Hw as [[W1 W2 W3 W4 _ W6] <-]. rewrite active_length, total_exposure_sum.
  split; [done|]. split; [intros k; by rewrite market_count|]. split; [done|].
  split; [intros k; by rewrite market_exposure_sum|]. split; [done|]. intros p. apply can_open_add.
Qed.

(** The limits do not hold for concurrent additions: the checks and the
    insertion are separate steps, so two additions that are each allowed can
    both check before either inserts, and both succeed; a manager with one
    place left then has one position too many, where one addition after the
    other would have been refused. *)
Theorem concurrent_adds_exceed p q m :
  check_limits p m = Ok tt -> check_limits q m = Ok tt ->
  mp_active p = true -> mp_active q = true -> mp_id p <> mp_id q ->
  positions m !! mp_id p = None -> positions m !! mp_id q = None ->
  S (length (active_managed m)) = max_total_positions (limits m) ->
  (exists m', rtc pm_step (m, [ToCheck p; ToCheck q]) (m', [Answered (Ok tt); Answered (Ok tt)]) /\
     (max_total_positions (limits m') < length (active_managed m'))%nat) /\
  snd (add_position q (fst (add_position p m))) =
    Err (TotalPositionsReached (max_total_positions (limits m))).
Proof.
  intros Hp Hq Ap Aq Hne Np Nq Hfull.
  assert (Hone : length (active_managed (insert_position p m)) = max_total_positions (limits m)).
  { rewrite active_length in *. change (insert_position p m) with
      (with_positions (<[mp_id p := p]> (positions m)) m). rewrite holding_insert, Ap by done. lia. }
  split.
  - exists (insert_position q (insert_position p m)). split.
    + pose proof (step_check m [] [ToCheck q] p) as S1. rewrite Hp in S1.
      pose proof (step_check m [ToInsert p] [] q) as S2. rewrite Hq in S2.
      pose proof (step_insert m [] [ToInsert q] p) as S3.
      pose proof (step_insert (insert_position p m) [Answered (Ok tt)] [] q) as S4.
      eapply rtc_l; [exact S1|]. eapply rtc_l; [exact S2|]. eapply rtc_l; [exact S3|].
      eapply rtc_l; [exact S4|]. apply rtc_refl.
    + rewrite active_length in *. change (insert_position q (insert_position p m)) with
        (with_positions (<[mp_id q := q]> (positions (insert_position p m))) (insert_position p m)).
      rewrite holding_insert, Aq; [simpl; lia|]. simpl. by rewrite lookup_insert_ne.
  - unfold add_position at 2. rewrite Hp. simpl. unfold add_position, check_limits.
    change (limits (insert_position p m)) with (limits m). rewrite Hone.
    by destruct (Nat.leb_spec (max_total_positions (limits m)) (max_total_positions (limits m))); [|lia].
Qed.
End Facts.

(** ** Witnesses *)

Module Example_manager.
Import Concrete.

#[local] Existing Instance decimal.
#[local] Existing Instance decimal_spec.
#[local] Existing Instance decimal_exact.
#[local] Existing Instance chrono.
#[local] Existing Instance uuid.

#[local] Instance dash : DashOps := {| shard _ := 0%nat; dash_iter A m := map_to_list m |}.
#[local] Instance dash_spec : DashSpec.
Proof. by split. Defined.

(** One active position at most. *)
Definition one_place : PositionLimits := {| default_limits with max_total_positions := 1 |}.
Definition empty_manager : PositionManager := position_manager_new one_place.
Definition request (id : positive) (market : string) : ManagedPosition :=
  @managed_new decimal chrono uuid (at_minute 0)
    (position_new id (at_minute 0) market (d 48 2) (d 46 2) (d 100 0) ExitOnCorrection) SrcArbitrage.

Lemma request_allowed id market : check_limits (request id market) empty_manager = Ok tt.
Proof. reflexivity. Qed.

Lemma limits_hold_witness :
  (length (active_managed (m_exec (MAdd (request 1 "m")) empty_manager)) <= 1)%nat.
Proof.
  refine (proj1 (limits_hold one_place (m_exec (MAdd (request 1 "m")) empty_manager) _ _ _)).
  - vm_compute. discriminate.
  - vm_compute. discriminate.
  - apply m_next; [apply m_refl|]. split; [reflexivity|]. vm_compute. discriminate.
Defined.

Lemma concurrent_adds_exceed_witness :
  exists m', rtc pm_step (empty_manager, [ToCheck (request 1 "m"); ToCheck (request 2 "n")])
      (m', [Answered (Ok tt); Answered (Ok tt)]) /\
    (max_total_positions (limits m') < length (active_managed m'))%nat.
Proof.
  refine (proj1 (concurrent_adds_exceed (request 1 "m") (request 2 "n") empty_manager
    _ _ _ _ _ _ _ _)); try reflexivity. discriminate.
Defined.
End Example_manager.
