(* ===== verification/Rbac.v ===== *)
(** * Role-based access control

    Models [crates/auth/src/rbac.rs]: permissions and their conditions, roles
    that inherit from roles, the manager's two maps and the collection of a
    user's permissions, a search of the inheritance graph that remembers the
    roles it has seen.  A set of permissions is the list of an iteration. *)

From S2P Require Import Prelude F64 Platform.

(** Permission action types. *)
Inductive Action : Type :=
| ACreate | ARead | AUpdate | ADelete | AExecute | ACancel | AClose | AManage | AConfigure | AExport | AAll.
#[export] Instance Action_eq_dec : EqDecision Action.
Proof. solve_decision. Defined.

(** Check if this action includes another. *)
Definition includes (a b : Action) : bool := bool_decide (a = AAll) || bool_decide (a = b).

(** Resource types in the system. *)
Inductive Resource : Type :=
| RPosition | ROrder | RMarket | RWallet | RStopLoss | RBacktest | RStrategy | RRiskSettings
| RSystemConfig | RUser | RRole | RApiKey | RAuditLog | RAnalytics | RReports
| RSpecific (resource_type resource_id : string)
| RAll.
#[export] Instance Resource_eq_dec : EqDecision Resource.
Proof. solve_decision. Defined.

(** Check if this resource matches another. *)
Definition matches (a b : Resource) : bool :=
  match a, b with
  | RAll, _ => true
  | _, RAll => true
  | RSpecific t1 _, RSpecific t2 _ => bool_decide (a = b) || bool_decide (t1 = t2)
  | _, _ => bool_decide (a = b)
  end.

(** Time window for permission validity. *)
Record TimeWindow : Type := {
  start_hour : Z;
  end_hour : Z;
  allowed_days : option (list Z);
}.
#[export] Instance TimeWindow_eq_dec : EqDecision TimeWindow.
Proof. solve_decision. Defined.

(** Conditions that can be attached to permissions. *)
Record PermissionConditions : Type := {
  time_window : option TimeWindow;
  ip_whitelist : option (list string);
  max_amount_cents : option Z;
  require_mfa : option bool;
}.
#[export] Instance PermissionConditions_eq_dec : EqDecision PermissionConditions.
Proof. solve_decision. Defined.

(** A permission grants an action on a resource. *)
Record Permission : Type := {
  pe_resource : Resource;
  pe_action : Action;
  pe_conditions : option PermissionConditions;
}.
#[export] Instance Permission_eq_dec : EqDecision Permission.
Proof. solve_decision. Defined.

Definition permission_new (r : Resource) (a : Action) : Permission := {|
  pe_resource := r; pe_action := a; pe_conditions := None |}.
Definition with_conditions (c : PermissionConditions) (p : Permission) : Permission :=
  {| p with pe_conditions := Some c |}.
(** Check if this permission grants access to the requested action on resource. *)
Definition grants (p : Permission) (r : Resource) (a : Action) : bool :=
  matches (pe_resource p) r && includes (pe_action p) a.

(** The permissions collected and the roles visited. *)
Abbreviation Collected := (list Permission * gset string)%type.

Section Rbac.
Context `{CO : ChronoOps}.

(** Check if current time is within the window. *)
Definition window_active (now : datetime) (w : TimeWindow) : bool :=
  let h := hour now in
  let in_hours := if (start_hour w <=? end_hour w)%Z
                  then ((start_hour w <=? h) && (h <? end_hour w))%Z
                  else ((start_hour w <=? h) || (h <? end_hour w))%Z in
  let in_days := match allowed_days w with
                 | Some days => bool_decide (weekday now ∈ days)
                 | None => true
                 end in
  in_hours && in_days.

(** A role is a named collection of permissions. *)
Record Role : Type := {
  role_name : string;
  role_description : string;
  role_permissions : list Permission;
  role_inherits : list string;
  system_role : bool;
  role_created_at : datetime;
  role_updated_at : datetime;
}.

Definition role_new (now : datetime) (name description : string) : Role := {|
  role_name := name; role_description := description; role_permissions := []; role_inherits := [];
  system_role := false; role_created_at := now; role_updated_at := now |}.
Definition add_permission (now : datetime) (p : Permission) (r : Role) : Role :=
  {| r with role_permissions := if bool_decide (p ∈ role_permissions r) then role_permissions r
                                else role_permissions r ++ [p];
            role_updated_at := now |}.
Definition remove_permission (now : datetime) (p : Permission) (r : Role) : Role * bool :=
  if bool_decide (p ∈ role_permissions r)
  then ({| r with role_permissions :=
             List.filter (fun q => negb (bool_decide (q = p))) (role_permissions r);
                  role_updated_at := now |}, true)
  else (r, false).
Definition inherit_from (now : datetime) (name : string) (r : Role) : Role :=
  {| r with role_inherits := role_inherits r ++ [name]; role_updated_at := now |}.
Definition as_system_role (r : Role) : Role := {| r with system_role := true |}.

Definition add_permissions (now : datetime) (l : list (Resource * Action)) (r : Role) : Role :=
  foldl (fun r x => add_permission now (permission_new x.1 x.2) r) r l.

(** Default roles for the system. *)
Definition viewer (now : datetime) : Role :=
  add_permissions now
    [(RPosition, ARead); (ROrder, ARead); (RMarket, ARead); (RWallet, ARead); (RAnalytics, ARead);
     (RBacktest, ARead)]
    (as_system_role (role_new now "viewer" "Read-only access to dashboards and data")).
Definition trader (now : datetime) : Role :=
  add_permissions now
    [(RPosition, ACreate); (RPosition, AUpdate); (RPosition, AClose); (ROrder, ACreate);
     (ROrder, AExecute); (ROrder, ACancel); (RStopLoss, ACreate); (RStopLoss, AUpdate);
     (RStopLoss, ADelete); (RBacktest, ACreate); (RBacktest, AExecute)]
    (inherit_from now "viewer"
       (as_system_role (role_new now "trader" "Can execute trades and manage positions"))).
Definition platform_admin (now : datetime) : Role :=
  add_permissions now
    [(RAll, AAll); (RUser, AManage); (RRole, AManage); (RApiKey, AManage); (RSystemConfig, AConfigure);
     (RRiskSettings, AConfigure); (RAuditLog, ARead); (RReports, AExport)]
    (inherit_from now "trader"
       (as_system_role (role_new now "platform_admin" "Platform administrator - manages workspaces and users"))).
Definition risk_manager (now : datetime) : Role :=
  add_permissions now
    [(RRiskSettings, ARead); (RRiskSettings, AUpdate); (RStopLoss, AManage); (RPosition, AClose)]
    (inherit_from now "viewer" (role_new now "risk_manager" "Can configure risk settings")).
Definition default_roles (now : datetime) : list Role :=
  [viewer now; trader now; platform_admin now; risk_manager now].

(** RBAC manager for permission checking. *)
Record RbacManager : Type := {
  rb_roles : gmap string Role;
  rb_user_roles : gmap string (list string);
}.
Definition rbac_new (now : datetime) : RbacManager := {|
  rb_roles := foldl (fun m r => <[role_name r := r]> m) ∅ (default_roles now); rb_user_roles := ∅ |}.

Inductive RbacError : Type := RoleExists (name : string) | SystemRole (name : string) | NoSuchRole (name : string).

Definition add_role (r : Role) (m : RbacManager) : RbacManager * result unit RbacError :=
  match rb_roles m !! role_name r with
  | Some _ => (m, Err (RoleExists (role_name r)))
  | None => ({| m with rb_roles := <[role_name r := r]> (rb_roles m) |}, Ok tt)
  end.
Definition is_system (name : string) (m : RbacManager) : bool :=
  match rb_roles m !! name with Some r => system_role r | None => false end.
Definition update_role (r : Role) (m : RbacManager) : RbacManager * result unit RbacError :=
  if is_system (role_name r) m then (m, Err (SystemRole (role_name r)))
  else ({| m with rb_roles := <[role_name r := r]> (rb_roles m) |}, Ok tt).
Definition delete_role (name : string) (m : RbacManager) : RbacManager * result unit RbacError :=
  if is_system name m then (m, Err (SystemRole name))
  else ({| m with rb_roles := delete name (rb_roles m) |}, Ok tt).
Definition get_role (name : string) (m : RbacManager) : option Role := rb_roles m !! name.
Definition assign_role (user name : string) (m : RbacManager) : RbacManager * result unit RbacError :=
  match rb_roles m !! name with
  | None => (m, Err (NoSuchRole name))
  | Some _ => ({| m with rb_user_roles :=
      <[user := default [] (rb_user_roles m !! user) ++ [name]]> (rb_user_roles m) |}, Ok tt)
  end.
Definition revoke_role (user name : string) (m : RbacManager) : RbacManager :=
  {| m with rb_user_roles :=
       alter (List.filter (fun r => negb (bool_decide (r = name)))) user (rb_user_roles m) |}.
Definition get_user_roles (user : string) (m : RbacManager) : list string :=
  default [] (rb_user_roles m !! user).

(** *** The search *)

(** The parents of a role in turn, by the recursive call. *)
Fixpoint collect_all (f : string -> Collected -> option Collected) (l : list string) (s : Collected)
    : option Collected :=
  match l with
  | [] => Some s
  | x :: l => s ← f x s; collect_all f l s
  end.

(** Without fuel: [None]. *)
Fixpoint collect_recursive (fuel : nat) (roles : gmap string Role) (name : string) (s : Collected)
    : option Collected :=
  match fuel with
  | O => None
  | S fuel =>
      let '(permissions, visited) := s in
      if bool_decide (name ∈ visited) then Some s
      else
        let visited := {[ name ]} ∪ visited in
        match roles !! name with
        | Some role =>
            collect_all (collect_recursive fuel roles) (role_inherits role)
              (permissions ++ role_permissions role, visited)
        | None => Some (permissions, visited)
        end
  end.

(** Collect all permissions for a set of roles, including inherited; the
    depth is at most the number of roles and one unknown name. *)
Definition collect_permissions (names : list string) (roles : gmap string Role)
    : option (list Permission) :=
  fst <$> collect_all (collect_recursive (size roles + 2) roles) names ([], ∅).

Definition get_effective_permissions (user : string) (m : RbacManager) : option (list Permission) :=
  collect_permissions (get_user_roles user m) (rb_roles m).

(** The conditions the check looks at: the time window only. *)
Definition conditions_met (now : datetime) (p : Permission) : bool :=
  match pe_conditions p with
  | Some c => match time_window c with Some w => window_active now w | None => true end
  | None => true
  end.

(** Check if a user has permission for an action on a resource. *)
Definition has_permission (now : datetime) (user : string) (r : Resource) (a : Action)
    (m : RbacManager) : option bool :=
  permissions ← collect_permissions (get_user_roles user m) (rb_roles m);
  Some (existsb (fun p => grants p r a && conditions_met now p) permissions).

End Rbac.
