(* ===== verification/RbacFacts.v ===== *)
(** * Properties of the access control

    The search of the inheritance graph ends and finds the permissions of the
    roles that can be reached, cycles included. *)

From S2P Require Import Prelude F64 Platform Rbac.

Section Facts.
Context `{CO : ChronoOps}.
Implicit Types (x y name : string) (p : Permission) (V : gset string).

Section Search.
Variable roles : gmap string Role.

(** [x] inherits from [y], and the permissions a role has itself. *)
Definition parent x y : Prop := exists r, roles !! x = Some r /\ y ∈ role_inherits r.
Definition own_permissions x : list Permission :=
  match roles !! x with Some r => role_permissions r | None => [] end.

(** What a search from [l] adds: exactly roles that [l] reaches, with their
    parents and their permissions. *)
Record searched (l : list string) (s s' : Collected) : Prop := {
  se_grow : s.2 ⊆ s'.2;
  se_start : forall x, x ∈ l -> x ∈ s'.2;
  se_reach : forall x, x ∈ s'.2 -> x ∉ s.2 -> exists n, n ∈ l /\ rtc parent n x;
  se_closed : forall x y, x ∈ s'.2 -> x ∉ s.2 -> parent x y -> y ∈ s'.2;
  se_perms : forall p, p ∈ s'.1 <->
    (p ∈ s.1) \/ (exists x, (x ∈ s'.2) /\ (x ∉ s.2) /\ (p ∈ own_permissions x));
}.

Lemma searched_nil s : searched [] s s.
Proof.
  split; [done| |done|done|].
  - by intros x ?%elem_of_nil.
  - intros p. split; [by left|]. by intros [|(x & ? & ? & _)].
Qed.

Lemma searched_cons x l s s1 s2 : searched [x] s s1 -> searched l s1 s2 -> searched (x :: l) s s2.
Proof.
  intros [G1 S1 R1 C1 P1] [G2 S2 R2 C2 P2]. split.
  - set_solver.
  - intros y [->|Hy]%elem_of_cons; [|by apply S2]. apply G2, S1, list_elem_of_here.
  - intros y Hy Hn. destruct (decide (y ∈ s1.2)) as [H1|H1].
    + destruct (R1 y H1 Hn) as (n & Hin & Hr). apply list_elem_of_singleton in Hin as ->.
      exists x. split; [apply list_elem_of_here|done].
    + destruct (R2 y Hy H1) as (n & Hin & Hr). exists n. split; [by apply list_elem_of_further|done].
  - intros y z Hy Hn He. destruct (decide (y ∈ s1.2)) as [H1|H1]; [|by apply (C2 y)].
    by apply G2, (C1 y).
  - intros p. rewrite P2, P1. split.
    + intros [[H|(y & Hy & Hn & Hp)]|(y & Hy & Hn & Hp)]; [by left| |]; right; exists y;
        (split; [set_solver|]); (split; [set_solver|done]).
    + intros [H|(y & Hy & Hn & Hp)]; [by left; left|]. destruct (decide (y ∈ s1.2)).
      * left. right. by exists y.
      * right. by exists y.
Qed.

(** Fuel for the roles not seen yet. *)
Definition enough (fuel : nat) V : Prop := (size (dom roles ∖ V) + 1 <= fuel)%nat.

Lemma enough_mono fuel V V' : V ⊆ V' -> enough fuel V -> enough fuel V'.
Proof.
  unfold enough. intros HV. assert (size (dom roles ∖ V') <= size (dom roles ∖ V))%nat; [|lia].
  apply subseteq_size. set_solver.
Qed.

Lemma enough_visit fuel V name r :
  roles !! name = Some r -> name ∉ V -> enough (S fuel) V -> enough fuel ({[ name ]} ∪ V).
Proof.
  unfold enough. intros Hr Hn He. apply elem_of_dom_2 in Hr.
  assert (size (dom roles ∖ ({[ name ]} ∪ V)) < size (dom roles ∖ V))%nat; [|lia].
  apply subset_size. set_solver.
Qed.

Lemma collect_all_searched fuel f l s :
  (forall x s, enough fuel s.2 -> exists s', f x s = Some s' /\ searched [x] s s') ->
  enough fuel s.2 -> exists s', collect_all f l s = Some s' /\ searched l s s'.
Proof.
  intros Hf. revert s. induction l as [|x l IH]; intros s He; cbn [collect_all].
  { exists s. split; [done|apply searched_nil]. }
  destruct (Hf x s He) as (s1 & -> & H1). simpl.
  destruct (IH s1) as (s2 & E & H2); [by eapply enough_mono; [apply H1|]|].
  exists s2. split; [done|]. by apply (searched_cons x l s s1).
Qed.

Lemma collect_searched fuel name s :
  enough fuel s.2 -> exists s', collect_recursive fuel roles name s = Some s' /\ searched [name] s s'.
Proof.
  revert name s. induction fuel as [|fuel IH]; intros name [perms V] He; [unfold enough in He; lia|].
  cbn [collect_recursive]. destruct (decide (name ∈ V)) as [Hin|Hn].
  { rewrite bool_decide_true by done. eexists. split; [done|]. destruct (searched_nil (perms, V)).
    split; [done| |set_solver|done|done]. by intros x ->%list_elem_of_singleton. }
  rewrite bool_decide_false by done. destruct (roles !! name) as [r|] eqn:Er.
  - destruct (collect_all_searched fuel (collect_recursive fuel roles) (role_inherits r)
      (perms ++ role_permissions r, {[ name ]} ∪ V)) as (s' & E & [G S R C P]).
    { intros x s. apply IH. }
    { simpl. by eapply enough_visit. }
    exists s'. split; [done|]. simpl in *. split; simpl.
    + set_solver.
    + intros x ->%list_elem_of_singleton. set_solver.
    + intros x Hx Hxn. exists name. split; [apply list_elem_of_here|].
      destruct (decide (x = name)) as [->|Hne]; [apply rtc_refl|].
      destruct (R x Hx) as (n & Hin & Hr); [set_solver|]. eapply rtc_l; [|exact Hr]. by exists r.
    + intros x y Hx Hxn He'. destruct (decide (x = name)) as [->|Hne].
      * destruct He' as (r' & Hr' & Hy). simplify_eq. by apply S.
      * apply (C x); [done|set_solver|done].
    + intros p. rewrite P, elem_of_app. assert (Eo : own_permissions name = role_permissions r)
        by (unfold own_permissions; by rewrite Er). split.
      * intros [[H|H]|(x & Hx & Hxn & Hp)]; [by left| |].
        -- right. exists name. rewrite Eo. split; [set_solver|done].
        -- right. exists x. split; [done|]. split; [set_solver|done].
      * intros [H|(x & Hx & Hxn & Hp)]; [by left; left|].
        destruct (decide (x = name)) as [->|Hne]; [left; right; by rewrite <- Eo|].
        right. exists x. split; [done|]. split; [set_solver|done].
  - eexists. split; [done|]. split; simpl.
    + set_solver.
    + intros x ->%list_elem_of_singleton. set_solver.
    + intros x Hx Hxn. assert (x = name) as -> by set_solver. exists name.
      split; [apply list_elem_of_here|apply rtc_refl].
    + intros x y Hx Hxn (r & Hr & _). assert (x = name) as -> by set_solver. congruence.
    + intros p. split; [by left|]. intros [H|(x & Hx & Hxn & Hp)]; [done|].
      assert (x = name) as -> by set_solver. unfold own_permissions in Hp. rewrite Er in Hp.
      by apply elem_of_nil in Hp.
Qed.

(** A search from nothing visits what its names reach. *)
Lemma searched_reach l s x :
  searched l ([], ∅) s -> x ∈ s.2 <-> exists n, n ∈ l /\ rtc parent n x.
Proof.
  intros [_ S R C _]. simpl in *. split; [intros Hx; by apply R|].
  intros (n & Hn & Hr). apply S in Hn. revert Hn. induction Hr as [|a b c Hab _ IH]; [done|].
  intros Ha. apply IH. by apply (C a).
Qed.
End Search.

(** A permission a user holds through a role. *)
Definition held_by (m : RbacManager) (user : string) p : Prop := exists n x r,
  n ∈ get_user_roles user m /\ rtc (parent (rb_roles m)) n x /\ rb_roles m !! x = Some r /\
  p ∈ role_permissions r.

Lemma collected_spec user m : exists l, collect_permissions (get_user_roles user m) (rb_roles m) = Some l /\
  forall p, p ∈ l <-> held_by m user p.
Proof.
  unfold collect_permissions.
  destruct (collect_all_searched (rb_roles m) (size (rb_roles m) + 2)
    (collect_recursive (size (rb_roles m) + 2) (rb_roles m)) (get_user_roles user m) ([], ∅))
    as (s & E & H).
  - intros x s. apply collect_searched.
  - unfold enough. simpl. rewrite difference_empty_L, size_dom. lia.
  - rewrite E. exists s.1. split; [done|]. intros p. pose proof H as [_ _ _ _ P]. rewrite P. simpl. split.
    + intros [?%elem_of_nil|(x & Hx & _ & Hp)]; [done|].
      apply (searched_reach _ _ _ _ H) in Hx as (n & Hn & Hr). unfold own_permissions in Hp.
      destruct (rb_roles m !! x) as [r|] eqn:Er; [|by apply elem_of_nil in Hp]. by exists n, x, r.
    + intros (n & x & r & Hn & Hr & Er & Hp). right. exists x.
      split; [apply (searched_reach _ _ _ _ H); eauto|]. split; [set_solver|].
      unfold own_permissions. by rewrite Er.
Qed.

(** C39. A permission check always answers, whatever cycles the inheritance
    has, and answers yes exactly when some role the user reaches through
    inheritance has a permission that grants the action on the resource and
    whose time window, if any, is active; the effective permissions are those
    of all reached roles. *)
Theorem permission_check now user resource action m :
  exists answer l, has_permission now user resource action m = Some answer /\
    get_effective_permissions user m = Some l /\
    (forall p, p ∈ l <-> held_by m user p) /\
    (answer = true <-> exists p, held_by m user p /\ grants p resource action = true /\
       conditions_met now p = true).
Proof.
  unfold has_permission, get_effective_permissions. destruct (collected_spec user m) as (l & -> & Hl).
  simpl. do 2 eexists. split; [done|]. split; [done|]. split; [done|].
  rewrite existsb_exists. split.
  - intros (p & Hin & Hb). apply andb_prop in Hb as [Hg Hc]. exists p.
    split; [by apply Hl, list_elem_of_In|done].
  - intros (p & Hh & Hg & Hc). exists p. split; [by apply list_elem_of_In, Hl|]. by rewrite Hg, Hc.
Qed.
End Facts.

(** The default roles: a trader may execute orders and read positions, a viewer
    may not. *)
Example default_roles_checks :
  let now := Concrete.at_minute 0 in
  let m := @rbac_new Concrete.chrono now in
  let m := fst (assign_role "t" "trader" (fst (assign_role "v" "viewer" m))) in
  has_permission now "t" ROrder AExecute m = Some true /\
  has_permission now "t" RPosition ARead m = Some true /\
  has_permission now "v" ROrder AExecute m = Some false.
Proof. vm_compute. auto. Qed.
